(* ===== verification/_CoqProject ===== *)
-Q . S2P
Prelude.v
GoStrings.v
GoText.v
GoUrl.v
ServerText.v
GoFloat.v
GoJson.v
GoFlag.v
GoHeap.v
S3Api.v
MemS3.v
CsiS3.v
CsiController.v
CsiSpec.v
CsiDemo.v
CsiNode.v
CsiDriver.v
CsiServer.v
CsiMain.v
CsiMainDemo.v
KubeTypes.v
KubeApi.v
Operator.v
DeepCopy.v
DeepCopySpec.v
OperatorSpec.v
OperatorProofs.v
OperatorSteps.v
OperatorTheorems.v
OperatorPod.v
OperatorLoop.v
OperatorMain.v
MemKube.v
DeepCopyDemo.v
OperatorDemo.v
OperatorLoopDemo.v
CtlClient.v
CtlSpec.v
Interop.v
CtlDashboard.v
CtlCommands.v
CtlCommandSpec.v
CtlDemo.v
Gf256.v
Erasure.v
TrustedCore.v
Sha256.v
AuditChain.v
Cipher.v
AdaText.v
AdaMonad.v
Deflate.v
DeflateSpec.v
DeflateHuffman.v
Shards.v
Cas.v
Keys.v
Sigv4.v
ServerAuth.v
CasSpec.v
CasDemo.v
VaultState.v
Vault.v
VaultLines.v
VaultSteps.v
VaultDurable.v
VaultOps.v
VaultExec.v
VaultWorm.v
VaultTheorems.v
VaultData.v
VaultFindings.v
VaultDemo.v
Server.v
ServerOps.v
ServerSpec.v
ServerLocks.v
ServerViews.v
ServerQuorum.v
ServerDemo.v
