(* ===== verification/Prelude.v ===== *)
(** * dezhan: the vault, its Kubernetes integration and the control client

    dezhan is a write-once object store.  Its core is written in Ada: a trusted
    core (retention rules, clock guard, audit chain, hashing, encryption, erasure
    coding), a content store of shard files, and the vault, which keeps the index
    of locked objects, the audit log and their files; an HTTP server in front of
    it serves them.  Around the server are three Go programs.  This development
    models and verifies both:

    - the CSI driver (csi/): a Kubernetes volume is a bucket of the vault.  The
      controller service creates, snapshots, restores and deletes buckets over
      S3; the node service mounts them with [mount-s3].
    - the operator (operator/): a control loop that keeps a Service, a
      StatefulSet, a disruption budget and a claim for every [DezhanVault].
    - dezhanctl (ctl/): a command line and live dashboard over the server's plain
      HTTP control plane.

    - the trusted core (trusted_core/), the content store (storage/), the vault
      (vault/), the keys and signatures (auth/) and the HTTP server (server/) that
      puts them together: one request at a time, under a lock, goes through
      authentication and the approvals for deletions to the operations of the
      vault, which keeps its objects in the content store.

    ** How the code is modelled

    Every Go function is one definition under its own name (a variant name where
    two packages use the same one).  A function that talks to the outside is an
    action [Go W A]: from a state [W] to a result and a new state, the result a
    value, an error, a panic, or, for a loop that is bounded in the model only,
    out of fuel.  Errors are values of the type [error] below, wrapped the way
    the code wraps them.  What the code calls and the repository does not hold is
    a type class of operations; what the code relies on of it is a second class
    of laws in [Prop], each with an executable instance:

    - [S3Service], [S3Laws], [S3Available] (S3Api): the AWS SDK.  Objects under
      retention cannot be deleted, buckets with objects cannot either, a copy
      source is percent-decoded, listings come in pages.  A failed request may
      have taken effect.  Instance: MemS3.
    - [KubeClient], [KubeLaws], [KubeAvailable] (KubeApi) and [AdmitLaws]
      (OperatorSpec): controller-runtime and the API server.  A pass reads its own
      writes and no other writer interferes during the pass; the server stamps
      objects and may fill in fields the writer left out.  [KubeIdentity]
      (OperatorLoop): a status patch keeps identity and generation.  Instance:
      MemKube.
    - [NodeOS], [NodeLaws] (CsiNode): mount table, directories, processes.
      Instances: a mount table (CsiMainDemo) and a tracing one.
    - [NetOS] (CsiDriver): listener and gRPC server; [GrpcOps], [GrpcLaws],
      [LogOps] (CsiServer): what gRPC answers for methods nobody serves, and the
      log; [KlogFlags], [KlogLaws] (CsiMain): the flags klog adds.  Instances:
      CsiMainDemo.
    - [K8sMemory], [K8sCopies], [K8sCopyLaws] (DeepCopy): how the Kubernetes types
      lie in memory and their own deep copies; [ConditionOps], [ConditionLaws]
      (DeepCopySpec): [meta.SetStatusCondition] on memory.  Instances:
      DeepCopyDemo.
    - [SchemeOps], [RuntimeFlags], [RuntimeFlagLaws], [ManagerTypes], [Runtime]
      (OperatorMain): scheme, flags and manager of controller-runtime.
      Instances: [TraceRuntime], which records the calls, and OperatorLoopDemo.
    - [HttpClient] (CtlClient): net/http and the server behind it; [Process],
      [ProcessLaws], [StreamsOpen] (CtlCommands, CtlCommandSpec): streams and
      files; [Terminal] (CtlDashboard): styling and clock.  Instances: CtlDemo.
    - [UnicodeTables] (GoStrings), [AddrParser] (GoUrl): Unicode's case and print
      tables and [netip.ParseAddr]; only their values on ASCII are relied on.

    Client theorems are proved against these classes; the witnesses apply them to
    the instances.

    The Ada code is modelled the same way over [Ada W A] (AdaMonad): a procedure
    works on a state and returns or raises one of the exceptions of its packages,
    and what it did before an exception stays.  Bytes are [Byte.byte], the symbols
    of the erasure code too; words are [N] with their wrap-around; [Natural] and
    [Trusted_Time] are [Z] with the range checks where the code can leave the
    range.  Between the components:

    - [CasOps], [CasView], [CasLaws] (CasSpec): what the vault uses and relies on
      of the content store.  Instances: the modelled store, and a map from ids to
      content (VaultDemo).
    - [DeflateOps], [DeflateLaws] (Cas): the compressor, of which the store needs
      that inflating what was deflated gives it back.  Instance: CasDemo.
    - [Memory] (AdaMonad): what an array holds that was never written to.
    - [Urandom], [UrandomLaws] (Keys): the random device, which gives as many bytes
      as asked for.  Instance: at the end of Keys.
    - [Outside] (Server): the export and the signed checkpoints of the vault and
      the bytes below its directory.  Instance: ServerDemo.

    ** The files

    Go's libraries, as far as the sources use them: GoStrings and GoText
    ([strings], [unicode/utf8], [strconv], [sort], [bufio.Scanner]), GoUrl
    ([net/url]), GoFloat ([float64] as IEEE 754 data, [ParseFloat], [%.0f] and
    [%.1f]), GoJson ([json.MarshalIndent]), GoFlag ([flag]: the command line
    parser and which command lines it accepts), GoHeap (memory: pointers, slices
    that share their array, and what a deep copy is).

    CSI driver: S3Api (interface), MemS3 (instance), CsiS3 (s3.go: [connFrom],
    [createBucket], [deleteBucket], [listKeys], [emptyBucket], [copyAll]),
    CsiController (controller.go), CsiSpec (theorems), CsiDemo (witnesses),
    CsiNode (node.go), CsiDriver (driver.go, identity.go),
    CsiServer (requests through [logInterceptor] to the services), CsiMain
    (cmd/main.go), CsiMainDemo (witnesses).

    Operator: KubeTypes (the resources, api/v1alpha1/dezhanvault_types.go), KubeApi
    (interface), Operator (dezhanvault_controller.go: [Reconcile] and every
    function below it), OperatorSpec (the desired state), OperatorProofs and
    OperatorSteps (what each step does to the store), OperatorTheorems and
    OperatorPod (theorems), MemKube (instance), OperatorDemo (witnesses).
    DeepCopy (zz_generated.deepcopy.go on a heap), DeepCopySpec (copies are equal
    and separate; [updateStatus] on memory), DeepCopyDemo (witnesses).
    OperatorLoop (the watches of [SetupWithManager] and the control loop as a step
    relation), OperatorMain (cmd/main.go, scheme registration,
    [SetupWithManager]), OperatorLoopDemo (a run to rest, and a process).

    dezhanctl: CtlClient (client.go, stat.go), CtlSpec (theorems), CtlDashboard
    (tui/dashboard.go: model, messages, view, and the event loop as a step
    relation), CtlCommands (cmd/, main.go), CtlCommandSpec (theorems), CtlDemo
    (witnesses).  Interop: what the Ada server writes to its metrics page and how
    it reads headers and copy sources, against the Go code that reads and writes
    the same text.

    Trusted core: Gf256 (the field of the erasure code, with its ring laws),
    Erasure (erasure.adb: [Encode], [Invert], [Reconstruct]), TrustedCore
    (retention.adb, clock_guard.adb), Sha256 (hashing.adb), AuditChain (audit.adb),
    Cipher (cipher.adb).

    Content store: Deflate (dezhan-storage-deflate.adb: [Inflate] with stored, fixed
    and dynamic blocks, [Deflate] with its hash chains), DeflateSpec (round trip,
    termination), DeflateHuffman (the codes of RFC 1951), Shards (a blob as data and parity shard files:
    [Store_Shards], [Read_Shards], [Repair_Shards]), Cas (dezhan-storage-cas.adb:
    [Put], [Get], [Repair], [Collect_Garbage], with hmac.adb), CasSpec (damage,
    repair, the interface), CasDemo (the store with its compressor, witnesses).

    Vault: AdaText (numbers, hexadecimal text, fields and lines), VaultState (the
    record [State], the lines of the files, [Save], [Commit_Jrnl], [Apply_Line],
    [Load], [Open]), Vault (every operation of dezhan-vault.adb; [op] and [exec]
    collect those that change the state), VaultLines (each line read back, a
    whole snapshot read back), VaultSteps (rules to follow an operation on every
    outcome), VaultDurable, VaultOps and VaultExec (every operation keeps the
    vault durable), VaultWorm (every operation keeps a locked object),
    VaultTheorems (histories of operations and restarts), VaultData (put, get and
    multipart), VaultFindings (behaviours the documentation denies), VaultDemo
    (witnesses).

    Server (server/src/dezhan_server.adb, auth/src/): ServerText (headers, queries,
    percent encoding, ['Value]), Keys (dezhan-kdf.adb, dezhan-keystore.adb,
    [Load_Or_Init_Key]), Sigv4 (dezhan-sigv4.adb), ServerAuth (responses,
    credentials, roles, [Check_Auth], approvals, the gate at the start of
    [Handle]), Server (listings, ranges, [Handle_S3], [Handle], [Serve], the
    background jobs; the state is the record [server]), ServerOps (the table of
    what each request does to the vault), ServerSpec (every connection follows the
    table; access control), ServerLocks (locked objects), ServerViews (ranges and
    pages of listings), ServerQuorum (approvals), ServerDemo (witnesses, on
    requests as bytes).

    ** What the theorems show

    - Vault: over any history of operations, clock readings and restarts, whether
      the operations return or raise, a locked object stays in the index and reads
      back byte for byte until the monotonic clock has reached its expiry or its
      hold is released, unless somebody replaces its entry; opening the vault on
      its files gives back everything durable; the audit chain verifies; trusted
      time is never ahead of the monotonic clock; an operator's seal is final.
      What is put is what is read, in one piece or in parts, and a multipart
      upload is assembled in the order of its part numbers.
    - Content store and trusted core: any [K] of [K + M] shards give back the data;
      an object survives the loss of two shard files per directory and repair
      restores them; two verifying audit chains with the same head are equal up to
      a collision of SHA-256; locks never weaken; trusted time does not depend on
      the realtime clock.
    - DEFLATE: what was deflated is inflated to what it was; inflating ends on every
      input, with a bounded output or [Format_Error]; every Huffman code of RFC 1951
      is decoded.
    - Server: every connection, whatever its bytes, carries out one row of the
      table of requests or nothing; a request that the access policy does not
      permit changes nothing; a locked object survives any requests but those that
      replace it, and is served; ranges are exact; approvals in a header count
      once each; the canonical query and the signature bind the request; the data
      key survives restarts and changes of the passphrase, and a wrong passphrase
      ends the process.  Also: pages of a listing lose keys, one approver can count
      twice, and paths that only start with /admin pass the gate.
    - What the vault does not do: a crash during a compaction can drop a legal
      hold, a restart resets trusted time, a put replaces a locked object, a part
      uploaded twice makes its object unreadable, an interrupted put poisons the
      next one; these are theorems too.
    - CSI controller: a restored snapshot holds exactly the objects of its source,
      and on a service that answers snapshot and restore succeed; deleting a
      volume never loses a retained object and otherwise removes the bucket; every
      handler leaves other buckets alone on every outcome, refuses bad requests
      without effect, and is idempotent where CSI asks for it; listing through
      pages terminates and is complete; bucket names stay in their bounds and
      volumes and snapshots never share one.
    - CSI node and driver: publish and unpublish establish and remove exactly the
      mount asked for; keys never reach an argument list; endpoints are read as
      documented.
    - Operator: a pass without an error reaches the desired state
      (a refinement of OperatorSpec's relations), and against a server that
      answers there is such a pass; on every outcome no foreign object is
      written, storage requests never shrink, immutable fields stay, the published
      status is honest, and a failure is reported.  Around the passes, in every
      reachable state of the control loop no vault is forgotten: a request for
      it is pending or it is settled; and a request that is taken settles its
      vault as soon as the server answers and a replica is ready.
    - Deep copies: equal to their original and separate from it in memory, so that
      the status patch on memory is the one of the model on values, whose records
      are immutable.
    - Processes: driver and operator run with exactly the options their command
      lines spell, start in the order that makes them complete, and exit with the
      status that tells what happened; every error of the driver is a gRPC status
      with the right code.
    - dezhanctl: parsing a metrics page never panics and reads the server's page
      exactly; listings are sorted and complete; object operations succeed exactly
      on the server's success; in every reachable state of the dashboard one
      refresh timer runs and the latest snapshot shows; sizes are rounded
      correctly; commands exit with the right status, deliver objects byte for
      byte and keep the standard output clean on failure.
    - Where the parts meet: the copy source the driver sends and the bypass header
      the client sends are not what the server understands, and unescaped names
      alias objects; these are stated as theorems.

    ** Bounds and fuel

    The only loop of the programs without a structural bound is the one over list
    pages; its fuel is a parameter, and [list_keys_complete] shows that any
    fuel above the number of pages gives the result.  The recursive string
    functions by runes take the length of the string, which bounds the number of
    runes.  Parsing flags is structural: every step takes an argument.
    In the Ada code, the loops of the erasure code run over their ranges, [Pow]
    and the chunk loops take their number of rounds, and the rolling derivation of
    the nonce takes one unit more than the length of the payload, which it
    shortens in every round.  [Inflate] takes one round more than the input has
    bits, and [inflate_total] shows that more make no difference; [Deflate] takes
    one per byte.  The keys of a batch deletion take the length of the body.  A history of the vault has any length; operations
    are taken with names of 1 to 8192 bytes, the length the hash admits, and with
    room in the audit log, whose numbers end at [2^31 - 1].
    [shortest] (GoJson) tries up to 17 digits, which always suffice for a
    [float64].  The byte count of a listing is a wrapping 64-bit sum; counters of
    the metrics page are read exactly below [2^53].

    The control loop takes passes as atomic and lets everything else happen
    between them: other writers, delayed notifications, restarts.  A change of the
    claim is not among the things it watches, so a settled vault says nothing
    about the claim; [reconcile_converges] does, for a pass.

    ** What is not modelled

    Log calls other than the interceptor's, contexts and timeouts, Cobra's parsing
    of the command line of dezhanctl, terminal styling, the informer caches of
    controller-runtime (a pass reads what is stored).  Of the Ada code: SHA-512 and
    Ed25519 with the signed checkpoints and [Export], which read the vault and
    write files outside of it; [Verify] of the store, which only reads; the
    verifier and the command line, tools that run beside the server; sockets and
    the environment of the server, whose configuration is a record.  The bytes of a
    connection are taken as a whole, so a client that stops in the middle is one
    that sent less.  Files are written as a whole and stay written: the C library's
    fsync and rename are not modelled, and a crash only in [crash_drops_hold].  The
    worker tasks of a put, which write disjoint directories, run one after the
    other, and the tasks of the server one at a time, as its lock has them. *)

From stdpp Require Export base gmap strings list fin_maps pretty.
From Stdlib Require Export Ascii ZArith Lia.

(** ** Go error values

    Go code passes errors as values of the [error] interface.  The sources
    build them with [errors.New]/[fmt.Errorf] (no [%w]), with [fmt.Errorf] and
    a trailing [%w] (which keeps the wrapped error reachable for [errors.As]),
    with gRPC's [status.Errorf], or receive them from a library. *)

(** The gRPC status codes the driver uses ([google.golang.org/grpc/codes]), and
    the one of a method nobody serves. *)
Inductive code := InvalidArgument | Internal | Unimplemented.

(** The modelled S3 errors the driver tells apart ([service/s3/types]); every
    other failure of the SDK is [OtherS3Error]. *)
Inductive s3_error_kind :=
  | BucketAlreadyOwnedByYou
  | BucketAlreadyExists
  | NoSuchBucket
  | OtherS3Error.

(** The Kubernetes API status reasons the operator tells apart. *)
Inductive api_reason := ReasonNotFound | ReasonOther.

Inductive error :=
  | errorString (text : string)
  | wrapError (prefix : string) (err : error)
  | statusError (c : code) (text : string)
  | s3Error (k : s3_error_kind) (text : string)
  | apiError (r : api_reason) (text : string).

#[export] Instance code_eq_dec : EqDecision code.
Proof. solve_decision. Defined.
#[export] Instance s3_error_kind_eq_dec : EqDecision s3_error_kind.
Proof. solve_decision. Defined.
#[export] Instance api_reason_eq_dec : EqDecision api_reason.
Proof. solve_decision. Defined.
#[export] Instance error_eq_dec : EqDecision error.
Proof. solve_decision. Defined.

(** The [Error()] method: the text [%v] prints. *)
Fixpoint Error (e : error) : string :=
  match e with
  | errorString s => s
  | wrapError p e' => p +:+ Error e'
  | statusError _ s => s
  | s3Error _ s => s
  | apiError _ s => s
  end.

(** [errors.As(err, &target)] for a target of one S3 error type: the first
    error of that type along the [Unwrap] chain. *)
Fixpoint errors_As (k : s3_error_kind) (e : error) : bool :=
  match e with
  | s3Error k' _ => bool_decide (k = k')
  | wrapError _ e' => errors_As k e'
  | _ => false
  end.

(** ** Results and the effect monad

    A Go call either returns a value, returns an error, panics, or (in the
    model only) runs out of the fuel that bounds a loop.  Effectful code also
    threads the state [W] of the services it talks to. *)

Inductive res (A : Type) :=
  | Ok (a : A)
  | Err (e : error)
  | Panic
  | OutOfFuel.
Arguments Ok {A} _.
Arguments Err {A} _.
Arguments Panic {A}.
Arguments OutOfFuel {A}.

Definition Go (W A : Type) : Type := W → res A * W.

#[export] Instance go_ret W : MRet (Go W) := λ A a w, (Ok a, w).
#[export] Instance go_bind W : MBind (Go W) := λ A B f m w,
  match m w with
  | (Ok a, w') => f a w'
  | (Err e, w') => (Err e, w')
  | (Panic, w') => (Panic, w')
  | (OutOfFuel, w') => (OutOfFuel, w')
  end.

Definition fail {W A} (e : error) : Go W A := λ w, (Err e, w).
Definition out_of_fuel {W A} : Go W A := λ w, (OutOfFuel, w).

Definition modify {W} (f : W → W) : Go W unit := λ w, (Ok (), f w).

(** [if x, err := m; err != nil { h err }]: the error becomes a value. *)
Definition catch {W A} (m : Go W A) (h : error → Go W A) : Go W A := λ w,
  match m w with
  | (Err e, w') => h e w'
  | r => r
  end.

(** [if err := m; err != nil { return f(err) }] *)
Definition map_err {W A} (f : error → error) (m : Go W A) : Go W A :=
  catch m (λ e, fail (f e)).

(** [_, err := m] followed by a test of [err]. *)
Definition attempt {W A} (m : Go W A) : Go W (error + A) := λ w,
  match m w with
  | (Ok a, w') => (Ok (inr a), w')
  | (Err e, w') => (Ok (inl e), w')
  | (Panic, w') => (Panic, w')
  | (OutOfFuel, w') => (OutOfFuel, w')
  end.

Definition is_Ok {A} (r : res A) : bool :=
  match r with Ok _ => true | _ => false end.

(** [for _, x := range l { if err := f(x); err != nil { return err } }] *)
Fixpoint go_iter {W A} (f : A → Go W unit) (l : list A) : Go W unit :=
  match l with
  | [] => mret ()
  | x :: l' => _ ← f x; go_iter f l'
  end.

(** ** Machine integers: Go's [int64] and [int32] wrap around. *)

Definition wrap (bits z : Z) : Z :=
  ((z + 2 ^ (bits - 1)) `mod` 2 ^ bits - 2 ^ (bits - 1))%Z.
Definition int64 (z : Z) : Z := wrap 64 z.
Definition int64_add (x y : Z) : Z := int64 (x + y).

(** ** Lemmas on the monad *)

Section monad.
Context {W A B : Type}.
Implicit Types (m : Go W A) (f : A → Go W B) (w : W).

Lemma bind_Ok m f w b w' :
  (m ≫= f) w = (Ok b, w') ↔ ∃ a w1, m w = (Ok a, w1) ∧ f a w1 = (Ok b, w').
Proof.
  unfold mbind, go_bind. destruct (m w) as [[a|e| |] w1].
  - split; [by eauto|]. by intros (?&?&[= -> ->]&?).
  - split; [done|]. by intros (?&?&?&?).
  - split; [done|]. by intros (?&?&?&?).
  - split; [done|]. by intros (?&?&?&?).
Qed.

Lemma bind_Err m f w e w' :
  (m ≫= f) w = (Err e, w') ↔
  m w = (Err e, w') ∨ ∃ a w1, m w = (Ok a, w1) ∧ f a w1 = (Err e, w').
Proof.
  unfold mbind, go_bind. destruct (m w) as [[a|e'| |] w1]; split; intros; naive_solver.
Qed.

Lemma bind_Ok_l m f w a w1 : m w = (Ok a, w1) → (m ≫= f) w = f a w1.
Proof. unfold mbind, go_bind. by intros ->. Qed.

Lemma bind_Err_l m f w e w1 : m w = (Err e, w1) → (m ≫= f) w = (Err e, w1).
Proof. unfold mbind, go_bind. by intros ->. Qed.

Lemma catch_Ok_l m h w a w1 : m w = (Ok a, w1) → catch m h w = (Ok a, w1).
Proof. unfold catch. by intros ->. Qed.

Lemma catch_Err_l m h w e w1 : m w = (Err e, w1) → catch m h w = h e w1.
Proof. unfold catch. by intros ->. Qed.

Lemma catch_Ok m h w a w' :
  catch m h w = (Ok a, w') ↔
  m w = (Ok a, w') ∨ ∃ e w1, m w = (Err e, w1) ∧ h e w1 = (Ok a, w').
Proof.
  unfold catch. destruct (m w) as [[]]; split; intros; naive_solver.
Qed.

Lemma map_err_Ok g m w a w' :
  map_err g m w = (Ok a, w') ↔ m w = (Ok a, w').
Proof.
  unfold map_err. rewrite catch_Ok. unfold fail. naive_solver.
Qed.

Lemma map_err_Err g m w e w' :
  map_err g m w = (Err e, w') ↔ ∃ e', e = g e' ∧ m w = (Err e', w').
Proof.
  unfold map_err, catch, fail. destruct (m w) as [[a|e'| |] w1]; split; intros; naive_solver.
Qed.

Lemma Ok_inj (a b : A) w w' : (Ok a, w) = (Ok b, w') → a = b ∧ w = w'.
Proof. by intros [= -> ->]. Qed.

(** What every outcome of a bind goes through: a property that [m] and then
    every continuation preserve. *)
Lemma bind_preserves (P : W → Prop) m f w :
  P (m w).2 → (∀ a w1, m w = (Ok a, w1) → P (f a w1).2) →
  P ((m ≫= f) w).2.
Proof.
  unfold mbind, go_bind. destruct (m w) as [[a|e| |] w1]; simpl; auto.
Qed.

(** The same when the continuations keep what holds in the middle. *)
Lemma bind_preserves_mid (P : W → Prop) m f w :
  P (m w).2 → (∀ a w1, P w1 → P (f a w1).2) → P ((m ≫= f) w).2.
Proof.
  intros Hm Hf. apply bind_preserves; [done|].
  intros a w1 Hw. apply Hf. by rewrite Hw in Hm.
Qed.

Lemma catch_preserves (P : W → Prop) m h w :
  P (m w).2 → (∀ e w1, m w = (Err e, w1) → P (h e w1).2) →
  P (catch m h w).2.
Proof.
  unfold catch. destruct (m w) as [[a|e| |] w1]; simpl; auto.
Qed.

Lemma map_err_state g m w : (map_err g m w).2 = (m w).2.
Proof. unfold map_err, catch. by destruct (m w) as [[]]. Qed.
End monad.

(** A loop preserves what each of its steps preserves, on every outcome. *)
Lemma go_iter_preserves {W A} (P : W → Prop) (f : A → Go W unit) l :
  (∀ x w, x ∈ l → P w → P (f x w).2) → ∀ w, P w → P (go_iter f l w).2.
Proof.
  induction l as [|x l IH]; simpl; intros Hf w Hw; [done|].
  apply bind_preserves; [by apply Hf; [left|]|].
  intros [] w1 Hx. apply IH.
  - intros y w2 Hy. apply Hf. by right.
  - specialize (Hf x w (list_elem_of_here _ _) Hw). by rewrite Hx in Hf.
Qed.

(** The loop rule: an invariant indexed by the elements still to visit. *)
Lemma go_iter_Ok {W A} (I : list A → W → Prop) (f : A → Go W unit) :
  (∀ x l w w', I (x :: l) w → f x w = (Ok (), w') → I l w') →
  ∀ l w w', I l w → go_iter f l w = (Ok (), w') → I [] w'.
Proof.
  intros Hstep l. induction l as [|x l IH]; simpl; intros w w' HI.
  - by intros [= <-].
  - intros ([] & w1 & Hx & Hl)%bind_Ok. eauto.
Qed.

(** A loop whose steps all succeed under the invariant succeeds. *)
Lemma go_iter_total {W A} (I : list A → W → Prop) (f : A → Go W unit) :
  (∀ x l w, I (x :: l) w → ∃ w', f x w = (Ok (), w') ∧ I l w') →
  ∀ l w, I l w → ∃ w', go_iter f l w = (Ok (), w') ∧ I [] w'.
Proof.
  intros Hstep l. induction l as [|x l IH]; simpl; intros w HI.
  - by exists w.
  - destruct (Hstep x l w HI) as (w1 & Hx & HI1).
    destruct (IH w1 HI1) as (w2 & Hl & HI2).
    exists w2. split; [|done]. by rewrite (bind_Ok_l _ _ _ _ _ Hx).
Qed.

(** ** Lemmas on machine integers *)

Lemma wrap_small bits z :
  (0 < bits)%Z → (- 2 ^ (bits - 1) ≤ z < 2 ^ (bits - 1))%Z → wrap bits z = z.
Proof.
  intros Hb Hz. unfold wrap.
  assert (2 ^ bits = 2 * 2 ^ (bits - 1))%Z as Hp.
  { rewrite <- Z.pow_succ_r by lia. f_equal. lia. }
  rewrite Z.mod_small by lia. lia.
Qed.

Lemma int64_small z : (- 2 ^ 63 ≤ z < 2 ^ 63)%Z → int64 z = z.
Proof. intros. unfold int64. apply wrap_small; simpl; lia. Qed.

(** ** Lemmas on errors *)

Lemma errors_As_wrap k p e : errors_As k (wrapError p e) = errors_As k e.
Proof. done. Qed.

Create HintDb dezhan.
#[export] Hint Resolve bind_Ok_l bind_Err_l catch_Ok_l catch_Err_l : dezhan.
Create Rewrite HintDb dezhan.
#[export] Hint Rewrite @map_err_Ok @map_err_state : dezhan.

(** Opens hypotheses that say a sequence of calls returned a value. *)
Ltac go_inv :=
  repeat match goal with
  | H : (_ ≫= _) _ = (Ok _, _) |- _ =>
      apply bind_Ok in H; destruct H as (? & ? & H & ?)
  | H : map_err _ _ _ = (Ok _, _) |- _ => apply map_err_Ok in H
  | H : mret _ _ = (Ok _, _) |- _ => apply Ok_inj in H as [? ?]; subst
  | H : fail _ _ = (Ok _, _) |- _ => discriminate H
  | H : (Ok _, _) = (Ok _, _) |- _ => apply Ok_inj in H as [? ?]; subst
  | H : (Err _, _) = (Ok _, _) |- _ => discriminate H
  | H : (if ?b then fail _ else _) _ = (Ok _, _) |- _ =>
      let E := fresh "Hg" in destruct b eqn:E; [discriminate H|]
  end.
