(* ===== verification/GoStrings.v ===== *)
(** * The parts of Go's string libraries the sources use

    Go strings are byte sequences; a [string] of the model is the same, one
    [ascii] per byte, so [len(s)] is [String.length s].  Functions of the
    [strings], [unicode/utf8], [strconv] and [net/url] packages are written out
    as far as the sources use them.  Unicode's case and print tables are a
    class ([UnicodeTables]): the source only relies on what they say about
    ASCII. *)

From S2P Require Import Prelude.
Local Open Scope Z_scope.

(** ** Bytes *)

Definition byte_val (a : ascii) : Z := Z.of_N (N_of_ascii a).
Definition byte_of (z : Z) : ascii := ascii_of_N (Z.to_N z).
Definition in_range (lo hi : Z) (a : ascii) : bool :=
  (lo <=? byte_val a) && (byte_val a <=? hi).

Definition RuneSelf : Z := 0x80.
Definition RuneError : Z := 0xFFFD.

(** ** Slices of a string *)

(** [s[:n]], for [n <= len(s)] *)
Fixpoint str_take (n : nat) (s : string) : string :=
  match n, s with
  | S n', String a s' => String a (str_take n' s')
  | _, _ => EmptyString
  end.

(** [s[n:]], for [n <= len(s)] *)
Fixpoint str_drop (n : nat) (s : string) : string :=
  match n, s with
  | S n', String _ s' => str_drop n' s'
  | O, s => s
  | _, EmptyString => EmptyString
  end.

(** ** [unicode/utf8] *)

(** [utf8.DecodeRuneInString]: the first rune of [s] and its width; an invalid
    encoding gives [RuneError] and width 1. *)
Definition decode_rune (s : string) : Z * nat :=
  let bad := (RuneError, 1%nat) in
  match s with
  | EmptyString => (RuneError, 0%nat)
  | String a s1 =>
      let b0 := byte_val a in
      if b0 <? RuneSelf then (b0, 1%nat)
      else if b0 <? 0xC2 then bad
      else if b0 <? 0xE0 then
        match s1 with
        | String b _ =>
            if in_range 0x80 0xBF b
            then (Z.land b0 0x1F * 0x40 + Z.land (byte_val b) 0x3F, 2%nat)
            else bad
        | _ => bad
        end
      else if b0 <? 0xF0 then
        match s1 with
        | String b (String c _) =>
            let lo := if b0 =? 0xE0 then 0xA0 else 0x80 in
            let hi := if b0 =? 0xED then 0x9F else 0xBF in
            if in_range lo hi b && in_range 0x80 0xBF c
            then (Z.land b0 0x0F * 0x1000 + Z.land (byte_val b) 0x3F * 0x40
                  + Z.land (byte_val c) 0x3F, 3%nat)
            else bad
        | _ => bad
        end
      else if b0 <? 0xF5 then
        match s1 with
        | String b (String c (String d _)) =>
            let lo := if b0 =? 0xF0 then 0x90 else 0x80 in
            let hi := if b0 =? 0xF4 then 0x8F else 0xBF in
            if in_range lo hi b && in_range 0x80 0xBF c && in_range 0x80 0xBF d
            then (Z.land b0 0x07 * 0x40000 + Z.land (byte_val b) 0x3F * 0x1000
                  + Z.land (byte_val c) 0x3F * 0x40
                  + Z.land (byte_val d) 0x3F, 4%nat)
            else bad
        | _ => bad
        end
      else bad
  end.

(** [utf8.AppendRune]: surrogates and values out of range become [RuneError]. *)
Definition encode_rune (r : Z) : string :=
  let b x := byte_of x in
  let three r := String (b (0xE0 + Z.shiftr r 12))
                   (String (b (0x80 + Z.land (Z.shiftr r 6) 0x3F))
                      (String (b (0x80 + Z.land r 0x3F)) "")) in
  if (0 <=? r) && (r <? 0x80) then String (b r) ""
  else if (0x80 <=? r) && (r <? 0x800) then
    String (b (0xC0 + Z.shiftr r 6)) (String (b (0x80 + Z.land r 0x3F)) "")
  else if (r <? 0) || (0x10FFFF <? r) || ((0xD800 <=? r) && (r <=? 0xDFFF)) then
    three RuneError
  else if r <? 0x10000 then three r
  else String (b (0xF0 + Z.shiftr r 18))
         (String (b (0x80 + Z.land (Z.shiftr r 12) 0x3F))
            (String (b (0x80 + Z.land (Z.shiftr r 6) 0x3F))
               (String (b (0x80 + Z.land r 0x3F)) ""))).

(** [for _, c := range s]: the runes of a string.  Every rune takes at least
    one byte, so the length of the string is enough fuel. *)
Fixpoint runes_fuel (fuel : nat) (s : string) : list Z :=
  match fuel, s with
  | _, EmptyString => []
  | O, _ => []
  | S n, _ => let '(r, k) := decode_rune s in r :: runes_fuel n (str_drop k s)
  end.
Definition runes (s : string) : list Z := runes_fuel (String.length s) s.

(** [strings.Map]: a negative image drops the rune. *)
Definition str_map (f : Z → Z) (s : string) : string :=
  String.concat "" (map (λ r, if f r <? 0 then "" else encode_rune (f r)) (runes s)).

(** ** [strings.ToLower] *)

Class UnicodeTables := {
  unicode_ToLower : Z → Z; unicode_ToUpper : Z → Z; unicode_IsPrint : Z → bool }.

Definition ascii_lower_val (z : Z) : Z :=
  if (65 <=? z) && (z <=? 90) then z + 32 else z.

(** What Unicode says of the case of ASCII runes. *)
Class UnicodeAscii `{UnicodeTables} : Prop :=
  unicode_ascii_lower r : 0 ≤ r < RuneSelf → unicode_ToLower r = ascii_lower_val r.

Definition lower_byte (a : ascii) : ascii := byte_of (ascii_lower_val (byte_val a)).

Fixpoint string_map (f : ascii → ascii) (s : string) : string :=
  match s with
  | EmptyString => EmptyString
  | String a s' => String (f a) (string_map f s')
  end.

Fixpoint string_forallb (p : ascii → bool) (s : string) : bool :=
  match s with
  | EmptyString => true
  | String a s' => p a && string_forallb p s'
  end.

Definition is_ascii_byte (a : ascii) : bool := byte_val a <? RuneSelf.
Definition isASCII (s : string) : bool := string_forallb is_ascii_byte s.

Definition ToLower `{UnicodeTables} (s : string) : string :=
  if isASCII s then string_map lower_byte s else str_map unicode_ToLower s.

Definition ascii_upper_val (z : Z) : Z :=
  if (97 <=? z) && (z <=? 122) then z - 32 else z.
Definition upper_byte (a : ascii) : ascii := byte_of (ascii_upper_val (byte_val a)).
Definition ToUpper `{UnicodeTables} (s : string) : string :=
  if isASCII s then string_map upper_byte s else str_map unicode_ToUpper s.

(** ** Prefixes *)

Definition HasPrefix (s pre : string) : bool := String.prefix pre s.

(** [strings.TrimPrefix] *)
Definition TrimPrefix (s pre : string) : string :=
  if HasPrefix s pre then str_drop (String.length pre) s else s.

(** ** [strconv.Itoa] (and [%d]) *)

Definition Itoa (z : Z) : string := pretty z.

(** ** [strconv.Quote] (and [%q]) *)

Definition lowerhex (n : Z) : ascii :=
  byte_of (if n <? 10 then 48 + n else 97 + (n - 10)).

(** The last [k] hexadecimal digits of [r]. *)
Fixpoint hex_digits (k : nat) (r : Z) : string :=
  match k with
  | O => ""
  | S k' => String (lowerhex (Z.land (Z.shiftr r (4 * Z.of_nat k')) 15)) (hex_digits k' r)
  end.

Definition backslash : ascii := "092"%char.
Definition quote_char : ascii := "034"%char.

Definition escape_letter (r : Z) : option ascii :=
  match r with
  | 7 => Some "a" | 8 => Some "b" | 12 => Some "f" | 10 => Some "n"
  | 13 => Some "r" | 9 => Some "t" | 11 => Some "v" | _ => None
  end%char.

Definition quote_rune `{UnicodeTables} (r : Z) : string :=
  if (r =? 34) || (r =? 92) then String backslash (encode_rune r)
  else if (if r <? RuneSelf then (32 <=? r) && (r <? 127) else unicode_IsPrint r)
  then encode_rune r
  else match escape_letter r with
  | Some l => String backslash (String l "")
  | None =>
      if (r <? 32) || (r =? 127) then String backslash (String "x" (hex_digits 2 r))
      else if r <? 0x10000 then String backslash (String "u" (hex_digits 4 r))
      else String backslash (String "U" (hex_digits 8 r))
  end.

Fixpoint quote_fuel `{UnicodeTables} (fuel : nat) (s : string) : string :=
  match fuel, s with
  | S n, String a _ =>
      let '(r, k) := decode_rune s in
      (if (k =? 1)%nat && (r =? RuneError)
       then String backslash (String "x" (hex_digits 2 (byte_val a)))
       else quote_rune r) +:+ quote_fuel n (str_drop k s)
  | _, _ => ""
  end.

Definition Quote `{UnicodeTables} (s : string) : string :=
  String quote_char (quote_fuel (String.length s) s) +:+ String quote_char "".

(** ** [url.PathEscape] *)

Definition is_alnum (a : ascii) : bool :=
  in_range 97 122 a || in_range 65 90 a || in_range 48 57 a.

(** [shouldEscape] in mode [encodePathSegment] *)
Definition shouldEscape (a : ascii) : bool :=
  if is_alnum a then false
  else if bool_decide (a ∈ ["-"; "_"; "."; "~"]%char) then false
  else if bool_decide (a ∈ ["$"; "&"; "+"; ":"; "="; "@"]%char) then false
  else true.

Definition upperhex (n : Z) : ascii :=
  byte_of (if n <? 10 then 48 + n else 65 + (n - 10)).

Fixpoint PathEscape (s : string) : string :=
  match s with
  | EmptyString => EmptyString
  | String a s' =>
      if shouldEscape a
      then String "%" (String (upperhex (Z.shiftr (byte_val a) 4))
             (String (upperhex (Z.land (byte_val a) 15)) (PathEscape s')))
      else String a (PathEscape s')
  end.

(** ** Lemmas *)

Lemma byte_val_range a : 0 ≤ byte_val a < 256.
Proof. unfold byte_val. pose proof (N_ascii_bounded a). lia. Qed.

Lemma byte_of_val a : byte_of (byte_val a) = a.
Proof. unfold byte_of, byte_val. by rewrite N2Z.id, ascii_N_embedding. Qed.

Lemma byte_val_of z : 0 ≤ z < 256 → byte_val (byte_of z) = z.
Proof.
  intros Hz. unfold byte_of, byte_val. rewrite N_ascii_embedding by lia. lia.
Qed.

Lemma str_take_length n s :
  String.length (str_take n s) = (n `min` String.length s)%nat.
Proof. revert s; induction n; intros [|]; simpl; auto. Qed.

Lemma str_take_ge n s : (String.length s ≤ n)%nat → str_take n s = s.
Proof.
  revert s; induction n; intros [|a s] Hn; simpl in *; try done; [lia|].
  f_equal. apply IHn. lia.
Qed.

Lemma str_app_length s t :
  String.length (s +:+ t) = (String.length s + String.length t)%nat.
Proof. induction s; simpl; auto. Qed.

Lemma str_app_cons a s t : String a s +:+ t = String a (s +:+ t).
Proof. done. Qed.

Lemma str_app_nil_l t : "" +:+ t = t.
Proof. done. Qed.

Lemma str_app_nil_r s : s +:+ "" = s.
Proof. induction s as [|a s IH]; [done|]. by rewrite str_app_cons, IH. Qed.

Lemma str_app_assoc s t u : s +:+ (t +:+ u) = (s +:+ t) +:+ u.
Proof. induction s as [|a s IH]; [done|]. by rewrite !str_app_cons, IH. Qed.

Lemma str_app_inj s t u : s +:+ t = s +:+ u → t = u.
Proof. induction s as [|a s IH]; [done|]. rewrite !str_app_cons. naive_solver. Qed.

Lemma str_take_app s t n :
  str_take (String.length s + n) (s +:+ t) = s +:+ str_take n t.
Proof. induction s as [|a s IH]; [done|]. simpl. by rewrite !str_app_cons, <- IH. Qed.

Lemma str_drop_app s t : str_drop (String.length s) (s +:+ t) = t.
Proof. induction s; simpl; auto. Qed.

Lemma HasPrefix_app s t : HasPrefix (s +:+ t) s = true.
Proof.
  unfold HasPrefix. induction s as [|a s IH]; [by destruct t|].
  rewrite str_app_cons. simpl. by destruct (ascii_dec a a).
Qed.

Lemma HasPrefix_spec s pre : HasPrefix s pre = true ↔ ∃ t, s = pre +:+ t.
Proof.
  split; [|intros [t ->]; apply HasPrefix_app].
  unfold HasPrefix. revert s; induction pre as [|a pre IH]; intros s Hs; [by exists s|].
  destruct s as [|b s]; [done|]. simpl in Hs.
  destruct (ascii_dec a b) as [->|]; [|done].
  destruct (IH s Hs) as [t ->]. exists t. by rewrite str_app_cons.
Qed.

Lemma TrimPrefix_app pre s : TrimPrefix (pre +:+ s) pre = s.
Proof. unfold TrimPrefix. by rewrite HasPrefix_app, str_drop_app. Qed.

Lemma string_map_length f s : String.length (string_map f s) = String.length s.
Proof. induction s; simpl; auto. Qed.

Lemma string_map_app f s t : string_map f (s +:+ t) = string_map f s +:+ string_map f t.
Proof. induction s as [|a s IH]; [done|]. rewrite str_app_cons. simpl. by rewrite IH. Qed.

Lemma string_forallb_app p s t :
  string_forallb p (s +:+ t) = string_forallb p s && string_forallb p t.
Proof.
  induction s as [|a s IH]; [done|]. rewrite str_app_cons. simpl. rewrite IH.
  by rewrite andb_assoc.
Qed.

Lemma string_forallb_impl (p q : ascii → bool) s :
  (∀ c, p c = true → q c = true) → string_forallb p s = true → string_forallb q s = true.
Proof.
  intros Hpq. induction s as [|a s IH]; simpl; [done|]. rewrite !andb_true_iff. naive_solver.
Qed.

Lemma string_forallb_take p n s :
  string_forallb p s = true → string_forallb p (str_take n s) = true.
Proof.
  revert s; induction n; intros [|a s]; simpl; auto.
  rewrite !andb_true_iff. intros [-> ?]. auto.
Qed.

Lemma lower_byte_ascii a : is_ascii_byte a = true → is_ascii_byte (lower_byte a) = true.
Proof.
  unfold is_ascii_byte, lower_byte, ascii_lower_val, RuneSelf.
  pose proof (byte_val_range a). rewrite Z.ltb_lt. intros Ha.
  destruct ((65 <=? byte_val a) && (byte_val a <=? 90)) eqn:E;
    rewrite byte_val_of by lia; lia.
Qed.

(** A byte that no upper-case letter is. *)
Definition is_lower_byte (a : ascii) : bool := is_ascii_byte a && negb (in_range 65 90 a).

Lemma lower_byte_id a : is_lower_byte a = true → lower_byte a = a.
Proof.
  unfold is_lower_byte, in_range, lower_byte, ascii_lower_val.
  rewrite andb_true_iff, negb_true_iff. intros [_ ->]. apply byte_of_val.
Qed.

Lemma is_lower_byte_lower a :
  is_ascii_byte a = true → is_lower_byte (lower_byte a) = true.
Proof.
  intros Ha. unfold is_lower_byte. rewrite lower_byte_ascii by done. simpl.
  unfold in_range, lower_byte, ascii_lower_val.
  unfold is_ascii_byte, RuneSelf in Ha. pose proof (byte_val_range a).
  destruct ((65 <=? byte_val a) && (byte_val a <=? 90)) eqn:E;
    rewrite byte_val_of by lia; lia.
Qed.

Lemma string_map_lower_id s :
  string_forallb is_lower_byte s = true → string_map lower_byte s = s.
Proof.
  induction s as [|a s IH]; simpl; [done|]. rewrite andb_true_iff.
  intros [Ha Hs]. by rewrite lower_byte_id, IH.
Qed.

Lemma string_map_lower_ascii s :
  isASCII s = true → string_forallb is_lower_byte (string_map lower_byte s) = true.
Proof.
  unfold isASCII. induction s as [|a s IH]; simpl; [done|]. rewrite !andb_true_iff.
  intros [Ha Hs]. split; [by apply is_lower_byte_lower|auto].
Qed.

Lemma lower_string_ascii s : string_forallb is_lower_byte s = true → isASCII s = true.
Proof.
  unfold isASCII. induction s as [|a s IH]; simpl; [done|]. rewrite !andb_true_iff.
  unfold is_lower_byte at 1. rewrite andb_true_iff. naive_solver.
Qed.

Lemma ToLower_lower `{UnicodeTables} s :
  string_forallb is_lower_byte s = true → ToLower s = s.
Proof.
  intros Hs. unfold ToLower. rewrite lower_string_ascii by done.
  by apply string_map_lower_id.
Qed.

(** ** [ToLower] acts byte by byte on an ASCII prefix, whatever follows. *)

Lemma runes_fuel_ge n m s :
  (String.length s ≤ n)%nat → (String.length s ≤ m)%nat → runes_fuel n s = runes_fuel m s.
Proof.
  assert (∀ k t, (String.length (str_drop k t) ≤ String.length t)%nat) as Hdrop.
  { intros k; induction k; intros [|? ?]; simpl; auto. }
  revert m s; induction n as [|n IH]; intros m [|a s] Hn Hm; simpl in Hn.
  - by destruct m.
  - lia.
  - by destruct m.
  - destruct m as [|m]; simpl in Hm; [lia|].
    change (runes_fuel (S n) (String a s)) with
      (let '(r, k) := decode_rune (String a s) in r :: runes_fuel n (str_drop k (String a s))).
    change (runes_fuel (S m) (String a s)) with
      (let '(r, k) := decode_rune (String a s) in r :: runes_fuel m (str_drop k (String a s))).
    destruct (decode_rune (String a s)) as [r k] eqn:E.
    assert (1 ≤ k)%nat as Hk.
    { unfold decode_rune in E. repeat case_match; simplify_eq; lia. }
    destruct k as [|k]; [lia|]. f_equal. simpl.
    apply IH; specialize (Hdrop k s); lia.
Qed.

Lemma runes_ascii_cons a s :
  is_ascii_byte a = true → runes (String a s) = byte_val a :: runes s.
Proof.
  intros Ha. unfold runes. simpl String.length.
  change (runes_fuel (S ?n) (String a s)) with
    (let '(r, k) := decode_rune (String a s) in r :: runes_fuel n (str_drop k (String a s))).
  unfold decode_rune. unfold is_ascii_byte in Ha. rewrite Ha. done.
Qed.

Lemma encode_rune_ascii z : 0 ≤ z < RuneSelf → encode_rune z = String (byte_of z) "".
Proof.
  unfold RuneSelf. intros Hz. unfold encode_rune.
  replace ((0 <=? z) && (z <? 128)) with true by lia. done.
Qed.

Lemma concat_empty_cons x l : String.concat "" (x :: l) = x +:+ String.concat "" l.
Proof. simpl. destruct l; simpl; [by rewrite str_app_nil_r|done]. Qed.

Lemma ascii_lower_val_range z : 0 ≤ z < RuneSelf → 0 ≤ ascii_lower_val z < RuneSelf.
Proof. unfold ascii_lower_val, RuneSelf. intros. case_match; lia. Qed.

Lemma str_map_lower_cons `{UnicodeAscii} a s :
  is_ascii_byte a = true →
  str_map unicode_ToLower (String a s) = String (lower_byte a) (str_map unicode_ToLower s).
Proof.
  intros Ha. unfold str_map. rewrite runes_ascii_cons by done. simpl map.
  rewrite concat_empty_cons.
  assert (0 ≤ byte_val a < RuneSelf) as Hr.
  { unfold is_ascii_byte in Ha. pose proof (byte_val_range a). lia. }
  rewrite unicode_ascii_lower by done.
  pose proof (ascii_lower_val_range _ Hr) as Hl.
  replace (ascii_lower_val (byte_val a) <? 0) with false by lia.
  rewrite encode_rune_ascii by done. done.
Qed.

Lemma ToLower_app_ascii `{UnicodeAscii} p s :
  isASCII p = true → ToLower (p +:+ s) = string_map lower_byte p +:+ ToLower s.
Proof.
  intros Hp. unfold ToLower, isASCII. rewrite string_forallb_app.
  unfold isASCII in Hp. rewrite Hp. simpl.
  destruct (string_forallb is_ascii_byte s); [by rewrite string_map_app|].
  induction p as [|a p IH]; [done|].
  simpl in Hp. apply andb_true_iff in Hp as [Ha Hp].
  rewrite str_app_cons, str_map_lower_cons by done. rewrite IH by done. done.
Qed.

(** The ASCII-only tables: a concrete instance. *)
Module AsciiTables.
#[export] Instance tables : UnicodeTables :=
  {| unicode_ToLower := ascii_lower_val; unicode_ToUpper := ascii_upper_val;
     unicode_IsPrint := λ _, false |}.
#[export] Instance tables_ascii : UnicodeAscii.
Proof. intros r _. done. Qed.
End AsciiTables.
