(* ===== verification/GoText.v ===== *)
(** * More of Go's [strings], [bufio] and [sort] packages

    Searching, splitting, trimming and sorting as the command-line client uses
    them.  Trimming and [Fields] go by runes, so the text is decoded as UTF-8
    from the left and, for a right trim, from the right; [Scanner] is
    [bufio.Scanner] with its default line splitter and buffer limit. *)

From stdpp Require Export sorting.
From S2P Require Import Prelude GoStrings.
Local Open Scope Z_scope.

(** ** Searching and splitting *)

(** [strings.Index], [None] for -1 *)
Fixpoint Index (s sep : string) : option nat :=
  if HasPrefix s sep then Some 0%nat
  else match s with
  | EmptyString => None
  | String _ s' => S <$> Index s' sep
  end.

Definition Contains (s sub : string) : bool := bool_decide (is_Some (Index s sub)).

(** [strings.Split] for a separator of one byte *)
Fixpoint split_byte (sep : ascii) (s : string) : list string :=
  match s with
  | EmptyString => [""]
  | String a s' =>
      if decide (a = sep) then "" :: split_byte sep s'
      else match split_byte sep s' with
           | [] => [String a ""]
           | p :: l => String a p :: l
           end
  end.

Definition HasSuffix (s suf : string) : bool :=
  bool_decide (String.length suf ≤ String.length s)%nat &&
  bool_decide (str_drop (String.length s - String.length suf) s = suf).

Definition TrimSuffix (s suf : string) : string :=
  if HasSuffix s suf then str_take (String.length s - String.length suf) s else s.

Fixpoint trim_left_byte (c : ascii) (s : string) : string :=
  match s with
  | String a s' => if decide (a = c) then trim_left_byte c s' else s
  | EmptyString => EmptyString
  end.

(** The string without the run of [c] it ends with. *)
Fixpoint trim_right_byte (c : ascii) (s : string) : string :=
  match s with
  | EmptyString => EmptyString
  | String a s' =>
      let t := trim_right_byte c s' in
      if decide (t = "" ∧ a = c) then "" else String a t
  end.

(** [strings.Trim] for a cut set of one byte *)
Definition trim_byte (c : ascii) (s : string) : string := trim_right_byte c (trim_left_byte c s).

(** ** White space *)

(** The runes with Unicode's White_Space property. *)
Definition spaces : list Z :=
  [9; 10; 11; 12; 13; 32; 0x85; 0xA0; 0x1680; 0x2000; 0x2001; 0x2002; 0x2003; 0x2004;
   0x2005; 0x2006; 0x2007; 0x2008; 0x2009; 0x200A; 0x2028; 0x2029; 0x202F; 0x205F; 0x3000].
Definition IsSpace (r : Z) : bool := bool_decide (r ∈ spaces).

Definition RuneStart (a : ascii) : bool := negb (Z.land (byte_val a) 0xC0 =? 0x80).

(** The last [k] bytes. *)
Definition suffix (k : nat) (s : string) : string := str_drop (String.length s - k) s.

(** Does a rune start [k] bytes before the end? *)
Definition starts_at (k : nat) (s : string) : bool :=
  (k <=? String.length s)%nat &&
  match suffix k s with String a _ => RuneStart a | EmptyString => false end.

(** [utf8.DecodeLastRuneInString]: an encoding is at most four bytes. *)
Definition decode_last_rune (s : string) : Z * nat :=
  match suffix 1 s with
  | EmptyString => (RuneError, 0%nat)
  | String a _ =>
      if byte_val a <? RuneSelf then (byte_val a, 1%nat)
      else match List.find (λ k, starts_at k s) [2; 3; 4]%nat with
           | Some k =>
               let '(r, size) := decode_rune (suffix k s) in
               if (size =? k)%nat then (r, k) else (RuneError, 1%nat)
           | None => (RuneError, 1%nat)
           end
  end.

(** Each step removes at least one byte: the length is enough fuel. *)
Fixpoint trim_left_space (fuel : nat) (s : string) : string :=
  match fuel with
  | O => s
  | S n =>
      match s with
      | EmptyString => s
      | _ => let '(r, k) := decode_rune s in
             if IsSpace r then trim_left_space n (str_drop k s) else s
      end
  end.

Fixpoint trim_right_space (fuel : nat) (s : string) : string :=
  match fuel with
  | O => s
  | S n =>
      match s with
      | EmptyString => s
      | _ => let '(r, k) := decode_last_rune s in
             if IsSpace r then trim_right_space n (str_take (String.length s - k) s) else s
      end
  end.

Definition TrimSpace (s : string) : string :=
  let t := trim_left_space (String.length s) s in
  trim_right_space (String.length t) t.

(** [strings.Fields]: [cur] is the field being read. *)
Fixpoint fields_fuel (fuel : nat) (s cur : string) : list string :=
  let flush := if decide (cur = "") then [] else [cur] in
  match fuel with
  | O => flush
  | S n =>
      match s with
      | EmptyString => flush
      | _ => let '(r, k) := decode_rune s in
             if IsSpace r then flush ++ fields_fuel n (str_drop k s) ""
             else fields_fuel n (str_drop k s) (cur +:+ str_take k s)
      end
  end.
Definition Fields (s : string) : list string := fields_fuel (String.length s) s "".

(** ** Lines *)

Definition newline : ascii := "010"%char.
Definition carriage : ascii := "013"%char.

Definition dropCR (s : string) : string := TrimSuffix s (String carriage "").

(** The tokens [bufio.ScanLines] finds: text after the last newline is a line of
    its own unless it is empty. *)
Definition raw_lines (body : string) : list string :=
  let ps := split_byte newline body in
  match last ps with
  | Some EmptyString => removelast ps
  | _ => ps
  end.

(** A line, newline excluded, must leave room in a full buffer of 64 KiB. *)
Definition max_line : nat := Z.to_nat 65535.

Definition ErrTooLong : error := errorString "bufio.Scanner: token too long".

(** [for sc.Scan() { f(sc.Text()) }] then [sc.Err()], threading a state; [f] may
    panic. *)
Fixpoint scan_lines {A} (f : A → string → res A) (ls : list string) (a : A) : res (A * option error) :=
  match ls with
  | [] => Ok (a, None)
  | l :: ls' =>
      if (max_line <? String.length l)%nat then Ok (a, Some ErrTooLong)
      else match f a (dropCR l) with
           | Ok a' => scan_lines f ls' a'
           | Err e => Err e
           | Panic => Panic
           | OutOfFuel => OutOfFuel
           end
  end.

(** ** Sorting: [sort.Strings] orders by bytes. *)
Definition sort_Strings (l : list string) : list string := merge_sort String.le l.

Lemma sort_Strings_perm l : sort_Strings l ≡ₚ l.
Proof. apply merge_sort_Permutation. Qed.

Lemma sort_Strings_sorted l : StronglySorted String.le (sort_Strings l).
Proof. apply StronglySorted_merge_sort; apply _. Qed.

(** ** Lemmas: slices *)

Lemma str_take_drop k s : str_take k s +:+ str_drop k s = s.
Proof.
  revert s; induction k as [|k IH]; intros [|a s]; simpl; try done.
  rewrite str_app_cons. by rewrite IH.
Qed.

Lemma str_drop_length k s : String.length (str_drop k s) = (String.length s - k)%nat.
Proof. revert s; induction k as [|k IH]; intros [|a s]; simpl; auto. Qed.

Lemma str_drop_app_ge p s k : (String.length p ≤ k)%nat →
  str_drop k (p +:+ s) = str_drop (k - String.length p) s.
Proof.
  revert k; induction p as [|a p IH]; intros k Hk; simpl.
  - by rewrite Nat.sub_0_r.
  - simpl in Hk. destruct k as [|k]; [lia|]. rewrite str_app_cons. simpl. apply IH. lia.
Qed.

Lemma suffix_app k p e : (k ≤ String.length e)%nat → suffix k (p +:+ e) = suffix k e.
Proof.
  intros Hk. unfold suffix. rewrite str_app_length, str_drop_app_ge by lia. f_equal. lia.
Qed.

Lemma starts_at_app k p e : (k ≤ String.length e)%nat → starts_at k (p +:+ e) = starts_at k e.
Proof.
  intros Hk. unfold starts_at. rewrite suffix_app, str_app_length by done.
  rewrite (proj2 (Nat.leb_le k (String.length p + String.length e))) by lia.
  by rewrite (proj2 (Nat.leb_le k (String.length e))) by lia.
Qed.

Lemma Index_Some s sep i : Index s sep = Some i →
  s = str_take i s +:+ sep +:+ str_drop (i + String.length sep) s.
Proof.
  revert i; induction s as [|a s IH]; intros i; cbn [Index].
  - destruct (HasPrefix "" sep) eqn:Hp; [|done]. intros [= <-].
    apply HasPrefix_spec in Hp as [t Ht]. destruct sep; [done|discriminate Ht].
  - destruct (HasPrefix (String a s) sep) eqn:Hp.
    + intros [= <-]. apply HasPrefix_spec in Hp as [t Ht]. rewrite Ht. simpl.
      by rewrite str_drop_app.
    + destruct (Index s sep) as [j|]; [|done]. intros [= <-]. simpl.
      rewrite str_app_cons. f_equal. by apply IH.
Qed.

Lemma HasPrefix_byte a s c : HasPrefix (String a s) (String c "") = bool_decide (a = c).
Proof.
  unfold HasPrefix. simpl. destruct (ascii_dec c a) as [->|Hne].
  - rewrite bool_decide_eq_true_2 by done. by destruct s.
  - by rewrite bool_decide_eq_false_2 by congruence.
Qed.

Lemma Index_byte_None s c :
  Index s (String c "") = None ↔ string_forallb (λ a, bool_decide (a ≠ c)) s = true.
Proof.
  induction s as [|a s IH]; [done|]. cbn [Index string_forallb]. rewrite HasPrefix_byte.
  rewrite andb_true_iff, bool_decide_eq_true, <- IH. case_bool_decide; [naive_solver|].
  destruct (Index s (String c "")); naive_solver.
Qed.

Lemma Index_byte_app s c t : string_forallb (λ a, bool_decide (a ≠ c)) s = true →
  Index (s +:+ String c t) (String c "") = Some (String.length s).
Proof.
  induction s as [|a s IH]; cbn [string_forallb].
  - intros _. rewrite str_app_nil_l. cbn [Index]. rewrite HasPrefix_byte.
    by rewrite bool_decide_eq_true_2.
  - rewrite andb_true_iff, bool_decide_eq_true. intros [Ha Hs]. rewrite str_app_cons.
    cbn [Index]. rewrite HasPrefix_byte, bool_decide_eq_false_2 by done. by rewrite IH.
Qed.

(** ** Lemmas: splitting *)

Lemma split_byte_nonempty sep s : split_byte sep s ≠ [].
Proof.
  destruct s as [|a s]; [done|]. simpl. case_decide; [done|]. by destruct (split_byte sep s).
Qed.

Lemma split_byte_plain sep s : string_forallb (λ a, bool_decide (a ≠ sep)) s = true →
  split_byte sep s = [s].
Proof.
  induction s as [|a s IH]; [done|]. cbn [string_forallb split_byte].
  rewrite andb_true_iff, bool_decide_eq_true. intros [Ha Hs].
  by rewrite decide_False, IH.
Qed.

Lemma split_byte_app sep s t : string_forallb (λ a, bool_decide (a ≠ sep)) s = true →
  split_byte sep (s +:+ String sep t) = s :: split_byte sep t.
Proof.
  induction s as [|a s IH]; cbn [string_forallb].
  - intros _. rewrite str_app_nil_l. cbn [split_byte]. by rewrite decide_True.
  - rewrite andb_true_iff, bool_decide_eq_true. intros [Ha Hs]. rewrite str_app_cons.
    cbn [split_byte]. by rewrite decide_False, IH.
Qed.

Lemma split_byte_forallb sep s line : line ∈ split_byte sep s →
  string_forallb (λ a, bool_decide (a ≠ sep)) line = true.
Proof.
  revert line; induction s as [|a s IH]; cbn [split_byte]; intros line Hl.
  { by apply list_elem_of_singleton in Hl as ->. }
  case_decide as Ha.
  - apply elem_of_cons in Hl as [->|Hl]; [done|by apply IH].
  - destruct (split_byte sep s) as [|x l]; [|].
    { apply list_elem_of_singleton in Hl as ->. simpl. by rewrite bool_decide_eq_true_2. }
    apply elem_of_cons in Hl as [->|Hl]; [|apply IH; by right]. cbn [string_forallb].
    rewrite bool_decide_eq_true_2 by done. apply IH. by left.
Qed.

(** ** Lemmas: UTF-8 *)

Lemma land_ones_mod x m k : m = 2 ^ k - 1 → 0 ≤ k → Z.land x m = x `mod` 2 ^ k.
Proof. intros -> Hk. rewrite <- Z.land_ones by done. f_equal. rewrite Z.ones_equiv. lia. Qed.

Lemma land_3F x : Z.land x 0x3F = x `mod` 64.
Proof. by apply (land_ones_mod x 0x3F 6). Qed.
Lemma land_1F x : Z.land x 0x1F = x `mod` 32.
Proof. by apply (land_ones_mod x 0x1F 5). Qed.
Lemma land_0F x : Z.land x 0x0F = x `mod` 16.
Proof. by apply (land_ones_mod x 0x0F 4). Qed.
Lemma land_07 x : Z.land x 0x07 = x `mod` 8.
Proof. by apply (land_ones_mod x 0x07 3). Qed.

Lemma byte_eq a z : byte_val a = z → byte_of z = a.
Proof. intros <-. apply byte_of_val. Qed.

Lemma in_range_spec lo hi a : in_range lo hi a = true ↔ lo <= byte_val a <= hi.
Proof. unfold in_range. rewrite andb_true_iff, !Z.leb_le. done. Qed.

Lemma decode_rune_width s r k : decode_rune s = (r, k) → s ≠ "" → (1 ≤ k ≤ String.length s)%nat.
Proof.
  unfold decode_rune. intros Hd Hs. repeat case_match; simplify_eq; simpl; try lia; done.
Qed.

Ltac euclid := Z.to_euclidean_division_equations; lia.

Lemma shiftr_div r k : 0 <= k → Z.shiftr r k = r / 2 ^ k.
Proof. apply Z.shiftr_div_pow2. Qed.

Lemma encode_two a b :
  0xC2 <= byte_val a < 0xE0 → 0x80 <= byte_val b <= 0xBF →
  encode_rune (Z.land (byte_val a) 0x1F * 0x40 + Z.land (byte_val b) 0x3F) =
  String a (String b "").
Proof.
  intros Ha Hb. rewrite land_1F, land_3F.
  replace (byte_val a `mod` 32) with (byte_val a - 0xC0) by euclid.
  replace (byte_val b `mod` 64) with (byte_val b - 0x80) by euclid.
  set (r := (byte_val a - 0xC0) * 0x40 + (byte_val b - 0x80)). unfold encode_rune.
  replace ((0 <=? r) && (r <? 0x80)) with false by lia.
  replace ((0x80 <=? r) && (r <? 0x800)) with true by lia.
  rewrite land_3F, shiftr_div by done. f_equal; [|f_equal]; apply byte_eq; change (2 ^ 6) with 64;
    unfold r; euclid.
Qed.

Lemma encode_three a b c :
  0xE0 <= byte_val a < 0xF0 → 0x80 <= byte_val b <= 0xBF → 0x80 <= byte_val c <= 0xBF →
  (byte_val a = 0xE0 → 0xA0 <= byte_val b) → (byte_val a = 0xED → byte_val b <= 0x9F) →
  encode_rune (Z.land (byte_val a) 0x0F * 0x1000 + Z.land (byte_val b) 0x3F * 0x40
               + Z.land (byte_val c) 0x3F) = String a (String b (String c "")).
Proof.
  intros Ha Hb Hc Hlo Hhi. rewrite land_0F, !land_3F.
  replace (byte_val a `mod` 16) with (byte_val a - 0xE0) by euclid.
  replace (byte_val b `mod` 64) with (byte_val b - 0x80) by euclid.
  replace (byte_val c `mod` 64) with (byte_val c - 0x80) by euclid.
  set (r := (byte_val a - 0xE0) * 0x1000 + (byte_val b - 0x80) * 0x40 + (byte_val c - 0x80)).
  unfold encode_rune.
  replace ((0 <=? r) && (r <? 0x80)) with false by lia.
  replace ((0x80 <=? r) && (r <? 0x800)) with false by lia.
  replace ((r <? 0) || (0x10FFFF <? r) || ((0xD800 <=? r) && (r <=? 0xDFFF))) with false by lia.
  replace (r <? 0x10000) with true by lia.
  rewrite !land_3F, !shiftr_div by done. change (2 ^ 12) with 4096. change (2 ^ 6) with 64.
  f_equal; [|f_equal; [|f_equal]]; apply byte_eq; unfold r; euclid.
Qed.

Lemma encode_four a b c d :
  0xF0 <= byte_val a < 0xF5 → 0x80 <= byte_val b <= 0xBF → 0x80 <= byte_val c <= 0xBF →
  0x80 <= byte_val d <= 0xBF →
  (byte_val a = 0xF0 → 0x90 <= byte_val b) → (byte_val a = 0xF4 → byte_val b <= 0x8F) →
  encode_rune (Z.land (byte_val a) 0x07 * 0x40000 + Z.land (byte_val b) 0x3F * 0x1000
               + Z.land (byte_val c) 0x3F * 0x40 + Z.land (byte_val d) 0x3F) =
  String a (String b (String c (String d ""))).
Proof.
  intros Ha Hb Hc Hd Hlo Hhi. rewrite land_07, !land_3F.
  replace (byte_val a `mod` 8) with (byte_val a - 0xF0) by euclid.
  replace (byte_val b `mod` 64) with (byte_val b - 0x80) by euclid.
  replace (byte_val c `mod` 64) with (byte_val c - 0x80) by euclid.
  replace (byte_val d `mod` 64) with (byte_val d - 0x80) by euclid.
  set (r := (byte_val a - 0xF0) * 0x40000 + (byte_val b - 0x80) * 0x1000
            + (byte_val c - 0x80) * 0x40 + (byte_val d - 0x80)).
  unfold encode_rune.
  replace ((0 <=? r) && (r <? 0x80)) with false by lia.
  replace ((0x80 <=? r) && (r <? 0x800)) with false by lia.
  replace ((r <? 0) || (0x10FFFF <? r) || ((0xD800 <=? r) && (r <=? 0xDFFF))) with false by lia.
  replace (r <? 0x10000) with false by lia.
  rewrite !land_3F, !shiftr_div by done.
  change (2 ^ 18) with 262144. change (2 ^ 12) with 4096. change (2 ^ 6) with 64.
  f_equal; [|f_equal; [|f_equal; [|f_equal]]]; apply byte_eq; unfold r; euclid.
Qed.

(** A rune that was decoded is encoded by the bytes it was decoded from. *)
Lemma decode_encode s r k : decode_rune s = (r, k) → r ≠ RuneError → encode_rune r = str_take k s.
Proof.
  unfold decode_rune, RuneSelf. intros Hd Hr.
  destruct s as [|a s]; [by injection Hd as <- <-|]. pose proof (byte_val_range a) as Hav.
  destruct (byte_val a <? 0x80) eqn:E1.
  { injection Hd as <- <-. rewrite encode_rune_ascii by (unfold RuneSelf; lia).
    simpl. by rewrite byte_of_val. }
  destruct (byte_val a <? 0xC2) eqn:E2; [by injection Hd as <- <-|].
  destruct (byte_val a <? 0xE0) eqn:E3.
  { destruct s as [|b s]; [by injection Hd as <- <-|].
    destruct (in_range 0x80 0xBF b) eqn:Eb; [|by injection Hd as <- <-].
    apply in_range_spec in Eb. injection Hd as <- <-. rewrite encode_two by lia. done. }
  destruct (byte_val a <? 0xF0) eqn:E4.
  { destruct s as [|b [|c s]]; [by injection Hd as <- <-..|].
    destruct (_ && _) eqn:Eb; [|by injection Hd as <- <-].
    apply andb_true_iff in Eb as [Eb Ec]. apply in_range_spec in Eb, Ec.
    injection Hd as <- <-. rewrite encode_three; [done|lia|..]; repeat case_match; lia. }
  destruct (byte_val a <? 0xF5) eqn:E5; [|by injection Hd as <- <-].
  destruct s as [|b [|c [|d s]]]; [by injection Hd as <- <-..|].
  destruct (_ && _) eqn:Eb; [|by injection Hd as <- <-].
  apply andb_true_iff in Eb as [Eb Ed]. apply andb_true_iff in Eb as [Eb Ec].
  apply in_range_spec in Eb, Ec, Ed.
  injection Hd as <- <-. rewrite encode_four; [done|lia|..]; repeat case_match; lia.
Qed.

(** What was decoded does not depend on what follows. *)
Lemma decode_rune_app s t r k : decode_rune s = (r, k) → r ≠ RuneError →
  decode_rune (s +:+ t) = (r, k).
Proof.
  intros Hd Hr. destruct s as [|a s]; [by injection Hd as <- <-|].
  rewrite str_app_cons. unfold decode_rune in *.
  destruct (byte_val a <? RuneSelf); [done|]. destruct (byte_val a <? 0xC2); [done|].
  destruct (byte_val a <? 0xE0).
  { destruct s as [|b s]; [by injection Hd as <- <-|done]. }
  destruct (byte_val a <? 0xF0).
  { destruct s as [|b [|c s]]; [by injection Hd as <- <-..|done]. }
  destruct (byte_val a <? 0xF5); [|done].
  destruct s as [|b [|c [|d s]]]; [by injection Hd as <- <-..|done].
Qed.

Lemma IsSpace_not_error r : IsSpace r = true → r ≠ RuneError.
Proof. intros Hr ->. vm_compute in Hr. done. Qed.

(** ** Lemmas: white space *)

Ltac starts k e :=
  rewrite (starts_at_app k) by (simpl; lia);
  let b := eval vm_compute in (starts_at k e) in
  change (starts_at k e) with b; cbv iota beta.

Ltac last_space :=
  match goal with
  | |- decode_last_rune (?p +:+ encode_rune ?r) = _ =>
      let e := eval vm_compute in (encode_rune r) in
      change (encode_rune r) with e;
      unfold decode_last_rune; rewrite (suffix_app 1) by (simpl; lia);
      first [ reflexivity
            | cbn [List.find]; starts 2%nat e; rewrite (suffix_app 2) by (simpl; lia); reflexivity
            | cbn [List.find]; starts 2%nat e; starts 3%nat e;
              rewrite (suffix_app 3) by (simpl; lia); reflexivity ]
  end.

Lemma decode_last_space p r : r ∈ spaces →
  decode_last_rune (p +:+ encode_rune r) = (r, String.length (encode_rune r)).
Proof.
  unfold spaces. rewrite !elem_of_cons, elem_of_nil.
  intros Hr. repeat destruct Hr as [->|Hr]; [last_space..|done].
Qed.

Lemma fields_cur n s cur : cur ≠ "" → fields_fuel n s cur ≠ [].
Proof.
  revert s cur; induction n as [|n IH]; intros s cur Hc; simpl.
  - by case_decide.
  - destruct s as [|a s]; [by case_decide|]. destruct (decode_rune _) as [r k].
    destruct (IsSpace r); [by case_decide|]. apply IH. by destruct cur.
Qed.

(** A text without fields is blank: it is empty or ends with a space. *)
Lemma fields_nil n s : (String.length s ≤ n)%nat → fields_fuel n s "" = [] →
  s = "" ∨ ∃ p r, r ∈ spaces ∧ s = p +:+ encode_rune r.
Proof.
  revert s; induction n as [|n IH]; intros [|a s] Hn; cbn [fields_fuel]; [by auto|simpl in Hn; lia|by auto|].
  destruct (decode_rune (String a s)) as [r k] eqn:Hd.
  pose proof (decode_rune_width _ _ _ Hd ltac:(done)) as Hk.
  destruct (IsSpace r) eqn:Hr.
  - rewrite decide_True by done. cbn [app]. intros Hf. right.
    pose proof (decode_encode _ _ _ Hd (IsSpace_not_error _ Hr)) as He.
    apply bool_decide_eq_true in Hr.
    apply IH in Hf as [Hf|(p & r' & Hr' & Hf)]; [..|rewrite str_drop_length; simpl in *; lia].
    + exists "", r. split; [done|]. rewrite He, str_app_nil_l, <- (str_take_drop k (String a s)) at 1.
      by rewrite Hf, str_app_nil_r.
    + exists (str_take k (String a s) +:+ p), r'. split; [done|].
      by rewrite <- str_app_assoc, <- Hf, str_take_drop.
  - rewrite str_app_nil_l. intros Hf. exfalso. revert Hf. apply fields_cur.
    destruct k; [lia|done].
Qed.

Lemma decode_last_width s : s ≠ "" → (1 ≤ (decode_last_rune s).2)%nat.
Proof.
  intros Hs. unfold decode_last_rune. destruct (suffix 1 s) as [|a t] eqn:E.
  - apply (f_equal String.length) in E. unfold suffix in E. rewrite str_drop_length in E.
    destruct s; simpl in E; [done|lia].
  - destruct (byte_val a <? RuneSelf); [simpl; lia|].
    destruct (List.find _ _) as [k|] eqn:Hf; [|simpl; lia].
    apply find_some in Hf as [Hk _]. destruct (decode_rune _) as [r size].
    destruct (size =? k)%nat; simpl in *; lia.
Qed.

Lemma trim_right_last n s : (String.length s ≤ n)%nat →
  trim_right_space n s = "" ∨ IsSpace (decode_last_rune (trim_right_space n s)).1 = false.
Proof.
  revert s; induction n as [|n IH]; intros s Hn; cbn [trim_right_space].
  - destruct s; [by left|simpl in Hn; lia].
  - destruct s as [|a s]; [by left|].
    pose proof (decode_last_width (String a s) ltac:(done)) as Hk.
    destruct (decode_last_rune (String a s)) as [r k] eqn:Hd. simpl in Hk.
    destruct (IsSpace r) eqn:Hr.
    + apply IH. rewrite str_take_length. simpl in *. lia.
    + right. by rewrite Hd.
Qed.

Lemma TrimSpace_last s :
  TrimSpace s = "" ∨ IsSpace (decode_last_rune (TrimSpace s)).1 = false.
Proof. unfold TrimSpace. by apply trim_right_last. Qed.

(** After trimming, something other than white space follows every blank. *)
Lemma TrimSpace_fields s p rest : TrimSpace s = p +:+ " " +:+ rest → Fields rest ≠ [].
Proof.
  intros Hs Hf. assert (∃ q r, r ∈ spaces ∧ TrimSpace s = q +:+ encode_rune r) as (q & r & Hr & Hq).
  { unfold Fields in Hf. apply fields_nil in Hf as [->|(q & r & Hr & ->)]; [..|done].
    - exists p, 32. split; [set_solver|]. by rewrite str_app_nil_r in Hs.
    - exists (p +:+ " " +:+ q), r. split; [done|]. by rewrite Hs, !str_app_assoc. }
  destruct (TrimSpace_last s) as [He|Hl].
  - rewrite Hq in He. assert (String.length (q +:+ encode_rune r) = 0%nat) as Hl by by rewrite He.
    rewrite str_app_length in Hl. revert Hr Hl. unfold spaces. rewrite !elem_of_cons, elem_of_nil.
    intros Hr. repeat destruct Hr as [->|Hr]; [vm_compute (String.length (encode_rune _)); lia..|done].
  - rewrite Hq, decode_last_space in Hl by done. apply bool_decide_eq_false in Hl. done.
Qed.

Lemma trim_left_first n s : (String.length s ≤ n)%nat →
  trim_left_space n s = "" ∨ IsSpace (decode_rune (trim_left_space n s)).1 = false.
Proof.
  revert s; induction n as [|n IH]; intros s Hn; cbn [trim_left_space].
  - destruct s; [by left|simpl in Hn; lia].
  - destruct s as [|a s]; [by left|].
    destruct (decode_rune (String a s)) as [r k] eqn:Hd.
    pose proof (decode_rune_width _ _ _ Hd ltac:(done)) as Hk.
    destruct (IsSpace r) eqn:Hr.
    + apply IH. rewrite str_drop_length. simpl in *. lia.
    + right. by rewrite Hd.
Qed.

Lemma trim_right_prefix n s : ∃ v, s = trim_right_space n s +:+ v.
Proof.
  revert s; induction n as [|n IH]; intros s; cbn [trim_right_space].
  - exists "". by rewrite str_app_nil_r.
  - destruct s as [|a s]; [by exists ""|]. destruct (decode_last_rune _) as [r k].
    destruct (IsSpace r); [|exists ""; by rewrite str_app_nil_r].
    set (j := (String.length (String a s) - k)%nat).
    destruct (IH (str_take j (String a s))) as [v Hv].
    exists (v +:+ str_drop j (String a s)). by rewrite str_app_assoc, <- Hv, str_take_drop.
Qed.

Lemma trim_left_suffix n s : ∃ v, s = v +:+ trim_left_space n s.
Proof.
  revert s; induction n as [|n IH]; intros s; cbn [trim_left_space]; [by exists ""|].
  destruct s as [|a s]; [by exists ""|]. destruct (decode_rune (String a s)) as [r k].
  destruct (IsSpace r); [|by exists ""].
  destruct (IH (str_drop k (String a s))) as [v Hv]. exists (str_take k (String a s) +:+ v).
  by rewrite <- str_app_assoc, <- Hv, str_take_drop.
Qed.

(** Trimming keeps what holds of every byte. *)
Lemma TrimSpace_forallb P s : string_forallb P s = true → string_forallb P (TrimSpace s) = true.
Proof.
  intros Hs. unfold TrimSpace. set (t := trim_left_space _ s).
  destruct (trim_left_suffix (String.length s) s) as [v Hv].
  destruct (trim_right_prefix (String.length t) t) as [u Hu]. fold t in Hv.
  rewrite Hv, Hu, !string_forallb_app in Hs. rewrite !andb_true_iff in Hs. tauto.
Qed.

Lemma TrimSpace_first s : TrimSpace s = "" ∨ IsSpace (decode_rune (TrimSpace s)).1 = false.
Proof.
  unfold TrimSpace. set (t := trim_left_space _ s).
  destruct (trim_right_prefix (String.length t) t) as [v Hv].
  set (u := trim_right_space _ t) in *. destruct (decode_rune u) as [r k] eqn:Hd. simpl.
  destruct (IsSpace r) eqn:Hr; [left|by right].
  destruct (trim_left_first (String.length s) s) as [He|Hne]; [done|fold t in He|fold t in Hne].
  - rewrite He in Hv. by destruct u.
  - rewrite Hv, (decode_rune_app _ _ _ _ Hd (IsSpace_not_error _ Hr)) in Hne.
    simpl in Hne. congruence.
Qed.

(** Text that neither starts nor ends with white space is left alone. *)
Lemma TrimSpace_id s :
  (s = "" ∨ IsSpace (decode_rune s).1 = false) →
  (s = "" ∨ IsSpace (decode_last_rune s).1 = false) → TrimSpace s = s.
Proof.
  destruct s as [|a s]; [done|]. intros [?|Hf] [?|Hl]; [done..|].
  assert (trim_left_space (String.length (String a s)) (String a s) = String a s) as Htl.
  { cbn [trim_left_space String.length]. destruct (decode_rune _) as [r k]. simpl in Hf.
    by rewrite Hf. }
  unfold TrimSpace. rewrite Htl. cbn [trim_right_space String.length].
  destruct (decode_last_rune _) as [r k]. simpl in Hl. by rewrite Hl.
Qed.

Lemma TrimSpace_idem s : TrimSpace (TrimSpace s) = TrimSpace s.
Proof. apply TrimSpace_id; [apply TrimSpace_first|apply TrimSpace_last]. Qed.

(** ** Printable ASCII *)

Definition printable (a : ascii) : bool := in_range 33 126 a.

Lemma printable_not_space a : printable a = true → IsSpace (byte_val a) = false.
Proof.
  intros Ha%in_range_spec. apply bool_decide_eq_false_2. unfold spaces.
  rewrite !elem_of_cons, elem_of_nil. lia.
Qed.

Lemma decode_printable a s : printable a = true → decode_rune (String a s) = (byte_val a, 1%nat).
Proof.
  intros Ha%in_range_spec. unfold decode_rune, RuneSelf.
  by replace (byte_val a <? 0x80) with true by lia.
Qed.

Lemma str_snoc s : s ≠ "" → ∃ t a, s = t +:+ String a "".
Proof.
  induction s as [|a s IH]; [done|]. intros _. destruct s as [|b s].
  - by exists "", a.
  - destruct IH as (t & c & Ht); [done|]. exists (String a t), c. by rewrite Ht, str_app_cons.
Qed.

Lemma decode_last_printable s a : printable a = true →
  decode_last_rune (s +:+ String a "") = (byte_val a, 1%nat).
Proof.
  intros Ha%in_range_spec. unfold decode_last_rune. rewrite suffix_app by (simpl; lia).
  change (suffix 1 (String a "")) with (String a ""). cbv iota. unfold RuneSelf.
  by replace (byte_val a <? 0x80) with true by lia.
Qed.

Lemma TrimSpace_printable s : string_forallb printable s = true → TrimSpace s = s.
Proof.
  intros Hs. apply TrimSpace_id.
  - destruct s as [|a s]; [by left|right]. simpl in Hs. apply andb_true_iff in Hs as [Ha _].
    rewrite decode_printable by done. by apply printable_not_space.
  - destruct (decide (s = "")) as [->|Hne]; [by left|right].
    destruct (str_snoc s Hne) as (t & a & ->). rewrite string_forallb_app in Hs.
    apply andb_true_iff in Hs as [_ Ha]. simpl in Ha. rewrite andb_true_r in Ha.
    rewrite decode_last_printable by done. by apply printable_not_space.
Qed.

(** The first field of printable text is read to its end. *)
Lemma fields_printable n s t cur : string_forallb printable s = true →
  fields_fuel (String.length s + n) (s +:+ t) cur = fields_fuel n t (cur +:+ s).
Proof.
  revert cur; induction s as [|a s IH]; intros cur Hs.
  - by rewrite str_app_nil_r.
  - simpl in Hs. apply andb_true_iff in Hs as [Ha Hs]. rewrite str_app_cons.
    cbn [String.length Nat.add fields_fuel]. rewrite decode_printable by done.
    rewrite printable_not_space by done. cbn [str_drop str_take].
    rewrite IH by done. f_equal. by rewrite <- str_app_assoc.
Qed.

Lemma Fields_printable s : s ≠ "" → string_forallb printable s = true → Fields s = [s].
Proof.
  intros Hne Hs. unfold Fields. rewrite <- (str_app_nil_r s) at 2.
  rewrite <- (Nat.add_0_r (String.length s)), fields_printable by done. simpl.
  by rewrite decide_False.
Qed.
