(* ===== verification/GoUrl.v ===== *)
(** * Go's [net/url]

    [url.Parse] with the parts of a URL the sources read, and the request target
    an HTTP client sends for it.  [netip.ParseAddr], which only bracketed IPv6
    hosts reach, is the class [AddrParser]. *)

From S2P Require Import Prelude GoStrings GoText.
Local Open Scope Z_scope.

(** [netip.ParseAddr]: the error text, or whether the address is IPv4. *)
Class AddrParser := { ParseAddr : string → error + bool }.

(** ** Escaping *)

Inductive encoding := encodePath | encodeUserPassword | encodeHost | encodeZone | encodeFragment.
#[export] Instance encoding_eq_dec : EqDecision encoding.
Proof. solve_decision. Defined.

Definition chars (l : list ascii) (c : ascii) : bool := bool_decide (c ∈ l).

Definition host_char : ascii → bool :=
  chars ["!"; "$"; "&"; "'"; "("; ")"; "*"; "+"; ","; ";"; "="; ":"; "["; "]"; "<"; ">";
         "034"]%char.

Definition must_escape (c : ascii) (mode : encoding) : bool :=
  if is_alnum c then false
  else if bool_decide (mode = encodeHost ∨ mode = encodeZone) && host_char c then false
  else if chars ["-"; "_"; "."; "~"]%char c then false
  else if chars ["$"; "&"; "+"; ","; "/"; ":"; ";"; "="; "?"; "@"]%char c then
    match mode with
    | encodePath => chars ["?"]%char c
    | encodeUserPassword => chars ["@"; "/"; "?"; ":"]%char c
    | encodeFragment => false
    | _ => true
    end
  else if bool_decide (mode = encodeFragment) && chars ["!"; "("; ")"; "*"]%char c then false
  else true.

Fixpoint escape (mode : encoding) (s : string) : string :=
  match s with
  | EmptyString => EmptyString
  | String a s' =>
      if must_escape a mode
      then String "%" (String (upperhex (Z.shiftr (byte_val a) 4))
             (String (upperhex (Z.land (byte_val a) 15)) (escape mode s')))
      else String a (escape mode s')
  end.

Definition ishex (c : ascii) : bool :=
  in_range 48 57 c || in_range 97 102 c || in_range 65 70 c.

Definition unhex (c : ascii) : Z :=
  if in_range 48 57 c then byte_val c - 48
  else if in_range 97 102 c then byte_val c - 97 + 10
  else byte_val c - 65 + 10.

Section url.
Context `{!UnicodeTables, !AddrParser}.

Definition EscapeError (s : string) : error :=
  errorString ("invalid URL escape " +:+ Quote (str_take 3 s)).
Definition InvalidHostError (c : ascii) : error :=
  errorString ("invalid character " +:+ Quote (String c "") +:+ " in host name").

(** The escapes a host or zone may not hold. *)
Definition bad_host_escape (mode : encoding) (a b : ascii) : bool :=
  let pct25 := bool_decide (a = "2"%char ∧ b = "5"%char) in
  let v := unhex a * 16 + unhex b in
  match mode with
  | encodeHost => (unhex a <? 8) && negb pct25
  | encodeZone => negb pct25 && negb (v =? 32) && must_escape (byte_of v) encodeHost
  | _ => false
  end.

Fixpoint unescape (mode : encoding) (s : string) : error + string :=
  match s with
  | EmptyString => inr ""
  | String c s' =>
      if decide (c = "%"%char) then
        match s' with
        | String a (String b t) =>
            if negb (ishex a && ishex b) || bad_host_escape mode a b then inl (EscapeError s)
            else match unescape mode t with
                 | inl e => inl e
                 | inr r => inr (String (byte_of (unhex a * 16 + unhex b)) r)
                 end
        | _ => inl (EscapeError s)
        end
      else if bool_decide (mode = encodeHost ∨ mode = encodeZone) &&
              (byte_val c <? RuneSelf) && must_escape c mode then inl (InvalidHostError c)
      else match unescape mode s' with
           | inl e => inl e
           | inr r => inr (String c r)
           end
  end.

(** ** Parsing *)

Record URL := {
  u_Scheme : string;
  u_Opaque : string;
  u_User : option (string * option string);
  u_Host : string;
  u_Path : string;
  u_RawPath : string;
  u_ForceQuery : bool;
  u_RawQuery : string;
}.

(** [strings.Cut] *)
Definition Cut (s sep : string) : string * string :=
  match Index s sep with
  | Some i => (str_take i s, str_drop (i + String.length sep) s)
  | None => (s, "")
  end.

Definition LastIndex_byte (c : ascii) (s : string) : option nat :=
  let fix go (s : string) (i : nat) (acc : option nat) : option nat :=
    match s with
    | EmptyString => acc
    | String a s' => go s' (S i) (if decide (a = c) then Some i else acc)
    end in go s 0%nat None.

Definition ctl_byte (c : ascii) : bool := (byte_val c <? 32) || (byte_val c =? 127).

(** [acc] is what was read of the scheme, [s] the rest. *)
Fixpoint scheme_from (raw acc s : string) : error + (string * string) :=
  match s with
  | EmptyString => inr ("", raw)
  | String c s' =>
      if in_range 97 122 c || in_range 65 90 c then scheme_from raw (acc +:+ String c "") s'
      else if in_range 48 57 c || chars ["+"; "-"; "."]%char c then
        if decide (acc = "") then inr ("", raw) else scheme_from raw (acc +:+ String c "") s'
      else if decide (c = ":"%char) then
        if decide (acc = "") then inl (errorString "missing protocol scheme") else inr (acc, s')
      else inr ("", raw)
  end.
Definition getScheme (raw : string) : error + (string * string) := scheme_from raw "" raw.

Definition validOptionalPort (p : string) : bool :=
  match p with
  | EmptyString => true
  | String c ds => bool_decide (c = ":"%char) && string_forallb (in_range 48 57) ds
  end.

Definition invalid_port (p : string) : error :=
  errorString ("invalid port " +:+ Quote p +:+ " after host").

Definition bind_err {A B} (x : error + A) (f : A → error + B) : error + B :=
  match x with inl e => inl e | inr a => f a end.

Definition parse_ip_literal (host : string) : error + string :=
  match LastIndex_byte "]" host with
  | None => inl (errorString "missing ']' in host")
  | Some j =>
      let port := str_drop (j + 1) host in
      let name := str_drop 1 (str_take j host) in
      if negb (validOptionalPort port) then inl (invalid_port port)
      else
        bind_err (unescape encodeHost port) (λ port',
        bind_err (match Index name "%25" with
                  | Some z => bind_err (unescape encodeHost (str_take z name)) (λ h,
                              bind_err (unescape encodeZone (str_drop z name)) (λ zn, inr (h +:+ zn)))
                  | None => unescape encodeHost name
                  end) (λ name',
        match ParseAddr name' with
        | inl e => inl (wrapError "invalid host: " e)
        | inr true => inl (errorString "invalid IP-literal")
        | inr false => inr ("[" +:+ name' +:+ "]" +:+ port')
        end))
  end.

Definition parseHost (host : string) : error + string :=
  match LastIndex_byte "[" host with
  | Some (S _) => inl (errorString "invalid IP-literal")
  | Some O => parse_ip_literal host
  | None =>
      match Index host ":" with
      | Some i =>
          let port := str_drop i host in
          if validOptionalPort port then unescape encodeHost host
          else inl (invalid_port port)
      | None => unescape encodeHost host
      end
  end.

Definition userinfo_char (c : ascii) : bool :=
  is_alnum c || chars ["-"; "."; "_"; ":"; "~"; "!"; "$"; "&"; "'"; "("; ")"; "*"; "+"; ",";
                       ";"; "="; "%"; "@"]%char c.

Definition parse_userinfo (info : string) : error + (string * option string) :=
  if negb (string_forallb userinfo_char info) then inl (errorString "net/url: invalid userinfo")
  else if Contains info ":" then
    let '(name, pw) := Cut info ":" in
    bind_err (unescape encodeUserPassword name) (λ n,
    bind_err (unescape encodeUserPassword pw) (λ p, inr (n, Some p)))
  else bind_err (unescape encodeUserPassword info) (λ n, inr (n, None)).

Definition parseAuthority (authority : string)
    : error + (option (string * option string) * string) :=
  match LastIndex_byte "@" authority with
  | None => bind_err (parseHost authority) (λ h, inr (None, h))
  | Some i =>
      bind_err (parseHost (str_drop (i + 1) authority)) (λ h,
      bind_err (parse_userinfo (str_take i authority)) (λ u, inr (Some u, h)))
  end.

(** Path and raw path of an escaped path. *)
Definition setPath (p : string) : error + (string * string) :=
  bind_err (unescape encodePath p) (λ path,
  inr (path, if decide (p = escape encodePath path) then "" else p)).

(** A question mark at the end only forces an empty query. *)
Definition split_query (rest : string) : string * string * bool :=
  match Index rest "?" with
  | Some i =>
      if decide (S i = String.length rest) then (str_take i rest, "", true)
      else (str_take i rest, str_drop (i + 1) rest, false)
  | None => (rest, "", false)
  end.

Definition split_authority (rest : string) : string * string :=
  let a := str_drop 2 rest in
  match Index a "/" with
  | Some i => (str_take i a, str_drop i a)
  | None => (a, "")
  end.

Definition with_path (scheme host : string) (user : option (string * option string))
    (force : bool) (query rest : string) : error + URL :=
  bind_err (setPath rest) (λ '(path, raw), inr {|
    u_Scheme := scheme; u_Opaque := ""; u_User := user; u_Host := host; u_Path := path;
    u_RawPath := raw; u_ForceQuery := force; u_RawQuery := query |}).

Definition parse_hierarchical (scheme rest query : string) (force : bool) : error + URL :=
  if HasPrefix rest "//" && (bool_decide (scheme ≠ "") || negb (HasPrefix rest "///")) then
    let '(authority, rest') := split_authority rest in
    bind_err (parseAuthority authority) (λ '(user, host),
    with_path scheme host user force query rest')
  else with_path scheme "" None force query rest.

(** [parse(rawURL, false)] *)
Definition parse (raw : string) : error + URL :=
  if negb (string_forallb (λ c, negb (ctl_byte c)) raw) then
    inl (errorString "net/url: invalid control character in URL")
  else if decide (raw = "*") then
    inr {| u_Scheme := ""; u_Opaque := ""; u_User := None; u_Host := ""; u_Path := "*";
           u_RawPath := ""; u_ForceQuery := false; u_RawQuery := "" |}
  else bind_err (getScheme raw) (λ '(scheme0, rest0),
    let scheme := ToLower scheme0 in
    let '(rest, query, force) := split_query rest0 in
    if HasPrefix rest "/" then parse_hierarchical scheme rest query force
    else if decide (scheme ≠ "") then
      inr {| u_Scheme := scheme; u_Opaque := rest; u_User := None; u_Host := ""; u_Path := "";
             u_RawPath := ""; u_ForceQuery := force; u_RawQuery := query |}
    else if Contains (Cut rest "/").1 ":" then
      inl (errorString "first path segment in URL cannot contain colon")
    else parse_hierarchical scheme rest query force).

(** [url.Parse]; the fragment is only checked, nothing reads it. *)
Definition Parse (raw : string) : error + URL :=
  let '(u, frag) := Cut raw "#" in
  match parse u with
  | inl e => inl (wrapError ("parse " +:+ Quote u +:+ ": ") e)
  | inr url =>
      match unescape encodeFragment frag with
      | inl e => inl (wrapError ("parse " +:+ Quote raw +:+ ": ") e)
      | inr _ => inr url
      end
  end.

(** ** Request targets *)

Definition validEncoded (s : string) : bool :=
  string_forallb (λ c, chars ["!"; "$"; "&"; "'"; "("; ")"; "*"; "+"; ","; ";"; "="; ":"; "@";
                              "["; "]"; "%"]%char c || negb (must_escape c encodePath)) s.

Definition EscapedPath (u : URL) : string :=
  if bool_decide (u_RawPath u ≠ "") && validEncoded (u_RawPath u) &&
     bool_decide (unescape encodePath (u_RawPath u) = inr (u_Path u)) then u_RawPath u
  else if decide (u_Path u = "*") then "%2A"
  else escape encodePath (u_Path u).

Definition RequestURI (u : URL) : string :=
  (if decide (u_Opaque u = "") then
     (if decide (EscapedPath u = "") then "/" else EscapedPath u)
   else (if HasPrefix (u_Opaque u) "//" then u_Scheme u +:+ ":" +:+ u_Opaque u else u_Opaque u)) +:+
  (if u_ForceQuery u || bool_decide (u_RawQuery u ≠ "") then "?" +:+ u_RawQuery u else "").
End url.

(** ** Lemmas *)

(** A byte a path holds unescaped: no [%], no [?], no [#], no control byte. *)
Definition path_char (c : ascii) : bool := negb (must_escape c encodePath).

Lemma all_bytes (P : ascii → bool) :
  forallb (λ n, P (ascii_of_nat n)) (seq 0 256) = true → ∀ c, P c = true.
Proof.
  intros HP c. rewrite forallb_forall in HP.
  rewrite <- (ascii_nat_embedding c). apply HP, in_seq.
  pose proof (nat_ascii_bounded c). lia.
Qed.

Lemma path_char_not c d : path_char c = true →
  path_char d = false → bool_decide (c ≠ d) = true.
Proof. intros Hc Hd. apply bool_decide_eq_true. by intros ->; congruence. Qed.

Lemma path_char_ctl c : path_char c = true → ctl_byte c = false.
Proof.
  assert (∀ c, negb (path_char c && ctl_byte c) = true) as H
    by by apply all_bytes; vm_compute.
  intros Hc. specialize (H c). rewrite Hc in H. by destruct (ctl_byte c).
Qed.

Lemma path_no_byte d s : path_char d = false → string_forallb path_char s = true →
  Index s (String d "") = None.
Proof.
  intros Hd Hs. apply Index_byte_None. eapply string_forallb_impl; [|done].
  intros c Hc. by apply path_char_not.
Qed.

Lemma escape_path s : string_forallb path_char s = true → escape encodePath s = s.
Proof.
  induction s as [|a s IH]; [done|]. cbn [string_forallb escape]. rewrite andb_true_iff.
  unfold path_char at 1. rewrite negb_true_iff. intros [-> Hs]. by rewrite IH.
Qed.

Lemma getScheme_letters raw acc s t :
  string_forallb (in_range 97 122) s = true → s ≠ "" ∨ acc ≠ "" →
  scheme_from raw acc (s +:+ ":" +:+ t) = inr (acc +:+ s, t).
Proof.
  revert acc; induction s as [|a s IH]; intros acc Hs Hne.
  - rewrite str_app_nil_l, str_app_nil_r. rewrite str_app_cons. simpl.
    rewrite decide_False by naive_solver. done.
  - cbn [string_forallb] in Hs. apply andb_true_iff in Hs as [Ha Hs].
    rewrite str_app_cons. cbn [scheme_from]. rewrite Ha. simpl orb. cbv iota.
    rewrite IH; [|done|by right; destruct acc]. by rewrite <- str_app_assoc.
Qed.

Lemma letters_lower s : string_forallb (in_range 97 122) s = true →
  string_forallb is_lower_byte s = true.
Proof.
  apply string_forallb_impl. intros c Hc%in_range_spec.
  unfold is_lower_byte, is_ascii_byte, in_range, RuneSelf. lia.
Qed.

Lemma LastIndex_None d s : string_forallb (λ a, bool_decide (a ≠ d)) s = true →
  LastIndex_byte d s = None.
Proof.
  unfold LastIndex_byte. generalize 0%nat. induction s as [|a s IH]; intros n; [done|].
  cbn [string_forallb]. rewrite andb_true_iff, bool_decide_eq_true. intros [Ha Hs].
  rewrite decide_False by done. by apply IH.
Qed.

Section lemmas.
Context `{!UnicodeTables, !AddrParser}.

Lemma unescape_path s : string_forallb path_char s = true → unescape encodePath s = inr s.
Proof.
  induction s as [|a s IH]; [done|]. cbn [string_forallb unescape]. rewrite andb_true_iff.
  intros [Ha Hs]. rewrite decide_False by (intros ->; vm_compute in Ha; done).
  simpl andb. cbv iota. by rewrite IH.
Qed.

Lemma setPath_plain s : string_forallb path_char s = true → setPath s = inr (s, "").
Proof.
  intros Hs. unfold setPath. rewrite unescape_path by done. simpl.
  by rewrite escape_path, decide_True.
Qed.

(** A host with an optional port, as [net.JoinHostPort] writes it. *)
Definition host_name_char (c : ascii) : bool := is_alnum c || chars ["-"; "."]%char c.
Definition plain_host (h : string) : Prop :=
  ∃ name port, h = name +:+ port ∧ string_forallb host_name_char name = true ∧
    validOptionalPort port = true.

Lemma host_name_path c : host_name_char c = true →
  path_char c = true ∧ c ≠ "/"%char ∧ c ≠ "@"%char ∧ c ≠ ":"%char ∧ c ≠ "["%char ∧ c ≠ "%"%char ∧
  must_escape c encodeHost = false.
Proof.
  assert (∀ c, negb (host_name_char c) ||
    (path_char c && bool_decide (c ≠ "/"%char) && bool_decide (c ≠ "@"%char) &&
     bool_decide (c ≠ ":"%char) && bool_decide (c ≠ "["%char) && bool_decide (c ≠ "%"%char) &&
     negb (must_escape c encodeHost)) = true) as Hall by by apply all_bytes; vm_compute.
  intros Hc. specialize (Hall c). rewrite Hc in Hall. simpl in Hall.
  rewrite !andb_true_iff, !bool_decide_eq_true, negb_true_iff in Hall. tauto.
Qed.

Lemma digit_host_name c : in_range 48 57 c = true → host_name_char c = true.
Proof. intros Hc. unfold host_name_char, is_alnum. rewrite Hc. by rewrite !orb_true_r. Qed.

(** The bytes of such a host: name bytes, and a colon. *)
Lemma plain_host_chars h : plain_host h →
  string_forallb (λ c, host_name_char c || chars [":"]%char c) h = true.
Proof.
  intros (name & port & -> & Hn & Hp). rewrite string_forallb_app. apply andb_true_iff. split.
  - eapply string_forallb_impl; [|done]. intros c ->. done.
  - destruct port as [|c ds]; [done|]. simpl in Hp. apply andb_true_iff in Hp as [Hc Hds].
    apply bool_decide_eq_true in Hc as ->. cbn [string_forallb]. apply andb_true_iff.
    split; [done|]. eapply string_forallb_impl; [|done]. intros d Hd.
    by rewrite digit_host_name.
Qed.

Lemma host_chars_not d h : host_name_char d = false → d ≠ ":"%char →
  string_forallb (λ c, host_name_char c || chars [":"]%char c) h = true →
  string_forallb (λ a, bool_decide (a ≠ d)) h = true.
Proof.
  intros Hd Hcol. apply string_forallb_impl. intros c Hc. apply bool_decide_eq_true.
  intros ->. rewrite Hd in Hc. unfold chars in Hc. simpl in Hc.
  apply bool_decide_eq_true in Hc. set_solver.
Qed.

Lemma host_chars_path h :
  string_forallb (λ c, host_name_char c || chars [":"]%char c) h = true →
  string_forallb path_char h = true.
Proof.
  apply string_forallb_impl. intros c [Hc|Hc]%orb_true_iff; [by apply host_name_path|].
  apply bool_decide_eq_true in Hc. apply list_elem_of_singleton in Hc as ->. by vm_compute.
Qed.

Lemma unescape_host h :
  string_forallb (λ c, host_name_char c || chars [":"]%char c) h = true →
  unescape encodeHost h = inr h.
Proof.
  induction h as [|a h IH]; [done|]. cbn [string_forallb unescape]. rewrite andb_true_iff.
  intros [Ha Hs]. rewrite IH by done. apply orb_true_iff in Ha as [Ha|Ha].
  - apply host_name_path in Ha as (_ & _ & _ & _ & _ & Hpct & ->).
    rewrite decide_False by done. by rewrite andb_false_r.
  - apply bool_decide_eq_true, list_elem_of_singleton in Ha as ->. done.
Qed.

Lemma parseHost_plain h : plain_host h → parseHost h = inr h.
Proof.
  intros Hh. pose proof (plain_host_chars h Hh) as Hc. unfold parseHost.
  rewrite (LastIndex_None "[") by by apply (host_chars_not "["); [vm_compute|..].
  destruct Hh as (name & port & -> & Hn & Hp). rewrite unescape_host by done.
  destruct (Index (name +:+ port) ":") as [i|] eqn:Hi; [|done].
  assert (str_drop i (name +:+ port) = port) as ->; [|by rewrite Hp].
  assert (string_forallb (λ a, bool_decide (a ≠ ":"%char)) name = true) as Hncol.
  { eapply string_forallb_impl; [|done]. intros c Hcn. apply bool_decide_eq_true.
    apply host_name_path in Hcn. tauto. }
  destruct port as [|c ds].
  - rewrite str_app_nil_r in Hi. apply Index_byte_None in Hncol. congruence.
  - simpl in Hp. apply andb_true_iff in Hp as [Hcol _]. apply bool_decide_eq_true in Hcol as ->.
    rewrite Index_byte_app in Hi by done. injection Hi as <-. apply str_drop_app.
Qed.

(** A relative path as it follows a host: empty, or a slash and path bytes. *)
Definition plain_path (p : string) : Prop :=
  string_forallb path_char p = true ∧ (p = "" ∨ HasPrefix p "/" = true).

Lemma split_authority_plain h p : plain_host h → plain_path p →
  split_authority ("//" +:+ h +:+ p) = (h, p).
Proof.
  intros Hh%plain_host_chars [_ Hp]. unfold split_authority.
  rewrite !str_app_cons, str_app_nil_l. cbn [str_drop].
  pose proof (host_chars_not "/" h ltac:(by vm_compute) ltac:(done) Hh) as Hns.
  destruct Hp as [->|(q & ->)%HasPrefix_spec].
  - rewrite str_app_nil_r. apply Index_byte_None in Hns. by rewrite Hns.
  - rewrite str_app_cons, str_app_nil_l, Index_byte_app by done.
    pose proof (str_take_app h (String "/" q) 0) as Ht. rewrite Nat.add_0_r in Ht.
    rewrite Ht, str_drop_app. simpl. by rewrite str_app_nil_r.
Qed.

Definition plain_url (scheme host path : string) : URL := {|
  u_Scheme := scheme; u_Opaque := ""; u_User := None; u_Host := host; u_Path := path;
  u_RawPath := ""; u_ForceQuery := false; u_RawQuery := "" |}.

Lemma parseAuthority_plain h : plain_host h → parseAuthority h = inr (None, h).
Proof.
  intros Hh. unfold parseAuthority.
  rewrite (LastIndex_None "@")
    by by apply (host_chars_not "@"); [vm_compute|done|apply plain_host_chars].
  by rewrite parseHost_plain.
Qed.

Lemma letters_path s : string_forallb (in_range 97 122) s = true → string_forallb path_char s = true.
Proof.
  assert (∀ c, negb (in_range 97 122 c) || path_char c = true) as Hall
    by by apply all_bytes; vm_compute.
  apply string_forallb_impl. intros c Hc. specialize (Hall c). by rewrite Hc in Hall.
Qed.

(** The text of such a URL holds path bytes only. *)
Lemma plain_text scheme h p :
  string_forallb (in_range 97 122) scheme = true → plain_host h → plain_path p →
  string_forallb path_char (scheme +:+ "://" +:+ h +:+ p) = true.
Proof.
  intros Hs Hh [Hp _]. rewrite !string_forallb_app, Hp, (letters_path scheme) by done.
  rewrite (host_chars_path h) by by apply plain_host_chars. by vm_compute.
Qed.

Lemma Cut_none s c : Index s (String c "") = None → Cut s (String c "") = (s, "").
Proof. intros Hi. unfold Cut. by rewrite Hi. Qed.

(** Parsing [scheme://host[:port][/path]] gives back its parts. *)
Lemma parse_plain scheme h p :
  string_forallb (in_range 97 122) scheme = true → scheme ≠ "" → plain_host h → plain_path p →
  parse (scheme +:+ "://" +:+ h +:+ p) = inr (plain_url scheme h p).
Proof.
  intros Hs Hne Hh Hp. pose proof (plain_text scheme h p Hs Hh Hp) as Htext.
  change ("://" +:+ h +:+ p) with (":" +:+ ("//" +:+ h +:+ p)) in *.
  unfold parse. rewrite (string_forallb_impl path_char (λ c, negb (ctl_byte c)))
    by (intros; rewrite ?path_char_ctl; done). simpl negb. cbv iota.
  rewrite decide_False; [|intros Heq; rewrite Heq in Htext; vm_compute in Htext; done].
  unfold getScheme. rewrite getScheme_letters by auto. rewrite str_app_nil_l. cbn [bind_err].
  assert (string_forallb path_char ("//" +:+ h +:+ p) = true) as Hrest.
  { destruct Hp as [Hp _]. rewrite !string_forallb_app, Hp.
    rewrite (host_chars_path h) by by apply plain_host_chars. by vm_compute. }
  unfold split_query. rewrite (path_no_byte "?" _ ltac:(by vm_compute) Hrest).
  change (HasPrefix ("//" +:+ h +:+ p) "/") with (HasPrefix (String "/" (String "/" (h +:+ p))) "/").
  rewrite HasPrefix_byte, bool_decide_eq_true_2 by done.
  rewrite ToLower_lower by by apply letters_lower.
  unfold parse_hierarchical. change (HasPrefix ("//" +:+ h +:+ p) "//")
    with (HasPrefix ("//" +:+ (h +:+ p)) "//").
  rewrite HasPrefix_app. rewrite bool_decide_eq_true_2 by done. simpl andb. cbv iota.
  rewrite split_authority_plain, parseAuthority_plain by done. cbn [bind_err].
  unfold with_path. rewrite setPath_plain by apply Hp. done.
Qed.

Lemma Parse_plain scheme h p :
  string_forallb (in_range 97 122) scheme = true → scheme ≠ "" → plain_host h → plain_path p →
  Parse (scheme +:+ "://" +:+ h +:+ p) = inr (plain_url scheme h p).
Proof.
  intros Hs Hne Hh Hp. unfold Parse.
  rewrite Cut_none; [by rewrite parse_plain|].
  apply path_no_byte; [by vm_compute|by apply plain_text].
Qed.

(** A fragment is dropped. *)
Lemma Parse_fragment raw frag u : string_forallb (λ a, bool_decide (a ≠ "#"%char)) raw = true →
  is_Some (match unescape encodeFragment frag with inr f => Some f | inl _ => None end) →
  Parse raw = inr u → Parse (raw +:+ "#" +:+ frag) = inr u.
Proof.
  intros Hraw [f Hf]. unfold Parse. rewrite Cut_none by by apply Index_byte_None.
  destruct (parse raw) as [e|u'] eqn:Hp; [done|]. cbn [unescape]. intros [= <-].
  unfold Cut. rewrite str_app_cons, str_app_nil_l, Index_byte_app by done.
  pose proof (str_take_app raw (String "#" frag) 0) as Ht. rewrite Nat.add_0_r in Ht.
  rewrite Ht. cbn [str_take]. rewrite str_app_nil_r, Hp.
  rewrite str_drop_app_ge by lia. replace (_ - _)%nat with 1%nat by (simpl; lia).
  cbn [str_drop]. by destruct (unescape encodeFragment frag).
Qed.

(** The request target of such a URL is its path. *)
Lemma RequestURI_plain scheme h p : string_forallb path_char p = true →
  p ≠ "" → p ≠ "*" → RequestURI (plain_url scheme h p) = p.
Proof.
  intros Hp Hne Hstar. unfold RequestURI, EscapedPath. simpl.
  rewrite (decide_False (P := p = "*")) by done. rewrite escape_path by done.
  rewrite decide_False by done. by rewrite str_app_nil_r.
Qed.
End lemmas.
