(* ===== verification/ServerText.v ===== *)
(** How the server takes text apart (src/server/src/dezhan_server.adb): headers,
    queries, lists of words, percent encoding, and ['Value] of a number a client
    sent.  [Index] is 0-based here and [None] for 0; slices are taken from the
    start of their string. *)
From S2P Require Import Prelude GoStrings GoText GoUrl.
Open Scope Z_scope.

Definition crlf : string := String carriage (String newline "").

(** ** Reading headers and copy sources *)

(** [Trim (Value, Both)]: blanks at both ends. *)
Definition Trim (s : string) : string := trim_byte " " s.

(** [Lower_Case_Map]: the letters of Latin-1. *)
Definition lower_char (a : ascii) : ascii :=
  if in_range 65 90 a || in_range 192 214 a || in_range 216 222 a
  then GoStrings.byte_of (byte_val a + 32) else a.

(** [Header (Head, Name)]: the text after the first occurrence of the name and a
    colon, in any case, up to the end of its line. *)
Definition Header (head name : string) : string :=
  match Index (string_map lower_char head) (string_map lower_char name +:+ ":") with
  | None => ""
  | Some i =>
      let from := str_drop (i + String.length name + 1) head in
      Trim (match Index from crlf with Some j => str_take j from | None => from end)
  end.

(** Is a bypass of the retention asked for? *)
Definition bypass_requested (head : string) : bool :=
  bool_decide (Header head "X-Dezhan-Bypass" = "true").

(** The internal object name a copy source stands for. *)
Definition copy_source_name (src : string) : string :=
  match src with
  | String c s => if decide (c = "/"%char) then s else src
  | EmptyString => src
  end.

(** ** Words *)

(** [Part]: the [n]-th field of [s], counted from 1; empty if there is none. *)
Definition Part (s : string) (sep : ascii) (n : nat) : string := nth (n - 1) (split_byte sep s) "".

(** The text up to the first [c], or all of it. *)
Fixpoint until_byte (c : ascii) (s : string) : string :=
  match s with
  | "" => ""
  | String a s => if decide (a = c) then "" else String a (until_byte c s)
  end.

(** The text that follows [k], or nothing. *)
Definition after (s k : string) : option string := (λ i, str_drop (i + String.length k) s) <$> Index s k.

Definition Field_After (s k : string) : string := default "" (Trim ∘ until_byte "," <$> after s k).
Definition Q_Val (q k : string) : string := default "" (until_byte "&" <$> after q k).

Fixpoint join_amp (l : list string) : string :=
  match l with
  | [] => ""
  | [x] => x
  | x :: l => x +:+ "&" +:+ join_amp l
  end.

(** [Drop_Param]: the parameters that do not start with [k]. *)
Definition Drop_Param (q k : string) : string :=
  join_amp (filter (λ t, t ≠ "" ∧ HasPrefix t k = false) (split_byte "&" q)).

(** [In_List]: is [tok] one of the elements between commas? *)
Definition In_List (tok lst : string) : bool :=
  bool_decide (tok ≠ "") && existsb (λ e, bool_decide (Trim e = tok)) (split_byte "," lst).

(** ** Percent encoding *)

Definition unreserved (c : ascii) : bool :=
  in_range 65 90 c || in_range 97 122 c || in_range 48 57 c
  || bool_decide (c = "-"%char) || bool_decide (c = "_"%char) || bool_decide (c = "."%char) || bool_decide (c = "~"%char).

Definition upper_hex (n : N) : ascii := default "0"%char (String.get (N.to_nat n) "0123456789ABCDEF").

(** [%XX] *)
Definition pct (c : ascii) : string :=
  String "%" (String (upper_hex (N_of_ascii c `div` 16)%N) (String (upper_hex (N_of_ascii c `mod` 16)%N) "")).

Fixpoint Uri_Encode (s : string) : string :=
  match s with
  | "" => ""
  | String c s => (if unreserved c then String c "" else pct c) +:+ Uri_Encode s
  end.

(** The value of a hexadecimal digit, 0 for any other character. *)
Definition Nib (c : ascii) : Z :=
  if in_range 48 57 c then byte_val c - 48
  else if in_range 97 102 c then byte_val c - 87
  else if in_range 65 70 c then byte_val c - 55
  else 0.

(** [Uri_Decode], and [Pct_Decode] of the server. *)
Fixpoint Uri_Decode (s : string) : string :=
  match s with
  | "" => ""
  | String c s' =>
      match s' with
      | String a (String b s'') =>
          if decide (c = "%"%char) then String (GoStrings.byte_of (Nib a * 16 + Nib b)) (Uri_Decode s'')
          else String c (Uri_Decode s')
      | _ => String c (Uri_Decode s')
      end
  end.

(** ** Numbers *)

(** The value of a digit of any base up to 16. *)
Definition digit_value (c : ascii) : Z :=
  if in_range 48 57 c then byte_val c - 48
  else if in_range 97 102 c then byte_val c - 87
  else if in_range 65 70 c then byte_val c - 55
  else 16.

(** Digits, an underscore between two of them, up to something else. *)
Fixpoint scan_number (base : Z) (s : string) (acc : Z) : option (Z * string) :=
  match s with
  | "" => Some (acc, "")
  | String c s' =>
      if digit_value c <? base then scan_number base s' (acc * base + digit_value c)
      else if decide (c = "_"%char) then
        match s' with
        | String d _ => if digit_value d <? base then scan_number base s' acc else None
        | "" => None
        end
      else Some (acc, s)
  end.

Definition numeral (base : Z) (s : string) : option (Z * string) :=
  match s with
  | String c _ => if digit_value c <? base then scan_number base s 0 else None
  | "" => None
  end.

(** [E] or [e] with an exponent, at the end of the text. *)
Definition exponent (base n : Z) (s : string) : option Z :=
  match s with
  | "" => Some n
  | String c s =>
      if decide (c = "E"%char ∨ c = "e"%char) then
        let s := match s with String c' s' => if decide (c' = "+"%char) then s' else s | "" => s end in
        '(x, rest) ← numeral 10 s;
        if decide (rest = "") then Some (n * base ^ x) else None
      else None
  end.

(** An integer literal: decimal, or in a base between [#] or [:]. *)
Definition literal (s : string) : option Z :=
  '(n, rest) ← numeral 10 s;
  match rest with
  | String c rest' =>
      if decide (c = "#"%char ∨ c = ":"%char) then
        if (2 <=? n) && (n <=? 16) then
          '(m, rest'') ← numeral n rest';
          match rest'' with
          | String c' e => if decide (c' = c) then exponent n m e else None
          | "" => None
          end
        else None
      else exponent 10 n rest
  | "" => Some n
  end.

(** ['Value] for a type of the numbers from 0 to [hi]; [None] is
    [Constraint_Error]. *)
Definition Int_Value (hi : Z) (s : string) : option Z :=
  z ← match Trim s with
      | String c s' =>
          if decide (c = "-"%char) then Z.opp <$> literal s'
          else if decide (c = "+"%char) then literal s'
          else literal (String c s')
      | "" => None
      end;
  if (0 <=? z) && (z <=? hi) then Some z else None.

Example int_values :
  Int_Value 2147483647 " 42 " = Some 42 ∧ Int_Value 2147483647 "1_000" = Some 1000 ∧
  Int_Value 2147483647 "16#FF#" = Some 255 ∧ Int_Value 2147483647 "2E3" = Some 2000 ∧
  Int_Value 2147483647 "-1" = None ∧ Int_Value 2147483647 "2147483648" = None ∧
  Int_Value 2147483647 "1__0" = None ∧ Int_Value 2147483647 "12x" = None ∧ Int_Value 2147483647 "" = None.
Proof. vm_compute. done. Qed.

(** ** Percent encoding is undone by decoding *)

Lemma pct_decode c : ∀ s, Uri_Decode (pct c +:+ s) = String c (Uri_Decode s).
Proof.
  intros s. unfold pct. rewrite !str_app_cons, str_app_nil_l. cbn [Uri_Decode]. rewrite decide_True by done.
  f_equal. apply (bool_decide_eq_true (_ = c)). revert c. apply all_bytes. by vm_compute.
Qed.

Lemma unreserved_not_pct c : unreserved c = true → c ≠ "%"%char.
Proof. by intros Hc ->. Qed.

Lemma Uri_Decode_Encode s : Uri_Decode (Uri_Encode s) = s.
Proof.
  induction s as [|c s IH]; [done|]. cbn [Uri_Encode]. destruct (unreserved c) eqn:Hc.
  - rewrite str_app_cons, str_app_nil_l. cbn [Uri_Decode].
    destruct (Uri_Encode s) as [|a [|b t]] eqn:E; [by rewrite <- IH|by rewrite <- IH|].
    rewrite decide_False by by apply unreserved_not_pct. by rewrite <- IH.
  - by rewrite pct_decode, IH.
Qed.

(** What [Uri_Encode] writes. *)
Definition uri_char (c : ascii) : bool := unreserved c || bool_decide (c = "%"%char).

Lemma pct_uri_char c : string_forallb uri_char (pct c) = true.
Proof. revert c. apply all_bytes. by vm_compute. Qed.

Lemma Uri_Encode_chars s : string_forallb uri_char (Uri_Encode s) = true.
Proof.
  induction s as [|c s IH]; [done|]. cbn [Uri_Encode]. rewrite string_forallb_app, IH, andb_true_r.
  destruct (unreserved c) eqn:Hc; [simpl; unfold uri_char; by rewrite Hc|apply pct_uri_char].
Qed.

Lemma Uri_Encode_avoids d s : uri_char d = false → string_forallb (λ a, bool_decide (a ≠ d)) (Uri_Encode s) = true.
Proof.
  intros Hd. eapply string_forallb_impl; [|apply Uri_Encode_chars]. intros c Hc. apply bool_decide_eq_true.
  intros ->. congruence.
Qed.

