(* ===== verification/GoFloat.v ===== *)
(** * [float64]: parsing, arithmetic and printing

    A [float64] is an IEEE 754 binary64 datum, [spec_float] of the Standard
    Library with 53 bits of precision.  [ParseFloat] is [strconv.ParseFloat(s, 64)]
    with Go's syntax for decimal and hexadecimal literals, [format_f] the verbs
    [%.0f] and [%.1f]; both round to nearest even from the exact value. *)

From Stdlib Require Import SpecFloat.
From S2P Require Import Prelude GoStrings GoText.
Local Open Scope Z_scope.

Abbreviation float64 := spec_float.
Definition prec : Z := 53.
Definition emax : Z := 1024.

Definition fdiv (x y : float64) : float64 := SFdiv prec emax x y.
Definition flt (x y : float64) : bool := SFltb x y.
Definition feq (x y : float64) : bool := SFeqb x y.
(** [x >= y] *)
Definition fge (x y : float64) : bool := SFleb y x.
Definition float_of_Z (z : Z) : float64 := binary_normalize prec emax z 0 false.
Definition fzero : float64 := S754_zero false.

(** ** Parsing *)

Definition digit (c : ascii) : bool := in_range 48 57 c.
Definition lower_is (l c : ascii) : bool := bool_decide (lower_byte c = l).

(** The value of a hexadecimal digit. *)
Definition hex_value (c : ascii) : option Z :=
  if digit c then Some (byte_val c - 48)
  else if in_range 97 102 (lower_byte c) then Some (byte_val (lower_byte c) - 97 + 10)
  else None.

Definition digit_value (hex : bool) (c : ascii) : option Z :=
  if hex then hex_value c else if digit c then Some (byte_val c - 48) else None.

(** What was read of a mantissa: its integer value, the digits after the point,
    whether there was a point, a digit, an underscore. *)
Record mantissa := {
  mant : Z; frac : Z; sawdot : bool; sawdigits : bool; scored : bool }.

Fixpoint read_mantissa (hex : bool) (s : string) (m : mantissa) : mantissa * string :=
  match s with
  | EmptyString => (m, s)
  | String c s' =>
      if decide (c = "_"%char) then
        read_mantissa hex s' {| mant := mant m; frac := frac m; sawdot := sawdot m;
                                sawdigits := sawdigits m; scored := true |}
      else if decide (c = "."%char) then
        if sawdot m then (m, s)
        else read_mantissa hex s' {| mant := mant m; frac := frac m; sawdot := true;
                                     sawdigits := sawdigits m; scored := scored m |}
      else match digit_value hex c with
      | Some d =>
          read_mantissa hex s' {|
            mant := mant m * (if hex then 16 else 10) + d;
            frac := if sawdot m then frac m + 1 else frac m;
            sawdot := sawdot m; sawdigits := true; scored := scored m |}
      | None => (m, s)
      end
  end.

(** The digits of an exponent; the value stops growing at 10000. *)
Fixpoint read_exponent (s : string) (e : Z) (us : bool) : Z * bool * string :=
  match s with
  | EmptyString => (e, us, s)
  | String c s' =>
      if decide (c = "_"%char) then read_exponent s' e true
      else if digit c then
        read_exponent s' (if e <? 10000 then e * 10 + (byte_val c - 48) else e) us
      else (e, us, s)
  end.

Definition take_sign (s : string) : bool * string :=
  match s with
  | String c s' => if decide (c = "-"%char) then (true, s')
                   else if decide (c = "+"%char) then (false, s') else (false, s)
  | EmptyString => (false, s)
  end.

(** [underscoreOK]: underscores stand between digits.  [last] is the most recent
    character: a digit, an underscore or something else. *)
Inductive last_seen := SawDigit | SawUnderscore | SawOther.

Fixpoint underscores_between (hex : bool) (s : string) (seen : last_seen) : bool :=
  match s with
  | EmptyString => match seen with SawUnderscore => false | _ => true end
  | String c s' =>
      if bool_decide (is_Some (digit_value hex c)) then underscores_between hex s' SawDigit
      else if decide (c = "_"%char) then
        match seen with SawDigit => underscores_between hex s' SawUnderscore | _ => false end
      else match seen with SawUnderscore => false | _ => underscores_between hex s' SawOther end
  end.

Definition underscoreOK (s : string) : bool :=
  let '(_, t) := take_sign s in
  match t with
  | String z (String x u) =>
      if bool_decide (z = "0"%char) &&
         (lower_is "b" x || lower_is "o" x || lower_is "x" x)
      then underscores_between (lower_is "x" x) u SawDigit
      else underscores_between false t SawOther
  | _ => underscores_between false t SawOther
  end.

(** The exact value [(-1)^neg * mant * 10^exp], or times [2^exp], rounded. *)
Definition round_value (neg hex : bool) (m e : Z) : float64 :=
  if m =? 0 then S754_zero neg
  else if hex then binary_normalize prec emax (if neg then - m else m) e neg
  else if 0 <=? e then binary_normalize prec emax ((if neg then - m else m) * 10 ^ e) 0 neg
  else fdiv (S754_finite neg (Z.to_pos m) 0) (S754_finite false (Z.to_pos (10 ^ (- e))) 0).

(** [inf], [infinity] (signed) and [nan], in any case *)
Definition special (s : string) : option float64 :=
  let '(neg, t) := take_sign s in
  let l := string_map lower_byte t in
  if bool_decide (l = "inf") || bool_decide (l = "infinity") then Some (S754_infinity neg)
  else if bool_decide (string_map lower_byte s = "nan") then Some S754_nan
  else None.

(** [readFloat] on the whole string *)
Definition readFloat (s : string) : option (bool * bool * Z * Z) :=
  let '(neg, t) := take_sign s in
  let '(hex, digits) :=
    match t with
    | String z (String x ((String _ _) as u)) =>
        if bool_decide (z = "0"%char) && lower_is "x" x then (true, u) else (false, t)
    | _ => (false, t)
    end in
  let '(m, rest) := read_mantissa hex digits
    {| mant := 0; frac := 0; sawdot := false; sawdigits := false; scored := false |} in
  if negb (sawdigits m) then None
  else
    let scale := if hex then 4 else 1 in
    let finish (e : Z) (us : bool) (rest : string) :=
      if bool_decide (rest = "") && (negb us || underscoreOK s)
      then Some (neg, hex, mant m, e - frac m * scale) else None in
    match rest with
    | String c r =>
        if lower_is (if hex then "p" else "e")%char c then
          let '(eneg, r1) := take_sign r in
          match r1 with
          | String d _ =>
              if digit d then
                let '(e, us, r2) := read_exponent r1 0 (scored m) in
                finish (if eneg then - e else e) us r2
              else None
          | EmptyString => None
          end
        else None
    | EmptyString => if hex then None else finish 0 (scored m) ""
    end.

(** A value out of range is an error as well. *)
Definition ParseFloat (s : string) : option float64 :=
  match special s with
  | Some f => Some f
  | None =>
      match readFloat s with
      | Some (neg, hex, m, e) =>
          match round_value neg hex m e with
          | S754_infinity _ => None
          | f => Some f
          end
      | None => None
      end
  end.

(** ** Printing *)

(** [m * 2^e] to the nearest integer, ties to even. *)
Definition round_int (m e : Z) : Z :=
  if 0 <=? e then m * 2 ^ e
  else
    let d := 2 ^ (- e) in
    let q := m / d in
    let r := m `mod` d in
    if 2 * r <? d then q else if d <? 2 * r then q + 1 else if Z.even q then q else q + 1.

(** [%.<k>f] for [k] of 0 or 1 *)
Definition format_f (k : nat) (x : float64) : string :=
  match x with
  | S754_nan => "NaN"
  | S754_infinity neg => if neg then "-Inf" else "+Inf"
  | _ =>
      let '(neg, m, e) := match x with
        | S754_finite neg m e => (neg, Zpos m, e)
        | S754_zero neg => (neg, 0, 0)
        | _ => (false, 0, 0)
        end in
      let n := round_int (m * 10 ^ Z.of_nat k) e in
      (if (neg : bool) then "-" else "") +:+
      match k with
      | O => Itoa n
      | _ => Itoa (n / 10) +:+ "." +:+ Itoa (n `mod` 10)
      end
  end.

Example parse_half : ParseFloat "0.5" = Some (S754_finite false 4503599627370496 (-53)).
Proof. reflexivity. Qed.
Example parse_tenth : ParseFloat "0.1" = Some (S754_finite false 7205759403792794 (-56)).
Proof. reflexivity. Qed.
Example parse_big : ParseFloat "1e309" = None /\ ParseFloat "1_000" = ParseFloat "1000".
Proof. split; reflexivity. Qed.
Example parse_hex : ParseFloat "0x1.8p1" = ParseFloat "3" /\ ParseFloat "-inf" = Some (S754_infinity true).
Proof. split; reflexivity. Qed.
Example parse_bad : ParseFloat "1e" = None /\ ParseFloat "" = None /\ ParseFloat "1.2.3" = None.
Proof. repeat split; reflexivity. Qed.
Example print_half : option_map (format_f 0) (ParseFloat "2.5") = Some "2" /\
  option_map (format_f 1) (ParseFloat "1536.25") = Some "1536.2".
Proof. split; reflexivity. Qed.

(** ** Integers below [2^53] are exact *)

Lemma digits2_size p : digits2_pos p = Pos.size p.
Proof. induction p; simpl; congruence. Qed.

Lemma iter_xO_value p d : Zpos (Pos.iter xO p d) = Zpos p * 2 ^ Zpos d.
Proof.
  induction d as [|d IH] using Pos.peano_ind; [simpl; lia|].
  rewrite Pos.iter_succ, Pos2Z.inj_xO, IH, Pos2Z.inj_succ, Z.pow_succ_r by lia. lia.
Qed.

Lemma iter_xO_digits p d : Zpos (digits2_pos (Pos.iter xO p d)) = Zpos (digits2_pos p) + Zpos d.
Proof.
  induction d as [|d IH] using Pos.peano_ind; [simpl; lia|].
  rewrite Pos.iter_succ. change (digits2_pos (xO ?q)) with (Pos.succ (digits2_pos q)). lia.
Qed.

Lemma digits2_bound p n : 0 <= n → Zpos p < 2 ^ n → Zpos (digits2_pos p) <= n.
Proof.
  intros Hn Hp. rewrite digits2_size. pose proof (Pos.size_le p) as Hs.
  assert (2 ^ Zpos (Pos.size p) <= 2 * Zpos p) as Hs2.
  { rewrite <- Pos2Z.inj_xO, <- Pos2Z.inj_pow. done. }
  destruct (Z.le_gt_cases (Zpos (Pos.size p)) n) as [|Hgt]; [done|].
  assert (2 ^ (n + 1) <= 2 ^ Zpos (Pos.size p)) by (apply Z.pow_le_mono_r; lia).
  rewrite Z.pow_add_r in * by lia. lia.
Qed.

Lemma shr_fexp_canonical m e :
  fexp prec emax (Zpos (digits2_pos m) + e) = e →
  shr_fexp prec emax (Zpos m) e loc_Exact = (shr_record_of_loc (Zpos m) loc_Exact, e).
Proof. intros He. unfold shr_fexp. simpl Zdigits2. by rewrite He, Z.sub_diag. Qed.

Lemma round_canonical m e : fexp prec emax (Zpos (digits2_pos m) + e) = e → e <= emax - prec →
  binary_round_aux prec emax false (Zpos m) e loc_Exact = S754_finite false m e.
Proof.
  intros He Hle. unfold binary_round_aux. rewrite shr_fexp_canonical by done. simpl.
  rewrite shr_fexp_canonical by done. simpl. by rewrite (proj2 (Z.leb_le _ _)).
Qed.

(** The float of a small integer is the integer shifted to full precision. *)
Definition full (m : positive) : Prop := digits2_pos m = 53%positive.

Lemma full_bounds m : full m → 2 ^ 52 <= Zpos m < 2 ^ 53.
Proof.
  unfold full. rewrite digits2_size. intros Hm.
  pose proof (Pos.size_le m) as Hl. pose proof (Pos.size_gt m) as Hg. rewrite Hm in Hl, Hg.
  apply Pos2Z.pos_le_pos in Hl. apply Pos2Z.pos_lt_pos in Hg.
  rewrite Pos2Z.inj_pow, Pos2Z.inj_xO in Hl. rewrite Pos2Z.inj_pow in Hg.
  change (2 ^ 53) with (2 * 2 ^ 52) in *. lia.
Qed.

Lemma float_of_Z_full p : Zpos p < 2 ^ 53 →
  ∃ m k, float_of_Z (Zpos p) = S754_finite false m (- k) ∧ 0 <= k <= 52 ∧ full m ∧
    Zpos m = Zpos p * 2 ^ k.
Proof.
  intros Hp. pose proof (digits2_bound p 53 ltac:(done) Hp) as Hd.
  unfold float_of_Z, binary_normalize, binary_round.
  assert (fexp prec emax (Zpos (digits2_pos p) + 0) = Zpos (digits2_pos p) - 53) as Hf.
  { unfold fexp, emin, prec, emax. lia. }
  rewrite Hf. unfold shl_align.
  destruct (Zpos (digits2_pos p) - 53 - 0) as [|d|d] eqn:E; [|lia|]; cbv beta iota zeta.
  - exists p, 0. rewrite round_canonical by (unfold prec, emax in *; lia).
    split; [done|]. split; [lia|]. split; [unfold full; lia|lia].
  - exists (Pos.iter xO p d), (Zpos d).
    rewrite round_canonical; [|rewrite iter_xO_digits; unfold fexp, emin, prec, emax; lia
                              |unfold prec, emax; lia].
    split; [f_equal; lia|]. split; [lia|]. split; [|apply iter_xO_value].
    unfold full. pose proof (iter_xO_digits p d). lia.
Qed.

Lemma float_of_Z_small p : Zpos p < 2 ^ 53 →
  ∃ m k, float_of_Z (Zpos p) = S754_finite false m (- k) ∧ 0 <= k ∧ Zpos m = Zpos p * 2 ^ k.
Proof. intros (m & k & ? & ? & _ & ?)%float_of_Z_full. exists m, k. auto with lia. Qed.

Lemma format_float_of_Z n : 0 <= n < 2 ^ 53 → format_f 0 (float_of_Z n) = Itoa n.
Proof.
  intros Hn. destruct n as [|p|p]; [done| |lia].
  destruct (float_of_Z_small p) as (m & k & -> & Hk & Hm); [lia|].
  unfold format_f. rewrite str_app_nil_l. f_equal. change (10 ^ Z.of_nat 0) with 1.
  rewrite Z.mul_1_r, Hm. unfold round_int.
  destruct (Z.leb_spec 0 (- k)) as [H0|H0].
  - replace k with 0 by lia. simpl. lia.
  - rewrite Z.opp_involutive, Z.div_mul, Z_mod_mult by lia.
    rewrite Z.mul_0_r. by rewrite (proj2 (Z.ltb_lt 0 (2 ^ k))) by (apply Z.pow_pos_nonneg; lia).
Qed.

(** ** Division by 1024 is exact *)

Definition float1024 : float64 := S754_finite false 4503599627370496 (-42).

Lemma fdiv_1024 m e : full m → -1000 <= e <= 0 →
  fdiv (S754_finite false m e) float1024 = S754_finite false m (e - 10).
Proof.
  intros Hm He. unfold fdiv, float1024, SFdiv, SFdiv_core_binary.
  change (Zdigits2 (Zpos m)) with (Zpos (digits2_pos m)). rewrite Hm.
  change (Zdigits2 4503599627370496) with 53.
  assert (Z.min (fexp prec emax (53 + e - (53 + -42))) (e - -42) = e - 11) as ->
    by (unfold fexp, emin, prec, emax; lia).
  replace (e - -42 - (e - 11)) with 53 by lia.
  assert (Z.div_eucl (Z.shiftl (Zpos m) 53) 4503599627370496 = (Zpos (xO m), 0)) as ->.
  { assert (Z.shiftl (Zpos m) 53 = Zpos (xO m) * 4503599627370496) as Hs.
    { rewrite Z.shiftl_mul_pow2, Pos2Z.inj_xO by lia. change (2 ^ 53) with (2 * 4503599627370496). lia. }
    rewrite (surjective_pairing (Z.div_eucl _ _)). f_equal.
    - change (Z.shiftl (Zpos m) 53 / 4503599627370496 = Zpos (xO m)). rewrite Hs. by apply Z.div_mul.
    - change (Z.shiftl (Zpos m) 53 `mod` 4503599627370496 = 0). rewrite Hs. by apply Z_mod_mult. }
  change (new_location 4503599627370496 0) with loc_Exact.
  unfold binary_round_aux.
  assert (shr_fexp prec emax (Zpos (xO m)) (e - 11) loc_Exact =
    ({| shr_m := Zpos m; shr_r := false; shr_s := false |}, e - 10)) as ->.
  { unfold shr_fexp. change (Zdigits2 (Zpos (xO m))) with (Zpos (Pos.succ (digits2_pos m))).
    rewrite Hm. assert (fexp prec emax (Zpos (Pos.succ 53) + (e - 11)) - (e - 11) = 1) as ->
      by (unfold fexp, emin, prec, emax; lia).
    simpl. f_equal. lia. }
  simpl loc_of_shr_record. simpl round_nearest_even. rewrite shr_fexp_canonical.
  - simpl. by rewrite (proj2 (Z.leb_le _ _)) by (unfold emax, prec; lia).
  - rewrite Hm. unfold fexp, emin, prec, emax. lia.
Qed.

Lemma compare_finite m1 e1 m2 e2 :
  SFcompare (S754_finite false m1 e1) (S754_finite false m2 e2) =
    Some (match Z.compare e1 e2 with Eq => Z.compare (Zpos m1) (Zpos m2) | c => c end).
Proof. simpl. by destruct (Z.compare e1 e2). Qed.

Lemma fge_1024 m e : full m → fge (S754_finite false m e) float1024 = bool_decide (-42 <= e).
Proof.
  intros Hm. unfold fge, SFleb, float1024. rewrite compare_finite. pose proof (full_bounds m Hm) as Hb.
  change (2 ^ 52) with 4503599627370496 in Hb. symmetry.
  destruct (Z.compare_spec (-42) e) as [<-|?|?].
  - by destruct (Z.compare_spec 4503599627370496 (Zpos m)); [..|lia].
  - by rewrite bool_decide_eq_true_2 by lia.
  - by rewrite bool_decide_eq_false_2 by lia.
Qed.

Lemma flt_1024 m e : full m → flt (S754_finite false m e) float1024 = bool_decide (e < -42).
Proof.
  intros Hm. pose proof (full_bounds m Hm) as Hb. change (2 ^ 52) with 4503599627370496 in Hb.
  unfold flt, SFltb, float1024. rewrite compare_finite.
  destruct (Z.compare_spec e (-42)) as [->|?|?].
  - by destruct (Z.compare_spec (Zpos m) 4503599627370496); [|lia|].
  - by rewrite bool_decide_eq_true_2.
  - by rewrite bool_decide_eq_false_2 by lia.
Qed.

(** Scaling mantissa and exponent alike does not change the rounded integer. *)
Lemma round_int_scale a j k : 0 <= j → 0 <= k → round_int (a * 2 ^ k) (- k - j) = round_int a (- j).
Proof.
  intros Hj Hk. unfold round_int.
  assert (0 < 2 ^ k) by (apply Z.pow_pos_nonneg; lia).
  assert (0 < 2 ^ j) by (apply Z.pow_pos_nonneg; lia).
  destruct (Z.leb_spec 0 (- k - j)) as [Hz|Hz].
  { assert (k = 0 ∧ j = 0) as [-> ->] by lia. simpl. lia. }
  replace (- (- k - j)) with (j + k) by lia. rewrite Z.pow_add_r by lia.
  rewrite Z.div_mul_cancel_r, Zmult_mod_distr_r by lia.
  destruct (Z.leb_spec 0 (- j)) as [Hj0|Hj0].
  { assert (j = 0) as -> by lia. simpl. rewrite Z.mod_1_r, Z.div_1_r.
    rewrite (proj2 (Z.ltb_lt _ _)) by lia. lia. }
  rewrite Z.opp_involutive.
  destruct (Z.ltb_spec (2 * (a `mod` 2 ^ j * 2 ^ k)) (2 ^ j * 2 ^ k)), (Z.ltb_spec (2 * (a `mod` 2 ^ j)) (2 ^ j));
    [done|nia|nia|].
  destruct (Z.ltb_spec (2 ^ j * 2 ^ k) (2 * (a `mod` 2 ^ j * 2 ^ k))), (Z.ltb_spec (2 ^ j) (2 * (a `mod` 2 ^ j)));
    [done|nia|nia|done].
Qed.

(** The rounded integer is at most half a unit off. *)
Lemma round_int_nearest a j : 0 <= j → 2 * Z.abs (round_int a (- j) * 2 ^ j - a) <= 2 ^ j.
Proof.
  intros Hj. assert (0 < 2 ^ j) as Hp by (apply Z.pow_pos_nonneg; lia). unfold round_int.
  destruct (Z.leb_spec 0 (- j)) as [Hz|Hz].
  { assert (j = 0) as -> by lia. simpl. lia. }
  rewrite Z.opp_involutive. pose proof (Z.div_mod a (2 ^ j) ltac:(lia)) as Hd.
  pose proof (Z.mod_pos_bound a (2 ^ j) Hp) as Hr.
  destruct (Z.ltb_spec (2 * (a `mod` 2 ^ j)) (2 ^ j)); [nia|].
  destruct (Z.ltb_spec (2 ^ j) (2 * (a `mod` 2 ^ j))); [nia|]. destruct (Z.even _); nia.
Qed.

(** ** Decimal integers are read back *)

Lemma pretty_char_digit x : (x < 10)%N →
  digit (pretty_N_char x) = true ∧ byte_val (pretty_N_char x) - 48 = Z.of_N x.
Proof.
  intros Hx. assert (x = 0 ∨ x = 1 ∨ x = 2 ∨ x = 3 ∨ x = 4 ∨ x = 5 ∨ x = 6 ∨ x = 7 ∨ x = 8 ∨ x = 9)%N
    as Hc by lia.
  repeat destruct Hc as [->|Hc]; [by vm_compute..|]. subst x. by vm_compute.
Qed.

Definition read_so_far (m : Z) (d : bool) : mantissa :=
  {| mant := m; frac := 0; sawdot := false; sawdigits := d; scored := false |}.

Lemma digit_not a c : digit a = true → digit c = false → a ≠ c.
Proof. intros Ha Hc ->. congruence. Qed.

Lemma read_digit c s m d : digit c = true →
  read_mantissa false (String c s) (read_so_far m d) =
  read_mantissa false s (read_so_far (m * 10 + (byte_val c - 48)) true).
Proof.
  intros Hc. cbn [read_mantissa]. rewrite !decide_False by by apply (digit_not c).
  unfold digit_value. by rewrite Hc.
Qed.

Lemma read_pretty x s : (0 < x)%N →
  ∃ d, read_mantissa false (pretty_N_go x s) (read_so_far 0 d) =
       read_mantissa false s (read_so_far (Z.of_N x) true) ∧ d = false.
Proof.
  intros Hx. exists false. split; [|done].
  revert s. induction x as [x IH] using (well_founded_induction N.lt_wf_0). intros s.
  rewrite pretty_N_go_step by done.
  destruct (pretty_char_digit (x `mod` 10)%N) as [Hd Hv]; [by apply N.mod_lt|].
  destruct (decide (x `div` 10 = 0)%N) as [Hz|Hz].
  - rewrite Hz, pretty_N_go_0, read_digit by done. do 2 f_equal. rewrite Hv.
    pose proof (N.div_mod x 10). lia.
  - rewrite IH; [|by apply N.div_lt|by apply N.neq_0_lt_0]. rewrite read_digit by done. do 2 f_equal.
    rewrite Hv. pose proof (N.div_mod x 10). lia.
Qed.

Lemma pretty_go_digits x s : string_forallb digit s = true →
  string_forallb digit (pretty_N_go x s) = true.
Proof.
  revert s. induction x as [x IH] using (well_founded_induction N.lt_wf_0). intros s Hs.
  destruct (decide (x = 0)%N) as [->|Hx]; [by rewrite pretty_N_go_0|].
  rewrite pretty_N_go_step by lia. apply IH; [by apply N.div_lt; lia|].
  simpl. by rewrite (proj1 (pretty_char_digit _ (N.mod_lt x 10 ltac:(done)))).
Qed.

Lemma Itoa_digits n : 0 <= n → string_forallb digit (Itoa n) = true ∧ Itoa n ≠ "".
Proof.
  intros Hn. destruct n as [|p|p]; [done| |lia]. change (Itoa (Zpos p)) with (pretty_N_go (N.pos p) "").
  split; [by apply pretty_go_digits|].
  rewrite pretty_N_go_step by done. intros He.
  apply (f_equal String.length) in He. revert He.
  assert (∀ x s, (String.length s ≤ String.length (pretty_N_go x s))%nat) as Hlen.
  { intros x. induction x as [x IH] using (well_founded_induction N.lt_wf_0). intros s.
    destruct (decide (x = 0)%N) as [->|Hx]; [by rewrite pretty_N_go_0|].
    rewrite pretty_N_go_step by lia. etrans; [|apply IH, N.div_lt; lia]. simpl. lia. }
  pose proof (Hlen (N.pos p `div` 10)%N (String (pretty_N_char (N.pos p `mod` 10)) "")) as Hl.
  simpl in Hl |- *. lia.
Qed.

Lemma read_Itoa n : 0 <= n →
  read_mantissa false (Itoa n) (read_so_far 0 false) = (read_so_far n true, "").
Proof.
  intros Hn. destruct n as [|p|p]; [done| |lia].
  change (Itoa (Zpos p)) with (pretty_N_go (N.pos p) "").
  destruct (read_pretty (N.pos p) "") as (d & Hr & ->); [done|]. by rewrite Hr.
Qed.

Lemma digits_take_sign s : string_forallb digit s = true → take_sign s = (false, s).
Proof.
  destruct s as [|a s]; [done|]. simpl. rewrite andb_true_iff. intros [Ha _].
  by rewrite !decide_False by by apply (digit_not a).
Qed.

Lemma digits_special s : string_forallb digit s = true → special s = None.
Proof.
  intros Hs. unfold special. rewrite digits_take_sign by done.
  assert (∀ t a u, t = String a u → digit a = false → string_map lower_byte s ≠ t) as Hne.
  { intros t a u -> Ha. destruct s as [|c s]; [done|]. simpl in Hs |- *.
    apply andb_true_iff in Hs as [Hc _]. intros [= Heq _].
    assert (lower_byte c = c) as Hl.
    { apply lower_byte_id. apply in_range_spec in Hc.
      unfold is_lower_byte, is_ascii_byte, in_range, RuneSelf. lia. }
    rewrite Hl in Heq. congruence. }
  rewrite !bool_decide_eq_false_2; [done|by eapply Hne..].
Qed.

Lemma digits_no_hex a x : digit x = true → bool_decide (a = "0"%char) && lower_is "x" x = false.
Proof.
  intros Hx. apply andb_false_iff. right. unfold lower_is. apply bool_decide_eq_false_2.
  rewrite lower_byte_id.
  - by apply digit_not.
  - apply in_range_spec in Hx. unfold is_lower_byte, is_ascii_byte, in_range, RuneSelf. lia.
Qed.

Lemma readFloat_Itoa n : 0 <= n → readFloat (Itoa n) = Some (false, false, n, 0).
Proof.
  intros Hn. destruct (Itoa_digits n) as [Hd _]; [lia|].
  unfold readFloat. rewrite digits_take_sign by done.
  assert (match Itoa n with
    | String z (String x ((String _ _) as u)) =>
        if bool_decide (z = "0"%char) && lower_is "x" x then (true, u) else (false, Itoa n)
    | _ => (false, Itoa n) end = (false, Itoa n)) as ->.
  { destruct (Itoa n) as [|z [|x [|y u]]]; try done. simpl in Hd.
    rewrite !andb_true_iff in Hd. destruct Hd as (_ & Hx & _). by rewrite digits_no_hex. }
  change {| mant := 0; frac := 0; sawdot := false; sawdigits := false; scored := false |}
    with (read_so_far 0 false).
  by rewrite read_Itoa.
Qed.

Lemma ParseFloat_Itoa n : 0 <= n < 2 ^ 53 → ParseFloat (Itoa n) = Some (float_of_Z n).
Proof.
  intros Hn. unfold ParseFloat. rewrite digits_special by (apply Itoa_digits; lia).
  rewrite readFloat_Itoa by lia. unfold round_value.
  destruct n as [|p|p]; [done| |lia]. change (Zpos p =? 0) with false.
  change (0 <=? 0) with true. cbv iota. rewrite Z.pow_0_r, Z.mul_1_r.
  destruct (float_of_Z_small p) as (m & k & Hf & _); [lia|].
  change (binary_normalize prec emax (Zpos p) 0 false) with (float_of_Z (Zpos p)).
  by rewrite Hf.
Qed.
