(* ===== verification/GoJson.v ===== *)
(** * Go's [encoding/json], as far as the command line prints with it

    [MarshalIndent(v, "", "  ")] for strings, booleans, numbers, slices and maps
    with string keys.  Strings are escaped for HTML as well, invalid UTF-8 is
    replaced; a [float64] prints the shortest decimal that reads back as the
    same number, and has no encoding when it is infinite or not a number. *)

From Stdlib Require Import SpecFloat.
From S2P Require Import Prelude GoStrings GoText GoFloat.
Local Open Scope Z_scope.
#[local] Set Warnings "-register-all".

(** A map is its entries, in any order. *)
Inductive json :=
  | JString (s : string)
  | JBool (b : bool)
  | JInt (z : Z)
  | JFloat (f : float64)
  | JArray (l : list json)
  | JMap (l : list (string * json)).

(** ** Strings *)

(** The bytes below [utf8.RuneSelf] printed as they are ([htmlSafeSet]). *)
Definition html_safe (a : ascii) : bool :=
  in_range 32 127 a && negb (bool_decide (a ∈ [quote_char; backslash; "<"; ">"; "&"]%char)).

Definition short_escapes : list (Z * ascii) :=
  [(8, "b"); (12, "f"); (10, "n"); (13, "r"); (9, "t")]%char.

Definition escape_byte (a : ascii) : string :=
  if html_safe a then String a ""
  else if bool_decide (a ∈ [quote_char; backslash]) then String backslash (String a "")
  else match list_find (λ p, p.1 = byte_val a) short_escapes with
  | Some (_, (_, c)) => String backslash (String c "")
  | None => String backslash ("u00" +:+ hex_digits 2 (byte_val a))
  end.

Fixpoint escape_json (fuel : nat) (s : string) : string :=
  match fuel, s with
  | S n, String a s' =>
      if is_ascii_byte a then escape_byte a +:+ escape_json n s'
      else
        let '(r, k) := decode_rune s in
        (if (r =? RuneError) && (k =? 1)%nat then String backslash "ufffd"
         else if (r =? 0x2028) || (r =? 0x2029)
              then String backslash ("u202" +:+ hex_digits 1 r)
         else str_take k s) +:+ escape_json n (str_drop k s)
  | _, _ => ""
  end.

Definition json_string (s : string) : string :=
  String quote_char (escape_json (String.length s) s +:+ String quote_char "").

(** ** Numbers *)

(** [m * 2^e * 10^p] as quotient, remainder and divisor *)
Definition scaled (m e p : Z) : Z * Z * Z :=
  let num := m * 2 ^ Z.max 0 e * 10 ^ Z.max 0 p in
  let den := 2 ^ Z.max 0 (- e) * 10 ^ Z.max 0 (- p) in
  (num / den, num `mod` den, den).

(** The decimal exponent of the leading digit: every [float64] times [10^400] has
    an integer part. *)
Definition decimal_exponent (m e : Z) : Z :=
  Z.of_nat (String.length (Itoa (scaled m e 400).1.1)) - 1 - 400.

(** [d * 10^-p] without zeros at the end *)
Fixpoint trim_zeros (fuel : nat) (d p : Z) : Z * Z :=
  match fuel with
  | S k => if (d `mod` 10 =? 0) && (0 <? p) then trim_zeros k (d / 10) (p - 1) else (d, p)
  | O => (d, p)
  end.

(** The decimal with the fewest digits, from [n] on, that reads back as [x], the
    nearest of them first.  Seventeen digits always do. *)
Fixpoint shortest (fuel : nat) (n : Z) (m e : Z) (x : float64) : Z * Z :=
  let p := n - 1 - decimal_exponent m e in
  let '(q, r, den) := scaled m e p in
  let near := if 2 * r <? den then q else if den <? 2 * r then q + 1
              else if Z.even q then q else q + 1 in
  let back d := feq (round_value false false d (- p)) x in
  if back near then trim_zeros 20 near p
  else if back q then trim_zeros 20 q p
  else if back (q + 1) then trim_zeros 20 (q + 1) p
  else match fuel with
  | O => trim_zeros 20 near p
  | S k => shortest k (n + 1) m e x
  end.

(** [k] digits of [n], with zeros in front *)
Definition pad_digits (k n : Z) : string := str_drop 1 (Itoa (10 ^ k + n)).

Definition plain_decimal (d p : Z) : string :=
  if p <=? 0 then Itoa (d * 10 ^ (- p))
  else Itoa (d / 10 ^ p) +:+ "." +:+ pad_digits p (d `mod` 10 ^ p).

(** Mantissa and exponent, as JSON shortens them: [e-9] and not [e-09], but
    [e+21]. *)
Definition exponent_decimal (d p : Z) : string :=
  let '(d, p) := trim_zeros 20 d (p + 400) in
  let ds := Itoa d in
  let x := Z.of_nat (String.length ds) - 1 - (p - 400) in
  str_take 1 ds +:+ (if (String.length ds =? 1)%nat then "" else "." +:+ str_drop 1 ds) +:+
  (if x <? 0 then "e-" +:+ Itoa (- x) else "e+" +:+ Itoa x).

Definition json_float (f : float64) : error + string :=
  match f with
  | S754_zero neg => inr (if neg then "-0" else "0")
  | S754_finite neg m e =>
      let x := S754_finite false m e in
      let '(d, p) := shortest 16 1 (Zpos m) e x in
      let small := flt x (round_value false false 1 (-6)) in
      let large := fge x (round_value false false 1 21) in
      inr ((if neg then "-" else "") +:+
           (if small || large then exponent_decimal d p else plain_decimal d p))
  | _ => inl (errorString ("json: unsupported value: " +:+ format_f 0 f))
  end.

(** ** Values *)

(** The entries of a map, sorted by key. *)
Definition sort_entries {A} (l : list (string * A)) : list (string * A) :=
  merge_sort (λ x y, String.le x.1 y.1) l.

Definition nl_indent (k : nat) : string := String newline (String.concat "" (replicate k "  ")).

(** [open], the items one per line, [close]; nothing in between when there are
    none. *)
Definition enclose (opening closing : string) (k : nat) (items : list string) : string :=
  match items with
  | [] => opening +:+ closing
  | _ => opening +:+ nl_indent (S k) +:+ String.concat ("," +:+ nl_indent (S k)) items +:+
         nl_indent k +:+ closing
  end.

(** The first error among the encodings of the items. *)
Fixpoint collect (l : list (error + string)) : error + list string :=
  match l with
  | [] => inr []
  | inl e :: _ => inl e
  | inr s :: l' => match collect l' with inl e => inl e | inr r => inr (s :: r) end
  end.

Fixpoint encode_json (k : nat) (v : json) : error + string :=
  match v with
  | JString s => inr (json_string s)
  | JBool b => inr (if b then "true" else "false")
  | JInt z => inr (Itoa z)
  | JFloat f => json_float f
  | JArray l =>
      match collect (encode_json (S k) <$> l) with
      | inl e => inl e
      | inr items => inr (enclose "[" "]" k items)
      end
  | JMap l =>
      let entries := (λ kv, (kv.1, encode_json (S k) kv.2)) <$> l in
      match collect ((λ kv, match kv.2 with
        | inl e => inl e
        | inr s => inr (json_string kv.1 +:+ ": " +:+ s)
        end) <$> sort_entries entries) with
      | inl e => inl e
      | inr items => inr (enclose "{" "}" k items)
      end
  end.

Definition MarshalIndent (v : json) : error + string := encode_json 0 v.

Example json_floats :
  (λ s, option_map json_float (ParseFloat s)) <$>
    ["42"; "0.1"; "1e21"; "123456789012345678"; "1e-7"; "inf"] =
  [Some (inr "42"); Some (inr "0.1"); Some (inr "1e+21"); Some (inr "123456789012345680");
   Some (inr "1e-7"); Some (inl (errorString "json: unsupported value: +Inf"))].
Proof. by vm_compute. Qed.

(** ** When a value has an encoding *)

Definition finite (f : float64) : bool :=
  match f with S754_zero _ | S754_finite _ _ _ => true | _ => false end.

Lemma json_float_finite f : (∃ s, json_float f = inr s) ↔ finite f = true.
Proof.
  destruct f as [neg|neg| |neg m e]; unfold json_float, finite.
  - split; [done|by eexists].
  - split; [by intros [? [=]]|done].
  - split; [by intros [? [=]]|done].
  - destruct (shortest _ _ _ _ _) as [d p]. split; [done|by eexists].
Qed.

Lemma collect_inr l : (∃ r, collect l = inr r) ↔ Forall (λ x, ∃ s, x = inr s) l.
Proof.
  induction l as [|[e|s] l IH]; cbn [collect].
  - split; [by constructor|by eexists].
  - rewrite Forall_cons. split; [by intros [? [=]]|by intros [[? [=]] _]].
  - rewrite Forall_cons, <- IH. destruct (collect l) as [e|r]; split.
    + by intros [? [=]].
    + by intros [_ [? [=]]].
    + intros _. split; by eexists.
    + by eexists.
Qed.

Lemma sort_entries_perm {A} (l : list (string * A)) : sort_entries l ≡ₚ l.
Proof. apply merge_sort_Permutation. Qed.

(** A map has an encoding when its values have. *)
Lemma encode_map k l :
  (∃ s, encode_json k (JMap l) = inr s) ↔ Forall (λ kv, ∃ s, encode_json (S k) kv.2 = inr s) l.
Proof.
  cbn [encode_json]. set (es := (λ kv : string * json, (kv.1, encode_json (S k) kv.2)) <$> l).
  set (f := λ kv : string * (error + string), match kv.2 with
    | inl e => inl e | inr s => inr (json_string kv.1 +:+ ": " +:+ s) end).
  trans (∃ r, collect (f <$> sort_entries es) = inr r).
  { destruct (collect _); split; intros [? [=]]; by eexists. }
  rewrite collect_inr, Forall_fmap, sort_entries_perm. unfold es. rewrite Forall_fmap.
  apply Forall_iff. intros [key v]. unfold f. simpl.
  destruct (encode_json (S k) v); split; intros [? [=]]; by eexists.
Qed.
