(* ===== verification/GoFlag.v ===== *)
(** * Command-line flags: Go's [flag] package

    A flag is a setter on the program's option values [S]; [flag_Parse] is
    [FlagSet.Parse] with [parseOne] inlined, on the flags of [flag.CommandLine].
    [parse_exact] says which command lines are accepted and what they set. *)

From S2P Require Import Prelude GoStrings.

(** How a process ends. *)
Inductive outcome := exited (status : Z) | panicked.
#[export] Instance outcome_eq_dec : EqDecision outcome.
Proof. solve_decision. Defined.

Record Flag (S : Type) := {
  flag_bool : bool; (* [IsBoolFlag]: needs no argument *)
  flag_set : string → S → error + S;
}.
Arguments flag_bool {S} _.
Arguments flag_set {S} _ _ _.

Abbreviation FlagSet S := (gmap string (Flag S)).

(** ** Values *)

(** [flag.StringVar] *)
Definition StringFlag {S} (put : string → S → S) : Flag S :=
  {| flag_bool := false; flag_set v s := inr (put v s) |}.

(** [strconv.ParseBool] *)
Definition ParseBool (s : string) : option bool :=
  if decide (s ∈ ["1"; "t"; "T"; "true"; "TRUE"; "True"]) then Some true
  else if decide (s ∈ ["0"; "f"; "F"; "false"; "FALSE"; "False"]) then Some false
  else None.

Definition errParse : error := errorString "parse error".

(** [flag.BoolVar] *)
Definition BoolFlag {S} (put : bool → S → S) : Flag S :=
  {| flag_bool := true;
     flag_set v s := match ParseBool v with Some b => inr (put b s) | None => inl errParse end |}.

(** A flag on a part of the options, for the flags of a library. *)
Definition part_flag {S K} (get : S → K) (put : K → S → S) (f : Flag K) : Flag S :=
  {| flag_bool := flag_bool f;
     flag_set v s := match flag_set f v (get s) with inl e => inl e | inr k => inr (put k s) end |}.

(** ** Definition *)

Definition is_eq (a : ascii) : bool := Ascii.eqb a "=".
Definition is_dash (a : ascii) : bool := Ascii.eqb a "-".

(** [FlagSet.Var], [None] when it panics: the name begins with a dash, contains an
    equals sign or is defined already *)
Definition Var {S} (name : string) (f : Flag S) (fs : FlagSet S) : option (FlagSet S) :=
  if HasPrefix name "-" || negb (string_forallb (λ a, negb (is_eq a)) name) then None
  else match fs !! name with Some _ => None | None => Some (<[name := f]> fs) end.

Fixpoint define_all {S} (l : list (string * Flag S)) (fs : FlagSet S) : option (FlagSet S) :=
  match l with
  | [] => Some fs
  | (name, f) :: l' => fs' ← Var name f fs; define_all l' fs'
  end.

(** ** Parsing *)

(** [strings.Cut(s, "=")] *)
Fixpoint cut_eq (s : string) : string * option string :=
  match s with
  | "" => ("", None)
  | String a t => if is_eq a then ("", Some t) else let '(n, v) := cut_eq t in (String a n, v)
  end.

(** What an argument is, by its shape. *)
Inductive token :=
  | NotFlag
  | Terminator
  | BadSyntax
  | FlagArg (name : string) (value : option string).

(** The text after one or two dashes. *)
Definition lex_name (name : string) : token :=
  match name with
  | "" => BadSyntax
  | String c _ =>
      if is_dash c || is_eq c then BadSyntax
      else let '(n, v) := cut_eq name in FlagArg n v
  end.

Definition lex (s : string) : token :=
  match s with
  | String a (String b t) =>
      if negb (is_dash a) then NotFlag
      else if is_dash b then if decide (t = "") then Terminator else lex_name t
      else lex_name (String b t)
  | _ => NotFlag
  end.

Inductive parsed (S : Type) :=
  | Parsed (s : S) (args : list string)
  | ErrHelp
  | ParseError (e : error).
Arguments Parsed {S} _ _.
Arguments ErrHelp {S}.
Arguments ParseError {S} _.

Section parse.
Context `{!UnicodeTables} {S : Type} (fs : FlagSet S).

Definition failf (msg : string) : parsed S := ParseError (errorString msg).

(** [if err := flag.Value.Set(value); err != nil { ... }] *)
Definition set_flag (f : Flag S) (v : string) (s : S) (msg : error → string)
    (k : S → parsed S) : parsed S :=
  match flag_set f v s with inl e => failf (msg e) | inr s' => k s' end.

Fixpoint flag_Parse (args : list string) (s : S) : parsed S :=
  match args with
  | [] => Parsed s []
  | a :: rest =>
      match lex a with
      | NotFlag => Parsed s (a :: rest)
      | Terminator => Parsed s rest
      | BadSyntax => failf ("bad flag syntax: " +:+ a)
      | FlagArg name value =>
          match fs !! name with
          | None =>
              if decide (name ∈ ["help"; "h"]) then ErrHelp
              else failf ("flag provided but not defined: -" +:+ name)
          | Some f =>
              if flag_bool f then
                set_flag f (default "true" value) s (λ e,
                  match value with
                  | Some v => "invalid boolean value " +:+ Quote v +:+ " for -" +:+ name
                  | None => "invalid boolean flag " +:+ name
                  end +:+ ": " +:+ Error e)
                  (λ s', flag_Parse rest s')
              else
                let msg v e := "invalid value " +:+ Quote v +:+ " for flag -" +:+ name +:+ ": "
                               +:+ Error e in
                match value, rest with
                | Some v, _ => set_flag f v s (msg v) (λ s', flag_Parse rest s')
                | None, v :: rest' => set_flag f v s (msg v) (λ s', flag_Parse rest' s')
                | None, [] => failf ("flag needs an argument: -" +:+ name)
                end
          end
      end
  end.
End parse.

(** ** Which command lines are accepted *)

(** How one flag can be written: with one dash or two, and its value after an
    equals sign, in the next argument, or, for a boolean flag, left out. *)
Inductive shape := WithEquals | NextArgument | Bare.
Record setting := { set_long : bool; set_shape : shape; set_name : string; set_value : string }.

Definition dashes (x : setting) : string := if set_long x then "--" else "-".

Definition spell (x : setting) : list string :=
  match set_shape x with
  | WithEquals => [dashes x +:+ set_name x +:+ "=" +:+ set_value x]
  | NextArgument => [dashes x +:+ set_name x; set_value x]
  | Bare => [dashes x +:+ set_name x]
  end.

(** A name a flag argument can carry. *)
Definition flag_name (name : string) : bool :=
  match name with
  | "" => false
  | String c _ => negb (is_dash c) && string_forallb (λ a, negb (is_eq a)) name
  end.

Section exact.
Context {S : Type} (fs : FlagSet S).

(** [x] sets a defined flag, in a shape that fits it, from [s] to [s']. *)
Definition sets (x : setting) (s s' : S) : Prop :=
  flag_name (set_name x) = true ∧
  ∃ f, fs !! set_name x = Some f ∧ flag_set f (set_value x) s = inr s' ∧
    match set_shape x with
    | WithEquals => True
    | NextArgument => flag_bool f = false
    | Bare => flag_bool f = true ∧ set_value x = "true"
    end.

Inductive sets_all : list setting → S → S → Prop :=
  | sets_nil s : sets_all [] s s
  | sets_cons x l s1 s2 s3 : sets x s1 s2 → sets_all l s2 s3 → sets_all (x :: l) s1 s3.

(** The end of the flags: nothing, an argument that is no flag, or a terminator,
    which is dropped. *)
Inductive ends : list string → list string → Prop :=
  | ends_nil : ends [] []
  | ends_plain a args : lex a = NotFlag → ends (a :: args) (a :: args)
  | ends_terminator args : ends ("--" :: args) args.
End exact.

Definition no_eq (s : string) : bool := string_forallb (λ a, negb (is_eq a)) s.

Lemma cut_eq_value n v : no_eq n = true → cut_eq (n +:+ "=" +:+ v) = (n, Some v).
Proof.
  induction n as [|a n IH]; [done|]. rewrite str_app_cons. unfold no_eq. simpl.
  destruct (is_eq a); [done|]. simpl. intros Hn. by rewrite IH.
Qed.

Lemma cut_eq_none n : no_eq n = true → cut_eq n = (n, None).
Proof.
  induction n as [|a n IH]; [done|]. unfold no_eq. simpl.
  destruct (is_eq a); [done|]. simpl. intros Hn. by rewrite IH.
Qed.

Lemma cut_eq_inv s n v : cut_eq s = (n, v) →
  no_eq n = true ∧ s = match v with Some x => n +:+ "=" +:+ x | None => n end.
Proof.
  revert n v. induction s as [|a s IH]; intros n v; simpl; [by intros [= <- <-]|].
  destruct (is_eq a) eqn:Ha.
  - intros [= <- <-]. apply Ascii.eqb_eq in Ha as ->. done.
  - destruct (cut_eq s) as [n' v'] eqn:Hc. intros [= <- <-].
    destruct (IH n' v' eq_refl) as [Hn ->]. unfold no_eq in *. simpl. rewrite Ha. simpl.
    split; [done|]. by destruct v'.
Qed.

Lemma lex_dashes x t : flag_name (set_name x) = true →
  lex (dashes x +:+ set_name x +:+ t) =
  let '(n, v) := cut_eq (set_name x +:+ t) in FlagArg n v.
Proof.
  unfold dashes, flag_name. destruct (set_name x) as [|c n]; [done|].
  rewrite str_app_cons. rewrite andb_true_iff. intros [Hc Hn]. simpl in Hn.
  apply andb_true_iff in Hn as [He _]. apply negb_true_iff in Hc, He.
  destruct (set_long x); simpl; rewrite Hc; simpl; by rewrite He.
Qed.

Lemma flag_name_no_eq name : flag_name name = true → no_eq name = true.
Proof. destruct name; [done|]. simpl. intros [_ H]%andb_true_iff. done. Qed.

Lemma lex_equals x : flag_name (set_name x) = true →
  lex (dashes x +:+ set_name x +:+ "=" +:+ set_value x) = FlagArg (set_name x) (Some (set_value x)).
Proof. intros Hx. rewrite lex_dashes, cut_eq_value by auto using flag_name_no_eq. done. Qed.

Lemma lex_bare x : flag_name (set_name x) = true →
  lex (dashes x +:+ set_name x) = FlagArg (set_name x) None.
Proof.
  intros Hx. pose proof (lex_dashes x "" Hx) as Hl. rewrite !str_app_nil_r in Hl.
  by rewrite Hl, cut_eq_none by auto using flag_name_no_eq.
Qed.

(** An argument that lexes as a flag is one of the spellings. *)
Lemma lex_name_inv s n v : lex_name s = FlagArg n v →
  flag_name n = true ∧ s = match v with Some x => n +:+ "=" +:+ x | None => n end.
Proof.
  destruct s as [|c s]; simpl; [done|].
  destruct (is_dash c) eqn:Hd; [done|]. destruct (is_eq c) eqn:He; [done|]. simpl.
  destruct (cut_eq s) as [n' v'] eqn:Hc. intros [= <- <-].
  apply cut_eq_inv in Hc as [Hn ->]. simpl. rewrite Hd, He. split; [done|]. by destruct v'.
Qed.

Lemma lex_inv a n v : lex a = FlagArg n v →
  flag_name n = true ∧ ∃ long, a =
    (if long : bool then "--" else "-") +:+ match v with Some x => n +:+ "=" +:+ x | None => n end.
Proof.
  destruct a as [|c [|b t]]; [done|done|]. unfold lex.
  destruct (is_dash c) eqn:Hc; cbn [negb]; [|done]. apply Ascii.eqb_eq in Hc as ->.
  destruct (is_dash b) eqn:Hb.
  - apply Ascii.eqb_eq in Hb as ->. case_decide; [done|].
    intros [Hn ->]%lex_name_inv. split; [done|]. by exists true.
  - intros [Hn Ht]%lex_name_inv. split; [done|]. exists false. by rewrite Ht.
Qed.

Lemma lex_terminator a : lex a = Terminator → a = "--".
Proof.
  destruct a as [|c [|b t]]; [done|done|]. unfold lex.
  destruct (is_dash c) eqn:Hc; cbn [negb]; [|done]. apply Ascii.eqb_eq in Hc as ->.
  assert (∀ s, lex_name s ≠ Terminator) as Hn.
  { intros [|d s]; unfold lex_name; [done|]. destruct (is_dash d || is_eq d); [done|].
    by destruct (cut_eq _). }
  destruct (is_dash b) eqn:Hb; [|by intros ?%Hn].
  apply Ascii.eqb_eq in Hb as ->. case_decide; [by subst|by intros ?%Hn].
Qed.

Section exact_proof.
Context `{!UnicodeTables} {S : Type} (fs : FlagSet S).

Lemma Parse_ends args rest s : ends args rest → flag_Parse fs args s = Parsed s rest.
Proof. intros [|a l Ha|l]; simpl; [done|by rewrite Ha|done]. Qed.

Lemma Parse_spell x s s' args : sets fs x s s' → flag_Parse fs (spell x ++ args) s = flag_Parse fs args s'.
Proof.
  intros (Hn & f & Hf & Hs & Hshape). unfold spell.
  destruct (set_shape x); simpl; rewrite ?(lex_equals _ Hn), ?(lex_bare _ Hn), Hf.
  - destruct (flag_bool f); simpl; unfold set_flag; by rewrite Hs.
  - rewrite Hshape. unfold set_flag. by rewrite Hs.
  - destruct Hshape as [Hb Hv]. rewrite Hb. unfold set_flag. simpl. by rewrite <- Hv, Hs.
Qed.

Lemma Parse_sound l s s' args rest : sets_all fs l s s' → ends args rest →
  flag_Parse fs ((l ≫= spell) ++ args) s = Parsed s' rest.
Proof.
  intros Hl He. induction Hl as [s|x l s1 s2 s3 Hx _ IH]; [by apply Parse_ends|].
  csimpl. rewrite <- app_assoc. by rewrite (Parse_spell _ _ _ _ Hx).
Qed.

(** The settings an accepted command line stands for. *)
Definition accepted (args : list string) (s s' : S) (rest : list string) : Prop :=
  ∃ l tail, args = (l ≫= spell) ++ tail ∧ sets_all fs l s s' ∧ ends tail rest.

Lemma accepted_cons x args s s1 s' rest : sets fs x s s1 → accepted args s1 s' rest →
  accepted (spell x ++ args) s s' rest.
Proof.
  intros Hx (l & tail & -> & Hl & He). exists (x :: l), tail. csimpl.
  rewrite app_assoc. split; [done|]. split; [by econstructor|done].
Qed.

Lemma Parse_complete_len n args s s' rest : (length args ≤ n)%nat →
  flag_Parse fs args s = Parsed s' rest → accepted args s s' rest.
Proof.
  revert args s. induction n as [|n IH]; intros [|a args] s Hlen Hp; simpl in Hlen; try lia.
  { injection Hp as <- <-. exists [], []. repeat constructor. }
  { injection Hp as <- <-. exists [], []. repeat constructor. }
  simpl in Hp. destruct (lex a) as [| | |name value] eqn:Ha.
  - injection Hp as <- <-. exists [], (a :: args). by repeat constructor.
  - apply lex_terminator in Ha as ->. injection Hp as <- <-.
    exists [], ("--" :: args). repeat constructor.
  - done.
  - apply lex_inv in Ha as (Hn & long & ->).
    destruct (fs !! name) as [f|] eqn:Hf; [|by case_decide].
    unfold set_flag in Hp.
    destruct (flag_bool f) eqn:Hb; [|destruct value as [v|]; [|destruct args as [|v args]; [done|]]].
    + destruct (flag_set f (default "true" value) s) as [e|s1] eqn:Hs; [done|].
      apply IH in Hp; [|lia]. destruct value as [v|]; simpl in *.
      * apply (accepted_cons {| set_long := long; set_shape := WithEquals; set_name := name;
          set_value := v |} _ _ s1); [|done]. split; [done|]. by exists f.
      * apply (accepted_cons {| set_long := long; set_shape := Bare; set_name := name;
          set_value := "true" |} _ _ s1); [|done]. split; [done|]. by exists f.
    + destruct (flag_set f v s) as [e|s1] eqn:Hs; [done|]. apply IH in Hp; [|lia].
      apply (accepted_cons {| set_long := long; set_shape := WithEquals; set_name := name;
        set_value := v |} _ _ s1); [|done]. split; [done|]. by exists f.
    + destruct (flag_set f v s) as [e|s1] eqn:Hs; [done|]. simpl in Hlen. apply IH in Hp; [|lia].
      apply (accepted_cons {| set_long := long; set_shape := NextArgument; set_name := name;
        set_value := v |} _ _ s1); [|done]. split; [done|]. by exists f.
Qed.

(** A command line is accepted exactly when it spells a sequence of settings of
    defined flags, followed by the remaining arguments; the options are the
    defaults with the settings applied in order. *)
Lemma parse_exact args s s' rest :
  flag_Parse fs args s = Parsed s' rest ↔ accepted args s s' rest.
Proof.
  split; [by eapply Parse_complete_len|].
  intros (l & tail & -> & Hl & He). by apply Parse_sound.
Qed.
End exact_proof.

(** ** What the flags leave in the options *)

(** The value of the last setting of [name], read by [dec]. *)
Definition last_set {A} (dec : string → option A) (name : string) (l : list setting) (d : A) : A :=
  fold_left (λ a x, if decide (set_name x = name) then default a (dec (set_value x)) else a) l d.

(** [get] is the field that the flag [name], and no other, writes. *)
Definition field_of {S A} (fs : FlagSet S) (get : S → A) (name : string)
    (dec : string → option A) : Prop :=
  ∀ n f v s s', fs !! n = Some f → flag_set f v s = inr s' →
    if decide (n = name) then dec v = Some (get s') else get s' = get s.

Lemma sets_all_field {S A} (fs : FlagSet S) (get : S → A) name dec l s s' :
  field_of fs get name dec → sets_all fs l s s' → get s' = last_set dec name l (get s).
Proof.
  intros Hget Hl. induction Hl as [s|x l s1 s2 s3 (_ & f & Hf & Hs & _) _ IH]; [done|].
  rewrite IH. unfold last_set. simpl. f_equal.
  pose proof (Hget _ _ _ _ _ Hf Hs) as Hx. case_decide; [by rewrite Hx|done].
Qed.

(** ** Defining flags *)

(** A name [Var] accepts. *)
Definition var_name (name : string) : bool :=
  negb (HasPrefix name "-") && no_eq name.

Lemma define_all_ok {S} (l : list (string * Flag S)) (fs : FlagSet S) :
  NoDup l.*1 → Forall (λ p, var_name p.1 = true ∧ fs !! p.1 = None) l →
  define_all l fs = Some (list_to_map l ∪ fs).
Proof.
  revert fs. induction l as [|[n f] l IH]; intros fs Hnd Hl; simpl.
  { by rewrite (left_id_L ∅ (∪)). }
  apply Forall_cons in Hl as [[Hn Hfresh] Hl]. csimpl in *. apply NoDup_cons in Hnd as [Hnot Hnd].
  unfold Var. unfold var_name, no_eq in Hn. apply andb_true_iff in Hn as [Hd He].
  apply negb_true_iff in Hd. rewrite Hd, He. simpl. rewrite Hfresh. simpl. rewrite IH; [|done|].
  - f_equal. simpl. rewrite <- insert_union_r; [|by apply not_elem_of_list_to_map].
    by rewrite insert_union_l.
  - apply Forall_forall. intros [m g] Hin.
    rewrite Forall_forall in Hl. destruct (Hl _ Hin) as [Hm Hfr]. split; [done|].
    rewrite lookup_insert_ne; [done|]. intros ->. apply Hnot. apply list_elem_of_fmap.
    by exists (m, g).
Qed.
