(* ===== verification/GoHeap.v ===== *)
(** * Go memory: pointers, slices and deep copies

    A heap maps locations to cells; an action on it is a [Go] action whose state
    is the heap, so a nil or dangling pointer panics.  [Deep A V] says how a Go
    value of type [A] represents a mathematical value of type [V] in a heap,
    which locations it reaches, and how it is copied deeply; [DeepLaws] is the
    contract of a deep copy: it succeeds, changes nothing that was there, stands
    for the same value, and reaches only fresh locations.  Pairs, pointers and
    slices inherit the contract from their parts. *)

From S2P Require Import Prelude.

Abbreviation loc := positive.

Section heap.
Context {C : Type}.
Abbreviation heap := (gmap loc C).
Implicit Types (h : heap) (l : loc) (c : C).

Definition alloc c : Go heap loc := λ h, let l := fresh (dom h) in (Ok l, <[l := c]> h).
Definition load l : Go heap C := λ h,
  match h !! l with Some c => (Ok c, h) | None => (Panic, h) end.
Definition store l c : Go heap unit := λ h,
  match h !! l with Some _ => (Ok (), <[l := c]> h) | None => (Panic, h) end.
Definition panic {A} : Go heap A := λ h, (Panic, h).

(** The cells at the locations [s] are the same in both heaps. *)
Definition agree (s : gset loc) h h' : Prop := ∀ l, l ∈ s → h' !! l = h !! l.

(** ** Deep values *)

Class Deep (A V : Type) := {
  reads : heap → A → V → Prop;
  reach : heap → A → gset loc;
  copy : A → Go heap A;
}.

Class DeepLaws (A V : Type) `{!Deep A V} : Prop := {
  (** what is reached exists *)
  reads_alive h (a : A) (v : V) : reads h a v → reach h a ⊆ dom h;
  (** a value depends on the cells it reaches only *)
  reads_agree h h' (a : A) (v : V) : reads h a v → agree (reach h a) h h' →
    reads h' a v ∧ reach h' a = reach h a;
  copy_ok h (a : A) (v : V) : reads h a v →
    ∃ a' h', copy a h = (Ok a', h') ∧ h ⊆ h' ∧ reads h' a' v ∧ reach h' a' ## dom h;
}.

(** ** Lemmas on heaps *)

Lemma alloc_ok c h : ∃ l, alloc c h = (Ok l, <[l := c]> h) ∧ h !! l = None.
Proof.
  exists (fresh (dom h)). split; [done|]. apply not_elem_of_dom, is_fresh.
Qed.

Lemma load_ok l c h : h !! l = Some c → load l h = (Ok c, h).
Proof. unfold load. by intros ->. Qed.

Lemma store_ok l c c0 h : h !! l = Some c0 → store l c h = (Ok (), <[l := c]> h).
Proof. unfold store. by intros ->. Qed.

Lemma agree_subseteq s h h' : h ⊆ h' → s ⊆ dom h → agree s h h'.
Proof.
  intros Hh Hs l Hl. apply Hs, elem_of_dom in Hl as [c Hc]. rewrite Hc.
  by eapply lookup_weaken.
Qed.

Lemma agree_mono s t h h' : t ⊆ s → agree s h h' → agree t h h'.
Proof. intros Hts Ha l Hl. by apply Ha, Hts. Qed.

Lemma agree_insert s l c h : l ∉ s → agree s h (<[l := c]> h).
Proof. intros Hl k Hk. apply lookup_insert_ne. by intros ->. Qed.

Lemma agree_trans s h1 h2 h3 : agree s h1 h2 → agree s h2 h3 → agree s h1 h3.
Proof. intros H1 H2 l Hl. by rewrite H2, H1. Qed.

Lemma dom_subseteq h h' : h ⊆ h' → dom h ⊆ dom h'.
Proof. apply subseteq_dom. Qed.

Section deep.
Context {A V : Type} `{!Deep A V, !DeepLaws A V}.

(** A value survives in every larger heap. *)
Lemma reads_extends h h' (a : A) (v : V) : reads h a v → h ⊆ h' →
  reads h' a v ∧ reach h' a = reach h a.
Proof.
  intros Hr Hh. apply reads_agree; [done|]. apply agree_subseteq; [done|].
  by eapply reads_alive.
Qed.
End deep.
End heap.
Arguments Deep : clear implicits.
Arguments DeepLaws _ _ _ {_}.

(** ** Cells of a type *)

Class CellOf (C A : Type) := {
  to_cell : A → C;
  of_cell : C → option A;
  of_to_cell x : of_cell (to_cell x) = Some x;
  to_of_cell c x : of_cell c = Some x → c = to_cell x;
}.

(** The zero value of a Go type. *)
Class Zero (A : Type) := zero : A.

(** A pointer to an [A]; nil is [None]. *)
Record ptr (A : Type) := Ptr { ptr_loc : option loc }.
Arguments Ptr {A} _.
Arguments ptr_loc {A} _.

(** A slice of [A]: backing array, offset and length; nil is [None]. *)
Record slice (A : Type) := Slice { sl_hdr : option (loc * nat * nat) }.
Arguments Slice {A} _.
Arguments sl_hdr {A} _.

Section typed.
Context {C : Type}.
Abbreviation heap := (gmap loc C).

(** [*p] for a pointer that is not nil, at type [A] *)
Definition deref {A} `{!CellOf C A} (l : loc) : Go heap A :=
  c ← load l;
  match of_cell c with Some x => mret x | None => panic end.

(** [s[i]] *)
Definition index {A} `{!CellOf C (list A)} (hdr : loc * nat * nat) (i : nat) : Go heap A :=
  let '(l, off, len) := hdr in
  xs ← deref (A := list A) l;
  match xs !! (off + i)%nat with
  | Some x => if decide (i < len)%nat then mret x else panic
  | None => panic
  end.

(** [arr[i] = x] for a slice from the start of the array at [l] *)
Definition set_index {A} `{!CellOf C (list A)} (l : loc) (i : nat) (x : A) : Go heap unit :=
  xs ← deref (A := list A) l;
  if decide (i < length xs)%nat then store l (to_cell (<[i := x]> xs)) else panic.

(** [if in == nil { return nil }; out := new(A); into(in, out); return out] *)
Definition copy_pointer {A} `{!CellOf C A, !Zero A} (into : A → Go heap A) (p : ptr A)
    : Go heap (ptr A) :=
  match ptr_loc p with
  | None => mret (Ptr None)
  | Some l =>
      out ← alloc (to_cell zero);
      x ← deref l;
      y ← into x;
      _ ← store out (to_cell y);
      mret (Ptr (Some out))
  end.

(** [if s != nil { l := make([]A, len(s)); for i := range s { into(&s[i], &l[i]) } }] *)
Definition copy_slice {A} `{!CellOf C (list A), !Zero A} (into : A → Go heap A) (s : slice A)
    : Go heap (slice A) :=
  match sl_hdr s with
  | None => mret (Slice None)
  | Some hdr =>
      out ← alloc (to_cell (replicate hdr.2 zero));
      _ ← go_iter (λ i, x ← index hdr i; y ← into x; set_index out i y) (seq 0 hdr.2);
      mret (Slice (Some (out, 0%nat, hdr.2)))
  end.

Lemma deref_ok {A} `{!CellOf C A} l (x : A) (h : heap) :
  h !! l = Some (to_cell x) → deref l h = (Ok x, h).
Proof.
  intros Hl. unfold deref. rewrite (bind_Ok_l _ _ _ _ _ (load_ok _ _ _ Hl)). by rewrite of_to_cell.
Qed.

(** ** Instances *)

(** Values without pointers. *)
Definition plain_deep (A : Type) : Deep C A A := {|
  reads _ a v := a = v; reach _ _ := ∅; copy a := mret a |}.

Lemma plain_laws A : @DeepLaws C A A (plain_deep A).
Proof.
  split; simpl; [set_solver|done|]. intros h a v ->. exists v, h.
  split; [done|]. split; [done|]. split; [done|set_solver].
Qed.

#[export] Instance prod_deep {A B V U} `{!Deep C A V, !Deep C B U} : Deep C (A * B) (V * U) := {|
  reads h x v := reads h x.1 v.1 ∧ reads h x.2 v.2;
  reach h x := reach (A := A) (V := V) h x.1 ∪ reach (A := B) (V := U) h x.2;
  copy x := a ← copy (V := V) x.1; b ← copy (V := U) x.2; mret (a, b) |}.

#[export] Instance prod_laws {A B V U} `{!Deep C A V, !Deep C B U, !DeepLaws C A V, !DeepLaws C B U} :
  DeepLaws C (A * B) (V * U).
Proof.
  split; simpl.
  - intros h a v [H1 H2]. apply reads_alive in H1, H2. set_solver.
  - intros h h' a v [H1 H2] Ha.
    destruct (reads_agree h h' _ _ H1) as [R1 E1]; [eapply agree_mono; [|done]; set_solver|].
    destruct (reads_agree h h' _ _ H2) as [R2 E2]; [eapply agree_mono; [|done]; set_solver|].
    by rewrite E1, E2.
  - intros h [a b] [v u] [H1 H2]. simpl in *.
    destruct (copy_ok h a v H1) as (a' & h1 & C1 & S1 & R1 & F1).
    destruct (reads_extends h h1 b u H2 S1) as [H2' _].
    destruct (copy_ok h1 b u H2') as (b' & h2 & C2 & S2 & R2 & F2).
    exists (a', b'), h2. rewrite (bind_Ok_l _ _ _ _ _ C1), (bind_Ok_l _ _ _ _ _ C2).
    split; [done|]. split; [by etrans|]. simpl.
    destruct (reads_extends h1 h2 a' v R1 S2) as [R1' E1]. split; [done|].
    rewrite E1. pose proof (dom_subseteq _ _ S1). set_solver.
Qed.

Section pointer.
Context {A V : Type} `{!CellOf C A, !Zero A, !Deep C A V}.

#[export] Instance ptr_deep : Deep C (ptr A) (option V) := {|
  reads h p ov := match ptr_loc p, ov with
    | None, None => True
    | Some l, Some v => ∃ x, h !! l = Some (to_cell x) ∧ reads h x v
    | _, _ => False
    end;
  reach h p := match ptr_loc p with
    | None => ∅
    | Some l => {[l]} ∪ match h !! l ≫= of_cell with
        | Some x => reach (A := A) (V := V) h x | None => ∅ end
    end;
  copy := copy_pointer (copy (V := V)) |}.

Lemma reach_ptr h l x : h !! l = Some (to_cell x) →
  reach h (Ptr (A := A) (Some l)) = {[l]} ∪ reach (A := A) (V := V) h x.
Proof. simpl. intros ->. simpl. by rewrite of_to_cell. Qed.

Context `{!DeepLaws C A V}.

#[export] Instance ptr_laws : DeepLaws C (ptr A) (option V).
Proof.
  split.
  - intros h [[l|]] [v|] Hr; try done. destruct Hr as (x & Hl & Hr).
    rewrite (reach_ptr _ _ _ Hl). apply reads_alive in Hr.
    assert (l ∈ dom h) by by apply elem_of_dom. set_solver.
  - intros h h' [[l|]] [v|] Hr Ha; try done. destruct Hr as (x & Hl & Hr).
    rewrite (reach_ptr _ _ _ Hl) in Ha |- *.
    assert (h' !! l = Some (to_cell x)) as Hl' by (rewrite Ha; [done|set_solver]).
    destruct (reads_agree h h' x v Hr) as [Hr' He]; [eapply agree_mono; [|done]; set_solver|].
    rewrite (reach_ptr _ _ _ Hl'), He. split; [|done]. by exists x.
  - intros h [[l|]] [v|] Hr; try done.
    2: { exists (Ptr None), h. split; [done|]. split; [done|]. split; [done|]. simpl. set_solver. }
    destruct Hr as (x & Hl & Hr). simpl copy. unfold copy_pointer. simpl ptr_loc. cbv iota.
    destruct (alloc_ok (C := C) (to_cell zero) h) as (out & Halloc & Hout).
    set (h1 := <[out := to_cell zero]> h) in *.
    assert (h ⊆ h1) as S1 by by apply insert_subseteq.
    assert (h1 !! l = Some (to_cell x)) as Hl1 by by eapply lookup_weaken.
    destruct (reads_extends h h1 x v Hr S1) as [Hr1 _].
    destruct (copy_ok h1 x v Hr1) as (y & h2 & Hc & S2 & R2 & F2).
    assert (h2 !! out = Some (to_cell zero)) as Ho2
      by (apply (lookup_weaken h1); [apply lookup_insert_eq|done]).
    exists (Ptr (Some out)), (<[out := to_cell y]> h2).
    cbn [ptr_loc].
    rewrite (bind_Ok_l _ _ _ _ _ Halloc), (bind_Ok_l _ _ _ _ _ (deref_ok _ _ _ Hl1)),
      (bind_Ok_l _ _ _ _ _ Hc), (bind_Ok_l _ _ _ _ _ (store_ok _ _ _ _ Ho2)).
    split; [done|].
    assert (out ∈ dom h1) as Hin by (unfold h1; set_solver).
    destruct (reads_agree h2 (<[out := to_cell y]> h2) y v R2) as [R3 E3];
      [apply agree_insert; set_solver|].
    split; [apply insert_subseteq_r; [done|by etrans]|].
    split; [exists y; by rewrite lookup_insert_eq|].
    rewrite (reach_ptr _ _ y) by apply lookup_insert_eq. rewrite E3.
    apply not_elem_of_dom in Hout. pose proof (dom_subseteq _ _ S1). set_solver.
Qed.
End pointer.

(** The elements a slice shows. *)
Definition window {A} (hdr : loc * nat * nat) (xs : list A) : list A :=
  take hdr.2 (drop hdr.1.2 xs).

Section slices.
Context {A V : Type} `{!CellOf C (list A), !Zero A, !Deep C A V}.

Definition reach_all (h : heap) (xs : list A) : gset loc :=
  ⋃ ((λ x, reach (V := V) h x) <$> xs).

#[export] Instance slice_deep : Deep C (slice A) (option (list V)) := {|
  reads h s ovs := match sl_hdr s, ovs with
    | None, None => True
    | Some hdr, Some vs => ∃ xs, h !! hdr.1.1 = Some (to_cell xs) ∧
        (hdr.1.2 + hdr.2 ≤ length xs)%nat ∧ Forall2 (reads h) (window hdr xs) vs
    | _, _ => False
    end;
  reach h s := match sl_hdr s with
    | None => ∅
    | Some hdr => {[hdr.1.1]} ∪ match h !! hdr.1.1 ≫= of_cell (A := list A) with
        | Some xs => reach_all h (window hdr xs) | None => ∅ end
    end;
  copy := copy_slice (copy (V := V)) |}.

Lemma reach_slice h hdr xs : h !! hdr.1.1 = Some (to_cell xs) →
  reach h (Slice (A := A) (Some hdr)) = {[hdr.1.1]} ∪ reach_all h (window hdr xs).
Proof. simpl. intros ->. simpl. by rewrite of_to_cell. Qed.

Lemma elem_of_reach_all h xs l : l ∈ reach_all h xs ↔ ∃ x, x ∈ xs ∧ l ∈ reach (V := V) h x.
Proof.
  unfold reach_all. rewrite elem_of_union_list. setoid_rewrite list_elem_of_fmap. naive_solver.
Qed.

Context `{!DeepLaws C A V}.

Lemma reach_all_alive h xs vs : Forall2 (reads h) xs vs → reach_all h xs ⊆ dom h.
Proof.
  intros Hxs l (x & Hx & Hl)%elem_of_reach_all.
  apply list_elem_of_lookup in Hx as [i Hi].
  destruct (Forall2_lookup_l _ _ _ _ _ Hxs Hi) as (v & _ & Hr). by apply reads_alive in Hr; apply Hr.
Qed.

Lemma reads_all_agree h h' xs vs : Forall2 (reads h) xs vs → agree (reach_all h xs) h h' →
  Forall2 (reads h') xs vs ∧ reach_all h' xs = reach_all h xs.
Proof.
  induction 1 as [|x v xs vs Hx Hxs IH]; intros Ha; [done|].
  destruct (reads_agree h h' x v Hx) as [Hx' Ex].
  { eapply agree_mono; [|done]. unfold reach_all. set_solver. }
  destruct IH as [Hxs' Exs]; [eapply agree_mono; [|done]; unfold reach_all; set_solver|].
  split; [by constructor|]. unfold reach_all in *. csimpl. by rewrite Ex, Exs.
Qed.

Lemma window_lookup hdr (xs : list A) i : (i < hdr.2)%nat → window hdr xs !! i = xs !! (hdr.1.2 + i)%nat.
Proof. intros Hi. unfold window. by rewrite lookup_take_lt, lookup_drop. Qed.

Lemma index_ok hdr i x xs (h : heap) : h !! hdr.1.1 = Some (to_cell xs) →
  window hdr xs !! i = Some x → index hdr i h = (Ok x, h).
Proof.
  intros Hl Hx. destruct hdr as [[l off] len]. simpl in *.
  rewrite (bind_Ok_l _ _ _ _ _ (deref_ok _ _ _ Hl)).
  assert (i < len)%nat as Hi.
  { apply lookup_lt_Some in Hx. unfold window in Hx. simpl in Hx. rewrite length_take in Hx. lia. }
  rewrite window_lookup in Hx by done. simpl in Hx. by rewrite Hx, decide_True.
Qed.

(** The state of the copy loop after the elements [ys] of [n]. *)
Record filled (h0 : heap) (out : loc) (n : nat) (ys : list A) (vs : list V) (h : heap) : Prop := {
  filled_old : h0 ⊆ h;
  filled_out : h !! out = Some (to_cell (ys ++ replicate (n - length ys) zero));
  filled_new : h0 !! out = None;
  filled_reads : Forall2 (reads h) ys vs;
  filled_fresh : reach_all h ys ## dom h0;
  filled_outside : out ∉ reach_all h ys;
}.

(** One element more. *)
Lemma filled_step h0 out n ys vs h x v : filled h0 out n ys vs h →
  (length ys < n)%nat → reads h0 x v →
  ∃ y h', (y ← copy (V := V) x; set_index out (length ys) y) h = (Ok (), h') ∧
    filled h0 out n (ys ++ [y]) (vs ++ [v]) h'.
Proof.
  intros [Hold Hout Hnew Hrd Hfr Hoff] Hlt Hx.
  destruct (reads_extends h0 h x v Hx Hold) as [Hx' _].
  destruct (copy_ok h x v Hx') as (y & h1 & Hc & S1 & Ry & Fy).
  assert (h1 !! out = h !! out) as Ho1 by (rewrite Hout; by eapply lookup_weaken).
  destruct (reads_all_agree h h1 ys vs Hrd) as [Hrd1 E1].
  { apply agree_subseteq; [done|]. by eapply reach_all_alive. }
  set (h2 := <[out := to_cell ((ys ++ [y]) ++ replicate (n - length (ys ++ [y])) zero)]> h1).
  assert (out ∈ dom h) as Hdom by by apply elem_of_dom; rewrite Hout.
  destruct (reads_agree h1 h2 y v Ry) as [Ry2 Ey2]; [apply agree_insert; set_solver|].
  destruct (reads_all_agree h1 h2 ys vs Hrd1) as [Hrd2 E2]; [apply agree_insert; by rewrite E1|].
  exists y, h2. split.
  - rewrite (bind_Ok_l _ _ _ _ _ Hc). unfold set_index. rewrite Hout in Ho1.
    rewrite (bind_Ok_l _ _ _ _ _ (deref_ok _ _ _ Ho1)), decide_True
      by (rewrite length_app, length_replicate; lia).
    rewrite (store_ok _ _ _ _ Ho1). unfold h2. do 4 f_equal.
    replace (n - length ys)%nat with (S (n - length (ys ++ [y])))
      by (rewrite length_app; simpl; lia).
    rewrite insert_app_r_alt, Nat.sub_diag by lia. simpl. by rewrite <- app_assoc.
  - assert (reach_all h2 (ys ++ [y]) = reach_all h ys ∪ reach (V := V) h1 y) as Eall.
    { unfold reach_all in *. rewrite fmap_app, union_list_app_L. csimpl. rewrite Ey2.
      fold (reach_all h2 ys). unfold reach_all. rewrite E2, E1. set_solver. }
    pose proof (dom_subseteq _ _ Hold). split.
    + apply insert_subseteq_r; [done|by etrans].
    + apply lookup_insert_eq.
    + done.
    + apply Forall2_app; [done|by constructor].
    + rewrite Eall. set_solver.
    + rewrite Eall. set_solver.
Qed.

Lemma copy_loop_ok h0 hdr xs out vs : h0 !! hdr.1.1 = Some (to_cell xs) →
  length (window hdr xs) = hdr.2 → Forall2 (reads h0) (window hdr xs) vs →
  ∀ k ys h, (length ys + k = hdr.2)%nat →
    filled h0 out hdr.2 ys (take (length ys) vs) h →
    ∃ ys' h', go_iter (λ i, x ← index hdr i; y ← copy (V := V) x; set_index out i y)
        (seq (length ys) k) h = (Ok (), h') ∧
      length ys' = hdr.2 ∧ filled h0 out hdr.2 ys' vs h'.
Proof.
  intros Hl Hw Hall k. pose proof (Forall2_length _ _ _ Hall) as Hlen.
  induction k as [|k IH]; intros ys h Hk Hf; cbn [seq go_iter].
  - exists ys, h. split; [done|]. split; [lia|]. by rewrite take_ge in Hf by lia.
  - destruct (lookup_lt_is_Some_2 (window hdr xs) (length ys)) as [x Hx]; [lia|].
    destruct (Forall2_lookup_l _ _ _ _ _ Hall Hx) as (v & Hv & Hr).
    destruct (filled_step _ _ _ _ _ _ x v Hf) as (y & h1 & Hstep & Hf1); [lia|done|].
    rewrite <- (take_S_r _ _ _ Hv) in Hf1.
    destruct (IH (ys ++ [y]) h1) as (ys' & h2 & Hit & Hn & Hf2).
    { rewrite length_app. simpl. lia. }
    { rewrite length_app, Nat.add_comm. done. }
    exists ys', h2. split; [|done].
    assert (h !! hdr.1.1 = Some (to_cell xs)) as Hl1
      by (eapply lookup_weaken; [done|apply Hf]).
    rewrite length_app, Nat.add_comm in Hit. simpl in Hit.
    rewrite (bind_Ok_l _ _ h () h1); [done|].
    by rewrite (bind_Ok_l _ _ _ _ _ (index_ok _ _ _ _ _ Hl1 Hx)).
Qed.

#[export] Instance slice_laws : DeepLaws C (slice A) (option (list V)).
Proof.
  split.
  - intros h [[hdr|]] [vs|] Hr; try done. destruct Hr as (xs & Hl & _ & Hr).
    rewrite (reach_slice _ _ _ Hl). apply reach_all_alive in Hr.
    assert (hdr.1.1 ∈ dom h) by by apply elem_of_dom. set_solver.
  - intros h h' [[hdr|]] [vs|] Hr Ha; try done. destruct Hr as (xs & Hl & Hb & Hr).
    rewrite (reach_slice _ _ _ Hl) in Ha |- *.
    assert (h' !! hdr.1.1 = Some (to_cell xs)) as Hl' by (rewrite Ha; [done|set_solver]).
    destruct (reads_all_agree h h' _ _ Hr) as [Hr' He]; [eapply agree_mono; [|done]; set_solver|].
    rewrite (reach_slice _ _ _ Hl'), He. split; [|done]. by exists xs.
  - intros h [[hdr|]] [vs|] Hr; try done.
    2: { exists (Slice None), h. split; [done|]. split; [done|]. split; [done|]. simpl. set_solver. }
    destruct Hr as (xs & Hl & Hb & Hr). simpl copy. unfold copy_slice. cbn [sl_hdr].
    destruct (alloc_ok (C := C) (to_cell (replicate hdr.2 zero)) h) as (out & Halloc & Hout).
    assert (length (window hdr xs) = hdr.2) as Hw
      by (unfold window; rewrite length_take, length_drop; lia).
    destruct (copy_loop_ok h hdr xs out vs Hl Hw Hr hdr.2 [] (<[out := to_cell (replicate hdr.2 zero)]> h))
      as (ys & h1 & Hit & Hn & [Hold Ho _ Hrd Hfr _]); [done| |].
    { split; [by apply insert_subseteq|simpl; rewrite Nat.sub_0_r; apply lookup_insert_eq|done| | |].
      - constructor.
      - unfold reach_all. simpl. set_solver.
      - unfold reach_all. simpl. set_solver. }
    exists (Slice (Some (out, 0%nat, hdr.2))), h1.
    rewrite (bind_Ok_l _ _ _ _ _ Halloc), (bind_Ok_l _ _ _ _ _ Hit). split; [done|].
    split; [done|]. rewrite Hn, Nat.sub_diag, app_nil_r in Ho.
    assert (window (out, 0%nat, hdr.2) ys = ys) as Hwin
      by (unfold window; simpl; rewrite drop_0; by rewrite take_ge by lia).
    split.
    + exists ys. rewrite Hwin. simpl. by rewrite Hn.
    + rewrite (reach_slice _ _ ys) by done. rewrite Hwin. simpl.
      apply not_elem_of_dom in Hout. set_solver.
Qed.
End slices.

(** A struct whose pointers are all in some of its fields: the contract follows
    from the one of these fields when the copy rebuilds the struct around their
    copies. *)
Section embed.
Context {A V B U : Type} `{!Deep C A V, !Deep C B U, !DeepLaws C B U}.
Context (fields : A → B) (values : V → U) (scalars : A → V → Prop) (rebuild : A → B → A).

Record embeds : Prop := {
  embed_reads (h : heap) (a : A) (v : V) :
    reads h a v ↔ scalars a v ∧ reads h (fields a) (values v);
  embed_reach (h : heap) (a : A) : reach (V := V) h a = reach (V := U) h (fields a);
  embed_fields a b : fields (rebuild a b) = b;
  embed_scalars a b v : scalars a v → scalars (rebuild a b) v;
  embed_copy (h h' : heap) a b : copy (V := U) (fields a) h = (Ok b, h') →
    copy (V := V) a h = (Ok (rebuild a b), h');
}.

Lemma embed_laws : embeds → DeepLaws C A V.
Proof.
  intros [Hrd Hre Hf Hs Hc]. split.
  - intros h a v [_ Hr]%Hrd. rewrite Hre. by eapply reads_alive.
  - intros h h' a v [Hsc Hr]%Hrd Ha. rewrite Hre in Ha |- *.
    destruct (reads_agree h h' _ _ Hr Ha) as [Hr' He]. rewrite Hre. split; [|done]. by apply Hrd.
  - intros h a v [Hsc Hr]%Hrd. destruct (copy_ok h _ _ Hr) as (b & h' & Hb & Hh & Hr' & Hfr).
    exists (rebuild a b), h'. split; [by apply Hc|]. split; [done|].
    rewrite Hrd, Hre, Hf. auto.
Qed.
End embed.
End typed.
