(* ===== verification/S3Api.v ===== *)
(** * The S3 service, as the CSI driver sees it

    The driver reaches a vault through the AWS SDK, which is not part of this
    repository.  This file states what the driver relies on: [S3Service] are
    the operations of [*s3.Client] and of its list paginator, [S3View] is the
    abstract content of the service, [S3Laws] the documented behaviour of the
    operations on that content and [S3Available] a service that answers.  A
    request that fails may still have taken effect; the laws do not exclude it.
    [MemS3] is an in-memory service that satisfies all of them. *)

From S2P Require Import Prelude GoStrings.

(** A call to a library: an error or a value, and the new state. *)
Definition Call (W A : Type) : Type := W → (error + A) * W.

Definition lift {W A} (c : Call W A) : Go W A := λ w,
  match c w with
  | (inr a, w') => (Ok a, w')
  | (inl e, w') => (Err e, w')
  end.

(** [s3.Options], as far as the driver sets it. *)
Record S3Options := {
  o_Region : string;
  o_BaseEndpoint : string;
  o_UsePathStyle : bool;
  o_Credentials : string * string * string;
}.

(** [types.Object] of a list page; both fields are pointers. *)
Record ObjectInfo := { Key : option string; Size : option Z }.

Class S3Service (W : Type) := {
  CreateBucket : S3Options → string → Call W unit;
  DeleteBucket : S3Options → string → Call W unit;
  DeleteObject : S3Options → string → string → Call W unit;
  (** destination bucket, destination key, copy source *)
  CopyObject : S3Options → string → string → string → Call W unit;
  Paginator : Type;
  NewListObjectsV2Paginator : S3Options → string → Paginator;
  HasMorePages : Paginator → bool;
  NextPage : Paginator → Call W (list ObjectInfo * Paginator);
}.

(** Bucket contents: bucket name to object key to object bytes. *)
Abbreviation store := (gmap string (gmap string string)).

(** The content of the service: the buckets, which objects are under a
    retention that outlasts the calls considered, and what a paginator has
    still to deliver. *)
Class S3View (W : Type) `{!S3Service W} := {
  view : W → store;
  retained : W → string → string → Prop;
  pages : Paginator → W → list (list ObjectInfo);
  pag_bucket : Paginator → string;
}.

Definition info_of (kv : string * string) : ObjectInfo :=
  {| Key := Some kv.1; Size := Some (Z.of_nat (String.length kv.2)) |}.

(** ** Percent decoding of a copy source *)

Definition nibble (c : ascii) : Z :=
  if in_range 48 57 c then byte_val c - 48
  else if in_range 97 102 c then byte_val c - 97 + 10
  else if in_range 65 70 c then byte_val c - 65 + 10
  else 0.

Fixpoint Pct_Decode (s : string) : string :=
  match s with
  | String c (String h (String l s') as t) =>
      if bool_decide (c = "%"%char)
      then String (byte_of (nibble h * 16 + nibble l)) (Pct_Decode s')
      else String c (Pct_Decode t)
  | String c t => String c (Pct_Decode t)
  | EmptyString => EmptyString
  end.

Definition no_slash (s : string) : bool :=
  string_forallb (λ a, negb (bool_decide (a = "/"%char))) s.

(** A copy source names object [k] of bucket [b]: it is the URL encoding of
    [b/k], a bucket name having no slash. *)
Definition copy_source_of (cs b k : string) : Prop :=
  Pct_Decode cs = b +:+ "/" +:+ k ∧ no_slash b = true.

Definition put_object (b k v : string) (st : store) : store :=
  alter (insert k v) b st.
Definition ensure_bucket (b : string) (st : store) : store :=
  <[b := default ∅ (st !! b)]> st.
Definition drop_object (b k : string) (st : store) : store :=
  alter (delete k) b st.

Definition bucket_exists_error (e : error) : bool :=
  errors_As BucketAlreadyOwnedByYou e || errors_As BucketAlreadyExists e.

Class S3Laws (W : Type) `{!S3Service W, !S3View W} : Prop := {
  law_create o b w r w' : CreateBucket o b w = (r, w') →
    view w' = view w ∨ view w' = ensure_bucket b (view w);
  law_create_ok o b w w' : CreateBucket o b w = (inr (), w') →
    view w' = ensure_bucket b (view w);
  law_create_exists o b w e w' : CreateBucket o b w = (inl e, w') →
    bucket_exists_error e = true → view w' = view w ∧ is_Some (view w !! b);
  law_delbucket o b w r w' : DeleteBucket o b w = (r, w') →
    view w' = view w ∨ (view w !! b = Some ∅ ∧ view w' = delete b (view w));
  law_delbucket_ok o b w w' : DeleteBucket o b w = (inr (), w') →
    view w' !! b = None;
  law_delbucket_absent o b w e w' : DeleteBucket o b w = (inl e, w') →
    errors_As NoSuchBucket e = true → view w' !! b = None;
  law_delbucket_keeps o b w r w' b' k' : DeleteBucket o b w = (r, w') →
    retained w b' k' ↔ retained w' b' k';
  law_delobj o b k w r w' : DeleteObject o b k w = (r, w') →
    view w' = view w ∨ view w' = drop_object b k (view w);
  law_delobj_ok o b k w w' : DeleteObject o b k w = (inr (), w') →
    view w' = drop_object b k (view w);
  law_delobj_retained o b k w r w' : DeleteObject o b k w = (r, w') →
    retained w b k → view w' = view w ∧ r ≠ inr ();
  law_delobj_keeps o b k w r w' b' k' : DeleteObject o b k w = (r, w') →
    retained w b' k' ↔ retained w' b' k';
  law_copy o dst k cs w r w' : CopyObject o dst k cs w = (r, w') →
    view w' = view w ∨
    ∃ src k0 m v, copy_source_of cs src k0 ∧ view w !! src = Some m ∧
      m !! k0 = Some v ∧ view w' = put_object dst k v (view w);
  law_copy_ok o dst k cs w w' : CopyObject o dst k cs w = (inr (), w') →
    ∃ src k0 m v, copy_source_of cs src k0 ∧ view w !! src = Some m ∧
      m !! k0 = Some v ∧ view w' = put_object dst k v (view w);
  law_new_more o b : HasMorePages (NewListObjectsV2Paginator o b) = true;
  law_new_bucket o b : pag_bucket (NewListObjectsV2Paginator o b) = b;
  law_new_pages o b w m : view w !! b = Some m →
    concat (pages (NewListObjectsV2Paginator o b) w) ≡ₚ map info_of (map_to_list m);
  law_more p w : HasMorePages p = true ↔ pages p w ≠ [];
  law_next_ok p w page p' w' : NextPage p w = (inr (page, p'), w') →
    view w' = view w ∧ pages p w = page :: pages p' w' ∧
    pag_bucket p' = pag_bucket p ∧ is_Some (view w !! pag_bucket p);
  law_next_err p w e w' : NextPage p w = (inl e, w') → view w' = view w ∧
    (errors_As NoSuchBucket e = true → view w !! pag_bucket p = None);
  law_next_keeps p w r w' b k : NextPage p w = (r, w') →
    retained w b k ↔ retained w' b k;
}.

(** A service that is up: requests whose documented preconditions hold are
    answered without an error. *)
Class S3Available (W : Type) `{!S3Service W, !S3View W} : Prop := {
  avail_create o b w : ∃ r w', CreateBucket o b w = (r, w') ∧
    match r with inr _ => True | inl e => bucket_exists_error e = true end;
  avail_next p w : HasMorePages p = true → is_Some (view w !! pag_bucket p) →
    ∃ page p' w', NextPage p w = (inr (page, p'), w');
  avail_copy o dst k cs src k0 m v w : copy_source_of cs src k0 →
    is_Some (view w !! dst) → view w !! src = Some m → m !! k0 = Some v →
    ∃ w', CopyObject o dst k cs w = (inr (), w');
  avail_delobj o b k w : ¬ retained w b k → is_Some (view w !! b) →
    ∃ w', DeleteObject o b k w = (inr (), w');
  avail_delbucket o b w : view w !! b = Some ∅ →
    ∃ w', DeleteBucket o b w = (inr (), w');
}.

(** ** Lemmas on decoding *)

Lemma nibble_upperhex n : (0 ≤ n < 16)%Z → nibble (upperhex n) = n.
Proof.
  intros Hn. unfold upperhex, nibble, in_range.
  destruct (Z.ltb_spec n 10); rewrite byte_val_of by lia.
  - replace ((48 <=? 48 + n) && (48 + n <=? 57))%Z with true by lia. lia.
  - replace ((48 <=? 65 + (n - 10)) && (65 + (n - 10) <=? 57))%Z with false by lia.
    replace ((97 <=? 65 + (n - 10)) && (65 + (n - 10) <=? 102))%Z with false by lia.
    replace ((65 <=? 65 + (n - 10)) && (65 + (n - 10) <=? 70))%Z with true by lia. lia.
Qed.

Lemma byte_nibbles a :
  (nibble (upperhex (Z.shiftr (byte_val a) 4)) * 16
   + nibble (upperhex (Z.land (byte_val a) 15)))%Z = byte_val a.
Proof.
  pose proof (byte_val_range a).
  change 15%Z with (Z.ones 4). rewrite Z.land_ones, Z.shiftr_div_pow2 by lia.
  change (2 ^ 4)%Z with 16%Z.
  rewrite !nibble_upperhex by (split; [|apply Z.div_lt_upper_bound || apply Z.mod_pos_bound];
    try apply Z.div_pos; try apply Z.mod_pos_bound; lia).
  pose proof (Z.div_mod (byte_val a) 16). lia.
Qed.

Lemma percent_escaped : shouldEscape "%" = true.
Proof. reflexivity. Qed.

Lemma Pct_Decode_plain c s : c ≠ "%"%char → Pct_Decode (String c s) = String c (Pct_Decode s).
Proof.
  intros Hc. destruct s as [|h [|l s]]; [done|done|].
  change (Pct_Decode (String c (String h (String l s)))) with
    (if bool_decide (c = "%"%char)
     then String (byte_of (nibble h * 16 + nibble l)) (Pct_Decode s)
     else String c (Pct_Decode (String h (String l s)))).
  by rewrite bool_decide_false.
Qed.

Lemma Pct_Decode_PathEscape s : Pct_Decode (PathEscape s) = s.
Proof.
  induction s as [|a s IH]; [done|]. simpl PathEscape.
  destruct (shouldEscape a) eqn:E.
  - simpl. rewrite byte_nibbles, byte_of_val. by rewrite IH.
  - rewrite Pct_Decode_plain; [by rewrite IH|].
    intros ->. by rewrite percent_escaped in E.
Qed.

Lemma copy_source_escape b k :
  no_slash b = true → copy_source_of (PathEscape (b +:+ "/" +:+ k)) b k.
Proof. intros Hb. split; [apply Pct_Decode_PathEscape|done]. Qed.

Lemma no_slash_split b k b' k' :
  no_slash b = true → no_slash b' = true →
  b +:+ "/" +:+ k = b' +:+ "/" +:+ k' → b = b' ∧ k = k'.
Proof.
  change ("/" +:+ k) with (String "/" k). change ("/" +:+ k') with (String "/" k').
  unfold no_slash. revert b'; induction b as [|a b IH]; intros [|a' b'];
    rewrite ?str_app_cons, ?str_app_nil_l; simpl string_forallb; rewrite ?andb_true_iff.
  - intros _ _ [= ->]. done.
  - intros _ [Ha _] [= <- _]. by rewrite bool_decide_true in Ha.
  - intros [Ha _] _ [= -> _]. by rewrite bool_decide_true in Ha.
  - intros [_ Hb] [_ Hb'] [= -> Heq]. destruct (IH b' Hb Hb' Heq) as [-> ->]. done.
Qed.

Lemma copy_source_unique cs b k b' k' :
  copy_source_of cs b k → copy_source_of cs b' k' → b = b' ∧ k = k'.
Proof.
  intros [H1 Hb] [H2 Hb']. apply no_slash_split; [done..|]. congruence.
Qed.

(** ** Lemmas on bucket contents *)

Lemma ensure_bucket_ne b b' st : b' ≠ b → ensure_bucket b st !! b' = st !! b'.
Proof. intros. unfold ensure_bucket. by rewrite lookup_insert_ne. Qed.

Lemma ensure_bucket_eq b st : ensure_bucket b st !! b = Some (default ∅ (st !! b)).
Proof. unfold ensure_bucket. by rewrite lookup_insert_eq. Qed.

Lemma ensure_bucket_id b st : is_Some (st !! b) → ensure_bucket b st = st.
Proof. intros [m Hm]. unfold ensure_bucket. rewrite Hm. by apply insert_id. Qed.

Lemma put_object_ne b k v b' st : b' ≠ b → put_object b k v st !! b' = st !! b'.
Proof. intros. unfold put_object. by rewrite lookup_alter_ne. Qed.

Lemma put_object_eq b k v m st :
  st !! b = Some m → put_object b k v st !! b = Some (<[k:=v]> m).
Proof. intros Hm. unfold put_object. by rewrite lookup_alter_eq, Hm. Qed.

Lemma drop_object_ne b k b' st : b' ≠ b → drop_object b k st !! b' = st !! b'.
Proof. intros. unfold drop_object. by rewrite lookup_alter_ne. Qed.

Lemma drop_object_eq b k m st :
  st !! b = Some m → drop_object b k st !! b = Some (delete k m).
Proof. intros Hm. unfold drop_object. by rewrite lookup_alter_eq, Hm. Qed.

Lemma lift_Ok {W A} (c : Call W A) w a w' : lift c w = (Ok a, w') ↔ c w = (inr a, w').
Proof. unfold lift. destruct (c w) as [[]]; split; naive_solver. Qed.

Lemma lift_Err {W A} (c : Call W A) w e w' : lift c w = (Err e, w') ↔ c w = (inl e, w').
Proof. unfold lift. destruct (c w) as [[]]; split; naive_solver. Qed.

Lemma lift_state {W A} (c : Call W A) w : (lift c w).2 = (c w).2.
Proof. unfold lift. by destruct (c w) as [[]]. Qed.

#[export] Hint Resolve copy_source_escape ensure_bucket_ne put_object_ne drop_object_ne
  ensure_bucket_id : dezhan.
#[export] Hint Rewrite @lift_state @lift_Ok @lift_Err : dezhan.
