(* ===== verification/MemS3.v ===== *)
(** * An in-memory S3 service

    A store of buckets with a set of retained objects, listed in pages of at
    most [psize + 1] entries.  It discharges [S3Laws] and [S3Available], so the
    driver's theorems, proved against those classes, can be run on it. *)

From S2P Require Import Prelude GoStrings S3Api.

Record mem_state := {
  mem : store;
  locked : gset (string * string);
}.

Record mem_pag := { mp_bucket : string; mp_next : option nat }.

Definition set_mem (w : mem_state) (st : store) : mem_state :=
  {| mem := st; locked := locked w |}.

Definition no_such_bucket : error := s3Error NoSuchBucket "NoSuchBucket".
Definition access_denied : error := s3Error OtherS3Error "AccessDenied".

(** Splits at the first slash. *)
Fixpoint split_slash (s : string) : option (string * string) :=
  match s with
  | EmptyString => None
  | String c s' =>
      if bool_decide (c = "/"%char) then Some ("", s')
      else match split_slash s' with
           | Some (b, k) => Some (String c b, k)
           | None => None
           end
  end.

(** Pages of at most [n] elements; the last one may be empty. *)
Fixpoint chunks {A} (fuel n : nat) (l : list A) : list (list A) :=
  match fuel with
  | O => [l]
  | S f => if decide (length l ≤ n) then [l] else take n l :: chunks f n (drop n l)
  end.

Section mem_s3.
Context (psize : nat).
Implicit Types w : mem_state.

Definition mem_create (o : S3Options) (b : string) : Call mem_state unit := λ w,
  match mem w !! b with
  | Some _ => (inl (s3Error BucketAlreadyOwnedByYou "BucketAlreadyOwnedByYou"), w)
  | None => (inr (), set_mem w (<[b:=∅]> (mem w)))
  end.

Definition mem_delbucket (o : S3Options) (b : string) : Call mem_state unit := λ w,
  match mem w !! b with
  | None => (inl no_such_bucket, w)
  | Some m => if decide (m = ∅) then (inr (), set_mem w (delete b (mem w)))
              else (inl (s3Error OtherS3Error "BucketNotEmpty"), w)
  end.

Definition mem_delobj (o : S3Options) (b k : string) : Call mem_state unit := λ w,
  if decide ((b, k) ∈ locked w) then (inl access_denied, w)
  else match mem w !! b with
       | None => (inl no_such_bucket, w)
       | Some m => (inr (), set_mem w (drop_object b k (mem w)))
       end.

Definition mem_copy (o : S3Options) (dst k cs : string) : Call mem_state unit := λ w,
  match split_slash (Pct_Decode cs) with
  | None => (inl (s3Error OtherS3Error "InvalidArgument"), w)
  | Some (src, k0) =>
      match mem w !! dst, mem w !! src with
      | Some _, Some m =>
          match m !! k0 with
          | Some v => (inr (), set_mem w (put_object dst k v (mem w)))
          | None => (inl (s3Error OtherS3Error "NoSuchKey"), w)
          end
      | _, _ => (inl no_such_bucket, w)
      end
  end.

Definition mem_next (p : mem_pag) : Call mem_state (list ObjectInfo * mem_pag) := λ w,
  match mp_next p, mem w !! mp_bucket p with
  | None, _ => (inl (errorString "no more pages available"), w)
  | Some _, None => (inl no_such_bucket, w)
  | Some off, Some m =>
      let l := drop off (map_to_list m) in
      if decide (length l ≤ S psize)
      then (inr (map info_of l, {| mp_bucket := mp_bucket p; mp_next := None |}), w)
      else (inr (map info_of (take (S psize) l),
                 {| mp_bucket := mp_bucket p; mp_next := Some (off + S psize) |}), w)
  end.

Definition mem_pages (p : mem_pag) (w : mem_state) : list (list ObjectInfo) :=
  match mp_next p, mem w !! mp_bucket p with
  | None, _ => []
  | Some _, None => [[]]
  | Some off, Some m =>
      map (map info_of)
        (chunks (length (map_to_list m)) (S psize) (drop off (map_to_list m)))
  end.

#[export] Instance mem_service : S3Service mem_state := {|
  CreateBucket := mem_create;
  DeleteBucket := mem_delbucket;
  DeleteObject := mem_delobj;
  CopyObject := mem_copy;
  Paginator := mem_pag;
  NewListObjectsV2Paginator _ b := {| mp_bucket := b; mp_next := Some 0 |};
  HasMorePages p := bool_decide (is_Some (mp_next p));
  NextPage := mem_next;
|}.

#[export] Instance mem_view : S3View mem_state := {|
  view := mem;
  retained w b k := (b, k) ∈ locked w;
  pages := mem_pages;
  pag_bucket := mp_bucket;
|}.

Lemma split_slash_spec s b k :
  split_slash s = Some (b, k) ↔ s = b +:+ "/" +:+ k ∧ no_slash b = true.
Proof.
  change ("/" +:+ k) with (String "/" k).
  revert b k; induction s as [|c s IH]; intros b k; simpl.
  - split; [done|]. intros [H _]. by destruct b.
  - case_bool_decide as Hc; [subst c|].
    + split; [by intros [= <- <-]|]. intros [H Hb]. destruct b as [|a b].
      * rewrite str_app_nil_l in H. by injection H as ->.
      * rewrite str_app_cons in H. injection H as <- _. done.
    + split.
      * destruct (split_slash s) as [[b' k']|] eqn:E; [|done].
        intros [= <- <-]. destruct (proj1 (IH b' k') eq_refl) as [-> Hb]. split; [done|].
        unfold no_slash. simpl. by rewrite bool_decide_false.
      * intros [H Hb]. destruct b as [|a b].
        { rewrite str_app_nil_l in H. by injection H as -> ->. }
        rewrite str_app_cons in H. injection H as <- H.
        unfold no_slash in Hb. simpl in Hb. apply andb_true_iff in Hb as [_ Hb].
        by rewrite (proj2 (IH b k) (conj H Hb)).
Qed.

Lemma chunks_ge {A} f g n (l : list A) :
  0 < n → length l ≤ f → length l ≤ g → chunks f n l = chunks g n l.
Proof.
  intros Hn. revert g l; induction f as [|f IH]; intros [|g] l Hf Hg; simpl; [done|..].
  - by rewrite decide_True by lia.
  - by rewrite decide_True by lia.
  - case_decide; [done|]. f_equal. apply IH; rewrite length_drop; lia.
Qed.

Lemma chunks_concat {A} f n (l : list A) : concat (chunks f n l) = l.
Proof.
  revert l; induction f as [|f IH]; intros l; simpl; [by rewrite app_nil_r|].
  case_decide; simpl; [by rewrite app_nil_r|]. by rewrite IH, take_drop.
Qed.

Lemma chunks_length {A} f n (l : list A) : length (chunks f n l) ≤ S f.
Proof.
  revert l; induction f as [|f IH]; intros l; simpl; [done|].
  case_decide; simpl; [lia|]. specialize (IH (drop n l)). lia.
Qed.

Lemma mem_pages_length p w m :
  mem w !! mp_bucket p = Some m → length (mem_pages p w) ≤ S (length (map_to_list m)).
Proof.
  intros Hm. unfold mem_pages. destruct (mp_next p); [|simpl; lia].
  rewrite Hm, length_map. apply chunks_length.
Qed.

Lemma chunks_nonempty {A} f n (l : list A) : chunks f n l ≠ [].
Proof. destruct f; simpl; [done|]. by case_decide. Qed.

Lemma mem_next_spec p w page p' w' : mem_next p w = (inr (page, p'), w') →
  w' = w ∧ mem_pages p w = page :: mem_pages p' w ∧ mp_bucket p' = mp_bucket p ∧
  is_Some (mem w !! mp_bucket p).
Proof.
  unfold mem_next, mem_pages. destruct (mp_next p) as [off|]; [|done].
  destruct (mem w !! mp_bucket p) as [m|] eqn:Hm; [|done].
  set (l := map_to_list m). case_decide as Hl; intros [= <- <- <-]; simpl.
  - split_and!; [done| |done|by eauto].
    rewrite (chunks_ge _ (S (length l)) _ _) by (rewrite ?length_drop; lia).
    simpl. by rewrite decide_True.
  - rewrite Hm. fold l. split_and!; [done| |done|by eauto].
    rewrite length_drop in Hl.
    rewrite (chunks_ge (length l) (S (length l)) _ (drop off l))
      by (rewrite ?length_drop; lia).
    simpl chunks at 1. rewrite decide_False by (rewrite length_drop; lia).
    rewrite map_cons, drop_drop. done.
Qed.

#[export] Instance mem_laws : S3Laws mem_state.
Proof.
  split.
  - intros o b w r w'. simpl. unfold mem_create, ensure_bucket.
    destruct (mem w !! b); intros [= <- <-]; simpl; auto.
  - intros o b w w'. simpl. unfold mem_create, ensure_bucket.
    destruct (mem w !! b); by intros [= <-].
  - intros o b w e w'. simpl. unfold mem_create.
    destruct (mem w !! b); by intros [= <- <-].
  - intros o b w r w'. simpl. unfold mem_delbucket.
    destruct (mem w !! b); [case_decide; subst|]; intros [= <- <-]; simpl; auto.
  - intros o b w w'. simpl. unfold mem_delbucket.
    destruct (mem w !! b); [case_decide|]; intros [= <-]. simpl. apply lookup_delete_eq.
  - intros o b w e w'. simpl. unfold mem_delbucket.
    destruct (mem w !! b) eqn:E; [case_decide|]; by intros [= <- <-].
  - intros o b w r w' b' k'. simpl. unfold mem_delbucket.
    destruct (mem w !! b); [case_decide|]; by intros [= <- <-].
  - intros o b k w r w'. simpl. unfold mem_delobj.
    case_decide; [|destruct (mem w !! b)]; intros [= <- <-]; simpl; auto.
  - intros o b k w w'. simpl. unfold mem_delobj.
    case_decide; [|destruct (mem w !! b)]; by intros [= <-].
  - intros o b k w r w'. simpl. unfold mem_delobj.
    case_decide; [|done]. by intros [= <- <-].
  - intros o b k w r w' b' k'. simpl. unfold mem_delobj.
    case_decide; [|destruct (mem w !! b)]; by intros [= <- <-].
  - intros o dst k cs w r w'. simpl. unfold mem_copy, copy_source_of.
    destruct (split_slash (Pct_Decode cs)) as [[src k0]|] eqn:Hs;
      [|intros [= <- <-]; by left].
    apply split_slash_spec in Hs.
    destruct (mem w !! dst) eqn:Hd, (mem w !! src) as [m|] eqn:Hm;
      try (intros [= <- <-]; by left).
    destruct (m !! k0) as [v|] eqn:Hv; intros [= <- <-]; [right|by left].
    by exists src, k0, m, v.
  - intros o dst k cs w w'. simpl. unfold mem_copy, copy_source_of.
    destruct (split_slash (Pct_Decode cs)) as [[src k0]|] eqn:Hs; [|done].
    apply split_slash_spec in Hs.
    destruct (mem w !! dst) eqn:Hd, (mem w !! src) as [m|] eqn:Hm; try done.
    destruct (m !! k0) as [v|] eqn:Hv; intros [= <-]. by exists src, k0, m, v.
  - done.
  - done.
  - intros o b w m. simpl. unfold mem_pages. simpl. intros ->.
    rewrite drop_0, <- concat_map, chunks_concat. done.
  - intros p w. simpl. rewrite bool_decide_eq_true. unfold mem_pages.
    destruct (mp_next p) as [off|]; [|split; [by intros [? [=]]|done]].
    split; [|by eauto]. intros _. destruct (mem w !! mp_bucket p); [|done].
    intros H%map_eq_nil. by apply chunks_nonempty in H.
  - intros p w page p' w' H. apply mem_next_spec in H as (-> & ? & ? & ?). done.
  - intros p w e w'. simpl. unfold mem_next.
    destruct (mp_next p), (mem w !! mp_bucket p) eqn:E;
      [case_decide| | |]; by intros [= <- <-].
  - intros p w r w' b k. simpl. unfold mem_next.
    destruct (mp_next p), (mem w !! mp_bucket p) eqn:E;
      [case_decide| | |]; by intros [= <- <-].
Qed.

#[export] Instance mem_available : S3Available mem_state.
Proof.
  split.
  - intros o b w. simpl. unfold mem_create.
    destruct (mem w !! b); do 2 eexists; by split.
  - intros p w [off Hp]%bool_decide_eq_true [m Hm]. simpl in *. unfold mem_next.
    rewrite Hp, Hm. case_decide; eauto.
  - intros o dst k cs src k0 m v w [Hd Hs] [md Hdst] Hm Hv. simpl in *. unfold mem_copy.
    rewrite (proj2 (split_slash_spec _ _ _) (conj Hd Hs)), Hdst, Hm, Hv. eauto.
  - intros o b k w Hr [m Hm]. simpl in *. unfold mem_delobj.
    rewrite decide_False by done. rewrite Hm. eauto.
  - intros o b w Hm. simpl in *. unfold mem_delbucket. rewrite Hm.
    rewrite decide_True by done. eauto.
Qed.
End mem_s3.
