(* ===== verification/CsiS3.v ===== *)
(** * CSI driver: the S3 connection (csi/internal/driver/s3.go)

    Connection parameters, bucket creation and deletion, listing and
    server-side copy, over any [S3Service].  The only unbounded loop is the one
    over list pages; it takes fuel, and [listKeys_terminates] shows that any
    fuel above the number of pages is enough. *)

From S2P Require Import Prelude GoStrings S3Api.
Local Open Scope Z_scope.

(** ** [s3Conn] and [connFrom] *)

Record s3Conn := {
  Endpoint : string;
  Region : string;
  AccessKey : string;
  SecretKey : string;
}.

(** [m[k]] on a possibly nil map: the zero value when absent. *)
Definition map_get (m : gmap string string) (k : string) : string := default "" (m !! k).

(** The closure [pick] of [connFrom]. *)
Definition pick (secrets params : gmap string string) (k : string) : string :=
  match secrets !! k with
  | Some v => if decide (v = "") then map_get params k else v
  | None => map_get params k
  end.

Definition missing_endpoint : error := errorString
  "missing dezhan endpoint (set 'endpoint' in the StorageClass parameters or secret)".
Definition missing_keys : error := errorString
  "missing accessKeyID/secretAccessKey in the CSI secret".

Definition connFrom (secrets params : gmap string string) : s3Conn * option error :=
  let region := pick secrets params "region" in
  let c := {|
    Endpoint := pick secrets params "endpoint";
    Region := if decide (region = "") then "us-east-1" else region;
    AccessKey := pick secrets params "accessKeyID";
    SecretKey := pick secrets params "secretAccessKey";
  |} in
  if decide (Endpoint c = "") then (c, Some missing_endpoint)
  else if decide (AccessKey c = "" ∨ SecretKey c = "") then (c, Some missing_keys)
  else (c, None).

Definition client (c : s3Conn) : S3Options := {|
  o_Region := Region c;
  o_BaseEndpoint := Endpoint c;
  o_UsePathStyle := true;
  o_Credentials := (AccessKey c, SecretKey c, "");
|}.

(** ** Operations *)

Section ops.
Context {W : Type} `{!S3Service W} (fuel : nat).

Definition createBucket (c : s3Conn) (bucket : string) : Go W unit :=
  catch (lift (CreateBucket (client c) bucket)) (λ e,
    if errors_As BucketAlreadyOwnedByYou e || errors_As BucketAlreadyExists e
    then mret ()
    else fail (wrapError ("create bucket " +:+ bucket +:+ ": ") e)).

(** The loop body of [listKeys]: [aws.ToString] and [aws.ToInt64] read a nil
    pointer as the zero value. *)
Definition add_object (acc : list string * Z) (o : ObjectInfo) : list string * Z :=
  (acc.1 ++ [default "" (Key o)], int64_add acc.2 (default 0 (Size o))).

Fixpoint list_pages (n : nat) (bucket : string) (p : Paginator)
    (acc : list string * Z) : Go W (list string * Z) :=
  match n with
  | O => out_of_fuel
  | S n' =>
      if HasMorePages p then
        '(page, p') ← map_err (wrapError ("list " +:+ bucket +:+ ": ")) (lift (NextPage p));
        list_pages n' bucket p' (foldl add_object acc page)
      else mret acc
  end.

Definition listKeys (c : s3Conn) (bucket : string) : Go W (list string * Z) :=
  list_pages fuel bucket (NewListObjectsV2Paginator (client c) bucket) ([], 0).

Definition delete_key (c : s3Conn) (bucket k : string) : Go W unit :=
  map_err (wrapError ("delete " +:+ bucket +:+ "/" +:+ k +:+ ": "))
    (lift (DeleteObject (client c) bucket k)).

Definition emptyBucket (c : s3Conn) (bucket : string) : Go W unit :=
  r ← attempt (listKeys c bucket);
  match r with
  | inl e => if errors_As NoSuchBucket e then mret () else fail e
  | inr (keys, _) => go_iter (delete_key c bucket) keys
  end.

Definition deleteBucket (c : s3Conn) (bucket : string) : Go W unit :=
  _ ← emptyBucket c bucket;
  catch (lift (DeleteBucket (client c) bucket)) (λ e,
    if errors_As NoSuchBucket e then mret ()
    else fail (wrapError ("delete bucket " +:+ bucket +:+ ": ") e)).

Definition copy_key (c : s3Conn) (src dst k : string) : Go W unit :=
  map_err (wrapError ("copy " +:+ src +:+ "/" +:+ k +:+ " -> " +:+ dst +:+ ": "))
    (lift (CopyObject (client c) dst k (PathEscape (src +:+ "/" +:+ k)))).

Definition copyAll (c : s3Conn) (src dst : string) : Go W Z :=
  _ ← createBucket c dst;
  '(keys, total) ← listKeys c src;
  _ ← go_iter (copy_key c src dst) keys;
  mret total.
End ops.

(** The bytes of a bucket's objects, as the service lists them. *)
Definition bucket_bytes (m : gmap string string) : Z :=
  foldr Z.add 0 (map (λ kv, Z.of_nat (String.length kv.2)) (map_to_list m)).

(** ** Arithmetic of the byte count *)

Lemma int64_add_l x y : int64 (int64 x + y) = int64 (x + y).
Proof.
  unfold int64, wrap. f_equal.
  replace ((x + 2 ^ (64 - 1)) `mod` 2 ^ 64 - 2 ^ (64 - 1) + y + 2 ^ (64 - 1))
    with ((x + 2 ^ (64 - 1)) `mod` 2 ^ 64 + y) by lia.
  rewrite Z.add_mod_idemp_l by done. f_equal. lia.
Qed.

Definition info_key (o : ObjectInfo) : string := default "" (Key o).
Definition info_size (o : ObjectInfo) : Z := default 0 (Size o).
Definition sum_sizes (l : list ObjectInfo) : Z := foldr Z.add 0 (map info_size l).

Lemma sum_sizes_app l1 l2 : sum_sizes (l1 ++ l2) = sum_sizes l1 + sum_sizes l2.
Proof. unfold sum_sizes. induction l1; simpl; lia. Qed.

#[export] Instance sum_sizes_perm : Proper ((≡ₚ) ==> (=)) sum_sizes.
Proof. unfold sum_sizes. induction 1; simpl; lia. Qed.

Lemma fold_add_object l ks t :
  foldl add_object (ks, int64 t) l = (ks ++ map info_key l, int64 (t + sum_sizes l)).
Proof.
  revert ks t; induction l as [|o l IH]; intros ks t; simpl.
  - unfold sum_sizes. simpl. by rewrite app_nil_r, Z.add_0_r.
  - unfold add_object at 2. simpl. unfold int64_add. rewrite int64_add_l, IH.
    rewrite <- app_assoc. unfold sum_sizes. simpl. f_equal. f_equal.
    unfold info_size. lia.
Qed.

Lemma info_of_keys l : map info_key (map info_of l) = l.*1.
Proof. rewrite map_map. induction l; f_equal/=; auto. Qed.

Lemma info_of_sizes m : sum_sizes (map info_of (map_to_list m)) = bucket_bytes m.
Proof. unfold sum_sizes, bucket_bytes. by rewrite map_map. Qed.

Lemma bucket_bytes_nonneg m : 0 ≤ bucket_bytes m.
Proof.
  unfold bucket_bytes. induction (map_to_list m) as [|[k v] l IH]; simpl; lia.
Qed.

(** ** Listing *)

Section lemmas.
Context {W : Type} `{!S3Service W, !S3View W, !S3Laws W}.
Implicit Types (w : W) (c : s3Conn).

Lemma list_pages_Ok n b p ks t w acc w' :
  list_pages n b p (ks, int64 t) w = (Ok acc, w') →
  view w' = view w ∧
  acc = (ks ++ map info_key (concat (pages p w)),
         int64 (t + sum_sizes (concat (pages p w)))) ∧
  (HasMorePages p = true → is_Some (view w !! pag_bucket p)).
Proof.
  revert p ks t w; induction n as [|n IH]; intros p ks t w; simpl; [done|].
  destruct (HasMorePages p) eqn:Hp.
  - intros H. go_inv. destruct x as [page p'].
    apply lift_Ok, law_next_ok in H as (Hv & Hpg & _ & Hb).
    rewrite fold_add_object in H0.
    apply IH in H0 as (Hv' & -> & _). rewrite Hpg. simpl.
    rewrite map_app, sum_sizes_app, <- app_assoc, Z.add_assoc.
    split_and!; [congruence|done|done].
  - intros [= <- <-]. assert (pages p w = []) as ->.
    { destruct (decide (pages p w = [])) as [|Hne]; [done|].
      apply law_more in Hne. congruence. }
    simpl. rewrite app_nil_r. change (sum_sizes []) with 0. by rewrite Z.add_0_r.
Qed.

Lemma list_pages_state n b p acc w (P : W → Prop) :
  (∀ p w1, P w1 → P (NextPage p w1).2) → P w → P (list_pages n b p acc w).2.
Proof.
  intros HP. revert p acc w; induction n as [|n IH]; intros p acc w Hw; simpl; [done|].
  destruct (HasMorePages p); [|done].
  apply bind_preserves.
  - rewrite map_err_state, lift_state. auto.
  - intros [page p'] w1 H1. apply IH.
    pose proof (HP p w Hw) as Hn. rewrite <- lift_state, <- (map_err_state (wrapError ("list " +:+ b +:+ ": "))) in Hn.
    by rewrite H1 in Hn.
Qed.

Lemma next_view p w : view (NextPage p w).2 = view w.
Proof.
  destruct (NextPage p w) as [[e|[page p']] w'] eqn:E; simpl.
  - by apply law_next_err in E as [? _].
  - by apply law_next_ok in E as [? _].
Qed.

Lemma listKeys_view n c b w : view (listKeys n c b w).2 = view w.
Proof.
  unfold listKeys. apply (list_pages_state _ _ _ _ _ (λ w1, view w1 = view w)); [|done].
  intros p w1 <-. apply next_view.
Qed.

Lemma next_retained p w b k : retained (NextPage p w).2 b k ↔ retained w b k.
Proof.
  destruct (NextPage p w) as [r w'] eqn:E. simpl.
  by rewrite (law_next_keeps _ _ _ _ b k E).
Qed.

Lemma listKeys_retained n c b w b' k :
  retained (listKeys n c b w).2 b' k ↔ retained w b' k.
Proof.
  unfold listKeys.
  apply (list_pages_state _ _ _ _ _ (λ w1, retained w1 b' k ↔ retained w b' k)); [|done].
  intros p w1 <-. apply next_retained.
Qed.

(** The keys of a bucket, each once, and the size of its objects. *)
Lemma listKeys_Ok n c b w ks t w' :
  listKeys n c b w = (Ok (ks, t), w') →
  view w' = view w ∧ ∃ m, view w !! b = Some m ∧
    ks ≡ₚ (map_to_list m).*1 ∧ t = int64 (bucket_bytes m).
Proof.
  unfold listKeys. change 0 with (int64 0) at 1. intros H.
  apply list_pages_Ok in H as (Hv & [= -> ->] & Hb).
  rewrite law_new_more, law_new_bucket in Hb. destruct (Hb eq_refl) as [m Hm].
  split; [done|]. exists m. split; [done|].
  pose proof (law_new_pages (client c) b w m Hm) as Hpg.
  split.
  - rewrite <- info_of_keys. simpl. by apply Permutation_map.
  - rewrite Hpg, info_of_sizes. done.
Qed.

(** A listing that failed with [NoSuchBucket]: there is no such bucket. *)
Lemma list_pages_nsb n b p acc w e w' :
  list_pages n b p acc w = (Err e, w') → errors_As NoSuchBucket e = true →
  view w !! pag_bucket p = None.
Proof.
  revert p acc w; induction n as [|n IH]; intros p acc w; simpl; [done|].
  destruct (HasMorePages p); [|done].
  unfold mbind, go_bind, map_err, catch, lift.
  destruct (NextPage p w) as [[e1|[page p']] w1] eqn:E; simpl.
  - intros [= <- <-] Hn. apply law_next_err in E as [_ Hb]. by apply Hb.
  - intros H Hn. apply law_next_ok in E as (Hv & _ & Hb & _).
    rewrite <- Hv, <- Hb. eauto.
Qed.

Lemma list_pages_no_panic n b p acc w w' : list_pages n b p acc w ≠ (Panic, w').
Proof.
  revert p acc w; induction n as [|n IH]; intros p acc w; simpl; [done|].
  destruct (HasMorePages p); [|done].
  unfold mbind, go_bind, map_err, catch, lift.
  destruct (NextPage p w) as [[e1|[page p']] w1]; simpl; [done|]. apply IH.
Qed.

Lemma list_pages_terminates n b p acc w :
  (length (pages p w) < n)%nat → (list_pages n b p acc w).1 ≠ OutOfFuel.
Proof.
  revert p acc w; induction n as [|n IH]; intros p acc w Hn; [lia|]. simpl.
  destruct (HasMorePages p); [|done].
  unfold mbind, go_bind, map_err, catch, lift.
  destruct (NextPage p w) as [[e1|[page p']] w1] eqn:E; simpl; [done|].
  apply IH. apply law_next_ok in E as (_ & Hpg & _). rewrite Hpg in Hn. simpl in Hn. lia.
Qed.

(** ** Creating a bucket *)

Lemma createBucket_Ok c b w w' :
  createBucket c b w = (Ok (), w') → view w' = ensure_bucket b (view w).
Proof.
  intros [H|(e & w1 & H & He)]%catch_Ok.
  - by eapply law_create_ok, lift_Ok.
  - apply lift_Err in H.
    destruct (_ || _) eqn:Ee in He; [|done]. injection He as <-.
    destruct (law_create_exists _ _ _ _ _ H Ee) as [-> Hb].
    by rewrite ensure_bucket_id.
Qed.

Lemma createBucket_view c b w :
  view (createBucket c b w).2 = view w ∨
  view (createBucket c b w).2 = ensure_bucket b (view w).
Proof.
  unfold createBucket. destruct (CreateBucket (client c) b w) as [r w1] eqn:E.
  pose proof (law_create _ _ _ _ _ E) as Hv.
  unfold catch, lift. rewrite E. destruct r as [e|[]]; [|done].
  by destruct (_ || _).
Qed.

(** ** Deleting a bucket *)

Lemma delete_key_state c b k w : (delete_key c b k w).2 = (DeleteObject (client c) b k w).2.
Proof. unfold delete_key. by rewrite map_err_state, lift_state. Qed.

(** The world after a deletion step keeps every other bucket, and loses at most
    the named object of its bucket. *)
Lemma delete_key_ne c b k w b' : b' ≠ b → view (delete_key c b k w).2 !! b' = view w !! b'.
Proof.
  intros Hne. rewrite delete_key_state.
  destruct (DeleteObject (client c) b k w) as [r w'] eqn:E. simpl.
  destruct (law_delobj _ _ _ _ _ _ E) as [-> | ->]; [done|]. by apply drop_object_ne.
Qed.

Lemma delete_key_kept c b k0 w k v m :
  retained w b k → view w !! b = Some m → m !! k = Some v →
  retained (delete_key c b k0 w).2 b k ∧
  ∃ m', view (delete_key c b k0 w).2 !! b = Some m' ∧ m' !! k = Some v.
Proof.
  intros Hr Hm Hk. rewrite delete_key_state.
  destruct (DeleteObject (client c) b k0 w) as [r w'] eqn:E. simpl.
  split; [by rewrite <- (law_delobj_keeps _ _ _ _ _ _ b k E)|].
  destruct (decide (k0 = k)) as [->|Hne].
  - destruct (law_delobj_retained _ _ _ _ _ _ E Hr) as [-> _]. eauto.
  - destruct (law_delobj _ _ _ _ _ _ E) as [-> | ->]; [by eauto|].
    rewrite (drop_object_eq _ _ _ _ Hm). eexists. split; [done|].
    by rewrite lookup_delete_ne.
Qed.

Lemma delete_loop_Ok c b ks w w' m :
  view w !! b = Some m → (∀ k, is_Some (m !! k) → k ∈ ks) →
  go_iter (delete_key c b) ks w = (Ok (), w') →
  view w' = <[b := ∅]> (view w).
Proof.
  intros Hm Hks H.
  set (I (l : list string) (w1 : W) := (∀ b', b' ≠ b → view w1 !! b' = view w !! b') ∧
    ∃ m1, view w1 !! b = Some m1 ∧ ∀ k, is_Some (m1 !! k) → k ∈ l).
  assert (I [] w') as [Hne (m1 & Hm1 & Hempty)].
  { refine (go_iter_Ok I _ _ ks w w' _ H); unfold I; [|by eauto].
    intros x l w1 w2 [Hne (m1 & Hm1 & Hin)] Hx. split.
    - intros b' Hb'. rewrite <- Hne by done.
      rewrite <- (delete_key_ne c b x w1 b') by done. by rewrite Hx.
    - unfold delete_key in Hx. go_inv. apply lift_Ok, law_delobj_ok in Hx.
      rewrite Hx, (drop_object_eq _ _ _ _ Hm1). eexists. split; [done|].
      intros k Hk. destruct (decide (k = x)) as [->|Hkx].
      + rewrite lookup_delete_eq in Hk. by destruct Hk.
      + rewrite lookup_delete_ne in Hk by done. apply Hin in Hk. set_solver. }
  apply map_eq. intros b'. destruct (decide (b' = b)) as [->|Hb'].
  - rewrite lookup_insert_eq, Hm1. f_equal. apply map_empty. intros k.
    apply eq_None_not_Some. intros Hk. apply Hempty in Hk. set_solver.
  - by rewrite lookup_insert_ne by done; apply Hne.
Qed.

Lemma emptyBucket_Ok n c b w w' :
  emptyBucket n c b w = (Ok (), w') →
  (view w !! b = None ∧ view w' = view w) ∨
  (is_Some (view w !! b) ∧ view w' = <[b := ∅]> (view w)).
Proof.
  unfold emptyBucket, attempt. unfold mbind, go_bind.
  pose proof (listKeys_view n c b w) as Hv.
  destruct (listKeys n c b w) as [[[ks t]|e| |] w1] eqn:E; try done.
  - intros H. apply listKeys_Ok in E as (_ & m & Hm & Hks & _). right.
    split; [by eauto|]. simpl in Hv. rewrite <- Hv.
    eapply delete_loop_Ok; [by rewrite Hv| |done].
    intros k [v Hk]. rewrite Hks. apply list_elem_of_fmap. exists (k, v).
    split; [done|]. by apply elem_of_map_to_list.
  - destruct (errors_As NoSuchBucket e) eqn:He; [|done]. intros [= <-].
    left. split; [|done]. unfold listKeys in E.
    rewrite <- (law_new_bucket (client c) b) at 1. eapply list_pages_nsb; eauto.
Qed.

Lemma deleteBucket_Ok n c b w w' :
  deleteBucket n c b w = (Ok (), w') → view w' = delete b (view w).
Proof.
  unfold deleteBucket. intros ([] & w1 & H1 & H2)%bind_Ok.
  apply emptyBucket_Ok in H1.
  assert (delete b (view w1) = delete b (view w)) as Hd.
  { destruct H1 as [[_ ->]|[_ ->]]; [done|]. apply delete_insert_eq. }
  assert ((view w' = view w1 ∨ view w' = delete b (view w1)) ∧ view w' !! b = None)
    as [Hv Hb].
  { apply catch_Ok in H2 as [H2|(e & w2 & H2 & He)].
    - apply lift_Ok in H2. split; [|by eapply law_delbucket_ok].
      destruct (law_delbucket _ _ _ _ _ H2) as [|[_ ?]]; auto.
    - apply lift_Err in H2. destruct (errors_As _ e) eqn:En; [|done].
      injection He as <-. split; [|by eapply law_delbucket_absent].
      destruct (law_delbucket _ _ _ _ _ H2) as [|[_ ?]]; auto. }
  rewrite <- Hd. destruct Hv as [Hv| ->]; [|done].
  rewrite Hv in Hb |- *. symmetry. by apply delete_id.
Qed.

(** Whatever its outcome, deleting a bucket goes through states that satisfy
    any property kept by listing, by deleting its objects and by deleting it. *)
Lemma deleteBucket_preserves (P : W → Prop) n c b w :
  (∀ p w1, P w1 → P (NextPage p w1).2) →
  (∀ k w1, P w1 → P (delete_key c b k w1).2) →
  (∀ w1, P w1 → P (DeleteBucket (client c) b w1).2) →
  P w → P (deleteBucket n c b w).2.
Proof.
  intros Hnext Hkey Hbkt Hw.
  assert (P (emptyBucket n c b w).2) as He.
  { unfold emptyBucket. apply bind_preserves.
    - unfold attempt. pose proof (list_pages_state n b
        (NewListObjectsV2Paginator (client c) b) ([], 0) w P Hnext Hw) as H.
      fold (listKeys n c b) in H. by destruct (listKeys n c b w) as [[]].
    - intros r w1 Hr.
      assert (P w1) as Hw1.
      { pose proof (list_pages_state n b
          (NewListObjectsV2Paginator (client c) b) ([], 0) w P Hnext Hw) as H.
        fold (listKeys n c b) in H. unfold attempt in Hr.
        destruct (listKeys n c b w) as [[]]; simplify_eq/=; done. }
      destruct r as [e|[ks t]].
      + by destruct (errors_As _ _).
      + apply go_iter_preserves; [|done]. intros k w2 _. apply Hkey. }
  unfold deleteBucket. apply bind_preserves; [done|].
  intros [] w1 H1. rewrite H1 in He. simpl in He.
  apply catch_preserves.
  - rewrite lift_state. auto.
  - intros e w2 H2. pose proof (Hbkt w1 He) as H. rewrite <- lift_state, H2 in H.
    by destruct (errors_As _ e).
Qed.

(** ** Copying a bucket *)

Lemma copy_key_ne c src dst k w b :
  b ≠ dst → view (copy_key c src dst k w).2 !! b = view w !! b.
Proof.
  intros Hb. unfold copy_key. rewrite map_err_state, lift_state.
  destruct (CopyObject _ _ _ _ w) as [r w'] eqn:E. simpl.
  destruct (law_copy _ _ _ _ _ _ _ E) as [-> | (?&?&?&?&_&_&_&->)]; [done|].
  by apply put_object_ne.
Qed.

Lemma copy_key_Ok c src dst k w w' m md :
  no_slash src = true → view w !! src = Some m → view w !! dst = Some md →
  copy_key c src dst k w = (Ok (), w') →
  ∃ v, m !! k = Some v ∧ view w' !! dst = Some (<[k:=v]> md).
Proof.
  intros Hs Hm Hd H. unfold copy_key in H. go_inv. apply lift_Ok in H.
  destruct (law_copy_ok _ _ _ _ _ _ H) as (src' & k' & m' & v & Hcs & Hm' & Hv & ->).
  destruct (copy_source_unique _ _ _ _ _ (copy_source_escape src k Hs) Hcs) as [<- <-].
  simplify_eq. exists v. split; [done|]. by apply put_object_eq.
Qed.

(** The invariant of the copy loop with [l] left to copy from [m] into a bucket
    that held [md]: other buckets are as at the start, and [dst] holds the
    union on every key that is not to come. *)
Definition copy_inv (dst : string) (st0 : store) (m md : gmap string string)
    (l : list string) (w : W) : Prop :=
  (∀ b, b ≠ dst → view w !! b = st0 !! b) ∧
  ∃ cur, view w !! dst = Some cur ∧ ∀ k, k ∉ l → cur !! k = (m ∪ md) !! k.

Lemma copy_inv_step c src dst st0 m md x l w w' :
  no_slash src = true → src ≠ dst → st0 !! src = Some m →
  copy_inv dst st0 m md (x :: l) w → copy_key c src dst x w = (Ok (), w') →
  copy_inv dst st0 m md l w'.
Proof.
  intros Hs Hne Hm [Hoth (cur & Hcur & Hk)] Hx. split.
  { intros b Hb. rewrite <- Hoth by done.
    rewrite <- (copy_key_ne c src dst x w b Hb). by rewrite Hx. }
  destruct (copy_key_Ok c src dst x w w' m cur) as (v & Hv & Hd); [done| |done|done|].
  { by rewrite Hoth. }
  eexists. split; [done|]. intros k Hkl. destruct (decide (k = x)) as [->|Hkx].
  - rewrite lookup_insert_eq. symmetry. by apply lookup_union_Some_l.
  - rewrite lookup_insert_ne by done. apply Hk. set_solver.
Qed.

Lemma copy_inv_start dst st0 m md l w :
  (∀ b, b ≠ dst → view w !! b = st0 !! b) → view w !! dst = Some md →
  l ≡ₚ (map_to_list m).*1 → copy_inv dst st0 m md l w.
Proof.
  intros Hoth Hd Hl. split; [done|]. exists md. split; [done|].
  intros k Hk. rewrite lookup_union_r; [done|].
  apply eq_None_not_Some. intros [v Hv]. apply Hk. rewrite Hl.
  apply list_elem_of_fmap. exists (k, v). split; [done|].
  by apply elem_of_map_to_list.
Qed.

Lemma copy_inv_end dst st0 m md w :
  copy_inv dst st0 m md [] w → view w = <[dst := m ∪ md]> st0.
Proof.
  intros [Hoth (cur & Hcur & Hk)]. apply map_eq. intros b.
  destruct (decide (b = dst)) as [->|Hb].
  - rewrite lookup_insert_eq, Hcur. f_equal. apply map_eq. intros k.
    apply Hk. set_solver.
  - rewrite lookup_insert_ne by done. auto.
Qed.

Lemma copyAll_Ok n c src dst w t w' :
  no_slash src = true → src ≠ dst → copyAll n c src dst w = (Ok t, w') →
  ∃ m, view w !! src = Some m ∧ t = int64 (bucket_bytes m) ∧
    view w' = <[dst := m ∪ default ∅ (view w !! dst)]> (view w).
Proof.
  intros Hs Hne H. unfold copyAll in H.
  apply bind_Ok in H as ([] & w1 & H1 & H).
  apply bind_Ok in H as ([ks t1] & w2 & H2 & H).
  apply bind_Ok in H as ([] & w3 & H3 & [= <- <-]).
  apply createBucket_Ok in H1.
  apply listKeys_Ok in H2 as (Hv2 & m & Hm & Hks & ->).
  assert (view w !! src = Some m) as Hm0.
  { rewrite H1 in Hm. by rewrite ensure_bucket_ne in Hm. }
  exists m. split_and!; [done..|].
  apply copy_inv_end.
  refine (go_iter_Ok (copy_inv dst (view w) m (default ∅ (view w !! dst)))
    _ _ ks w2 w3 _ H3).
  - intros x l wa wb. by apply copy_inv_step.
  - apply copy_inv_start; [|by rewrite Hv2, H1, ensure_bucket_eq|done].
    intros b Hb. by rewrite Hv2, H1, ensure_bucket_ne.
Qed.

Lemma createBucket_ne c b w b' :
  b' ≠ b → view (createBucket c b w).2 !! b' = view w !! b'.
Proof.
  intros Hne. destruct (createBucket_view c b w) as [-> | ->]; [done|].
  by apply ensure_bucket_ne.
Qed.

(** Whatever its outcome, a copy changes no other bucket than its target. *)
Lemma copyAll_ne n c src dst w b :
  b ≠ dst → view (copyAll n c src dst w).2 !! b = view w !! b.
Proof.
  intros Hb. unfold copyAll. set (P w1 := view w1 !! b = view w !! b).
  apply (bind_preserves_mid P); [by apply createBucket_ne|]. intros [] w1 Hw1.
  apply (bind_preserves_mid P); [unfold P; by rewrite listKeys_view|]. intros [ks t] w2 Hw2.
  apply (bind_preserves_mid P); [|done].
  apply (go_iter_preserves P); [|done].
  intros x w3 _ Hw3. unfold P. by rewrite copy_key_ne.
Qed.

(** ** An available service *)

Section available.
Context `{!S3Available W}.

Lemma createBucket_succeeds c b w : ∃ w', createBucket c b w = (Ok (), w').
Proof.
  destruct (avail_create (client c) b w) as (r & w' & H & Hr).
  unfold createBucket, catch, lift. rewrite H. destruct r as [e|[]]; [|by eauto].
  unfold bucket_exists_error in Hr. rewrite Hr. by eexists.
Qed.

Lemma list_pages_succeeds n b p acc w :
  (length (pages p w) < n)%nat → is_Some (view w !! pag_bucket p) →
  ∃ a w', list_pages n b p acc w = (Ok a, w').
Proof.
  revert p acc w; induction n as [|n IH]; intros p acc w Hn Hb; [lia|]. simpl.
  destruct (HasMorePages p) eqn:Hp; [|by eauto].
  destruct (avail_next p w Hp Hb) as (page & p' & w1 & H).
  destruct (law_next_ok _ _ _ _ _ H) as (Hv & Hpg & Hpb & _).
  rewrite (bind_Ok_l _ _ _ (page, p') w1) by by apply map_err_Ok, lift_Ok.
  apply IH; [rewrite Hpg in Hn; simpl in Hn; lia|]. by rewrite Hv, Hpb.
Qed.

(** Copying an existing bucket succeeds once the listing has enough fuel. *)
Lemma copyAll_succeeds n c src dst w m :
  no_slash src = true → src ≠ dst → view w !! src = Some m →
  (∀ w1, view w1 !! src = Some m →
    length (pages (NewListObjectsV2Paginator (client c) src) w1) < n)%nat →
  ∃ t w', copyAll n c src dst w = (Ok t, w').
Proof.
  intros Hs Hne Hm Hn. unfold copyAll.
  destruct (createBucket_succeeds c dst w) as [w1 H1].
  pose proof (createBucket_Ok _ _ _ _ H1) as Hv1.
  rewrite (bind_Ok_l _ _ _ _ _ H1).
  assert (view w1 !! src = Some m) as Hm1 by by rewrite Hv1, ensure_bucket_ne.
  destruct (list_pages_succeeds n src (NewListObjectsV2Paginator (client c) src) ([], 0) w1)
    as ([ks t] & w2 & H2); [by apply Hn|rewrite law_new_bucket; by eauto|].
  fold (listKeys n c src) in H2. rewrite (bind_Ok_l _ _ _ _ _ H2).
  apply listKeys_Ok in H2 as (Hv2 & m' & Hm' & Hks & _). simplify_eq.
  destruct (go_iter_total (λ l wa, Forall (λ k, is_Some (m !! k)) l ∧
      copy_inv dst (view w) m (default ∅ (view w !! dst)) l wa)
      (copy_key c src dst)) with ks w2 as (w3 & H3 & _).
  - intros x l wa [[[v Hv] Hl]%Forall_cons HI].
    pose proof HI as [Hoth (cur & Hcur & _)].
    destruct (avail_copy (client c) dst x (PathEscape (src +:+ "/" +:+ x)) src x m v wa)
      as [wb Hb]; [by apply copy_source_escape|by eauto|by rewrite Hoth|done|].
    assert (copy_key c src dst x wa = (Ok (), wb)) as Hx by by apply map_err_Ok, lift_Ok.
    exists wb. split_and!; [done..|]. by eapply copy_inv_step.
  - split.
    + apply Forall_forall. intros k Hk. rewrite Hks in Hk.
      apply list_elem_of_fmap in Hk as ([k' v] & -> & Hk).
      apply elem_of_map_to_list in Hk. by eauto.
    + apply copy_inv_start; [|by rewrite Hv2, Hv1, ensure_bucket_eq|done].
      intros b Hb. by rewrite Hv2, Hv1, ensure_bucket_ne.
  - rewrite (bind_Ok_l _ _ _ _ _ H3). by eauto.
Qed.

(** Deleting a bucket none of whose objects is retained succeeds. *)
Lemma deleteBucket_succeeds n c b w m :
  view w !! b = Some m → (∀ k, ¬ retained w b k) →
  (∀ w1, view w1 !! b = Some m →
    length (pages (NewListObjectsV2Paginator (client c) b) w1) < n)%nat →
  ∃ w', deleteBucket n c b w = (Ok (), w').
Proof.
  intros Hm Hr Hn. unfold deleteBucket, emptyBucket.
  destruct (list_pages_succeeds n b (NewListObjectsV2Paginator (client c) b) ([], 0) w)
    as ([ks t] & w1 & H1); [by apply Hn|rewrite law_new_bucket; by eauto|].
  fold (listKeys n c b) in H1.
  pose proof (listKeys_retained n c b w b) as Hr1. rewrite H1 in Hr1. simpl in Hr1.
  pose proof (listKeys_Ok _ _ _ _ _ _ _ H1) as (Hv1 & m' & Hm' & Hks & _).
  destruct (go_iter_total (λ l wa, is_Some (view wa !! b) ∧ ∀ k, ¬ retained wa b k)
      (delete_key c b)) with ks w1 as (w2 & H2 & [Hb2 _]).
  - intros x l wa [Hb Hra].
    destruct (avail_delobj (client c) b x wa (Hra x) Hb) as [wb Hx].
    exists wb. split; [by apply map_err_Ok, lift_Ok|]. split.
    + rewrite (law_delobj_ok _ _ _ _ _ Hx). destruct Hb as [ma Hma].
      rewrite (drop_object_eq _ _ _ _ Hma). by eauto.
    + intros k. by rewrite <- (law_delobj_keeps _ _ _ _ _ _ b k Hx).
  - split; [rewrite Hv1; by eauto|]. intros k. by rewrite Hr1.
  - assert (emptyBucket n c b w = (Ok (), w2)) as He.
    { unfold emptyBucket. rewrite (bind_Ok_l _ _ _ (inr (ks, t)) w1); [done|].
      unfold attempt. by rewrite H1. }
    assert (view w2 !! b = Some ∅) as Hempty.
    { apply emptyBucket_Ok in He as [[? _]|[_ ->]]; [congruence|].
      by rewrite lookup_insert_eq. }
    destruct (avail_delbucket (client c) b w2 Hempty) as [w3 H3].
    exists w3. unfold emptyBucket in He. rewrite (bind_Ok_l _ _ _ () w2 He).
    by apply catch_Ok_l, lift_Ok.
Qed.
End available.
End lemmas.
