(* ===== verification/CsiController.v ===== *)
(** * CSI driver: the controller service (csi/internal/driver/controller.go)

    The request handlers that provision, snapshot, restore and delete buckets.
    The protobuf getters are nil-safe, so a missing message field is read as
    its zero value; log calls are left out. *)

From S2P Require Import Prelude GoStrings S3Api CsiS3.
Local Open Scope Z_scope.

(** ** Messages of the CSI protocol *)

(** A capability is only counted and echoed. *)
Definition VolumeCapability : Type := string.

Inductive VolumeContentSource :=
  | ContentSourceSnapshot (snapshotId : string)
  | ContentSourceVolume (volumeId : string).

(** [GetSnapshot()] of a possibly nil source *)
Definition GetSnapshot (s : option VolumeContentSource) : option string :=
  match s with Some (ContentSourceSnapshot id) => Some id | _ => None end.

Record CreateVolumeRequest := {
  cv_Name : string;
  cv_VolumeCapabilities : list VolumeCapability;
  cv_Secrets : gmap string string;
  cv_Parameters : gmap string string;
  cv_VolumeContentSource : option VolumeContentSource;
  cv_CapacityRange : option Z;
}.

Record Volume := {
  VolumeId : string;
  CapacityBytes : Z;
  ContentSource : option VolumeContentSource;
  VolumeContext : gmap string string;
}.

Record DeleteVolumeRequest := { dv_VolumeId : string; dv_Secrets : gmap string string }.

Record CreateSnapshotRequest := {
  cs_Name : string;
  cs_SourceVolumeId : string;
  cs_Secrets : gmap string string;
  cs_Parameters : gmap string string;
}.

Record Snapshot := {
  SnapshotId : string;
  SourceVolumeId : string;
  SizeBytes : Z;
  CreationTime : Z;
  ReadyToUse : bool;
}.

Record DeleteSnapshotRequest := { ds_SnapshotId : string; ds_Secrets : gmap string string }.

Inductive ControllerCapability := CREATE_DELETE_VOLUME | CREATE_DELETE_SNAPSHOT.

(** [errf], the driver's [status.Errorf] *)
Definition errf (c : code) (text : string) : error := statusError c text.

(** ** Names *)

Section names.
Context `{!UnicodeTables}.

Definition bucketName (reqName : string) : string :=
  let b := ToLower reqName in
  if decide (63 < String.length b)%nat then str_take 63 b else b.

Definition snapshotBucket (reqName : string) : string :=
  let b := "snap-" +:+ ToLower (TrimPrefix reqName "snapshot-") in
  if decide (63 < String.length b)%nat then str_take 63 b else b.
End names.

(** ** Handlers *)

Section handlers.
Context {W : Type} `{!S3Service W, !UnicodeTables} (fuel : nat).

(** [conn, err := connFrom(...); if err != nil { return InvalidArgument }] *)
Definition conn_or_invalid (secrets params : gmap string string) : Go W s3Conn :=
  match connFrom secrets params with
  | (_, Some e) => fail (errf InvalidArgument (Error e))
  | (conn, None) => mret conn
  end.

Definition CreateVolume (req : CreateVolumeRequest) : Go W Volume :=
  if decide (cv_Name req = "") then
    fail (errf InvalidArgument "volume name is required")
  else if decide (length (cv_VolumeCapabilities req) = 0%nat) then
    fail (errf InvalidArgument "volume capabilities are required")
  else
    conn ← conn_or_invalid (cv_Secrets req) (cv_Parameters req);
    let bucket := bucketName (cv_Name req) in
    _ ← match GetSnapshot (cv_VolumeContentSource req) with
        | Some src =>
            _ ← map_err (λ e, errf Internal
                  ("restore from snapshot " +:+ src +:+ ": " +:+ Error e))
                  (copyAll fuel conn src bucket);
            mret ()
        | None => map_err (λ e, errf Internal (Error e)) (createBucket conn bucket)
        end;
    mret {|
      VolumeId := bucket;
      CapacityBytes := default 0 (cv_CapacityRange req);
      ContentSource := cv_VolumeContentSource req;
      VolumeContext := <["bucket" := bucket]> (<["endpoint" := Endpoint conn]>
                         (<["region" := Region conn]> ∅));
    |}.

Definition DeleteVolume (req : DeleteVolumeRequest) : Go W unit :=
  if decide (dv_VolumeId req = "") then
    fail (errf InvalidArgument "volume id is required")
  else
    conn ← conn_or_invalid (dv_Secrets req) ∅;
    map_err (λ e, errf Internal (Error e)) (deleteBucket fuel conn (dv_VolumeId req)).

Definition ControllerGetCapabilities : list ControllerCapability :=
  [CREATE_DELETE_VOLUME; CREATE_DELETE_SNAPSHOT].

Definition CreateSnapshot (now : Z) (req : CreateSnapshotRequest) : Go W Snapshot :=
  if decide (cs_Name req = "" ∨ cs_SourceVolumeId req = "") then
    fail (errf InvalidArgument "snapshot name and source volume id are required")
  else
    conn ← conn_or_invalid (cs_Secrets req) (cs_Parameters req);
    let snap := snapshotBucket (cs_Name req) in
    size ← map_err (λ e, errf Internal (Error e))
             (copyAll fuel conn (cs_SourceVolumeId req) snap);
    mret {|
      SnapshotId := snap;
      SourceVolumeId := cs_SourceVolumeId req;
      SizeBytes := size;
      CreationTime := now;
      ReadyToUse := true;
    |}.

Definition DeleteSnapshot (req : DeleteSnapshotRequest) : Go W unit :=
  if decide (ds_SnapshotId req = "") then
    fail (errf InvalidArgument "snapshot id is required")
  else
    conn ← conn_or_invalid (ds_Secrets req) ∅;
    map_err (λ e, errf Internal (Error e)) (deleteBucket fuel conn (ds_SnapshotId req)).

Definition ValidateVolumeCapabilities (volumeId : string)
    (caps : list VolumeCapability) : Go W (list VolumeCapability) :=
  if decide (volumeId = "" ∨ length caps = 0%nat) then
    fail (errf InvalidArgument "volume id and capabilities are required")
  else mret caps.
End handlers.

(** ** Lemmas on names *)

Section name_lemmas.
Context `{!UnicodeTables}.

Lemma truncate_length (b : string) :
  (String.length (if decide (63 < String.length b)%nat then str_take 63 b else b) ≤ 63)%nat.
Proof. case_decide; [rewrite str_take_length|]; lia. Qed.

Lemma bucketName_lower name :
  string_forallb is_lower_byte name = true → (String.length name ≤ 63)%nat →
  bucketName name = name.
Proof.
  intros Hl Hn. unfold bucketName. rewrite ToLower_lower by done.
  by rewrite decide_False by lia.
Qed.

Lemma bucketName_take name :
  string_forallb is_lower_byte name = true → bucketName name = str_take 63 name.
Proof.
  intros Hl. unfold bucketName. rewrite ToLower_lower by done.
  case_decide; [done|]. by rewrite str_take_ge by lia.
Qed.

Lemma truncate_prefix p s : (String.length p ≤ 63)%nat →
  ∃ t, (if decide (63 < String.length (p +:+ s))%nat
        then str_take 63 (p +:+ s) else p +:+ s) = p +:+ t.
Proof.
  intros Hp. case_decide; [|by eauto].
  replace 63%nat with (String.length p + (63 - String.length p))%nat by lia.
  rewrite str_take_app. by eauto.
Qed.

Lemma snapshotBucket_prefix name : ∃ t, snapshotBucket name = "snap-" +:+ t.
Proof. unfold snapshotBucket. apply truncate_prefix. simpl. lia. Qed.

Lemma bucketName_pvc_prefix `{!UnicodeAscii} rest :
  ∃ t, bucketName ("pvc-" +:+ rest) = "pvc-" +:+ t.
Proof.
  unfold bucketName. rewrite ToLower_app_ascii by done.
  change (string_map lower_byte "pvc-") with "pvc-".
  apply truncate_prefix. simpl. lia.
Qed.
End name_lemmas.

(** ** Lemmas on connections *)

Lemma map_get_empty k : map_get ∅ k = "".
Proof. unfold map_get. by rewrite lookup_empty. Qed.

Lemma pick_param secrets params k :
  map_get secrets k = "" → pick secrets params k = map_get params k.
Proof.
  unfold pick, map_get. destruct (secrets !! k) as [v|]; simpl; [|done].
  intros ->. by rewrite decide_True.
Qed.

Lemma pick_get secrets params k :
  map_get secrets k ≠ "" → pick secrets params k = map_get secrets k.
Proof.
  unfold pick, map_get. destruct (secrets !! k) as [v|]; simpl; [|done].
  intros Hv. by rewrite decide_False.
Qed.

Lemma connFrom_Ok secrets params c :
  connFrom secrets params = (c, None) ↔
  c = {| Endpoint := pick secrets params "endpoint";
         Region := if decide (pick secrets params "region" = "") then "us-east-1"
                   else pick secrets params "region";
         AccessKey := pick secrets params "accessKeyID";
         SecretKey := pick secrets params "secretAccessKey" |} ∧
  Endpoint c ≠ "" ∧ AccessKey c ≠ "" ∧ SecretKey c ≠ "".
Proof.
  unfold connFrom. simpl. case_decide; [|case_decide].
  - split; [done|]. by intros (-> & ? & ?).
  - split; [done|]. intros (-> & ? & ? & ?). simpl in *. naive_solver.
  - split.
    + intros [= <-]. simpl. split_and!; [done|naive_solver..].
    + by intros (-> & _).
Qed.

Lemma connFrom_no_endpoint secrets params :
  map_get secrets "endpoint" = "" → map_get params "endpoint" = "" →
  (connFrom secrets params).2 = Some missing_endpoint.
Proof.
  intros Hs Hp. unfold connFrom. simpl. rewrite (pick_param secrets params) by done.
  rewrite Hp. by rewrite decide_True.
Qed.

Section handler_lemmas.
Context {W : Type} `{!S3Service W}.
Implicit Types w : W.

Lemma conn_or_invalid_Ok secrets params w c w' :
  conn_or_invalid secrets params w = (Ok c, w') ↔
  w' = w ∧ connFrom secrets params = (c, None).
Proof.
  unfold conn_or_invalid. destruct (connFrom secrets params) as [c' [e|]].
  - split; [done|]. by intros [_ [=]].
  - unfold mret, go_ret. naive_solver.
Qed.

Lemma conn_or_invalid_err secrets params w e :
  (connFrom secrets params).2 = Some e →
  conn_or_invalid (W:=W) secrets params w = (Err (errf InvalidArgument (Error e)), w).
Proof.
  unfold conn_or_invalid. destruct (connFrom secrets params) as [c' [e'|]];
    simpl; [by intros [= ->]|done].
Qed.

Lemma conn_or_invalid_state secrets params w :
  (conn_or_invalid (W:=W) secrets params w).2 = w.
Proof. unfold conn_or_invalid. by destruct (connFrom secrets params) as [? []]. Qed.

(** A handler that first resolves its connection ends in a state its rest
    reaches for some connection, or in the state it started from. *)
Lemma conn_bind_preserves {A} (P : W → Prop) secrets params (f : s3Conn → Go W A) w :
  P w → (∀ c, P (f c w).2) → P ((conn_or_invalid secrets params ≫= f) w).2.
Proof.
  intros Hw Hf. apply bind_preserves; [by rewrite conn_or_invalid_state|].
  by intros c w1 [-> _]%conn_or_invalid_Ok.
Qed.
End handler_lemmas.
