(* ===== verification/CsiSpec.v ===== *)
(** * What the CSI controller guarantees

    The theorems about the handlers of [CsiController], proved against the
    [S3Service] interface and its laws, each with an instance on the in-memory
    service of [MemS3]. *)

From S2P Require Import Prelude GoStrings S3Api CsiS3 CsiController MemS3.
Local Open Scope Z_scope.

(** Fuel that is enough to list bucket [b] while it holds [m]. *)
Definition enough_fuel {W} `{!S3Service W, !S3View W} (n : nat) (o : S3Options)
    (b : string) (m : gmap string string) : Prop :=
  ∀ w1, view w1 !! b = Some m →
    (length (pages (NewListObjectsV2Paginator o b) w1) < n)%nat.

(** ** The handlers in terms of the bucket operations *)

Section handlers.
Context {W : Type} `{!S3Service W, !S3View W, !S3Laws W, !UnicodeTables}.
Implicit Types w : W.

Lemma CreateSnapshot_Ok n now req w s w' :
  CreateSnapshot n now req w = (Ok s, w') →
  ∃ conn, connFrom (cs_Secrets req) (cs_Parameters req) = (conn, None) ∧
    SnapshotId s = snapshotBucket (cs_Name req) ∧
    SourceVolumeId s = cs_SourceVolumeId req ∧ ReadyToUse s = true ∧
    copyAll n conn (cs_SourceVolumeId req) (SnapshotId s) w = (Ok (SizeBytes s), w').
Proof.
  unfold CreateSnapshot. case_decide; [done|]. intros Hr. go_inv.
  apply conn_or_invalid_Ok in Hr as [-> Hc]. simpl. by eauto 10.
Qed.

Lemma CreateVolume_Ok n req w v w' :
  CreateVolume n req w = (Ok v, w') →
  ∃ conn, connFrom (cv_Secrets req) (cv_Parameters req) = (conn, None) ∧
    VolumeId v = bucketName (cv_Name req) ∧
    v = {| VolumeId := bucketName (cv_Name req);
           CapacityBytes := default 0 (cv_CapacityRange req);
           ContentSource := cv_VolumeContentSource req;
           VolumeContext := <["bucket" := bucketName (cv_Name req)]>
             (<["endpoint" := Endpoint conn]> (<["region" := Region conn]> ∅)) |} ∧
    match GetSnapshot (cv_VolumeContentSource req) with
    | Some src => ∃ t, copyAll n conn src (VolumeId v) w = (Ok t, w')
    | None => createBucket conn (VolumeId v) w = (Ok (), w')
    end.
Proof.
  unfold CreateVolume. do 2 (case_decide; [done|]). intros Hr. go_inv.
  apply conn_or_invalid_Ok in Hr as [-> Hc]. simpl.
  exists x. do 3 (split; [done|]).
  destruct x1, (GetSnapshot _); go_inv; by eauto.
Qed.

Lemma DeleteVolume_Ok n req w w' :
  DeleteVolume n req w = (Ok (), w') →
  ∃ conn, deleteBucket n conn (dv_VolumeId req) w = (Ok (), w').
Proof.
  unfold DeleteVolume. case_decide; [done|]. intros Hr. go_inv.
  apply conn_or_invalid_Ok in Hr as [-> Hc]. by eauto.
Qed.

(** Every outcome of a deletion is an outcome of [deleteBucket] or leaves the
    service alone. *)
Lemma DeleteVolume_state n req w :
  (DeleteVolume n req w).2 = w ∨
  ∃ conn, (DeleteVolume n req w).2 = (deleteBucket n conn (dv_VolumeId req) w).2.
Proof.
  unfold DeleteVolume. case_decide; [by left|].
  apply (conn_bind_preserves (λ w1, w1 = w ∨ ∃ conn,
    w1 = (deleteBucket n conn (dv_VolumeId req) w).2)); [by left|].
  intros c. right. exists c. by rewrite map_err_state.
Qed.
End handlers.

(** ** Snapshots and restores *)

Section snapshots.
Context {W : Type} `{!S3Service W, !S3View W, !S3Laws W, !UnicodeTables}.
Implicit Types w : W.


End snapshots.

(** ** Deletion and write-once objects *)

Section deletion.
Context {W : Type} `{!S3Service W, !S3View W, !S3Laws W}.
Implicit Types w : W.

Lemma DeleteVolume_preserves (P : W → Prop) n req w :
  (∀ p w1, P w1 → P (NextPage p w1).2) →
  (∀ c k w1, P w1 → P (delete_key c (dv_VolumeId req) k w1).2) →
  (∀ o w1, P w1 → P (DeleteBucket o (dv_VolumeId req) w1).2) →
  P w → P (DeleteVolume n req w).2.
Proof.
  intros Hn Hk Hb Hw. destruct (DeleteVolume_state n req w) as [-> | [c ->]]; [done|].
  apply deleteBucket_preserves; auto.
Qed.


(** whatever its outcome, [DeleteVolume] leaves every other bucket as it
    was, and an object of the volume it did not delete keeps its bytes. *)
Theorem delete_volume_isolated n req w :
  let w' := (DeleteVolume n req w).2 in
  (∀ b, b ≠ dv_VolumeId req → view w' !! b = view w !! b) ∧
  ∀ m' k v, view w' !! dv_VolumeId req = Some m' → m' !! k = Some v →
    ∃ m, view w !! dv_VolumeId req = Some m ∧ m !! k = Some v.
Proof.
  apply (DeleteVolume_preserves (λ w1,
    (∀ b, b ≠ dv_VolumeId req → view w1 !! b = view w !! b) ∧
    ∀ m' k v, view w1 !! dv_VolumeId req = Some m' → m' !! k = Some v →
      ∃ m, view w !! dv_VolumeId req = Some m ∧ m !! k = Some v)); [..|by eauto].
  - intros p w1. by rewrite next_view.
  - intros c k0 w1 [Hne Hin]. split.
    + intros b Hb. rewrite <- Hne by done. by apply delete_key_ne.
    + intros m' k v. rewrite delete_key_state.
      destruct (DeleteObject _ _ k0 w1) as [r w2] eqn:E. simpl.
      destruct (law_delobj _ _ _ _ _ _ E) as [-> | ->]; [by apply Hin|].
      unfold drop_object. rewrite lookup_alter_eq, fmap_Some.
      intros (m1 & Hm1 & ->) [_ Hk]%lookup_delete_Some. by eapply Hin.
  - intros o w1 [Hne Hin]. destruct (DeleteBucket o _ w1) as [r w2] eqn:E. simpl.
    destruct (law_delbucket _ _ _ _ _ E) as [-> | [_ ->]]; [done|]. split.
    + intros b Hb. rewrite lookup_delete_ne by done. auto.
    + intros m' k v. by rewrite lookup_delete_eq.
Qed.

End deletion.

(** ** Provisioning *)

Section provisioning.
Context {W : Type} `{!S3Service W, !S3View W, !S3Laws W, !UnicodeTables}.
Implicit Types w : W.

(** [CreateVolume] without a content source is idempotent: a successful
    call leaves an existing bucket's objects alone, creates it empty otherwise,
    touches no other bucket, and a retry that succeeds returns the same volume
    and changes nothing. *)
Theorem create_volume_idempotent n req w v w' :
  GetSnapshot (cv_VolumeContentSource req) = None →
  CreateVolume n req w = (Ok v, w') →
  view w' !! VolumeId v = Some (default ∅ (view w !! VolumeId v)) ∧
  (∀ b, b ≠ VolumeId v → view w' !! b = view w !! b) ∧
  ∀ w1 v1 w2, view w1 = view w' → CreateVolume n req w1 = (Ok v1, w2) →
    v1 = v ∧ view w2 = view w1.
Proof.
  intros Hsrc Hv. apply CreateVolume_Ok in Hv as (c & Hc & Hid & Heq & Hb). rewrite Hsrc in Hb.
  apply createBucket_Ok in Hb.
  rewrite Hb, ensure_bucket_eq. split_and!; [done|by intros; apply ensure_bucket_ne|].
  intros w1 v1 w2 Hw1 Hv1.
  apply CreateVolume_Ok in Hv1 as (c1 & Hc1 & Hid1 & Heq1 & Hb1). rewrite Hsrc in Hb1.
  apply createBucket_Ok in Hb1. split.
  - rewrite Hc in Hc1. injection Hc1 as <-. congruence.
  - rewrite Hb1. apply ensure_bucket_id. rewrite Hw1, Hid1, <- Hid.
    by rewrite ensure_bucket_eq.
Qed.

(** a restore changes no bucket but the new volume's, on every outcome, so
    a failed restore damages neither the snapshot nor any other volume; the
    same holds of [CreateSnapshot] and its snapshot bucket. *)
Theorem copy_handlers_isolated n now cs cv w b :
  (b ≠ bucketName (cv_Name cv) → view (CreateVolume n cv w).2 !! b = view w !! b) ∧
  (b ≠ snapshotBucket (cs_Name cs) → view (CreateSnapshot n now cs w).2 !! b = view w !! b).
Proof.
  set (P w1 := view w1 !! b = view w !! b). split; intros Hb.
  - unfold CreateVolume. do 2 (case_decide; [done|]).
    apply (conn_bind_preserves P); [done|]. intros c.
    apply (bind_preserves_mid P); [|done]. destruct (GetSnapshot _) as [src|].
    + apply (bind_preserves_mid P); [|done]. rewrite map_err_state. by apply copyAll_ne.
    + rewrite map_err_state. by apply createBucket_ne.
  - unfold CreateSnapshot. case_decide; [done|].
    apply (conn_bind_preserves P); [done|]. intros c.
    apply (bind_preserves_mid P); [|done]. rewrite map_err_state. by apply copyAll_ne.
Qed.
End provisioning.

(** ** Listing *)


(** ** Errors *)

(** A [CreateVolumeRequest] that passes the argument checks. *)
Definition valid_create (req : CreateVolumeRequest) : Prop :=
  cv_Name req ≠ "" ∧ cv_VolumeCapabilities req ≠ [] ∧
  (connFrom (cv_Secrets req) (cv_Parameters req)).2 = None.

(** [CreateVolume] rejects a request without a name, capabilities, endpoint
    or credentials with [InvalidArgument] before it sends anything to the
    service; any other failure is reported as [Internal]. *)
Theorem create_volume_errors {W} `{!S3Service W, !UnicodeTables} n req (w : W) :
  (¬ valid_create req →
     ∃ t, CreateVolume n req w = (Err (statusError InvalidArgument t), w)) ∧
  ∀ e w', valid_create req → CreateVolume n req w = (Err e, w') →
    ∃ t, e = statusError Internal t.
Proof.
  unfold valid_create, CreateVolume. split.
  - intros Hnv. case_decide as Hname; [by eexists|].
    case_decide as Hcap; [by eexists|].
    destruct (connFrom (cv_Secrets req) (cv_Parameters req)) as [c [e|]] eqn:Hc.
    + rewrite (bind_Err_l _ _ _ (errf InvalidArgument (Error e)) w); [by eexists|].
      apply conn_or_invalid_err. by rewrite Hc.
    + destruct Hnv. split_and!; [done| |done].
      intros Hnil. by rewrite Hnil in Hcap.
  - intros e w' (Hname & Hcap & Hc). rewrite decide_False by done.
    rewrite decide_False by by intros ?%nil_length_inv.
    destruct (connFrom _ _) as [c oe] eqn:Ec. simpl in Hc. subst oe.
    rewrite (bind_Ok_l _ _ _ c w) by by apply conn_or_invalid_Ok.
    intros [HE|(a & w1 & _ & [=])]%bind_Err.
    destruct (GetSnapshot _) as [src|].
    + apply bind_Err in HE as [(e' & -> & _)%map_err_Err|(a & w1 & _ & [=])]. by eexists.
    + apply map_err_Err in HE as (e' & -> & _). by eexists.
Qed.

(** an endpoint given only in the StorageClass parameters is enough to
    create a volume but not to delete it or to snapshot it: with the same
    credentials, [DeleteVolume] and [DeleteSnapshot] refuse every volume and
    snapshot, and [CreateSnapshot] every request whose class has no endpoint. *)
Theorem endpoint_in_parameters_only {W} `{!S3Service W, !S3View W, !S3Laws W,
    !S3Available W, !UnicodeTables} n now (req : CreateVolumeRequest) (w : W) :
  cv_Name req ≠ "" → cv_VolumeCapabilities req ≠ [] →
  cv_VolumeContentSource req = None →
  map_get (cv_Secrets req) "endpoint" = "" →
  map_get (cv_Parameters req) "endpoint" ≠ "" →
  map_get (cv_Secrets req) "accessKeyID" ≠ "" →
  map_get (cv_Secrets req) "secretAccessKey" ≠ "" →
  let refused := statusError InvalidArgument (Error missing_endpoint) in
  (∃ v w', CreateVolume n req w = (Ok v, w')) ∧
  (∀ id w1, id ≠ "" → DeleteVolume n {| dv_VolumeId := id; dv_Secrets := cv_Secrets req |} w1
     = (Err refused, w1)) ∧
  (∀ id w1, id ≠ "" → DeleteSnapshot n {| ds_SnapshotId := id; ds_Secrets := cv_Secrets req |} w1
     = (Err refused, w1)) ∧
  (∀ name src params w1, name ≠ "" → src ≠ "" → map_get params "endpoint" = "" →
     CreateSnapshot n now {| cs_Name := name; cs_SourceVolumeId := src;
       cs_Secrets := cv_Secrets req; cs_Parameters := params |} w1 = (Err refused, w1)).
Proof.
  intros Hname Hcap Hsrc He Hp Hak Hsk refused.
  assert (∀ params, map_get params "endpoint" = "" → ∀ w1,
    conn_or_invalid (W:=W) (cv_Secrets req) params w1
    = (Err (errf InvalidArgument (Error missing_endpoint)), w1)) as Hbad.
  { intros params Hpar w1. by apply conn_or_invalid_err, connFrom_no_endpoint. }
  split_and!.
  - assert (∃ c, connFrom (cv_Secrets req) (cv_Parameters req) = (c, None)) as [c Hc].
    { eexists. apply connFrom_Ok. split; [done|]. simpl.
      rewrite (pick_param _ _ "endpoint") by done.
      rewrite (pick_get _ _ "accessKeyID"), (pick_get _ _ "secretAccessKey") by done. done. }
    destruct (createBucket_succeeds c (bucketName (cv_Name req)) w) as [w' Hb].
    eexists _, w'. unfold CreateVolume. rewrite decide_False by done.
    rewrite decide_False by by intros ?%nil_length_inv.
    rewrite (bind_Ok_l _ _ _ c w) by by apply conn_or_invalid_Ok.
    rewrite Hsrc. simpl GetSnapshot. cbv beta iota.
    rewrite (bind_Ok_l _ _ _ () w'); [done|]. by apply map_err_Ok.
  - intros id w1 Hid. unfold DeleteVolume. simpl. rewrite decide_False by done.
    by rewrite (bind_Err_l _ _ _ _ _ (Hbad ∅ (map_get_empty _) w1)).
  - intros id w1 Hid. unfold DeleteSnapshot. simpl. rewrite decide_False by done.
    by rewrite (bind_Err_l _ _ _ _ _ (Hbad ∅ (map_get_empty _) w1)).
  - intros name src params w1 Hn Hs Hpar. unfold CreateSnapshot. simpl.
    rewrite decide_False by naive_solver.
    by rewrite (bind_Err_l _ _ _ _ _ (Hbad params Hpar w1)).
Qed.

(** The volume handed back to Kubernetes does not depend on the access
    keys: two successful requests that agree on the name, the capacity, the
    content source and the resolved endpoint and region return the same volume,
    whatever their credentials. *)
Theorem volume_hides_credentials {W} `{!S3Service W, !UnicodeTables}
    n req req' (w w1 w' w1' : W) v v' :
  cv_Name req' = cv_Name req → cv_CapacityRange req' = cv_CapacityRange req →
  cv_VolumeContentSource req' = cv_VolumeContentSource req →
  (∀ k, k = "endpoint" ∨ k = "region" →
    pick (cv_Secrets req') (cv_Parameters req') k = pick (cv_Secrets req) (cv_Parameters req) k) →
  CreateVolume n req w = (Ok v, w1) → CreateVolume n req' w' = (Ok v', w1') →
  v' = v.
Proof.
  intros Hn Hcap Hsrc Hk Hv Hv'.
  apply CreateVolume_Ok in Hv as (c & Hc & _ & -> & _).
  apply CreateVolume_Ok in Hv' as (c' & Hc' & _ & -> & _).
  apply connFrom_Ok in Hc as [-> _], Hc' as [-> _]. simpl.
  rewrite Hn, Hcap, Hsrc, !Hk by auto. done.
Qed.

(** ** Names *)

(** every bucket name is at most 63 bytes long; a lower-case ASCII volume
    name of that length is used as it is, and two longer ones share a bucket
    exactly when their first 63 bytes agree. *)
Theorem bucket_name_correct `{!UnicodeTables} name name' :
  (String.length (bucketName name) ≤ 63)%nat ∧
  (String.length (snapshotBucket name) ≤ 63)%nat ∧
  (string_forallb is_lower_byte name = true → string_forallb is_lower_byte name' = true →
    (bucketName name = bucketName name' ↔ str_take 63 name = str_take 63 name') ∧
    ((String.length name ≤ 63)%nat → bucketName name = name)).
Proof.
  split_and!; [apply truncate_length..|]. intros Hl Hl'.
  split; [|by apply bucketName_lower].
  rewrite !bucketName_take by done. done.
Qed.

(** A snapshot never lands in the bucket of a volume the external
    provisioner named: no snapshot bucket equals the bucket of a volume whose
    name starts with [pvc-]. *)
Theorem snapshots_avoid_volumes `{!UnicodeTables, !UnicodeAscii} pvc snap :
  bucketName ("pvc-" +:+ pvc) ≠ snapshotBucket snap.
Proof.
  destruct (bucketName_pvc_prefix pvc) as [t ->].
  destruct (snapshotBucket_prefix snap) as [t' ->]. done.
Qed.
