(* ===== verification/CsiDemo.v ===== *)
(** * The CSI theorems at concrete inputs

    A vault with one volume of three objects, listed two per page, and one
    retained object, driven through the in-memory service. *)

From S2P Require Import Prelude GoStrings S3Api MemS3 CsiS3 CsiController CsiSpec.
Import AsciiTables.
Local Open Scope Z_scope.

#[local] Instance demo_service : S3Service mem_state := mem_service 1.
#[local] Instance demo_view : S3View mem_state := mem_view 1.
#[local] Instance demo_laws : S3Laws mem_state := mem_laws 1.
#[local] Instance demo_available : S3Available mem_state := mem_available 1.

Definition demo_bucket : gmap string string :=
  <["a" := "alpha"]> (<["dir/b" := "beta"]> (<["c d" := "%"]> ∅)).

Definition demo_world : mem_state := {|
  mem := <["pvc-1" := demo_bucket]> (<["other" := <["x" := "y"]> ∅]> ∅);
  locked := ∅;
|}.

Definition locked_world : mem_state := {|
  mem := mem demo_world; locked := {[ ("pvc-1", "dir/b") ]} |}.

Definition demo_secrets : gmap string string :=
  <["accessKeyID" := "ak"]> (<["secretAccessKey" := "sk"]> ∅).
Definition full_secrets : gmap string string := <["endpoint" := "http://v"]> demo_secrets.

Definition snap_req : CreateSnapshotRequest := {|
  cs_Name := "snapshot-S1"; cs_SourceVolumeId := "pvc-1";
  cs_Secrets := full_secrets; cs_Parameters := ∅ |}.

Definition vol_req (src : option VolumeContentSource) : CreateVolumeRequest := {|
  cv_Name := "PVC-2"; cv_VolumeCapabilities := ["mount"];
  cv_Secrets := full_secrets; cv_Parameters := ∅;
  cv_VolumeContentSource := src; cv_CapacityRange := Some 1024 |}.

Definition restore_req : CreateVolumeRequest := vol_req (Some (ContentSourceSnapshot "snap-s1")).

Definition params_req : CreateVolumeRequest := {|
  cv_Name := "PVC-2"; cv_VolumeCapabilities := ["mount"]; cv_Secrets := demo_secrets;
  cv_Parameters := <["endpoint" := "http://v"]> ∅;
  cv_VolumeContentSource := None; cv_CapacityRange := None |}.

(** The same request as [vol_req None] under another access key. *)
Definition rekeyed_req : CreateVolumeRequest := {|
  cv_Name := "PVC-2"; cv_VolumeCapabilities := ["mount"];
  cv_Secrets := <["accessKeyID" := "other"]> full_secrets; cv_Parameters := ∅;
  cv_VolumeContentSource := None; cv_CapacityRange := Some 1024 |}.

Definition delete_req : DeleteVolumeRequest := {|
  dv_VolumeId := "pvc-1"; dv_Secrets := full_secrets |}.

Definition demo_conn : s3Conn := {|
  Endpoint := "http://v"; Region := "us-east-1"; AccessKey := "ak"; SecretKey := "sk" |}.

Definition demo_snap : Snapshot := {|
  SnapshotId := "snap-s1"; SourceVolumeId := "pvc-1"; SizeBytes := 10;
  CreationTime := 0; ReadyToUse := true |}.

Definition demo_vol (src : option VolumeContentSource) : Volume := {|
  VolumeId := "pvc-2"; CapacityBytes := 1024; ContentSource := src;
  VolumeContext := <["bucket" := "pvc-2"]> (<["endpoint" := "http://v"]>
                     (<["region" := "us-east-1"]> ∅)) |}.

(** The state after the snapshot and after the restore. *)
Definition snap_world : mem_state := (CreateSnapshot 9 0 snap_req demo_world).2.
Definition restored_world : mem_state := (CreateVolume 9 restore_req snap_world).2.
Definition created_world : mem_state := (CreateVolume 9 (vol_req None) demo_world).2.

Ltac run := by vm_compute.

Lemma mem_enough_fuel o b m n :
  (S (length (map_to_list m)) < n)%nat → enough_fuel (W:=mem_state) n o b m.
Proof.
  intros Hn w1 Hm. eapply Nat.le_lt_trans; [|exact Hn].
  by apply (mem_pages_length 1 {| mp_bucket := b; mp_next := Some 0%nat |}).
Qed.




Lemma create_volume_idempotent_witness :
  view created_world !! "pvc-2" = Some ∅ ∧
  view created_world !! "pvc-1" = Some demo_bucket.
Proof.
  destruct (create_volume_idempotent (W:=mem_state) 9 (vol_req None) demo_world
    (demo_vol None) created_world) as (H1 & H2 & _); [run..|].
  split; [exact H1|]. rewrite (H2 "pvc-1") by run. run.
Defined.


Lemma endpoint_in_parameters_only_witness :
  (∃ v w', CreateVolume (W:=mem_state) 9 params_req demo_world = (Ok v, w')) ∧
  (∀ w1 : mem_state, DeleteVolume 9 {| dv_VolumeId := "pvc-2"; dv_Secrets := demo_secrets |} w1
     = (Err (statusError InvalidArgument (Error missing_endpoint)), w1)).
Proof.
  destruct (endpoint_in_parameters_only (W:=mem_state) 9 0 params_req demo_world)
    as (H1 & H2 & _); [run..|].
  split; [exact H1|]. intros w1. by apply (H2 "pvc-2").
Defined.

Lemma volume_hides_credentials_witness :
  ∃ w', CreateVolume (W:=mem_state) 9 rekeyed_req demo_world = (Ok (demo_vol None), w').
Proof.
  destruct (CreateVolume 9 rekeyed_req demo_world) as [r w'] eqn:E.
  assert (is_Ok r = true) as Hr by (change r with (r, w').1; rewrite <- E; run).
  destruct r as [v'| | |]; try done. exists w'. f_equal. f_equal.
  apply (volume_hides_credentials (W:=mem_state) 9 (vol_req None) rekeyed_req
    demo_world created_world demo_world w' (demo_vol None) v');
    [done..|by intros k [-> | ->]|run|done].
Defined.


Lemma copy_handlers_isolated_witness :
  view (CreateVolume 9 restore_req demo_world).2 !! "other" = view demo_world !! "other".
Proof.
  apply (copy_handlers_isolated (W:=mem_state) 9 0 snap_req restore_req demo_world "other"). run.
Defined.

Lemma create_volume_errors_witness :
  ∃ t, (CreateVolume (W:=mem_state) 9 restore_req demo_world).1 = Err (statusError Internal t).
Proof.
  destruct (create_volume_errors (W:=mem_state) 9 restore_req demo_world) as [_ H].
  destruct (CreateVolume 9 restore_req demo_world) as [r w'] eqn:E.
  assert (∃ e, r = Err e) as [e ->] by (revert E; vm_compute; intros [= <- _]; by eexists).
  destruct (H e w') as [t ->]; [|done|by exists t].
  split_and!; run.
Defined.

Lemma bucket_name_correct_witness :
  bucketName "pvc-1" = "pvc-1" ∧ (String.length (snapshotBucket "pvc-1") ≤ 63)%nat.
Proof.
  destruct (bucket_name_correct "pvc-1" "pvc-1") as (_ & H2 & H3).
  split; [|exact H2]. apply H3; [run..|vm_compute; lia].
Defined.

Lemma snapshots_avoid_volumes_witness : bucketName "pvc-x" ≠ snapshotBucket "pvc-x".
Proof. exact (snapshots_avoid_volumes "x" "pvc-x"). Defined.

Lemma delete_volume_isolated_witness :
  view (DeleteVolume 9 delete_req demo_world).2 !! "other" = view demo_world !! "other".
Proof.
  destruct (delete_volume_isolated (W:=mem_state) 9 delete_req demo_world) as [H _].
  apply (H "other"). run.
Defined.
