(* ===== verification/CsiNode.v ===== *)
(** * CSI driver: the node service (csi/internal/driver/node.go)

    Publishing a volume creates the target directory, checks whether it is a
    mount point already, and otherwise runs [mount-s3].  The operating system,
    [k8s.io/mount-utils] and the mount program are the class [NodeOS];
    [NodeLaws] is what the driver relies on of them, and [TraceOS] is an
    operating system that records the calls and answers from an oracle. *)

From S2P Require Import Prelude GoStrings S3Api CsiS3 CsiController.

(** ** The operating system *)

Class NodeOS (W : Type) := {
  MkdirAll : string → Z → Call W unit;
  IsLikelyNotMountPoint : string → W → (bool * option error) * W;
  IsNotExist : error → bool;
  Environ : W → list string;
  (** [exec.Command(name, args...)] with [Env], then [CombinedOutput] *)
  CombinedOutput : string → list string → list string → W → (string * option error) * W;
  CleanupMountPoint : string → bool → Call W unit;
}.

(** ** Messages *)

Record NodePublishVolumeRequest := {
  np_VolumeId : string;
  np_TargetPath : string;
  np_VolumeContext : gmap string string;
  np_Secrets : gmap string string;
  np_Readonly : bool;
}.

Record NodeUnpublishVolumeRequest := {
  nu_VolumeId : string;
  nu_TargetPath : string;
}.

Definition mountCmd : string := "mount-s3".

(** ** Handlers *)

Definition NodeGetInfo (nodeID : string) : string := nodeID.

(** No staging: the capability list is empty. *)
Definition NodeGetCapabilities : list string := [].

Definition publish_bucket (req : NodePublishVolumeRequest) : string :=
  let bucket := map_get (np_VolumeContext req) "bucket" in
  if decide (bucket = "") then np_VolumeId req else bucket.

Definition mount_args (bucket target : string) (conn : s3Conn) (readonly : bool) : list string :=
  [bucket; target; "--endpoint-url"; Endpoint conn; "--region"; Region conn;
   "--allow-other"; "--force-path-style"] ++
  (if readonly then ["--read-only"] else ["--allow-delete"]).

Definition mount_env (conn : s3Conn) (environ : list string) : list string :=
  environ ++ ["AWS_ACCESS_KEY_ID=" +:+ AccessKey conn;
              "AWS_SECRET_ACCESS_KEY=" +:+ SecretKey conn].

Section handlers.
Context {W : Type} `{!NodeOS W}.

(** The rest of [NodePublishVolume], from the test of [notMnt] on. *)
Definition publish_mount (req : NodePublishVolumeRequest) (conn : s3Conn)
    (notMnt : bool) : Go W unit := λ w,
  if negb notMnt then (Ok (), w)
  else
    let args := mount_args (publish_bucket req) (np_TargetPath req) conn (np_Readonly req) in
    let '((out, err), w') :=
      CombinedOutput mountCmd args (mount_env conn (Environ w)) w in
    match err with
    | Some e => (Err (errf Internal
        (mountCmd +:+ " failed: " +:+ Error e +:+ ": " +:+ out)), w')
    | None => (Ok (), w')
    end.

Definition check_and_mount (req : NodePublishVolumeRequest) (conn : s3Conn) : Go W unit := λ w,
  let target := np_TargetPath req in
  let '((notMnt, err), w') := IsLikelyNotMountPoint target w in
  match err with
  | Some e =>
      if negb (IsNotExist e)
      then (Err (errf Internal ("check mount " +:+ target +:+ ": " +:+ Error e)), w')
      else publish_mount req conn notMnt w'
  | None => publish_mount req conn notMnt w'
  end.

Definition NodePublishVolume (req : NodePublishVolumeRequest) : Go W unit :=
  let target := np_TargetPath req in
  if decide (target = "" ∨ np_VolumeId req = "") then
    fail (errf InvalidArgument "volume id and target path are required")
  else
    conn ← conn_or_invalid (np_Secrets req) (np_VolumeContext req);
    _ ← map_err (λ e, errf Internal ("mkdir " +:+ target +:+ ": " +:+ Error e))
          (lift (MkdirAll target 488 (* 0o750 *)));
    check_and_mount req conn.

Definition NodeUnpublishVolume (req : NodeUnpublishVolumeRequest) : Go W unit :=
  let target := nu_TargetPath req in
  if decide (target = "" ∨ nu_VolumeId req = "") then
    fail (errf InvalidArgument "volume id and target path are required")
  else
    map_err (λ e, errf Internal ("unmount " +:+ target +:+ ": " +:+ Error e))
      (lift (CleanupMountPoint target true)).
End handlers.

(** ** What the driver relies on *)

(** The mount table: target directory to bucket and mount options. *)
Class NodeView (W : Type) := { mounts : W → gmap string (string * list string) }.

Class NodeLaws (W : Type) `{!NodeOS W, !NodeView W} : Prop := {
  law_mkdir t p w r w' : MkdirAll t p w = (r, w') → mounts w' = mounts w;
  law_check t w r w' : IsLikelyNotMountPoint t w = (r, w') → mounts w' = mounts w;
  (** a directory reported as a mount point is one *)
  law_check_mounted t w e w' :
    IsLikelyNotMountPoint t w = ((false, e), w') → is_Some (mounts w !! t);
  (** the mount program mounts its first argument on its second *)
  law_mount b t opts env w out w' :
    CombinedOutput mountCmd (b :: t :: opts) env w = ((out, None), w') →
    mounts w' = <[t := (b, opts)]> (mounts w);
  law_cleanup t b w w' : CleanupMountPoint t b w = (inr (), w') →
    mounts w' = delete t (mounts w);
}.

(** ** An operating system that records its calls *)

Inductive os_call :=
  | CallMkdir (target : string) (perm : Z)
  | CallCheck (target : string)
  | CallExec (name : string) (args env : list string)
  | CallCleanup (target : string).

(** The record without the environment of the programs it ran. *)
Definition erase_env (c : os_call) : os_call :=
  match c with CallExec n a _ => CallExec n a [] | c => c end.

Section trace.
(** What the system answers, as a function of the calls so far. *)
Context (mkdir_ans : list os_call → option error)
        (check_ans : list os_call → bool * option error)
        (exec_ans : list os_call → string * option error)
        (cleanup_ans : list os_call → option error)
        (notexist : error → bool) (environ : list string).

Definition answer (log : list os_call) (a : option error) : (error + unit) * list os_call :=
  (match a with Some e => inl e | None => inr () end, log).

Definition TraceOS : NodeOS (list os_call) := {|
  MkdirAll t p log := answer (log ++ [CallMkdir t p]) (mkdir_ans (log ++ [CallMkdir t p]));
  IsLikelyNotMountPoint t log := (check_ans (log ++ [CallCheck t]), log ++ [CallCheck t]);
  IsNotExist := notexist;
  Environ _ := environ;
  CombinedOutput n a env log :=
    (exec_ans (log ++ [CallExec n a env]), log ++ [CallExec n a env]);
  CleanupMountPoint t _ log :=
    answer (log ++ [CallCleanup t]) (cleanup_ans (log ++ [CallCleanup t]));
|}.
End trace.

(** ** Theorems *)

Section lemmas.
Context {W : Type} `{!NodeOS W, !NodeView W, !NodeLaws W}.
Implicit Types w : W.

Lemma publish_mount_Ok req c notMnt w w' :
  publish_mount req c notMnt w = (Ok (), w') →
  (notMnt = false ∧ w' = w) ∨
  mounts w' = <[np_TargetPath req := (publish_bucket req,
    drop 2 (mount_args (publish_bucket req) (np_TargetPath req) c (np_Readonly req)))]>
    (mounts w).
Proof.
  unfold publish_mount. destruct notMnt; simpl; [|intros [= <-]; by left].
  destruct (CombinedOutput _ _ _ w) as [[out [e|]] w1] eqn:E; [done|].
  intros [= <-]. right. by eapply law_mount.
Qed.

Lemma check_and_mount_Ok req c w w' :
  check_and_mount req c w = (Ok (), w') →
  ∃ notMnt w1, mounts w1 = mounts w ∧
    (notMnt = false → is_Some (mounts w !! np_TargetPath req)) ∧
    publish_mount req c notMnt w1 = (Ok (), w').
Proof.
  unfold check_and_mount.
  destruct (IsLikelyNotMountPoint _ w) as [[notMnt err] w1] eqn:E. intros H.
  exists notMnt, w1. split; [by eapply law_check|]. split.
  - intros ->. by eapply law_check_mounted.
  - destruct err as [e|]; [|done]. by destruct (negb _).
Qed.

(** after a successful [NodePublishVolume] the target is a mount point; it
    was one before and the mount table is as it was, or the volume's bucket is
    now mounted there with the endpoint and region of the request, read-only
    exactly when the request says so; no other mount changed. *)
Theorem publish_mounts_target req w w' :
  NodePublishVolume req w = (Ok (), w') →
  is_Some (mounts w' !! np_TargetPath req) ∧
  (∀ t, t ≠ np_TargetPath req → mounts w' !! t = mounts w !! t) ∧
  (mounts w' = mounts w ∧ is_Some (mounts w !! np_TargetPath req) ∨
   ∃ c opts, connFrom (np_Secrets req) (np_VolumeContext req) = (c, None) ∧
     mounts w' !! np_TargetPath req = Some (publish_bucket req, opts) ∧
     opts = ["--endpoint-url"; Endpoint c; "--region"; Region c; "--allow-other";
             "--force-path-style"; if np_Readonly req then "--read-only" else "--allow-delete"]).
Proof.
  unfold NodePublishVolume. case_decide; [done|]. intros Hr. go_inv.
  apply conn_or_invalid_Ok in Hr as [-> Hc].
  match goal with H : lift (MkdirAll _ _) _ = _ |- _ => apply lift_Ok, law_mkdir in H as Hmk end.
  match goal with H : check_and_mount _ _ _ = _ |- _ =>
    apply check_and_mount_Ok in H as (notMnt & w1 & Hw1 & Hm & Hpub) end.
  rewrite Hmk in Hw1, Hm. apply publish_mount_Ok in Hpub as [[-> ->]|Hw'].
  - rewrite Hw1. split; [by apply Hm|]. split; [done|]. left. split; [done|]. by apply Hm.
  - rewrite Hw', Hw1, lookup_insert_eq. split; [by eauto|]. split.
    + intros t Ht. by rewrite lookup_insert_ne.
    + right. eexists _, _. split_and!; [done..|]. by destruct (np_Readonly req).
Qed.

(** After a successful [NodeUnpublishVolume] the target is no mount point
    and every other mount is as it was. *)
Theorem unpublish_unmounts_target req w w' :
  NodeUnpublishVolume req w = (Ok (), w') →
  mounts w' = delete (nu_TargetPath req) (mounts w).
Proof.
  unfold NodeUnpublishVolume. case_decide; [done|]. intros Hr. go_inv.
  by apply lift_Ok, law_cleanup in Hr.
Qed.
End lemmas.

Section noninterference.
Context (mkdir_ans : list os_call → option error)
        (check_ans : list os_call → bool * option error)
        (exec_ans : list os_call → string * option error)
        (cleanup_ans : list os_call → option error)
        (notexist : error → bool) (environ : list string).

#[local] Instance trace_os : NodeOS (list os_call) :=
  TraceOS mkdir_ans check_ans exec_ans cleanup_ans notexist environ.

(** The calls a publication makes, in order: the directory, the check, and the
    mount program at most once, with the arguments [mount_args]. *)
Definition publish_log (req : NodePublishVolumeRequest) (c : s3Conn)
    (log : list os_call) : list os_call :=
  let t := np_TargetPath req in
  let l1 := log ++ [CallMkdir t 488] in
  let l2 := l1 ++ [CallCheck t] in
  match mkdir_ans l1 with
  | Some _ => l1
  | None =>
      let blocked := match (check_ans l2).2 with Some e => negb (notexist e) | None => false end in
      if blocked || negb (check_ans l2).1 then l2
      else l2 ++ [CallExec mountCmd
                    (mount_args (publish_bucket req) t c (np_Readonly req))
                    (mount_env c environ)]
  end.

Lemma publish_trace req c log :
  np_TargetPath req ≠ "" → np_VolumeId req ≠ "" →
  connFrom (np_Secrets req) (np_VolumeContext req) = (c, None) →
  (NodePublishVolume req log).2 = publish_log req c log.
Proof.
  intros Ht Hv Hc. unfold NodePublishVolume. rewrite decide_False by naive_solver.
  rewrite (bind_Ok_l _ _ _ c log) by by apply conn_or_invalid_Ok.
  unfold publish_log, mbind, go_bind, map_err, catch, lift, check_and_mount, publish_mount.
  simpl. unfold answer.
  destruct (mkdir_ans _); [done|]. simpl.
  destruct (check_ans _) as [notMnt [e|]]; simpl.
  - destruct (negb (notexist e)), notMnt; simpl; try done.
    by destruct (exec_ans _) as [out []].
  - destruct notMnt; simpl; [|done]. by destruct (exec_ans _) as [out []].
Qed.

(** the access keys reach the mount program through its environment only:
    two publications that differ in the keys alone make the same system calls
    with the same arguments, whatever the system answers; and when the target
    is reported mounted the mount program is not run at all. *)
Theorem publish_hides_credentials req req' c c' log :
  np_TargetPath req ≠ "" → np_VolumeId req ≠ "" →
  connFrom (np_Secrets req) (np_VolumeContext req) = (c, None) →
  connFrom (np_Secrets req') (np_VolumeContext req') = (c', None) →
  np_VolumeId req' = np_VolumeId req → np_TargetPath req' = np_TargetPath req →
  np_VolumeContext req' = np_VolumeContext req → np_Readonly req' = np_Readonly req →
  Endpoint c' = Endpoint c → Region c' = Region c →
  erase_env <$> (NodePublishVolume req' log).2 = erase_env <$> (NodePublishVolume req log).2 ∧
  ((check_ans ((log ++ [CallMkdir (np_TargetPath req) 488]) ++ [CallCheck (np_TargetPath req)])).1
     = false →
   ∀ n a env, CallExec n a env ∈ (NodePublishVolume req log).2 → CallExec n a env ∈ log).
Proof.
  intros Ht Hv Hc Hc' Hid Htp Hctx Hro He Hreg.
  rewrite (publish_trace req c), (publish_trace req' c') by congruence.
  unfold publish_log, publish_bucket, mount_args. rewrite Hid, Htp, Hctx, Hro, He, Hreg.
  split.
  - destruct (mkdir_ans _); [done|]. destruct (_ || _); [done|].
    rewrite !fmap_app. done.
  - intros Hchk n a env. rewrite Hchk, orb_true_r.
    destruct (mkdir_ans _); rewrite !elem_of_app, ?list_elem_of_singleton; naive_solver.
Qed.
End noninterference.
