(* ===== verification/CsiDriver.v ===== *)
(** * CSI driver: options, endpoint and services
    (csi/internal/driver/driver.go, identity.go)

    Construction of the driver from its options, the endpoint it listens on and
    the services it registers.  The network and the gRPC server are the class
    [NetOS]. *)

From S2P Require Import Prelude GoStrings GoText GoUrl S3Api CsiController.

Definition Version : string := "0.1.0".

(** [Mode] is a string type with three named values. *)
Definition ModeController : string := "controller".
Definition ModeNode : string := "node".
Definition ModeAll : string := "all".

Record Options := {
  opt_Name : string;
  opt_NodeID : string;
  opt_Endpoint : string;
  opt_Mode : string;
}.

Record Driver := { opts : Options }.

Section driver.
Context `{!UnicodeTables, !AddrParser}.

Definition New (o : Options) : error + Driver :=
  if bool_decide (opt_Mode o ∈ [ModeController; ModeNode; ModeAll]) then
    if bool_decide (opt_Mode o ≠ ModeController ∧ opt_NodeID o = "") then
      inl (errorString "--node-id is required for the node service")
    else inr {| opts := o |}
  else inl (errorString ("invalid mode " +:+ Quote (opt_Mode o))).

(** ** Endpoint *)

Definition parseEndpoint (ep : string) : error + (string * string) :=
  if HasPrefix ep "/" then inr ("unix", ep)
  else match Parse ep with
  | inl e => inl (wrapError ("parse endpoint " +:+ Quote ep +:+ ": ") e)
  | inr u =>
      if decide (u_Scheme u = "unix") then inr ("unix", u_Path u)
      else if decide (u_Scheme u = "tcp") then inr ("tcp", u_Host u)
      else inl (errorString ("unsupported endpoint scheme " +:+ Quote (u_Scheme u)))
  end.

(** ** Serving *)

Inductive service := IdentityService | ControllerService | NodeService.

#[export] Instance service_eq_dec : EqDecision service.
Proof. solve_decision. Defined.

(** The system calls of [Run]: removing a stale socket (its error is ignored),
    listening, and serving a set of registered services. *)
Class NetOS (W : Type) := {
  Remove : string → W → W;
  Listen : string → string → Call W unit;
  Serve : list service → Call W unit;
}.

(** The services registered before serving, in order. *)
Definition registered (d : Driver) : list service :=
  let m := opt_Mode (opts d) in
  [IdentityService] ++
  (if bool_decide (m = ModeController ∨ m = ModeAll) then [ControllerService] else []) ++
  (if bool_decide (m = ModeNode ∨ m = ModeAll) then [NodeService] else []).

Definition Run {W} `{!NetOS W} (d : Driver) : Go W unit :=
  match parseEndpoint (opt_Endpoint (opts d)) with
  | inl e => fail e
  | inr (scheme, addr) => λ w,
      let w1 := if decide (scheme = "unix") then Remove addr w else w in
      (_ ← map_err (wrapError ("listen " +:+ scheme +:+ "://" +:+ addr +:+ ": "))
             (lift (Listen scheme addr));
       lift (Serve (registered d))) w1
  end.

(** ** Identity service *)

Definition GetPluginInfo (d : Driver) : string * string := (opt_Name (opts d), Version).

Inductive PluginCapability := CONTROLLER_SERVICE.
Definition GetPluginCapabilities (d : Driver) : list PluginCapability := [CONTROLLER_SERVICE].

Definition Probe : bool := true.
End driver.

(** ** Theorems *)

(** [New] accepts exactly the three modes, and a node identifier is
    mandatory for every mode but [controller]; so a driver that was built never
    registers the node service without an identifier, registers the identity
    service always, and the controller service in modes [controller] and
    [all]. *)
Theorem driver_services `{!UnicodeTables} o :
  (is_Some (match New o with inr d => Some d | inl _ => None end) ↔
     opt_Mode o ∈ [ModeController; ModeNode; ModeAll] ∧
     (opt_Mode o = ModeController ∨ opt_NodeID o ≠ "")) ∧
  ∀ d, New o = inr d →
    opts d = o ∧ IdentityService ∈ registered d ∧
    (NodeService ∈ registered d → opt_NodeID o ≠ "") ∧
    (ControllerService ∈ registered d ↔ opt_Mode o ≠ ModeNode) ∧
    (NodeService ∈ registered d ↔ opt_Mode o ≠ ModeController).
Proof.
  unfold New. case_bool_decide as Hm; [case_bool_decide as Hn|].
  - split; [|done]. split; [by intros [? [=]]|]. naive_solver.
  - split.
    + split; [|by eauto]. intros _. split; [done|].
      destruct (decide (opt_Mode o = ModeController)); [by left|]. right. naive_solver.
    + intros d [= <-]. unfold registered. simpl. split; [done|]. split; [set_solver|].
      destruct o as [nm nid ep m]. simpl in *.
      rewrite !elem_of_cons, elem_of_nil in Hm.
      destruct Hm as [-> | [-> | [-> |[]]]]; simpl; set_solver.
  - split; [|done]. split; [by intros [? [=]]|]. naive_solver.
Qed.

(** the driver listens on a Unix socket or a TCP address only.  An endpoint
    that starts with a slash is a socket path as it stands; [unix://<path>] gives
    the path and [tcp://<host>[:<port>]] the address; every other scheme, and
    every endpoint without one, is refused. *)
Theorem parse_endpoint_correct `{!UnicodeTables, !AddrParser} :
  (∀ p, parseEndpoint (String "/" p) = inr ("unix", String "/" p)) ∧
  (∀ ep scheme addr, parseEndpoint ep = inr (scheme, addr) → scheme = "unix" ∨ scheme = "tcp") ∧
  (∀ p, plain_path p → parseEndpoint ("unix://" +:+ p) = inr ("unix", p)) ∧
  (∀ h, plain_host h → parseEndpoint ("tcp://" +:+ h) = inr ("tcp", h)) ∧
  (∀ scheme h p, string_forallb (in_range 97 122) scheme = true → scheme ≠ "" →
     plain_host h → plain_path p → scheme ≠ "unix" → scheme ≠ "tcp" →
     parseEndpoint (scheme +:+ "://" +:+ h +:+ p) =
     inl (errorString ("unsupported endpoint scheme " +:+ Quote scheme))).
Proof.
  assert (plain_host "") as Hempty by by exists "", "".
  assert (∀ s t, s ≠ "" → HasPrefix s "/" = false → HasPrefix (s +:+ t) "/" = false) as Hslash.
  { intros [|a s] t Hne; [done|]. by rewrite str_app_cons, !HasPrefix_byte. }
  split; [|split; [|split; [|split]]].
  - intros p. unfold parseEndpoint. by rewrite HasPrefix_byte.
  - intros ep scheme addr. unfold parseEndpoint.
    destruct (HasPrefix ep "/"); [intros [= <- <-]; by left|].
    destruct (Parse ep) as [e|u]; [done|]. repeat case_decide; intros [= <- <-]; auto.
  - intros p Hp. unfold parseEndpoint. rewrite Hslash by done.
    change ("unix://" +:+ p) with ("unix" +:+ "://" +:+ "" +:+ p).
    by rewrite Parse_plain.
  - intros h Hh. unfold parseEndpoint. rewrite Hslash by done.
    pose proof (Parse_plain "tcp" h "" ltac:(done) ltac:(done) Hh ltac:(by split; [|left])) as Hp.
    rewrite str_app_nil_r in Hp. change ("tcp" +:+ "://" +:+ h) with ("tcp://" +:+ h) in Hp.
    by rewrite Hp.
  - intros scheme h p Hs Hne Hh Hp Hu Ht. unfold parseEndpoint.
    rewrite Hslash; [|done|].
    + rewrite Parse_plain by done. simpl. by rewrite !decide_False.
    + destruct scheme as [|a t]; [done|]. rewrite HasPrefix_byte. apply bool_decide_eq_false.
      intros ->. by vm_compute in Hs.
Qed.
