(* ===== verification/CsiServer.v ===== *)
(** * CSI driver: serving requests
    (csi/internal/driver/driver.go, [logInterceptor] and the services of [Run])

    The gRPC server of the driver: a request reaches the handler of its service
    through the interceptor when the service is registered.  What gRPC answers
    for other services, and the embedded [Unimplemented*Server] for methods a
    service leaves out, is the class [GrpcOps]: errors with the code
    [Unimplemented]. *)

From S2P Require Import Prelude GoStrings GoUrl S3Api CsiS3 CsiController CsiNode CsiDriver.

(** ** Messages *)

Inductive request :=
  | GetPluginInfoRequest
  | GetPluginCapabilitiesRequest
  | ProbeRequest
  | CreateVolumeRequest_ (r : CreateVolumeRequest)
  | DeleteVolumeRequest_ (r : DeleteVolumeRequest)
  | CreateSnapshotRequest_ (r : CreateSnapshotRequest)
  | DeleteSnapshotRequest_ (r : DeleteSnapshotRequest)
  | ControllerGetCapabilitiesRequest
  | ValidateVolumeCapabilitiesRequest (volumeId : string) (caps : list VolumeCapability)
  | NodeGetInfoRequest
  | NodeGetCapabilitiesRequest
  | NodePublishVolumeRequest_ (r : NodePublishVolumeRequest)
  | NodeUnpublishVolumeRequest_ (r : NodeUnpublishVolumeRequest)
  | OtherRequest (s : service) (method : string).

Inductive response :=
  | PluginInfo (name version : string)
  | PluginCapabilities (caps : list PluginCapability)
  | Ready (b : bool)
  | VolumeCreated (v : Volume)
  | VolumeDeleted
  | SnapshotCreated (s : Snapshot)
  | SnapshotDeleted
  | ControllerCapabilities (caps : list ControllerCapability)
  | CapabilitiesConfirmed (caps : list VolumeCapability)
  | NodeInfo (id : string)
  | NodeCapabilities (caps : list string)
  | NodePublished
  | NodeUnpublished.

Definition service_of (q : request) : service :=
  match q with
  | GetPluginInfoRequest | GetPluginCapabilitiesRequest | ProbeRequest => IdentityService
  | CreateVolumeRequest_ _ | DeleteVolumeRequest_ _ | CreateSnapshotRequest_ _
  | DeleteSnapshotRequest_ _ | ControllerGetCapabilitiesRequest
  | ValidateVolumeCapabilitiesRequest _ _ => ControllerService
  | NodeGetInfoRequest | NodeGetCapabilitiesRequest | NodePublishVolumeRequest_ _
  | NodeUnpublishVolumeRequest_ _ => NodeService
  | OtherRequest s _ => s
  end.

Definition service_name (s : service) : string :=
  match s with
  | IdentityService => "csi.v1.Identity"
  | ControllerService => "csi.v1.Controller"
  | NodeService => "csi.v1.Node"
  end.

Definition method_name (q : request) : string :=
  match q with
  | GetPluginInfoRequest => "GetPluginInfo"
  | GetPluginCapabilitiesRequest => "GetPluginCapabilities"
  | ProbeRequest => "Probe"
  | CreateVolumeRequest_ _ => "CreateVolume"
  | DeleteVolumeRequest_ _ => "DeleteVolume"
  | CreateSnapshotRequest_ _ => "CreateSnapshot"
  | DeleteSnapshotRequest_ _ => "DeleteSnapshot"
  | ControllerGetCapabilitiesRequest => "ControllerGetCapabilities"
  | ValidateVolumeCapabilitiesRequest _ _ => "ValidateVolumeCapabilities"
  | NodeGetInfoRequest => "NodeGetInfo"
  | NodeGetCapabilitiesRequest => "NodeGetCapabilities"
  | NodePublishVolumeRequest_ _ => "NodePublishVolume"
  | NodeUnpublishVolumeRequest_ _ => "NodeUnpublishVolume"
  | OtherRequest _ m => m
  end.

(** [info.FullMethod] *)
Definition full_method (q : request) : string :=
  "/" +:+ service_name (service_of q) +:+ "/" +:+ method_name q.

(** [klog]: writing a log line *)
Class LogOps (W : Type) := {
  log_error : error → string → W → W;
  log_ok : string → W → W;
}.

(** gRPC and the generated code of the CSI protocol *)
Class GrpcOps := {
  unknown_service : service → error;
  not_implemented : service → string → error;
}.
Class GrpcLaws `{!GrpcOps} : Prop := {
  law_unknown s : ∃ t, unknown_service s = statusError Unimplemented t;
  law_not_implemented s m : ∃ t, not_implemented s m = statusError Unimplemented t;
}.

(** ** Serving *)

Section server.
Context {W : Type} `{!S3Service W, !NodeOS W, !LogOps W, !UnicodeTables, !GrpcOps}.
Context (fuel : nat) (now : Z) (d : Driver).

Definition logInterceptor {A} (method : string) (handler : Go W A) : Go W A := λ w,
  match handler w with
  | (Ok a, w') => (Ok a, log_ok method w')
  | (Err e, w') => (Err e, log_error e method w')
  | r => r
  end.

(** The services of the driver, methods left out included. *)
Definition handle (q : request) : Go W response :=
  match q with
  | GetPluginInfoRequest =>
      let '(n, v) := GetPluginInfo d in mret (PluginInfo n v)
  | GetPluginCapabilitiesRequest => mret (PluginCapabilities (GetPluginCapabilities d))
  | ProbeRequest => mret (Ready Probe)
  | CreateVolumeRequest_ r => v ← CreateVolume fuel r; mret (VolumeCreated v)
  | DeleteVolumeRequest_ r => _ ← DeleteVolume fuel r; mret VolumeDeleted
  | CreateSnapshotRequest_ r => s ← CreateSnapshot fuel now r; mret (SnapshotCreated s)
  | DeleteSnapshotRequest_ r => _ ← DeleteSnapshot fuel r; mret SnapshotDeleted
  | ControllerGetCapabilitiesRequest => mret (ControllerCapabilities ControllerGetCapabilities)
  | ValidateVolumeCapabilitiesRequest id caps =>
      c ← ValidateVolumeCapabilities id caps; mret (CapabilitiesConfirmed c)
  | NodeGetInfoRequest => mret (NodeInfo (NodeGetInfo (opt_NodeID (opts d))))
  | NodeGetCapabilitiesRequest => mret (NodeCapabilities NodeGetCapabilities)
  | NodePublishVolumeRequest_ r => _ ← NodePublishVolume r; mret NodePublished
  | NodeUnpublishVolumeRequest_ r => _ ← NodeUnpublishVolume r; mret NodeUnpublished
  | OtherRequest s m => fail (not_implemented s m)
  end.

Definition serve (q : request) : Go W response :=
  if decide (service_of q ∈ registered d) then logInterceptor (full_method q) (handle q)
  else fail (unknown_service (service_of q)).
End server.

(** ** Errors are statuses *)

(** Every error of [m] is a gRPC status that says the request was wrong or the
    work failed. *)
Definition status_errors {W A} (m : Go W A) : Prop :=
  ∀ w e w', m w = (Err e, w') → ∃ c t, e = statusError c t ∧ c ∈ [InvalidArgument; Internal].

Section statuses.
Context {W : Type}.

Lemma status_ret {A} (a : A) : status_errors (mret (M := Go W) a).
Proof. done. Qed.

Lemma status_fail {A} c t : c ∈ [InvalidArgument; Internal] →
  status_errors (fail (W := W) (A := A) (errf c t)).
Proof. intros Hc w e w' [= <- _]. by exists c, t. Qed.

Lemma status_bind {A B} (m : Go W A) (f : A → Go W B) :
  status_errors m → (∀ a, status_errors (f a)) → status_errors (m ≫= f).
Proof. intros Hm Hf w e w' [He|(a & w1 & _ & He)]%bind_Err; [by eapply Hm|by eapply Hf]. Qed.

Lemma status_map_err {A} (m : Go W A) c (t : error → string) : c ∈ [InvalidArgument; Internal] →
  status_errors (map_err (λ e, errf c (t e)) m).
Proof. intros Hc w e w' (e' & -> & _)%map_err_Err. by exists c, (t e'). Qed.

Lemma status_conn secrets params : status_errors (conn_or_invalid (W := W) secrets params).
Proof.
  unfold conn_or_invalid. destruct (connFrom secrets params) as [c [e|]];
    [apply status_fail; by left|apply status_ret].
Qed.
End statuses.

Create HintDb status discriminated.
#[local] Hint Resolve status_ret status_conn : status.
#[local] Hint Extern 1 (status_errors (fail _)) => apply status_fail; set_solver : status.
#[local] Hint Extern 1 (status_errors (map_err _ _)) => apply status_map_err; set_solver : status.
#[local] Hint Extern 2 (status_errors (_ ≫= _)) => apply status_bind; [|intros ?] : status.
#[local] Hint Extern 3 (status_errors (if decide _ then _ else _)) => case_decide : status.

Section handlers.
Context {W : Type} `{!S3Service W, !NodeOS W, !UnicodeTables}.

Lemma CreateVolume_status n r : status_errors (CreateVolume (W := W) n r).
Proof.
  unfold CreateVolume. repeat case_decide; auto with status.
  apply status_bind; [auto with status|intros c].
  apply status_bind; [destruct (GetSnapshot _)|]; auto with status.
Qed.

Lemma publish_status r : status_errors (NodePublishVolume (W := W) r).
Proof.
  unfold NodePublishVolume. case_decide; [auto with status|].
  apply status_bind; [auto with status|intros c].
  apply status_bind; [auto with status|intros _].
  unfold check_and_mount, publish_mount. intros w e w'.
  destruct (IsLikelyNotMountPoint _ w) as [[nm err] w1].
  assert (∀ x : string, ∃ c' t, errf Internal x = statusError c' t ∧ c' ∈ [InvalidArgument; Internal])
    as Hi by (intros x; exists Internal, x; set_solver).
  destruct err as [e1|]; [destruct (negb (IsNotExist e1)); [by intros [= <- _]|]|];
    (destruct (negb nm); [done|]);
    destruct (CombinedOutput _ _ _ w1) as [[out [e2|]] w2]; by intros [= <- _].
Qed.

Context `{!LogOps W, !GrpcOps, !GrpcLaws} (fuel : nat) (now : Z) (d : Driver).

(** The request is for a method the driver implements. *)
Definition implemented (q : request) : bool :=
  match q with OtherRequest _ _ => false | _ => true end.

Lemma handle_status q : implemented q = true → status_errors (handle (W := W) fuel now d q).
Proof.
  destruct q; intros Hq; try done; unfold handle, GetPluginInfo; try apply status_ret;
    (apply status_bind; [|intros ?; apply status_ret]).
  - apply CreateVolume_status.
  - unfold DeleteVolume. auto with status.
  - unfold CreateSnapshot. auto 10 with status.
  - unfold DeleteSnapshot. auto with status.
  - unfold ValidateVolumeCapabilities. auto with status.
  - apply publish_status.
  - unfold NodeUnpublishVolume. auto with status.
Qed.

End handlers.
