(* ===== verification/CsiMain.v ===== *)
(** * CSI driver: the process (csi/cmd/main.go)

    Flags, construction of the driver and its run.  The flags [klog] adds to the
    command line are the class [KlogFlags]: setters on klog's own options. *)

From S2P Require Import Prelude GoStrings GoText GoUrl S3Api GoFlag CsiController CsiDriver.

(** [klog.InitFlags] *)
Class KlogFlags := {
  klog_options : Type;
  klog_default : klog_options;
  klog_flags : list (string * Flag klog_options);
}.

(** The variables of [main], and klog's options. *)
Record csi_options `{!KlogFlags} := {
  co_endpoint : string;
  co_nodeID : string;
  co_driverName : string;
  co_mode : string;
  co_klog : klog_options;
}.

Section flags.
Context `{!KlogFlags}.
Implicit Types o : csi_options.

Definition csi_defaults : csi_options := {|
  co_endpoint := "unix:///csi/csi.sock";
  co_nodeID := "";
  co_driverName := "dezhan.csi.obsernetics.io";
  co_mode := "all";
  co_klog := klog_default;
|}.

Definition put_endpoint (v : string) o : csi_options :=
  {| co_endpoint := v; co_nodeID := co_nodeID o; co_driverName := co_driverName o;
     co_mode := co_mode o; co_klog := co_klog o |}.
Definition put_nodeID (v : string) o : csi_options :=
  {| co_endpoint := co_endpoint o; co_nodeID := v; co_driverName := co_driverName o;
     co_mode := co_mode o; co_klog := co_klog o |}.
Definition put_driverName (v : string) o : csi_options :=
  {| co_endpoint := co_endpoint o; co_nodeID := co_nodeID o; co_driverName := v;
     co_mode := co_mode o; co_klog := co_klog o |}.
Definition put_mode (v : string) o : csi_options :=
  {| co_endpoint := co_endpoint o; co_nodeID := co_nodeID o; co_driverName := co_driverName o;
     co_mode := v; co_klog := co_klog o |}.
Definition put_klog (k : klog_options) o : csi_options :=
  {| co_endpoint := co_endpoint o; co_nodeID := co_nodeID o; co_driverName := co_driverName o;
     co_mode := co_mode o; co_klog := k |}.

(** The flags in the order they are defined: those of [main], then klog's. *)
Definition own_flags : list (string * Flag csi_options) :=
  [("endpoint", StringFlag put_endpoint); ("node-id", StringFlag put_nodeID);
   ("driver-name", StringFlag put_driverName); ("mode", StringFlag put_mode)].
Definition csi_flags : list (string * Flag csi_options) :=
  own_flags ++
  ((λ p, (p.1, part_flag co_klog put_klog p.2)) <$> klog_flags).

Definition driver_options o : Options := {|
  opt_Name := co_driverName o; opt_NodeID := co_nodeID o; opt_Endpoint := co_endpoint o;
  opt_Mode := co_mode o |}.

Context {W : Type} `{!NetOS W, !UnicodeTables, !AddrParser}.

(** [main] after [flag.Parse()] *)
Definition start_driver (o : Options) (w : W) : outcome * W :=
  match New o with
  | inl _ => (exited 1, w)
  | inr d =>
      match Run d w with
      | (Ok _, w') => (exited 0, w')
      | (Err _, w') => (exited 1, w')
      | (_, w') => (panicked, w')
      end
  end.

(** [flag.CommandLine] exits on an error of [Parse]. *)
Definition csi_main (args : list string) (w : W) : outcome * W :=
  match define_all csi_flags ∅ with
  | None => (panicked, w)
  | Some fs =>
      match flag_Parse fs args csi_defaults with
      | Parsed o _ => start_driver (driver_options o) w
      | ErrHelp => (exited 0, w)
      | ParseError _ => (exited 2, w)
      end
  end.

(** ** Theorems *)

Definition csi_names : list string := ["endpoint"; "node-id"; "driver-name"; "mode"].

(** klog's flags have proper names of their own, none of them the driver's, and
    [v] is one of them. *)
Class KlogLaws : Prop := {
  klog_NoDup : NoDup klog_flags.*1;
  klog_names : Forall (λ n, var_name n = true ∧ n ∉ csi_names) klog_flags.*1;
  (** the verbosity is a number *)
  klog_v : ∃ f, ("v", f) ∈ klog_flags ∧ flag_bool f = false ∧
    ∀ k, ∃ k', flag_set f "2" k = inr k';
}.

Context `{!KlogLaws}.

(** The flags of the command line *)
Definition csi_flag_set : FlagSet csi_options := list_to_map csi_flags.

Lemma csi_flag_names : csi_flags.*1 = csi_names ++ klog_flags.*1.
Proof. unfold csi_flags. rewrite fmap_app, <- list_fmap_compose. done. Qed.

Lemma csi_flags_NoDup : NoDup csi_flags.*1.
Proof.
  rewrite csi_flag_names. apply NoDup_app. split; [by apply (bool_decide_unpack _)|].
  split; [|apply klog_NoDup]. intros n Hn Hk. pose proof klog_names as Hl.
  rewrite Forall_forall in Hl. by destruct (Hl n Hk).
Qed.

Lemma csi_flags_defined : define_all csi_flags ∅ = Some csi_flag_set.
Proof.
  rewrite define_all_ok; [by rewrite (right_id_L ∅ (∪))| |].
  - apply csi_flags_NoDup.
  - cut (Forall (λ n, var_name n = true) csi_flags.*1).
    { rewrite Forall_fmap. intros Hv. eapply Forall_impl; [exact Hv|].
      intros p Hp. by rewrite lookup_empty. }
    rewrite csi_flag_names. apply Forall_app. split; [by repeat constructor|].
    eapply Forall_impl; [apply klog_names|]. by intros n [].
Qed.

(** A flag of the command line is one of the driver's, or of klog. *)
Lemma csi_flag_cases n f : csi_flag_set !! n = Some f →
  (n, f) ∈ own_flags ∨
  ((n ∉ csi_names) ∧ ∃ g, f = part_flag co_klog put_klog g).
Proof.
  intros Hf%elem_of_list_to_map_2. unfold csi_flags in Hf.
  apply elem_of_app in Hf as [Hf|Hf]; [by left|right].
  apply list_elem_of_fmap in Hf as ([m g] & [= -> ->] & Hg). split; [|by eexists].
  pose proof klog_names as Hl. rewrite Forall_forall in Hl. apply Hl.
  apply list_elem_of_fmap. by exists (m, g).
Qed.

Ltac csi_field :=
  intros n f v o o' Hf Hs; apply csi_flag_cases in Hf as [Hf|[Hn [g ->]]];
  [ unfold own_flags in Hf;
    repeat (apply elem_of_cons in Hf as [[= -> ->]|Hf]; [by injection Hs as <-|]);
    by apply elem_of_nil in Hf
  | simpl in Hs; destruct (flag_set g v (co_klog o)); [done|]; injection Hs as <-;
    rewrite decide_False; [done|]; intros ->; apply Hn; unfold csi_names; set_solver ].

Lemma field_endpoint : field_of csi_flag_set co_endpoint "endpoint" Some.
Proof. csi_field. Qed.
Lemma field_nodeID : field_of csi_flag_set co_nodeID "node-id" Some.
Proof. csi_field. Qed.
Lemma field_driverName : field_of csi_flag_set co_driverName "driver-name" Some.
Proof. csi_field. Qed.
Lemma field_mode : field_of csi_flag_set co_mode "mode" Some.
Proof. csi_field. Qed.

(** The driver options a list of settings asks for. *)
Definition options_of (l : list setting) : Options := {|
  opt_Name := last_set Some "driver-name" l "dezhan.csi.obsernetics.io";
  opt_NodeID := last_set Some "node-id" l "";
  opt_Endpoint := last_set Some "endpoint" l "unix:///csi/csi.sock";
  opt_Mode := last_set Some "mode" l "all" |}.

Lemma main_settings l tail rest o w :
  sets_all csi_flag_set l csi_defaults o → ends tail rest →
  csi_main ((l ≫= spell) ++ tail) w = start_driver (options_of l) w.
Proof.
  intros Hl He. unfold csi_main. rewrite csi_flags_defined, (Parse_sound _ _ _ _ _ _ Hl He).
  f_equal. unfold driver_options, options_of.
  by rewrite (sets_all_field _ _ _ _ _ _ _ field_endpoint Hl),
    (sets_all_field _ _ _ _ _ _ _ field_nodeID Hl),
    (sets_all_field _ _ _ _ _ _ _ field_driverName Hl),
    (sets_all_field _ _ _ _ _ _ _ field_mode Hl).
Qed.

(** C36: The driver process runs with exactly the options its command line spells:
    the last setting of each flag counts, in any of the spellings Go's flags
    have, the documented defaults stand for the rest, and arguments after the
    flags are ignored.  A command line that spells no settings ends the process
    with status 2, or 0 for help, before anything is done. *)
Theorem csi_main_correct args w :
  (∀ l tail rest o, args = (l ≫= spell) ++ tail →
     sets_all csi_flag_set l csi_defaults o → ends tail rest →
     csi_main args w = start_driver (options_of l) w) ∧
  ((∀ o rest, ¬ accepted csi_flag_set args csi_defaults o rest) →
     csi_main args w = (exited 0, w) ∨ csi_main args w = (exited 2, w)).
Proof.
  split.
  - intros l tail rest o -> Hl He. by eapply main_settings.
  - intros Hn. unfold csi_main. rewrite csi_flags_defined.
    destruct (flag_Parse csi_flag_set args csi_defaults) as [o rest| |e] eqn:Hp; [|by left|by right].
    apply parse_exact in Hp. by destruct (Hn o rest).
Qed.

(** ** As deployed *)

(** Listening on the socket of the deployment and serving. *)
Definition serve_socket (services : list service) (w : W) : outcome * W :=
  match Listen "unix" "/csi/csi.sock" (Remove "/csi/csi.sock" w) with
  | (inl _, w1) => (exited 1, w1)
  | (inr _, w1) =>
      match Serve services w1 with (inl _, w2) => (exited 1, w2) | (inr _, w2) => (exited 0, w2) end
  end.

Lemma start_socket (o : Options) w d : New o = inr d → opt_Endpoint o = "unix:///csi/csi.sock" →
  start_driver o w = serve_socket (registered d) w.
Proof.
  intros Hnew He. unfold start_driver. rewrite Hnew. unfold New in Hnew.
  case_bool_decide; [|done]. case_bool_decide; [done|]. injection Hnew as <-.
  assert (parseEndpoint "unix:///csi/csi.sock" = inr ("unix", "/csi/csi.sock")) as Hp.
  { change "unix:///csi/csi.sock" with ("unix" +:+ "://" +:+ "" +:+ "/csi/csi.sock").
    unfold parseEndpoint. rewrite Parse_plain; [done|done|done|by exists "", ""|].
    by split; [|right; eexists]. }
  unfold Run. cbn [opts]. rewrite He, Hp. cbn beta iota zeta.
  rewrite decide_True by done. unfold serve_socket, mbind, go_bind, map_err, catch, lift.
  destruct (Listen _ _ _) as [[e|[]] w1]; [done|]. by destruct (Serve _ w1) as [[e|[]] w2].
Qed.

Definition long (name value : string) : setting :=
  {| set_long := true; set_shape := WithEquals; set_name := name; set_value := value |}.

Lemma own_defined n f : (n, f) ∈ own_flags → csi_flag_set !! n = Some f.
Proof.
  intros Hf. apply elem_of_list_to_map_1; [apply csi_flags_NoDup|]. apply elem_of_app. by left.
Qed.

Lemma klog_defined n f : (n, f) ∈ klog_flags →
  csi_flag_set !! n = Some (part_flag co_klog put_klog f).
Proof.
  intros Hf. apply elem_of_list_to_map_1; [apply csi_flags_NoDup|].
  apply elem_of_app. right. apply list_elem_of_fmap. by exists (n, f).
Qed.

Lemma sets_own name (put : string → csi_options → csi_options) v o :
  (name, StringFlag put) ∈ own_flags → flag_name name = true →
  sets csi_flag_set (long name v) o (put v o).
Proof.
  intros Hf Hn. split; [done|]. exists (StringFlag put). split; [|done]. by apply own_defined.
Qed.

Lemma sets_verbosity o : ∃ o', sets csi_flag_set (long "v" "2") o o'.
Proof.
  destruct klog_v as (f & Hf & _ & Hk). destruct (Hk (co_klog o)) as [k Hset].
  exists (put_klog k o). split; [done|]. exists (part_flag co_klog put_klog f).
  split; [by apply klog_defined|simpl; by rewrite Hset].
Qed.

(** The settings of deploy/csi/controller.yaml and deploy/csi/node.yaml *)
Definition controller_settings : list setting :=
  [long "endpoint" "unix:///csi/csi.sock"; long "mode" "controller"; long "v" "2"].
Definition node_settings (id : string) : list setting :=
  [long "endpoint" "unix:///csi/csi.sock"; long "mode" "node"; long "node-id" id; long "v" "2"].

Lemma controller_accepted : ∃ o, sets_all csi_flag_set controller_settings csi_defaults o.
Proof.
  destruct (sets_verbosity (put_mode "controller" (put_endpoint "unix:///csi/csi.sock" csi_defaults)))
    as [o Ho]. exists o.
  eapply sets_cons; [apply (sets_own _ put_endpoint); [unfold own_flags; set_solver|done]|].
  eapply sets_cons; [apply (sets_own _ put_mode); [unfold own_flags; set_solver|done]|].
  eapply sets_cons; [exact Ho|constructor].
Qed.

Lemma node_accepted id : ∃ o, sets_all csi_flag_set (node_settings id) csi_defaults o.
Proof.
  destruct (sets_verbosity (put_nodeID id (put_mode "node"
    (put_endpoint "unix:///csi/csi.sock" csi_defaults)))) as [o Ho]. exists o.
  eapply sets_cons; [apply (sets_own _ put_endpoint); [unfold own_flags; set_solver|done]|].
  eapply sets_cons; [apply (sets_own _ put_mode); [unfold own_flags; set_solver|done]|].
  eapply sets_cons; [apply (sets_own _ put_nodeID); [unfold own_flags; set_solver|done]|].
  eapply sets_cons; [exact Ho|constructor].
Qed.

(** With the arguments of the deployment manifests the controller plugin
    serves identity and controller, and the node plugin, on a node with a
    name, identity and node, each on the socket the side-car containers
    connect to, after removing a stale one; the exit status is 0 exactly when
    listening and serving succeeded.  A node plugin without a name, and the driver
    without arguments, end with status 1 before they touch the socket. *)
Theorem driver_deployed id w :
  csi_main ["--endpoint=unix:///csi/csi.sock"; "--mode=controller"; "--v=2"] w =
    serve_socket [IdentityService; ControllerService] w ∧
  (id ≠ "" →
    csi_main ["--endpoint=unix:///csi/csi.sock"; "--mode=node"; "--node-id=" +:+ id; "--v=2"] w =
      serve_socket [IdentityService; NodeService] w) ∧
  csi_main ["--endpoint=unix:///csi/csi.sock"; "--mode=node"; "--node-id="; "--v=2"] w =
    (exited 1, w) ∧
  csi_main [] w = (exited 1, w).
Proof.
  destruct controller_accepted as [oc Hc]. split; [|split; [|split]].
  - pose proof (main_settings _ [] [] oc w Hc ends_nil) as Hm. etrans; [exact Hm|].
    by apply (start_socket _ _ {| opts := options_of controller_settings |}).
  - intros Hid. destruct (node_accepted id) as [o Ho].
    pose proof (main_settings _ [] [] o w Ho ends_nil) as Hm. etrans; [exact Hm|].
    apply (start_socket _ _ {| opts := options_of (node_settings id) |}); [|done].
    unfold New. rewrite bool_decide_eq_true_2 by (simpl; set_solver).
    rewrite bool_decide_eq_false_2; [done|]. intros [_ ?]. by apply Hid.
  - destruct (node_accepted "") as [o Ho]. exact (main_settings _ [] [] o w Ho ends_nil).
  - exact (main_settings [] [] [] csi_defaults w (sets_nil _ _) ends_nil).
Qed.
End flags.
