(* ===== verification/CsiMainDemo.v ===== *)
(** * The driver process and its server in memory

    A machine that has an S3 service, a mount table, sockets and a log: the
    theorems about serving requests and about the process are applied on it. *)

From S2P Require Import Prelude GoStrings GoText GoUrl S3Api GoFlag MemS3 CsiS3 CsiController CsiNode CsiDriver CsiServer CsiMain.
Import AsciiTables.
Local Open Scope Z_scope.

(** ** The node service on a mount table in memory *)

Abbreviation mount_table := (gmap string (string * list string)).

#[export] Instance mem_node : NodeOS mount_table := {|
  MkdirAll _ _ w := (inr (), w);
  IsLikelyNotMountPoint t w := ((bool_decide (w !! t = None), None), w);
  IsNotExist _ := false;
  Environ _ := ["PATH=/bin"];
  CombinedOutput name args _ w :=
    match args with
    | b :: t :: opts =>
        if decide (name = mountCmd) then (("", None), <[t := (b, opts)]> w)
        else (("", Some (errorString "exec")), w)
    | _ => (("", Some (errorString "usage")), w)
    end;
  CleanupMountPoint t _ w := (inr (), delete t w) |}.

#[export] Instance mem_node_view : NodeView mount_table := {| mounts w := w |}.

#[export] Instance mem_node_laws : NodeLaws mount_table.
Proof.
  split; simpl.
  - by intros t p w r w' [= _ <-].
  - by intros t w r w' [= _ <-].
  - intros t w e w' [= Hb _ _]. apply bool_decide_eq_false in Hb.
    destruct (mounts w !! t) eqn:E; [by eexists|done].
  - intros b t opts env w out w'. by intros [= _ <-].
  - by intros t b w w' [= <-].
Qed.

Definition demo_secrets : gmap string string :=
  <["accessKeyID" := "ak"]> (<["secretAccessKey" := "sk"]> (<["endpoint" := "http://v"]> ∅)).
Definition other_secrets : gmap string string := <["secretAccessKey" := "other"]> demo_secrets.

Definition publish_req (secrets : gmap string string) : NodePublishVolumeRequest := {|
  np_VolumeId := "pvc-1"; np_TargetPath := "/pods/1"; np_VolumeContext := ∅;
  np_Secrets := secrets; np_Readonly := true |}.

Definition node_before : mount_table := <["/pods/2" := ("pvc-2", [])]> ∅.
Definition node_after : mount_table := (NodePublishVolume (publish_req demo_secrets) node_before).2.

Lemma publish_mounts_target_witness : is_Some (node_after !! "/pods/1").
Proof.
  destruct (publish_mounts_target (publish_req demo_secrets) node_before node_after) as [H _].
  - vm_compute. reflexivity.
  - exact H.
Defined.

Definition unpublish_req : NodeUnpublishVolumeRequest :=
  {| nu_VolumeId := "pvc-1"; nu_TargetPath := "/pods/1" |}.
Definition node_gone : mount_table := (NodeUnpublishVolume unpublish_req node_after).2.

Lemma unpublish_unmounts_target_witness : mounts node_gone = delete "/pods/1" (mounts node_after).
Proof.
  apply (unpublish_unmounts_target unpublish_req node_after node_gone). vm_compute. reflexivity.
Defined.

Definition conn_with (secret : string) : s3Conn := {|
  Endpoint := "http://v"; Region := "us-east-1"; AccessKey := "ak"; SecretKey := secret |}.

(** An operating system on which nothing is mounted and every call succeeds. *)
Definition calm : NodeOS (list os_call) :=
  TraceOS (λ _, None) (λ _, (true, None)) (λ _, ("", None)) (λ _, None) (λ _, false) [].

Lemma publish_hides_credentials_witness :
  erase_env <$> (@NodePublishVolume _ calm (publish_req other_secrets) []).2 =
  erase_env <$> (@NodePublishVolume _ calm (publish_req demo_secrets) []).2.
Proof.
  apply (publish_hides_credentials (λ _, None) (λ _, (true, None)) (λ _, ("", None)) (λ _, None)
    (λ _, false) [] (publish_req demo_secrets) (publish_req other_secrets)
    (conn_with "sk") (conn_with "other") []); first [discriminate | reflexivity].
Defined.

(** ** The machine *)

Record machine := {
  mc_s3 : mem_state;
  mc_mounts : mount_table;
  mc_sockets : list string;
  mc_served : list (list service);
  mc_log : list string;
}.

Definition set_s3 (x : mem_state) (m : machine) : machine := {|
  mc_s3 := x; mc_mounts := mc_mounts m; mc_sockets := mc_sockets m; mc_served := mc_served m;
  mc_log := mc_log m |}.
Definition set_mounts (x : mount_table) (m : machine) : machine := {|
  mc_s3 := mc_s3 m; mc_mounts := x; mc_sockets := mc_sockets m; mc_served := mc_served m;
  mc_log := mc_log m |}.
Definition add_log (x : string) (m : machine) : machine := {|
  mc_s3 := mc_s3 m; mc_mounts := mc_mounts m; mc_sockets := mc_sockets m; mc_served := mc_served m;
  mc_log := mc_log m ++ [x] |}.

Definition on_s3 {A} (f : mem_state → A * mem_state) (m : machine) : A * machine :=
  let '(a, x) := f (mc_s3 m) in (a, set_s3 x m).
Definition on_mounts {A} (f : mount_table → A * mount_table) (m : machine) : A * machine :=
  let '(a, x) := f (mc_mounts m) in (a, set_mounts x m).

#[local] Instance machine_s3 : S3Service machine := {|
  CreateBucket o b := on_s3 (@CreateBucket _ (mem_service 1) o b);
  DeleteBucket o b := on_s3 (@DeleteBucket _ (mem_service 1) o b);
  DeleteObject o b k := on_s3 (@DeleteObject _ (mem_service 1) o b k);
  CopyObject o b k s := on_s3 (@CopyObject _ (mem_service 1) o b k s);
  Paginator := @Paginator _ (mem_service 1);
  NewListObjectsV2Paginator := @NewListObjectsV2Paginator _ (mem_service 1);
  HasMorePages := @HasMorePages _ (mem_service 1);
  NextPage p := on_s3 (@NextPage _ (mem_service 1) p) |}.

#[local] Instance machine_node : NodeOS machine := {|
  MkdirAll t p := on_mounts (MkdirAll t p);
  IsLikelyNotMountPoint t := on_mounts (IsLikelyNotMountPoint t);
  IsNotExist _ := false;
  Environ m := Environ (mc_mounts m);
  CombinedOutput n a e := on_mounts (CombinedOutput n a e);
  CleanupMountPoint t b := on_mounts (CleanupMountPoint t b) |}.

#[local] Instance machine_log : LogOps machine := {|
  log_error e m := add_log ("rpc failed " +:+ m +:+ ": " +:+ Error e);
  log_ok m := add_log ("rpc ok " +:+ m) |}.

#[local] Instance demo_grpc : GrpcOps := {|
  unknown_service s := statusError Unimplemented ("unknown service " +:+ service_name s);
  not_implemented _ m := statusError Unimplemented ("method " +:+ m +:+ " not implemented") |}.
#[local] Instance demo_grpc_laws : GrpcLaws.
Proof. split; intros; by eexists. Qed.

#[local] Instance machine_net : NetOS machine := {|
  Remove a m := {| mc_s3 := mc_s3 m; mc_mounts := mc_mounts m;
                   mc_sockets := filter (λ x, x ≠ a) (mc_sockets m); mc_served := mc_served m;
                   mc_log := mc_log m |};
  Listen _ a m :=
    if decide (a ∈ mc_sockets m) then (inl (errorString "address already in use"), m)
    else (inr (), {| mc_s3 := mc_s3 m; mc_mounts := mc_mounts m;
                     mc_sockets := a :: mc_sockets m; mc_served := mc_served m;
                     mc_log := mc_log m |});
  Serve l m := (inr (), {| mc_s3 := mc_s3 m; mc_mounts := mc_mounts m;
                           mc_sockets := mc_sockets m; mc_served := l :: mc_served m;
                           mc_log := mc_log m |}) |}.

#[local] Instance no_addrs : AddrParser := {| ParseAddr _ := inl (errorString "not an address") |}.

(** klog's verbosity, a decimal number, and one of its switches *)
Definition is_digit (a : ascii) : bool := in_range 48 57 a.
Definition level_flag : Flag (string * bool) := {|
  flag_bool := false;
  flag_set v k := if string_forallb is_digit v then inr (v, k.2) else inl errParse |}.

Definition stderr_flag : Flag (string * bool) := BoolFlag (λ b k, (k.1, b)).

#[local] Instance demo_klog : KlogFlags := {|
  klog_options := string * bool; klog_default := ("0", true);
  klog_flags := [("v", level_flag); ("logtostderr", stderr_flag)] |}.

#[local] Instance demo_klog_laws : KlogLaws.
Proof.
  split.
  - apply (bool_decide_unpack _). vm_compute. exact I.
  - apply (bool_decide_unpack _). vm_compute. exact I.
  - exists level_flag. split; [by left|]. split; [done|]. intros k. by exists ("2", k.2).
Qed.

Definition fresh : machine := {|
  mc_s3 := {| mem := ∅; locked := ∅ |}; mc_mounts := ∅; mc_sockets := ["/csi/csi.sock"];
  mc_served := []; mc_log := [] |}.

(** ** A node driver asked to delete a volume *)

Definition node_driver : Driver := {| opts := {|
  opt_Name := "dezhan.csi.obsernetics.io"; opt_NodeID := "node-a";
  opt_Endpoint := "unix:///csi/csi.sock"; opt_Mode := ModeNode |} |}.
Definition deletion : request :=
  DeleteVolumeRequest_ {| dv_VolumeId := "pvc-1"; dv_Secrets := ∅ |}.
Definition refusal : error := statusError Unimplemented "unknown service csi.v1.Controller".


(** ** The process *)

(** A command line in mixed spellings; the last mode counts. *)
Definition mixed : list setting :=
  [{| set_long := false; set_shape := NextArgument; set_name := "mode"; set_value := "node" |};
   {| set_long := false; set_shape := Bare; set_name := "logtostderr"; set_value := "true" |};
   long "node-id" "node-a";
   {| set_long := false; set_shape := WithEquals; set_name := "mode"; set_value := "controller" |}].

Definition mixed_options : csi_options :=
  put_mode "controller" (put_nodeID "node-a"
    (put_klog klog_default (put_mode "node" csi_defaults))).

Lemma mixed_accepted : sets_all csi_flag_set mixed csi_defaults mixed_options.
Proof.
  unfold mixed.
  apply (sets_cons _ _ _ _ (put_mode "node" csi_defaults)).
  { split; [done|]. exists (StringFlag put_mode). split; [|done].
    apply own_defined. unfold own_flags. set_solver. }
  apply (sets_cons _ _ _ _ (put_klog klog_default (put_mode "node" csi_defaults))).
  { split; [done|]. exists (part_flag (@co_klog demo_klog) (@put_klog demo_klog) stderr_flag).
    split; [|done]. apply klog_defined. simpl. set_solver. }
  apply (sets_cons _ _ _ _ (put_nodeID "node-a" (put_klog klog_default (put_mode "node" csi_defaults)))).
  { apply sets_own; [unfold own_flags; set_solver|done]. }
  apply (sets_cons _ _ _ _ mixed_options); [|apply sets_nil].
  split; [done|]. exists (StringFlag put_mode). split; [|done].
  apply own_defined. unfold own_flags. set_solver.
Qed.

Lemma csi_main_correct_witness :
  csi_main ["-mode"; "node"; "-logtostderr"; "--node-id=node-a"; "-mode=controller"; "rest"] fresh =
    start_driver {| opt_Name := "dezhan.csi.obsernetics.io"; opt_NodeID := "node-a";
                    opt_Endpoint := "unix:///csi/csi.sock"; opt_Mode := "controller" |} fresh.
Proof.
  apply (csi_main_correct
    ["-mode"; "node"; "-logtostderr"; "--node-id=node-a"; "-mode=controller"; "rest"] fresh)
    with (l := mixed) (tail := ["rest"]) (rest := ["rest"]) (o := mixed_options).
  - reflexivity.
  - exact mixed_accepted.
  - apply ends_plain. reflexivity.
Defined.

Lemma driver_deployed_witness :
  csi_main ["--endpoint=unix:///csi/csi.sock"; "--mode=node"; "--node-id=node-a"; "--v=2"] fresh =
  serve_socket [IdentityService; NodeService] fresh.
Proof. apply (driver_deployed "node-a" fresh). discriminate. Defined.
