(* ===== verification/KubeTypes.v ===== *)
(** * Kubernetes objects the operator reads and writes

    [DezhanVault] and its parts follow operator/api/v1alpha1.  The Kubernetes
    types have the fields the operator names; the rest of each struct is its
    [other] part, a map from JSON field names to values in which a field at its
    zero value is absent, so [∅] is what a Go literal leaves out.  A pointer is
    an [option], a possibly nil Go map an [option] of a [gmap]. *)

From S2P Require Import Prelude GoStrings.
Local Open Scope Z_scope.

(** [resource.Quantity], of k8s.io/apimachinery *)
Class QuantityOps := {
  Quantity : Type;
  Quantity_eq_dec :: EqDecision Quantity;
  zeroQuantity : Quantity;
  IsZero : Quantity → bool;
  Cmp : Quantity → Quantity → Z;
  MustParse : string → Quantity;
  QuantityString : Quantity → string;
}.

(** The documented order of quantities: [Cmp] is a comparison by value. *)
Class QuantityLaws `{QuantityOps} : Prop := {
  Cmp_refl q : Cmp q q = 0;
  Cmp_opp q r : Cmp q r = - Cmp r q;
  Cmp_trans p q r : Cmp p q <= 0 → Cmp q r <= 0 → Cmp p r <= 0;
}.

Abbreviation others := (gmap string string).
(** A Go [map[string]string] that may be nil. *)
Abbreviation gomap := (option (gmap string string)).

Inductive IntOrString := FromInt32 (n : Z) | FromString (s : string).

(** The API group and version of the custom resource
    (api/v1alpha1/groupversion_info.go), and [GroupVersion.String] *)
Record GroupVersionOf := { gv_Group : string; gv_Version : string }.
Definition GroupVersion : GroupVersionOf :=
  {| gv_Group := "dezhan.obsernetics.io"; gv_Version := "v1alpha1" |}.
Definition gv_String (g : GroupVersionOf) : string :=
  if decide (gv_Group g = "") then gv_Version g else gv_Group g +:+ "/" +:+ gv_Version g.

Definition no_slash (s : string) : bool := string_forallb (λ a, negb (Ascii.eqb a "/")) s.

(** The group of an [apiVersion] ([schema.ParseGroupVersion]): empty without a
    slash, an error with more than one. *)
Fixpoint group_of (s : string) : option string :=
  match s with
  | "" => Some ""
  | String a t =>
      if decide (a = "/"%char) then
        if no_slash t then Some "" else None
      else if no_slash t then Some "" else String a <$> group_of t
  end.

Record OwnerReference := {
  or_APIVersion : string;
  or_Kind : string;
  or_Name : string;
  or_UID : string;
  or_Controller : bool;
  or_other : others;
}.

Record ObjectMeta := {
  m_Name : string;
  m_Namespace : string;
  m_UID : string;
  m_Labels : gomap;
  m_Annotations : gomap;
  m_OwnerReferences : list OwnerReference;
  m_CreationTimestamp : option Z;
  m_DeletionTimestamp : option Z;
  m_Generation : Z;
  m_other : others;
}.

(** [metav1.GetControllerOf]: the first reference marked as the controller *)
Definition GetControllerOf (m : ObjectMeta) : option OwnerReference :=
  List.find or_Controller (m_OwnerReferences m).

(** ** Services *)

Record ServicePort := {
  sp_Name : string;
  sp_Port : Z;
  sp_TargetPort : IntOrString;
  sp_Protocol : string;
  sp_other : others;
}.

Record Service := {
  svc_Meta : ObjectMeta;
  svc_Type : string;
  svc_Selector : gomap;
  svc_ClusterIP : string;
  svc_Ports : list ServicePort;
  svc_other : others;
}.

Definition ServiceTypeClusterIP : string := "ClusterIP".
Definition ClusterIPNone : string := "None".
Definition ProtocolTCP : string := "TCP".

(** ** Pods *)

Record EnvVar := { env_Name : string; env_Value : string; env_other : others }.

(** An [EnvFromSource] that refers to a Secret by name. *)
Record EnvFromSource := { ef_SecretRef : option string; ef_other : others }.

Record ContainerPort := {
  cp_Name : string; cp_ContainerPort : Z; cp_Protocol : string; cp_other : others }.

Record VolumeMount := { vm_Name : string; vm_MountPath : string; vm_other : others }.

Record Probe := {
  pr_Path : string;
  pr_Port : IntOrString;
  pr_InitialDelaySeconds : Z;
  pr_PeriodSeconds : Z;
  pr_TimeoutSeconds : Z;
  pr_FailureThreshold : Z;
  pr_other : others;
}.

Record SecurityContext := {
  sc_AllowPrivilegeEscalation : option bool;
  sc_ReadOnlyRootFilesystem : option bool;
  sc_RunAsNonRoot : option bool;
  sc_CapabilitiesDrop : option (list string);
  sc_SeccompProfileType : option string;
  sc_other : others;
}.

Record Container := {
  c_Name : string;
  c_Image : string;
  c_Args : list string;
  c_Env : list EnvVar;
  c_EnvFrom : list EnvFromSource;
  c_Ports : list ContainerPort;
  c_VolumeMounts : list VolumeMount;
  c_Resources : others;
  c_ReadinessProbe : option Probe;
  c_LivenessProbe : option Probe;
  c_StartupProbe : option Probe;
  c_SecurityContext : option SecurityContext;
  c_other : others;
}.

Record PodSecurityContext := {
  psc_RunAsNonRoot : option bool;
  psc_RunAsUser : option Z;
  psc_FSGroup : option Z;
  psc_other : others;
}.

Record PodSpec := {
  ps_SecurityContext : option PodSecurityContext;
  ps_PriorityClassName : string;
  ps_TerminationGracePeriodSeconds : option Z;
  ps_Containers : list Container;
  ps_other : others;
}.

Record PodTemplate := { pt_Labels : gomap; pt_Spec : PodSpec; pt_other : others }.

(** ** Claims, StatefulSets, disruption budgets and vaults *)

Record LabelSelector := { ls_MatchLabels : gomap; ls_other : others }.

Record RetentionPolicy := { rp_WhenDeleted : string; rp_WhenScaled : string }.
Definition RetainPolicyType : string := "Retain".

Record PodDisruptionBudget := {
  pdb_Meta : ObjectMeta;
  pdb_MinAvailable : option IntOrString;
  pdb_Selector : option LabelSelector;
  pdb_other : others;
}.

Record Condition := {
  cond_Type : string;
  cond_Status : string;
  cond_ObservedGeneration : Z;
  cond_LastTransitionTime : option Z;
  cond_Reason : string;
  cond_Message : string;
}.

Section quantities.
Context `{!QuantityOps}.

Record PersistentVolumeClaim := {
  pvc_Meta : ObjectMeta;
  pvc_AccessModes : list string;
  pvc_StorageClassName : option string;
  pvc_Requests : option (gmap string Quantity);
  pvc_other : others;
}.

Definition ResourceStorage : string := "storage".

Record StatefulSet := {
  sts_Meta : ObjectMeta;
  sts_Replicas : option Z;
  sts_MinReadySeconds : Z;
  sts_RetentionPolicy : option RetentionPolicy;
  sts_Selector : option LabelSelector;
  sts_ServiceName : string;
  sts_VolumeClaimTemplates : list PersistentVolumeClaim;
  sts_Template : PodTemplate;
  sts_ReadyReplicas : Z;
  sts_other : others;
}.

Record DezhanVaultSpec := {
  s_Image : string;
  s_Port : Z;
  s_Storage : Quantity;
  s_StorageClassName : option string;
  s_RequireAuth : bool;
  s_DeleteQuorum : Z;
  s_ScrubIntervalSeconds : Z;
  s_SecretName : string;
  s_Resources : others;
  s_ServiceType : string;
  s_PriorityClassName : string;
  s_DisablePodDisruptionBudget : bool;
}.

Record DezhanVaultStatus := {
  st_ObservedGeneration : Z;
  st_Ready : bool;
  st_Endpoint : string;
  st_Conditions : list Condition;
}.

Record DezhanVault := {
  v_Meta : ObjectMeta;
  v_Spec : DezhanVaultSpec;
  v_Status : DezhanVaultStatus;
}.
End quantities.

Definition v_Name `{!QuantityOps} (v : DezhanVault) : string := m_Name (v_Meta v).
Definition v_Namespace `{!QuantityOps} (v : DezhanVault) : string := m_Namespace (v_Meta v).

(** ** Zero values: the objects Go literals start from *)

Definition meta_named (name ns : string) : ObjectMeta := {|
  m_Name := name; m_Namespace := ns; m_UID := ""; m_Labels := None;
  m_Annotations := None; m_OwnerReferences := []; m_CreationTimestamp := None;
  m_DeletionTimestamp := None; m_Generation := 0; m_other := ∅ |}.

Definition container_named (name : string) : Container := {|
  c_Name := name; c_Image := ""; c_Args := []; c_Env := []; c_EnvFrom := [];
  c_Ports := []; c_VolumeMounts := []; c_Resources := ∅; c_ReadinessProbe := None;
  c_LivenessProbe := None; c_StartupProbe := None; c_SecurityContext := None;
  c_other := ∅ |}.

Definition zero_podspec : PodSpec := {|
  ps_SecurityContext := None; ps_PriorityClassName := "";
  ps_TerminationGracePeriodSeconds := None; ps_Containers := []; ps_other := ∅ |}.

Definition service_named (name ns : string) : Service := {|
  svc_Meta := meta_named name ns; svc_Type := ""; svc_Selector := None;
  svc_ClusterIP := ""; svc_Ports := []; svc_other := ∅ |}.

Definition pdb_named (name ns : string) : PodDisruptionBudget := {|
  pdb_Meta := meta_named name ns; pdb_MinAvailable := None; pdb_Selector := None;
  pdb_other := ∅ |}.

Definition statefulset_named `{!QuantityOps} (name ns : string) : StatefulSet := {|
  sts_Meta := meta_named name ns; sts_Replicas := None; sts_MinReadySeconds := 0;
  sts_RetentionPolicy := None; sts_Selector := None; sts_ServiceName := "";
  sts_VolumeClaimTemplates := [];
  sts_Template := {| pt_Labels := None; pt_Spec := zero_podspec; pt_other := ∅ |};
  sts_ReadyReplicas := 0; sts_other := ∅ |}.

(** ** Decidable equality *)

#[export] Instance IntOrString_eq_dec : EqDecision IntOrString.
Proof. solve_decision. Defined.
#[export] Instance OwnerReference_eq_dec : EqDecision OwnerReference.
Proof. solve_decision. Defined.
#[export] Instance ObjectMeta_eq_dec : EqDecision ObjectMeta.
Proof. solve_decision. Defined.
#[export] Instance ServicePort_eq_dec : EqDecision ServicePort.
Proof. solve_decision. Defined.
#[export] Instance Service_eq_dec : EqDecision Service.
Proof. solve_decision. Defined.
#[export] Instance EnvVar_eq_dec : EqDecision EnvVar.
Proof. solve_decision. Defined.
#[export] Instance EnvFromSource_eq_dec : EqDecision EnvFromSource.
Proof. solve_decision. Defined.
#[export] Instance ContainerPort_eq_dec : EqDecision ContainerPort.
Proof. solve_decision. Defined.
#[export] Instance VolumeMount_eq_dec : EqDecision VolumeMount.
Proof. solve_decision. Defined.
#[export] Instance Probe_eq_dec : EqDecision Probe.
Proof. solve_decision. Defined.
#[export] Instance SecurityContext_eq_dec : EqDecision SecurityContext.
Proof. solve_decision. Defined.
#[export] Instance Container_eq_dec : EqDecision Container.
Proof. solve_decision. Defined.
#[export] Instance PodSecurityContext_eq_dec : EqDecision PodSecurityContext.
Proof. solve_decision. Defined.
#[export] Instance PodSpec_eq_dec : EqDecision PodSpec.
Proof. solve_decision. Defined.
#[export] Instance PodTemplate_eq_dec : EqDecision PodTemplate.
Proof. solve_decision. Defined.
#[export] Instance LabelSelector_eq_dec : EqDecision LabelSelector.
Proof. solve_decision. Defined.
#[export] Instance RetentionPolicy_eq_dec : EqDecision RetentionPolicy.
Proof. solve_decision. Defined.
#[export] Instance PDB_eq_dec : EqDecision PodDisruptionBudget.
Proof. solve_decision. Defined.
#[export] Instance Condition_eq_dec : EqDecision Condition.
Proof. solve_decision. Defined.
#[export] Instance PVC_eq_dec `{!QuantityOps} : EqDecision PersistentVolumeClaim.
Proof. solve_decision. Defined.
#[export] Instance StatefulSet_eq_dec `{!QuantityOps} : EqDecision StatefulSet.
Proof. solve_decision. Defined.
#[export] Instance DezhanVaultSpec_eq_dec `{!QuantityOps} : EqDecision DezhanVaultSpec.
Proof. solve_decision. Defined.
#[export] Instance DezhanVaultStatus_eq_dec : EqDecision DezhanVaultStatus.
Proof. solve_decision. Defined.
#[export] Instance DezhanVault_eq_dec `{!QuantityOps} : EqDecision DezhanVault.
Proof. solve_decision. Defined.
