(* ===== verification/KubeApi.v ===== *)
(** * The Kubernetes API, as the operator sees it

    The operator talks to the API server through controller-runtime, which is
    not part of this repository.  [KubeClient] are the operations it calls,
    [KubeView] the stored objects, and [KubeLaws] the documented behaviour of
    the operations: [controllerutil.CreateOrUpdate] reads, mutates and writes
    one object, a patch of an object read unchanged stores the patched object,
    and the server adds to a stored object only what the writer left out. *)

From S2P Require Import Prelude GoStrings S3Api KubeTypes.
Local Open Scope Z_scope.

Inductive kind := KVault | KService | KStatefulSet | KPDB | KPVC.
#[export] Instance kind_eq_dec : EqDecision kind.
Proof. solve_decision. Defined.
#[export] Instance kind_countable : Countable kind.
Proof.
  refine (inj_countable'
    (λ k, match k with KVault => 0 | KService => 1 | KStatefulSet => 2 | KPDB => 3 | KPVC => 4 end%nat)
    (λ n, match n with 0 => KVault | 1 => KService | 2 => KStatefulSet | 3 => KPDB | _ => KPVC end%nat)
    _); by intros [].
Defined.

(** [types.NamespacedName]: namespace and name *)
Abbreviation nn := (string * string)%type.

Inductive OperationResult := OperationResultNone | OperationResultCreated | OperationResultUpdated.
#[export] Instance OperationResult_eq_dec : EqDecision OperationResult.
Proof. solve_decision. Defined.

(** [%s] of an operation result *)
Definition op_string (op : OperationResult) : string :=
  match op with
  | OperationResultNone => "unchanged"
  | OperationResultCreated => "created"
  | OperationResultUpdated => "updated"
  end.

Record event := { ev_Type : string; ev_Reason : string; ev_Message : string }.
Definition EventTypeNormal : string := "Normal".
Definition EventTypeWarning : string := "Warning".

Section objects.
Context `{!QuantityOps}.

Inductive obj :=
  | OVault (v : DezhanVault)
  | OService (s : Service)
  | OStatefulSet (s : StatefulSet)
  | OPDB (p : PodDisruptionBudget)
  | OPVC (p : PersistentVolumeClaim).

Definition obj_kind (o : obj) : kind :=
  match o with
  | OVault _ => KVault | OService _ => KService | OStatefulSet _ => KStatefulSet
  | OPDB _ => KPDB | OPVC _ => KPVC
  end.

Definition meta_key (m : ObjectMeta) : nn := (m_Namespace m, m_Name m).

Definition obj_key (o : obj) : nn :=
  match o with
  | OVault v => meta_key (v_Meta v) | OService s => meta_key (svc_Meta s)
  | OStatefulSet s => meta_key (sts_Meta s) | OPDB p => meta_key (pdb_Meta p)
  | OPVC p => meta_key (pvc_Meta p)
  end.

(** The Go types that are API objects. *)
Class KObject (T : Type) := {
  kind_of : kind;
  inj : T → obj;
  prj : obj → option T;
  prj_inj x : prj (inj x) = Some x;
  inj_kind x : obj_kind (inj x) = kind_of;
  inj_prj o x : prj o = Some x → o = inj x;
  inj_surj o : obj_kind o = kind_of → ∃ x, o = inj x;
}.
End objects.
Arguments kind_of {_} T {_}.

#[export] Instance obj_eq_dec `{!QuantityOps} : EqDecision obj.
Proof. solve_decision. Defined.

Ltac kobject := solve [done | intros []; naive_solver].

#[export] Instance vault_object `{!QuantityOps} : KObject DezhanVault.
Proof.
  refine {| kind_of := KVault; inj := OVault;
            prj o := match o with OVault v => Some v | _ => None end |}; kobject.
Defined.
#[export] Instance service_object `{!QuantityOps} : KObject Service.
Proof.
  refine {| kind_of := KService; inj := OService;
            prj o := match o with OService v => Some v | _ => None end |}; kobject.
Defined.
#[export] Instance statefulset_object `{!QuantityOps} : KObject StatefulSet.
Proof.
  refine {| kind_of := KStatefulSet; inj := OStatefulSet;
            prj o := match o with OStatefulSet v => Some v | _ => None end |}; kobject.
Defined.
#[export] Instance pdb_object `{!QuantityOps} : KObject PodDisruptionBudget.
Proof.
  refine {| kind_of := KPDB; inj := OPDB;
            prj o := match o with OPDB v => Some v | _ => None end |}; kobject.
Defined.
#[export] Instance pvc_object `{!QuantityOps} : KObject PersistentVolumeClaim.
Proof.
  refine {| kind_of := KPVC; inj := OPVC;
            prj o := match o with OPVC v => Some v | _ => None end |}; kobject.
Defined.

(** The reference names a vault, by group, kind and name, as the scheme knows
    the type. *)
Definition vault_kind : string := "DezhanVault".
Definition refers_to `{!QuantityOps} (v : DezhanVault) (r : OwnerReference) : Prop :=
  group_of (or_APIVersion r) = Some (gv_Group GroupVersion) ∧ or_Kind r = vault_kind ∧
  or_Name r = v_Name v.
#[export] Instance refers_to_dec `{!QuantityOps} v r : Decision (refers_to v r).
Proof. unfold refers_to. apply _. Defined.

(** ** The client *)

Class KubeClient (W : Type) `{!QuantityOps} := {
  api_Get : kind → nn → Call W obj;
  api_CreateOrUpdate : kind → nn → obj → (obj → error + obj) →
    W → (OperationResult * option error) * W;
  api_Delete : kind → nn → Call W unit;
  (** [Patch(obj, MergeFrom(base))], arguments base and obj *)
  api_Patch : kind → nn → obj → obj → Call W unit;
  api_StatusPatch : nn → DezhanVault → DezhanVault → Call W unit;
  IgnoreNotFound : error → option error;
  SetControllerReference : DezhanVault → ObjectMeta → error + ObjectMeta;
  SetStatusCondition : list Condition → Condition → W → list Condition;
  Recorder : bool;
  Eventf : event → W → W;
}.

Section typed.
Context {W : Type} `{!QuantityOps, !KubeClient W}.

(** An object of the wrong Go type cannot be decoded. *)
Definition decode_error : error := errorString "object has another kind".

(** [r.Get(ctx, key, &x)] into a variable of type [T] *)
Definition Get (T : Type) `{!KObject T} (n : nn) : Call W T := λ w,
  match api_Get (kind_of T) n w with
  | (inl e, w') => (inl e, w')
  | (inr o, w') =>
      match prj o with Some x => (inr x, w') | None => (inl decode_error, w') end
  end.

(** [controllerutil.CreateOrUpdate(ctx, r.Client, x, f)], [x] naming the key *)
Definition CreateOrUpdate {T : Type} `{!KObject T} (n : nn) (x : T)
    (f : T → error + T) : W → (OperationResult * option error) * W :=
  api_CreateOrUpdate (kind_of T) n (inj x) (λ o,
    match prj o with
    | Some y => match f y with inl e => inl e | inr z => inr (inj z) end
    | None => inl decode_error
    end).
End typed.

(** ** Laws *)

(** The stored objects, and what the server makes of a written object: [admission
    old new] is stored when [new] is written over [old] ([None]: created). *)
Class KubeView (W : Type) `{!QuantityOps} := {
  objects : W → kind → nn → option obj;
  admission : option obj → obj → obj;
  events : W → list event;
}.

(** What a write of [o] over the stored object leaves behind. *)
Definition stored_after `{!QuantityOps, !KubeView W} (cur : option obj) (o : obj) : option obj :=
  match cur with
  | Some c => if decide (o = c) then Some c else Some (admission (Some c) o)
  | None => Some (admission None o)
  end.

Class KubeLaws (W : Type) `{!QuantityOps, !KubeClient W, !KubeView W} : Prop := {
  (** reading *)
  law_get_frame k n w r w' : api_Get k n w = (r, w') → objects w' = objects w;
  law_get_ok k n w o w' : api_Get k n w = (inr o, w') → objects w k n = Some o;
  law_get_absent k n w : objects w k n = None →
    ∃ e w', api_Get k n w = (inl e, w') ∧ IgnoreNotFound e = None;
  law_get_notfound k n w e w' : api_Get k n w = (inl e, w') → IgnoreNotFound e = None →
    objects w k n = None;
  law_kind k n w o : objects w k n = Some o → obj_kind o = k;
  law_key k n w o : objects w k n = Some o → obj_key o = n;
  law_ignore e e' : IgnoreNotFound e = Some e' → e' = e;
  (** create or update: one object, mutated by [f] from what is stored, or from
      the given one when there is none *)
  law_cou_frame k n x f w r w' k' n' : api_CreateOrUpdate k n x f w = (r, w') →
    (k', n') ≠ (k, n) → objects w' k' n' = objects w k' n';
  law_cou_ok k n x f w op w' : api_CreateOrUpdate k n x f w = ((op, None), w') →
    ∃ o, f (default x (objects w k n)) = inr o ∧
      objects w' k n = stored_after (objects w k n) o ∧
      (op = OperationResultNone ↔ objects w k n = Some o);
  law_cou_err k n x f w op e w' : api_CreateOrUpdate k n x f w = ((op, Some e), w') →
    objects w' k n = objects w k n ∨
    ∃ o, f (default x (objects w k n)) = inr o ∧
      objects w' k n = stored_after (objects w k n) o;
  (** deletion *)
  law_delete_frame k n w r w' k' n' : api_Delete k n w = (r, w') →
    (k', n') ≠ (k, n) → objects w' k' n' = objects w k' n';
  law_delete_ok k n w w' : api_Delete k n w = (inr (), w') → objects w' k n = None;
  law_delete_err k n w e w' : api_Delete k n w = (inl e, w') →
    (objects w' k n = objects w k n ∨ objects w' k n = None) ∧
    (IgnoreNotFound e = None → objects w' k n = None);
  (** patches *)
  law_patch_frame k n b o w r w' k' n' : api_Patch k n b o w = (r, w') →
    (k', n') ≠ (k, n) → objects w' k' n' = objects w k' n';
  law_patch_ok k n b o w w' : api_Patch k n b o w = (inr (), w') →
    objects w k n = Some b → objects w' k n = stored_after (Some b) o;
  law_patch_err k n b o w e w' : api_Patch k n b o w = (inl e, w') →
    objects w k n = Some b →
    objects w' k n = Some b ∨ objects w' k n = stored_after (Some b) o;
  law_status_frame n b o w r w' k' n' : api_StatusPatch n b o w = (r, w') →
    (k', n') ≠ (KVault, n) → objects w' k' n' = objects w k' n';
  law_status_ok n b o w w' : api_StatusPatch n b o w = (inr (), w') →
    objects w KVault n = Some (OVault b) →
    ∃ v, objects w' KVault n = Some (OVault v) ∧ v_Spec v = v_Spec b ∧ v_Status v = v_Status o;
  law_status_err n b o w e w' : api_StatusPatch n b o w = (inl e, w') →
    objects w KVault n = Some (OVault b) →
    ∃ v, objects w' KVault n = Some (OVault v) ∧ v_Spec v = v_Spec b ∧
      (v_Status v = v_Status b ∨ v_Status v = v_Status o);
  (** ownership *)
  law_owner v m m' : SetControllerReference v m = inr m' →
    (∃ r, GetControllerOf m' = Some r ∧ refers_to v r ∧ or_UID r = m_UID (v_Meta v)) ∧
    m_Name m' = m_Name m ∧ m_Namespace m' = m_Namespace m ∧ m_UID m' = m_UID m ∧
    m_Labels m' = m_Labels m ∧ m_Annotations m' = m_Annotations m ∧
    m_CreationTimestamp m' = m_CreationTimestamp m ∧
    m_DeletionTimestamp m' = m_DeletionTimestamp m ∧
    m_Generation m' = m_Generation m ∧ m_other m' = m_other m;
  law_owner_again v m m' : SetControllerReference v m = inr m' →
    SetControllerReference v m' = inr m';
  (** conditions: the named one is set, the others stay *)
  law_condition cs c w : ∃ c', c' ∈ SetStatusCondition cs c w ∧
    cond_Type c' = cond_Type c ∧ cond_Status c' = cond_Status c ∧
    cond_Reason c' = cond_Reason c ∧ cond_Message c' = cond_Message c ∧
    cond_ObservedGeneration c' = cond_ObservedGeneration c;
  law_condition_others cs c w c' : cond_Type c' ≠ cond_Type c →
    c' ∈ SetStatusCondition cs c w ↔ c' ∈ cs;
  (** events are not objects, and only [Eventf] records them *)
  law_get_events k n w : events (api_Get k n w).2 = events w;
  law_cou_events k n x f w : events (api_CreateOrUpdate k n x f w).2 = events w;
  law_delete_events k n w : events (api_Delete k n w).2 = events w;
  law_patch_events k n b o w : events (api_Patch k n b o w).2 = events w;
  law_status_events n b o w : events (api_StatusPatch n b o w).2 = events w;
  law_event_objects e w : objects (Eventf e w) = objects w;
  law_event_log e w : events (Eventf e w) = events w ++ [e];
}.

(** An API server that answers: every call on the current state succeeds for an
    object of the right kind whose metadata names the key, and
    ownership is only refused when another controller already owns the
    object. *)
Class KubeAvailable (W : Type) `{!QuantityOps, !KubeClient W, !KubeView W} : Prop := {
  avail_get k n w o : objects w k n = Some o → ∃ w', api_Get k n w = (inr o, w');
  avail_cou k n x f w o : f (default x (objects w k n)) = inr o →
    obj_kind o = k → obj_key o = n →
    ∃ op w', api_CreateOrUpdate k n x f w = ((op, None), w');
  avail_delete k n w : ∃ r w', api_Delete k n w = (r, w') ∧
    match r with inl e => IgnoreNotFound e = None | inr _ => True end;
  avail_patch k n b o w : objects w k n = Some b → obj_kind o = k → obj_key o = n →
    ∃ w', api_Patch k n b o w = (inr (), w');
  avail_status n b o w : objects w KVault n = Some (OVault b) → obj_key (OVault o) = n →
    ∃ w', api_StatusPatch n b o w = (inr (), w');
  avail_owner v m : (∀ r, GetControllerOf m = Some r → refers_to v r) →
    ∃ m', SetControllerReference v m = inr m';
}.
