(* ===== verification/Operator.v ===== *)
(** * The operator's reconciler
    (operator/internal/controller/dezhanvault_controller.go)

    One definition per function of the controller.  The mutation closures given
    to [controllerutil.CreateOrUpdate] are the definitions [mutate_*]; every
    function that calls the API is a state transformer over a [KubeClient].
    [ctrl.Result] is its [RequeueAfter], in nanoseconds; log calls are left
    out, events are kept. *)

From S2P Require Import Prelude GoStrings S3Api KubeTypes KubeApi.
Local Open Scope Z_scope.

Definition containerName : string := "dezhan".
Definition dataVolume : string := "data".
Definition fieldOwnerUID : Z := 65532.
Definition requeueWait : Z := 20 * 1000000000.

(** ** Labels *)

Definition labelsFor (name : string) : gmap string string :=
  <["app.kubernetes.io/name" := "dezhan"]>
  (<["app.kubernetes.io/instance" := name]>
  (<["app.kubernetes.io/managed-by" := "dezhan-operator"]> ∅)).

(** Writing to a nil Go map panics; [mergeLabels] allocates first. *)
Definition mergeLabels (dst : gomap) (src : gmap string string) : gomap :=
  Some (src ∪ default ∅ dst).

(** ** Probes and environment *)

Definition healthProbe (port initialDelay : Z) : Probe := {|
  pr_Path := "/healthz"; pr_Port := FromInt32 port;
  pr_InitialDelaySeconds := initialDelay; pr_PeriodSeconds := 10;
  pr_TimeoutSeconds := 3; pr_FailureThreshold := 3; pr_other := ∅ |}.

Section controller.
Context `{!QuantityOps}.
Implicit Types v : DezhanVault.

(** [v] with another spec *)
Definition with_spec v (s : DezhanVaultSpec) : DezhanVault :=
  {| v_Meta := v_Meta v; v_Spec := s; v_Status := v_Status v |}.

Definition applyDefaults v : DezhanVault :=
  let s := v_Spec v in
  with_spec v {|
    s_Image := if decide (s_Image s = "") then "ghcr.io/obsernetics/dezhan:latest" else s_Image s;
    s_Port := if decide (s_Port s = 0) then 8080 else s_Port s;
    s_Storage := if IsZero (s_Storage s) then MustParse "50Gi" else s_Storage s;
    s_StorageClassName := s_StorageClassName s;
    s_RequireAuth := s_RequireAuth s;
    s_DeleteQuorum := s_DeleteQuorum s;
    s_ScrubIntervalSeconds := s_ScrubIntervalSeconds s;
    s_SecretName := s_SecretName s;
    s_Resources := s_Resources s;
    s_ServiceType := if decide (s_ServiceType s = "") then ServiceTypeClusterIP
                     else s_ServiceType s;
    s_PriorityClassName := s_PriorityClassName s;
    s_DisablePodDisruptionBudget := s_DisablePodDisruptionBudget s;
  |}.

Definition env_var (name value : string) : EnvVar :=
  {| env_Name := name; env_Value := value; env_other := ∅ |}.

Definition vaultEnv v : list EnvVar :=
  let s := v_Spec v in
  (if s_RequireAuth s then [env_var "DEZHAN_REQUIRE_AUTH" "1"] else []) ++
  (if decide (0 < s_DeleteQuorum s)
   then [env_var "DEZHAN_DELETE_QUORUM" (Itoa (s_DeleteQuorum s))] else []) ++
  (if decide (0 < s_ScrubIntervalSeconds s)
   then [env_var "DEZHAN_SCRUB_INTERVAL" (Itoa (s_ScrubIntervalSeconds s))] else []).

Definition vaultEnvFrom v : list EnvFromSource :=
  if decide (s_SecretName (v_Spec v) = "") then []
  else [{| ef_SecretRef := Some (s_SecretName (v_Spec v)); ef_other := ∅ |}].

(** ** The pod template *)

(** The fields of the vault container the operator owns. *)
Definition vault_container v (c : Container) : Container :=
  let s := v_Spec v in {|
  c_Name := c_Name c;
  c_Image := s_Image s;
  c_Args := [Itoa (s_Port s); "/" +:+ dataVolume];
  c_Env := vaultEnv v;
  c_EnvFrom := vaultEnvFrom v;
  c_Ports := [{| cp_Name := "s3"; cp_ContainerPort := s_Port s;
                 cp_Protocol := ProtocolTCP; cp_other := ∅ |}];
  c_VolumeMounts := [{| vm_Name := dataVolume; vm_MountPath := "/" +:+ dataVolume;
                        vm_other := ∅ |}];
  c_Resources := s_Resources s;
  c_ReadinessProbe := Some (healthProbe (s_Port s) 3);
  c_LivenessProbe := Some (healthProbe (s_Port s) 10);
  c_StartupProbe := Some {|
    pr_Path := "/healthz"; pr_Port := FromInt32 (s_Port s);
    pr_InitialDelaySeconds := 0; pr_PeriodSeconds := 5;
    pr_TimeoutSeconds := 0; pr_FailureThreshold := 60; pr_other := ∅ |};
  c_SecurityContext := Some {|
    sc_AllowPrivilegeEscalation := Some false;
    sc_ReadOnlyRootFilesystem := Some true;
    sc_RunAsNonRoot := Some true;
    sc_CapabilitiesDrop := Some ["ALL"];
    sc_SeccompProfileType := Some "RuntimeDefault"; sc_other := ∅ |};
  c_other := c_other c;
|}.

(** The first container of that name is updated in place; without one, a new
    container is appended. *)
Fixpoint update_container (f : Container → Container) (l : list Container) : list Container :=
  match l with
  | [] => [f (container_named containerName)]
  | c :: l' => if decide (c_Name c = containerName) then f c :: l'
               else c :: update_container f l'
  end.

Definition applyPodSpec (spec : PodSpec) v : PodSpec := {|
  ps_SecurityContext := Some {|
    psc_RunAsNonRoot := Some true; psc_RunAsUser := Some fieldOwnerUID;
    psc_FSGroup := Some fieldOwnerUID; psc_other := ∅ |};
  ps_PriorityClassName := s_PriorityClassName (v_Spec v);
  ps_TerminationGracePeriodSeconds := Some 60;
  ps_Containers := update_container (vault_container v) (ps_Containers spec);
  ps_other := ps_other spec;
|}.

(** ** Mutations *)

Definition with_labels (m : ObjectMeta) (l a : gomap) : ObjectMeta := {|
  m_Name := m_Name m; m_Namespace := m_Namespace m; m_UID := m_UID m;
  m_Labels := l; m_Annotations := a; m_OwnerReferences := m_OwnerReferences m;
  m_CreationTimestamp := m_CreationTimestamp m;
  m_DeletionTimestamp := m_DeletionTimestamp m;
  m_Generation := m_Generation m; m_other := m_other m |}.

Definition is_new (m : ObjectMeta) : bool := bool_decide (m_CreationTimestamp m = None).

Context {W : Type} `{!KubeClient W}.

Definition scrape_annotations v : gmap string string :=
  <["prometheus.io/scrape" := "true"]>
  (<["prometheus.io/port" := Itoa (s_Port (v_Spec v))]>
  (<["prometheus.io/path" := "/metrics"]> ∅)).

Definition mutate_service v (svc : Service) : error + Service :=
  let s := v_Spec v in
  let m := with_labels (svc_Meta svc)
             (mergeLabels (m_Labels (svc_Meta svc)) (labelsFor (v_Name v)))
             (mergeLabels (m_Annotations (svc_Meta svc)) (scrape_annotations v)) in
  match SetControllerReference v m with
  | inl e => inl e
  | inr m' => inr {|
      svc_Meta := m';
      svc_Type := s_ServiceType s;
      svc_Selector := Some (labelsFor (v_Name v));
      svc_ClusterIP := if is_new m && bool_decide (s_ServiceType s = ServiceTypeClusterIP)
                       then ClusterIPNone else svc_ClusterIP svc;
      svc_Ports := [{| sp_Name := "s3"; sp_Port := s_Port s;
                       sp_TargetPort := FromInt32 (s_Port s);
                       sp_Protocol := ProtocolTCP; sp_other := ∅ |}];
      svc_other := svc_other svc;
    |}
  end.

Definition claim_template v : PersistentVolumeClaim := {|
  pvc_Meta := meta_named dataVolume "";
  pvc_AccessModes := ["ReadWriteOnce"];
  pvc_StorageClassName := s_StorageClassName (v_Spec v);
  pvc_Requests := Some {[ ResourceStorage := s_Storage (v_Spec v) ]};
  pvc_other := ∅;
|}.

Definition selector_for v : option LabelSelector :=
  Some {| ls_MatchLabels := Some (labelsFor (v_Name v)); ls_other := ∅ |}.

Definition mutate_statefulset v (sts : StatefulSet) : error + StatefulSet :=
  let m := with_labels (sts_Meta sts)
             (mergeLabels (m_Labels (sts_Meta sts)) (labelsFor (v_Name v)))
             (m_Annotations (sts_Meta sts)) in
  let new := is_new m in
  let t := sts_Template sts in
  match SetControllerReference v m with
  | inl e => inl e
  | inr m' => inr {|
      sts_Meta := m';
      sts_Replicas := Some 1;
      sts_MinReadySeconds := 10;
      sts_RetentionPolicy := Some {| rp_WhenDeleted := RetainPolicyType;
                                     rp_WhenScaled := RetainPolicyType |};
      sts_Selector := if new then selector_for v else sts_Selector sts;
      sts_ServiceName := if new then v_Name v else sts_ServiceName sts;
      sts_VolumeClaimTemplates := if new then [claim_template v]
                                  else sts_VolumeClaimTemplates sts;
      sts_Template := {| pt_Labels := mergeLabels (pt_Labels t) (labelsFor (v_Name v));
                         pt_Spec := applyPodSpec (pt_Spec t) v;
                         pt_other := pt_other t |};
      sts_ReadyReplicas := sts_ReadyReplicas sts;
      sts_other := sts_other sts;
    |}
  end.

Definition mutate_pdb v (p : PodDisruptionBudget) : error + PodDisruptionBudget :=
  let m := with_labels (pdb_Meta p)
             (mergeLabels (m_Labels (pdb_Meta p)) (labelsFor (v_Name v)))
             (m_Annotations (pdb_Meta p)) in
  match SetControllerReference v m with
  | inl e => inl e
  | inr m' => inr {| pdb_Meta := m'; pdb_MinAvailable := Some (FromInt32 1);
                     pdb_Selector := selector_for v; pdb_other := pdb_other p |}
  end.

(** ** Reconciling one object *)

Definition key_of v : nn := (v_Namespace v, v_Name v).

(** [r.Recorder.Eventf], a no-op without a recorder *)
Definition record_event (typ reason msg : string) (w : W) : W :=
  if Recorder then Eventf {| ev_Type := typ; ev_Reason := reason; ev_Message := msg |} w
  else w.

(** The event after a [CreateOrUpdate] that changed something. *)
Definition record_op (what : string) (r : (OperationResult * option error) * W) : res unit * W :=
  match r with
  | ((op, Some e), w) => (Err e, w)
  | ((op, None), w) =>
      (Ok (), if decide (op = OperationResultNone) then w
              else record_event EventTypeNormal "Reconciled" (what +:+ " " +:+ op_string op) w)
  end.

Definition reconcileService v : Go W unit := λ w,
  record_op "service"
    (CreateOrUpdate (key_of v) (service_named (v_Name v) (v_Namespace v)) (mutate_service v) w).

Definition reconcileStatefulSet v : Go W unit := λ w,
  record_op "statefulset"
    (CreateOrUpdate (key_of v) (statefulset_named (v_Name v) (v_Namespace v))
       (mutate_statefulset v) w).

Definition reconcilePDB v : Go W unit :=
  if s_DisablePodDisruptionBudget (v_Spec v) then
    catch (lift (api_Delete KPDB (key_of v)))
      (λ e, match IgnoreNotFound e with Some e' => fail e' | None => mret () end)
  else λ w,
    match CreateOrUpdate (key_of v) (pdb_named (v_Name v) (v_Namespace v)) (mutate_pdb v) w with
    | ((_, Some e), w') => (Err e, w')
    | ((_, None), w') => (Ok (), w')
    end.

Definition claim_name v : string := dataVolume +:+ "-" +:+ v_Name v +:+ "-0".

(** The claim with its storage request set to [q]. *)
Definition with_storage (p : PersistentVolumeClaim) (q : Quantity) : PersistentVolumeClaim := {|
  pvc_Meta := pvc_Meta p; pvc_AccessModes := pvc_AccessModes p;
  pvc_StorageClassName := pvc_StorageClassName p;
  pvc_Requests := Some (<[ResourceStorage := q]> (default ∅ (pvc_Requests p)));
  pvc_other := pvc_other p |}.

(** [pvc.Spec.Resources.Requests[ResourceStorage]] *)
Definition storage_request (p : PersistentVolumeClaim) : Quantity :=
  default zeroQuantity (default ∅ (pvc_Requests p) !! ResourceStorage).

Definition expand_claim v (p : PersistentVolumeClaim) : Go W unit :=
  if decide (Cmp (s_Storage (v_Spec v)) (storage_request p) <= 0) then mret ()
  else
    _ ← lift (api_Patch KPVC (v_Namespace v, claim_name v) (OPVC p)
                (OPVC (with_storage p (s_Storage (v_Spec v)))));
    modify (record_event EventTypeNormal "Expanded"
      ("PVC " +:+ claim_name v +:+ " grown to " +:+ QuantityString (s_Storage (v_Spec v)))).

Definition reconcilePVCExpansion v : Go W unit :=
  r ← attempt (lift (Get PersistentVolumeClaim (v_Namespace v, claim_name v)));
  match r with
  | inl e => match IgnoreNotFound e with Some e' => fail e' | None => mret () end
  | inr p => expand_claim v p
  end.

(** ** Status *)

Definition available_condition (ready : bool) (generation : Z) : Condition := {|
  cond_Type := "Available";
  cond_Status := if ready then "True" else "False";
  cond_ObservedGeneration := generation;
  cond_LastTransitionTime := None;
  cond_Reason := if ready then "StatefulSetReady" else "StatefulSetNotReady";
  cond_Message := if ready then "vault pod is ready" else "vault pod is not ready";
|}.

Definition vault_endpoint v : string :=
  v_Name v +:+ "." +:+ v_Namespace v +:+ ".svc:" +:+ Itoa (s_Port (v_Spec v)).

Definition status_of v (ready : bool) (cur : DezhanVault) (w : W) : DezhanVault := {|
  v_Meta := v_Meta cur;
  v_Spec := v_Spec cur;
  v_Status := {|
    st_ObservedGeneration := m_Generation (v_Meta cur);
    st_Ready := ready;
    st_Endpoint := vault_endpoint v;
    st_Conditions := SetStatusCondition (st_Conditions (v_Status cur))
                       (available_condition ready (m_Generation (v_Meta cur))) w;
  |};
|}.

Definition updateStatus v (ready : bool) : Go W unit :=
  r ← attempt (lift (Get DezhanVault (key_of v)));
  match r with
  | inl e => match IgnoreNotFound e with Some e' => fail e' | None => mret () end
  | inr cur => λ w, lift (api_StatusPatch (key_of v) cur (status_of v ready cur w)) w
  end.

(** ** The reconcile loop *)

(** [fail]: an event, a best-effort status update, and the error itself *)
Definition fail_with v (reason : string) (err : error) : Go W Z := λ w,
  let w1 := record_event EventTypeWarning reason (Error err) w in
  (Err err, (updateStatus v false w1).2).

(** [if err := step(); err != nil { return r.fail(ctx, &vault, reason, err) }] *)
Definition step_or_fail v (reason : string) (step : Go W unit) (rest : Go W Z) : Go W Z := λ w,
  match step w with
  | (Err e, w') => fail_with v reason e w'
  | (Ok _, w') => rest w'
  | (Panic, w') => (Panic, w')
  | (OutOfFuel, w') => (OutOfFuel, w')
  end.

(** The end of [Reconcile]: readiness and status. *)
Definition finish v (req : nn) : Go W Z :=
  sts ← lift (Get StatefulSet req);
  let ready := bool_decide (1 <= sts_ReadyReplicas sts) in
  _ ← updateStatus v ready;
  mret (if ready then 0 else requeueWait).

Definition reconcile_vault v (req : nn) : Go W Z :=
  step_or_fail v "ServiceError" (reconcileService v)
  (step_or_fail v "StatefulSetError" (reconcileStatefulSet v)
  (step_or_fail v "ExpansionError" (reconcilePVCExpansion v)
  (step_or_fail v "PDBError" (reconcilePDB v)
  (finish v req)))).

Definition Reconcile (req : nn) : Go W Z :=
  r ← attempt (lift (Get DezhanVault req));
  match r with
  | inl e => match IgnoreNotFound e with Some e' => fail e' | None => mret 0 end
  | inr vault =>
      if decide (m_DeletionTimestamp (v_Meta vault) = None)
      then reconcile_vault (applyDefaults vault) req
      else mret 0
  end.
End controller.
