(* ===== verification/DeepCopy.v ===== *)
(** * Deep copies of the custom resource
    (operator/api/v1alpha1/zz_generated.deepcopy.go, groupversion_info.go)

    The structs of the API as they lie in memory, with their pointers and slices,
    and the hand-written [DeepCopyInto], [DeepCopy] and [DeepCopyObject] methods
    on them.  The Kubernetes types they embed ([ObjectMeta], [Quantity],
    [ResourceRequirements], [ListMeta], [Condition]) are not part of this
    repository: [K8sMemory] are their layouts, and their own deep copies are
    instances of [Deep] that meet its contract. *)

From S2P Require Import Prelude GoStrings GoHeap KubeTypes.
Local Open Scope Z_scope.

Class K8sMemory := {
  MetaH : Type; QtyH : Type; ResH : Type; ListMetaH : Type; CondH : Type;
  zero_MetaH :: Zero MetaH; zero_QtyH :: Zero QtyH; zero_ResH :: Zero ResH;
  zero_ListMetaH :: Zero ListMetaH; zero_CondH :: Zero CondH;
  (** what the embedded types themselves point to *)
  ExtCell : Type;
  (** the field [Generation] *)
  meta_Generation : MetaH → Z;
}.

(** [metav1.TypeMeta]: kind and API version *)
Abbreviation TypeMeta := (string * string)%type.

Section structs.
Context `{!K8sMemory}.

Record SpecH := {
  sh_Image : string;
  sh_Port : Z;
  sh_Storage : QtyH;
  sh_StorageClassName : ptr string;
  sh_RequireAuth : bool;
  sh_DeleteQuorum : Z;
  sh_ScrubIntervalSeconds : Z;
  sh_SecretName : string;
  sh_Resources : ResH;
  sh_ServiceType : string;
  sh_PriorityClassName : string;
  sh_DisablePodDisruptionBudget : bool;
}.

Record StatusH := {
  sth_ObservedGeneration : Z;
  sth_Ready : bool;
  sth_Endpoint : string;
  sth_Conditions : slice CondH;
}.

Record VaultH := {
  vh_TypeMeta : TypeMeta;
  vh_Meta : MetaH;
  vh_Spec : SpecH;
  vh_Status : StatusH;
}.

(** [DezhanVaultList] *)
Record VaultListH := {
  lh_TypeMeta : TypeMeta;
  lh_Meta : ListMetaH;
  lh_Items : slice VaultH;
}.

#[export] Instance zero_string : Zero string := "".
#[export] Instance zero_SpecH : Zero SpecH := {|
  sh_Image := ""; sh_Port := 0; sh_Storage := zero; sh_StorageClassName := Ptr None;
  sh_RequireAuth := false; sh_DeleteQuorum := 0; sh_ScrubIntervalSeconds := 0; sh_SecretName := "";
  sh_Resources := zero; sh_ServiceType := ""; sh_PriorityClassName := "";
  sh_DisablePodDisruptionBudget := false |}.
#[export] Instance zero_StatusH : Zero StatusH := {|
  sth_ObservedGeneration := 0; sth_Ready := false; sth_Endpoint := "";
  sth_Conditions := Slice None |}.
#[export] Instance zero_VaultH : Zero VaultH := {|
  vh_TypeMeta := ("", ""); vh_Meta := zero; vh_Spec := zero; vh_Status := zero |}.
#[export] Instance zero_VaultListH : Zero VaultListH := {|
  lh_TypeMeta := ("", ""); lh_Meta := zero; lh_Items := Slice None |}.

(** What a location holds. *)
Inductive cell :=
  | CString (s : string)
  | CSpec (s : SpecH)
  | CStatus (s : StatusH)
  | CVault (v : VaultH)
  | CVaultList (l : VaultListH)
  | CConds (cs : list CondH)
  | CVaults (vs : list VaultH)
  | CExt (x : ExtCell).
End structs.

Abbreviation heap := (gmap loc cell).

Ltac cell_of := solve [done | intros []; naive_solver].

#[export] Instance cell_string `{!K8sMemory} : CellOf cell string.
Proof.
  refine {| to_cell := CString; of_cell c := match c with CString s => Some s | _ => None end |}; cell_of.
Defined.
#[export] Instance cell_SpecH `{!K8sMemory} : CellOf cell SpecH.
Proof.
  refine {| to_cell := CSpec; of_cell c := match c with CSpec s => Some s | _ => None end |}; cell_of.
Defined.
#[export] Instance cell_StatusH `{!K8sMemory} : CellOf cell StatusH.
Proof.
  refine {| to_cell := CStatus; of_cell c := match c with CStatus s => Some s | _ => None end |}; cell_of.
Defined.
#[export] Instance cell_VaultH `{!K8sMemory} : CellOf cell VaultH.
Proof.
  refine {| to_cell := CVault; of_cell c := match c with CVault s => Some s | _ => None end |}; cell_of.
Defined.
#[export] Instance cell_VaultListH `{!K8sMemory} : CellOf cell VaultListH.
Proof.
  refine {| to_cell := CVaultList; of_cell c := match c with CVaultList s => Some s | _ => None end |}; cell_of.
Defined.
#[export] Instance cell_CondHs `{!K8sMemory} : CellOf cell (list CondH).
Proof.
  refine {| to_cell := CConds; of_cell c := match c with CConds s => Some s | _ => None end |}; cell_of.
Defined.
#[export] Instance cell_VaultHs `{!K8sMemory} : CellOf cell (list VaultH).
Proof.
  refine {| to_cell := CVaults; of_cell c := match c with CVaults s => Some s | _ => None end |}; cell_of.
Defined.

(** The deep copies of the embedded Kubernetes types, and the values they stand
    for. *)
Class K8sCopies `{!K8sMemory, !QuantityOps} := {
  ListMeta : Type;
  ObjectMeta_DeepCopyInto :: Deep cell MetaH ObjectMeta;
  Quantity_DeepCopy :: Deep cell QtyH Quantity;
  ResourceRequirements_DeepCopyInto :: Deep cell ResH others;
  ListMeta_DeepCopyInto :: Deep cell ListMetaH ListMeta;
  Condition_DeepCopyInto :: Deep cell CondH Condition;
}.

Class K8sCopyLaws `{K8sCopies} : Prop := {
  law_ObjectMeta :: DeepLaws cell MetaH ObjectMeta;
  law_Quantity :: DeepLaws cell QtyH Quantity;
  law_Resources :: DeepLaws cell ResH others;
  law_ListMeta :: DeepLaws cell ListMetaH ListMeta;
  law_Condition :: DeepLaws cell CondH Condition;
  law_Generation (h : heap) (m : MetaH) (o : ObjectMeta) :
    reads h m o → meta_Generation m = m_Generation o;
}.

(** The values in memory: a status with its conditions nil or not, a vault, a list
    of vaults with its items nil or not. *)
Abbreviation status_mem := (Z * bool * string * option (list Condition))%type.
Abbreviation vault_mem := (TypeMeta * (ObjectMeta * (DezhanVaultSpec * status_mem)))%type.
Abbreviation list_mem := (TypeMeta * (ListMeta * option (list vault_mem)))%type.

(** ** The copies *)

Section copies.
Context `{!K8sMemory, !QuantityOps, !K8sCopies}.

(** [*out = *in] with the three fields that hold pointers replaced *)
Definition spec_with (x : SpecH) (p : QtyH * (ptr string * ResH)) : SpecH := {|
  sh_Image := sh_Image x; sh_Port := sh_Port x; sh_Storage := p.1;
  sh_StorageClassName := p.2.1; sh_RequireAuth := sh_RequireAuth x;
  sh_DeleteQuorum := sh_DeleteQuorum x; sh_ScrubIntervalSeconds := sh_ScrubIntervalSeconds x;
  sh_SecretName := sh_SecretName x; sh_Resources := p.2.2; sh_ServiceType := sh_ServiceType x;
  sh_PriorityClassName := sh_PriorityClassName x;
  sh_DisablePodDisruptionBudget := sh_DisablePodDisruptionBudget x |}.

(** [if p != nil { s := *p; out = &s }] *)
Definition copy_string (p : ptr string) : Go heap (ptr string) :=
  match ptr_loc p with
  | None => mret p
  | Some l =>
      s ← deref (A := string) l;
      out ← alloc (to_cell s);
      mret (Ptr (Some out))
  end.

Definition Spec_DeepCopyInto (x : SpecH) : Go heap SpecH :=
  storage ← copy (V := Quantity) (sh_Storage x);
  class ← copy_string (sh_StorageClassName x);
  resources ← copy (V := others) (sh_Resources x);
  mret (spec_with x (storage, (class, resources))).

Definition status_with (x : StatusH) (cs : slice CondH) : StatusH := {|
  sth_ObservedGeneration := sth_ObservedGeneration x; sth_Ready := sth_Ready x;
  sth_Endpoint := sth_Endpoint x; sth_Conditions := cs |}.

Definition Status_DeepCopyInto (x : StatusH) : Go heap StatusH :=
  cs ← copy_slice (copy (V := Condition)) (sth_Conditions x);
  mret (status_with x cs).

Definition Vault_DeepCopyInto (x : VaultH) : Go heap VaultH :=
  m ← copy (V := ObjectMeta) (vh_Meta x);
  spec ← Spec_DeepCopyInto (vh_Spec x);
  status ← Status_DeepCopyInto (vh_Status x);
  mret {| vh_TypeMeta := vh_TypeMeta x; vh_Meta := m; vh_Spec := spec; vh_Status := status |}.

Definition List_DeepCopyInto (x : VaultListH) : Go heap VaultListH :=
  m ← copy (V := ListMeta) (lh_Meta x);
  items ← copy_slice Vault_DeepCopyInto (lh_Items x);
  mret {| lh_TypeMeta := lh_TypeMeta x; lh_Meta := m; lh_Items := items |}.

Definition Spec_DeepCopy : ptr SpecH → Go heap (ptr SpecH) := copy_pointer Spec_DeepCopyInto.
Definition Status_DeepCopy : ptr StatusH → Go heap (ptr StatusH) := copy_pointer Status_DeepCopyInto.
Definition Vault_DeepCopy : ptr VaultH → Go heap (ptr VaultH) := copy_pointer Vault_DeepCopyInto.
Definition List_DeepCopy : ptr VaultListH → Go heap (ptr VaultListH) := copy_pointer List_DeepCopyInto.

(** A value of the interface [runtime.Object]: nil, or a pointer that is not nil
    at one of the two types. *)
Inductive Object := ObjNil | ObjVault (l : loc) | ObjVaultList (l : loc).

Definition Vault_DeepCopyObject (p : ptr VaultH) : Go heap Object :=
  c ← Vault_DeepCopy p;
  mret (match ptr_loc c with Some l => ObjVault l | None => ObjNil end).

Definition List_DeepCopyObject (p : ptr VaultListH) : Go heap Object :=
  c ← List_DeepCopy p;
  mret (match ptr_loc c with Some l => ObjVaultList l | None => ObjNil end).

(** ** The values in memory *)

#[export] Instance string_pointer : Deep cell (ptr string) (option string) := {|
  reads h p os := match ptr_loc p, os with
    | None, None => True
    | Some l, Some s => h !! l = Some (CString s)
    | _, _ => False
    end;
  reach _ p := match ptr_loc p with Some l => {[l]} | None => ∅ end;
  copy := copy_string |}.

Definition spec_parts (x : SpecH) : QtyH * (ptr string * ResH) :=
  (sh_Storage x, (sh_StorageClassName x, sh_Resources x)).
Definition spec_part_values (s : DezhanVaultSpec) : Quantity * (option string * others) :=
  (s_Storage s, (s_StorageClassName s, s_Resources s)).

Definition spec_scalars (x : SpecH) (s : DezhanVaultSpec) : Prop :=
  sh_Image x = s_Image s ∧ sh_Port x = s_Port s ∧ sh_RequireAuth x = s_RequireAuth s ∧
  sh_DeleteQuorum x = s_DeleteQuorum s ∧ sh_ScrubIntervalSeconds x = s_ScrubIntervalSeconds s ∧
  sh_SecretName x = s_SecretName s ∧ sh_ServiceType x = s_ServiceType s ∧
  sh_PriorityClassName x = s_PriorityClassName s ∧
  sh_DisablePodDisruptionBudget x = s_DisablePodDisruptionBudget s.

#[export] Instance spec_deep : Deep cell SpecH DezhanVaultSpec := {|
  reads h x s := spec_scalars x s ∧ reads h (spec_parts x) (spec_part_values s);
  reach h x := reach (V := Quantity * (option string * others)) h (spec_parts x);
  copy := Spec_DeepCopyInto |}.

#[export] Instance status_deep : Deep cell StatusH status_mem := {|
  reads h x s := (sth_ObservedGeneration x, sth_Ready x, sth_Endpoint x) = s.1 ∧
                 reads h (sth_Conditions x) s.2;
  reach h x := reach (V := option (list Condition)) h (sth_Conditions x);
  copy := Status_DeepCopyInto |}.

#[export] Instance vault_deep : Deep cell VaultH vault_mem := {|
  reads h x v := vh_TypeMeta x = v.1 ∧ reads h (vh_Meta x, (vh_Spec x, vh_Status x)) v.2;
  reach h x := reach (V := ObjectMeta * (DezhanVaultSpec * status_mem)) h
                 (vh_Meta x, (vh_Spec x, vh_Status x));
  copy := Vault_DeepCopyInto |}.

#[export] Instance list_deep : Deep cell VaultListH list_mem := {|
  reads h x v := lh_TypeMeta x = v.1 ∧ reads h (lh_Meta x, lh_Items x) v.2;
  reach h x := reach (V := ListMeta * option (list vault_mem)) h (lh_Meta x, lh_Items x);
  copy := List_DeepCopyInto |}.

(** The resource a value in memory stands for. *)
Definition status_value (s : status_mem) : DezhanVaultStatus := {|
  st_ObservedGeneration := s.1.1.1; st_Ready := s.1.1.2; st_Endpoint := s.1.2;
  st_Conditions := default [] s.2 |}.
Definition vault_value (v : vault_mem) : DezhanVault := {|
  v_Meta := v.2.1; v_Spec := v.2.2.1; v_Status := status_value v.2.2.2 |}.
End copies.

(** ** Every copy meets the contract *)

Section laws.
Context `{!K8sMemory, !QuantityOps, !K8sCopies, !K8sCopyLaws}.

#[export] Instance string_pointer_laws : DeepLaws cell (ptr string) (option string).
Proof.
  split; simpl.
  - intros h [[l|]] [s|]; simpl; try done. intros Hl.
    assert (l ∈ dom h) by by apply elem_of_dom. set_solver.
  - intros h h' [[l|]] [s|]; simpl; try done. intros Hl Ha. rewrite Ha; [done|set_solver].
  - intros h [[l|]] [s|]; try done; simpl; intros Hl.
    + destruct (alloc_ok (C := cell) (CString s) h) as (out & Ho & Hn).
      exists (Ptr (Some out)), (<[out := CString s]> h). unfold copy_string. cbn [ptr_loc].
      rewrite (bind_Ok_l _ _ h s h) by by apply (deref_ok (A := string)).
      split; [by rewrite (bind_Ok_l _ _ _ _ _ Ho)|]. split; [by apply insert_subseteq|].
      split; [apply lookup_insert_eq|]. apply not_elem_of_dom in Hn. simpl. set_solver.
    + exists (Ptr None), h. by repeat split.
Qed.

#[export] Instance spec_laws : DeepLaws cell SpecH DezhanVaultSpec.
Proof.
  apply (embed_laws spec_parts spec_part_values spec_scalars spec_with). split; try done.
  - by intros x [q [s r]].
  - intros h h' x b Hc. simpl in Hc |- *. unfold Spec_DeepCopyInto.
    apply bind_Ok in Hc as (q & h1 & Hq & ([s r] & h2 & Hsr & [= <- <-])%bind_Ok).
    apply bind_Ok in Hsr as (s' & h3 & Hs & (r' & h4 & Hr & [= -> -> ->])%bind_Ok).
    by rewrite (bind_Ok_l _ _ _ _ _ Hq), (bind_Ok_l _ _ _ _ _ Hs), (bind_Ok_l _ _ _ _ _ Hr).
Qed.

#[export] Instance status_laws : DeepLaws cell StatusH status_mem.
Proof.
  apply (embed_laws sth_Conditions snd
    (λ x s, (sth_ObservedGeneration x, sth_Ready x, sth_Endpoint x) = s.1) status_with).
  split; try done. intros h h' x b Hc. simpl in Hc |- *. unfold Status_DeepCopyInto.
  by rewrite (bind_Ok_l _ _ _ _ _ Hc).
Qed.

#[export] Instance vault_laws : DeepLaws cell VaultH vault_mem.
Proof.
  apply (embed_laws (λ x, (vh_Meta x, (vh_Spec x, vh_Status x))) snd
    (λ x v, vh_TypeMeta x = v.1)
    (λ x p, {| vh_TypeMeta := vh_TypeMeta x; vh_Meta := p.1; vh_Spec := p.2.1; vh_Status := p.2.2 |})).
  split; try done.
  - by intros x [m [s t]].
  - intros h h' x b Hc. simpl in Hc |- *. unfold Vault_DeepCopyInto.
    apply bind_Ok in Hc as (m & h1 & Hm & ([s t] & h2 & Hst & [= <- <-])%bind_Ok).
    apply bind_Ok in Hst as (s' & h3 & Hs & (t' & h4 & Ht & [= -> -> ->])%bind_Ok).
    by rewrite (bind_Ok_l _ _ _ _ _ Hm), (bind_Ok_l _ _ _ _ _ Hs), (bind_Ok_l _ _ _ _ _ Ht).
Qed.

#[export] Instance list_laws : DeepLaws cell VaultListH list_mem.
Proof.
  apply (embed_laws (λ x, (lh_Meta x, lh_Items x)) snd (λ x v, lh_TypeMeta x = v.1)
    (λ x p, {| lh_TypeMeta := lh_TypeMeta x; lh_Meta := p.1; lh_Items := p.2 |})).
  split; try done.
  - by intros x [m s].
  - intros h h' x b Hc. simpl in Hc |- *. unfold List_DeepCopyInto.
    apply bind_Ok in Hc as (m & h1 & Hm & (s & h2 & Hs & [= <- <-])%bind_Ok).
    by rewrite (bind_Ok_l _ _ _ _ _ Hm), (bind_Ok_l _ _ _ _ _ Hs).
Qed.
End laws.
