(* ===== verification/DeepCopySpec.v ===== *)
(** * What the deep copies guarantee, and why the operator needs it

    A deep copy is equal to its original and shares no memory with it.  The
    operator's [updateStatus] keeps a deep copy of the vault it read as the base
    of a patch, and then changes the vault in place, its conditions through a
    slice: [status_patch_memory] is that sequence on memory, and it computes the
    two values that [Operator.updateStatus] passes to the API. *)

From S2P Require Import Prelude GoStrings S3Api GoHeap KubeTypes KubeApi Operator DeepCopy.
Local Open Scope Z_scope.

Section copies.
Context `{!K8sMemory, !QuantityOps, !K8sCopies, !K8sCopyLaws}.
Implicit Types h : heap.

(** Two values in one heap that depend on separate memory. *)
Definition independent {A V} `{!Deep cell A V} h (a b : A) (v : V) : Prop :=
  reads h a v ∧ reads h b v ∧ reach (V := V) h a ## reach (V := V) h b ∧
  (∀ h2, agree (reach (V := V) h a) h h2 → reads h2 a v) ∧
  (∀ h2, agree (reach (V := V) h b) h h2 → reads h2 b v).

Lemma copy_independent {A V} `{!Deep cell A V, !DeepLaws cell A V} h (a : A) (v : V) :
  reads h a v → ∃ b h', copy (V := V) a h = (Ok b, h') ∧ h ⊆ h' ∧ independent h' a b v.
Proof.
  intros Hr. destruct (copy_ok h a v Hr) as (b & h' & Hc & Hh & Hb & Hfr).
  exists b, h'. split; [done|]. split; [done|].
  destruct (reads_extends h h' a v Hr Hh) as [Ha Ea]. pose proof (reads_alive h a v Hr).
  split; [done|]. split; [done|]. split; [rewrite Ea; set_solver|].
  split; intros h2 Hag; by eapply reads_agree.
Qed.

(** C29: [DeepCopy] of a vault, a list of vaults, a spec and a status returns nil for nil and
    otherwise a new object that stands for the same resource (nil and empty
    slices told apart), leaves all memory as it was, and shares nothing with
    the original: whatever is written through one of the two, the other still
    stands for that resource. *)
Theorem deep_copy_correct h :
  (∀ (p : ptr VaultH) v, reads h p v →
     ∃ q h', Vault_DeepCopy p h = (Ok q, h') ∧ h ⊆ h' ∧ independent h' p q v) ∧
  (∀ (p : ptr VaultListH) v, reads h p v →
     ∃ q h', List_DeepCopy p h = (Ok q, h') ∧ h ⊆ h' ∧ independent h' p q v) ∧
  (∀ (p : ptr SpecH) v, reads h p v →
     ∃ q h', Spec_DeepCopy p h = (Ok q, h') ∧ h ⊆ h' ∧ independent h' p q v) ∧
  (∀ (p : ptr StatusH) v, reads h p v →
     ∃ q h', Status_DeepCopy p h = (Ok q, h') ∧ h ⊆ h' ∧ independent h' p q v) ∧
  (∀ (p : ptr VaultH), ptr_loc p = None → Vault_DeepCopyObject p h = (Ok ObjNil, h)) ∧
  (∀ (p : ptr VaultListH), ptr_loc p = None → List_DeepCopyObject p h = (Ok ObjNil, h)).
Proof.
  split; [exact (copy_independent h)|]. split; [exact (copy_independent h)|].
  split; [exact (copy_independent h)|]. split; [exact (copy_independent h)|].
  split; by intros [[]].
Qed.
End copies.

(** ** The status patch on memory *)

(** [meta.SetStatusCondition(&v.Status.Conditions, c)] for the vault at a
    location. *)
Class ConditionOps (W : Type) `{!K8sMemory} := {
  SetStatusConditionH : loc → Condition → W → Go heap unit;
}.

Section status.
Context `{!K8sMemory, !QuantityOps, !K8sCopies, !K8sCopyLaws}
  {W : Type} `{!KubeClient W, !ConditionOps W}.
Implicit Types (v : DezhanVault) (w : W) (h : heap).

Definition mem_conditions (m : vault_mem) : list Condition := default [] m.2.2.2.2.
Definition with_conditions (m : vault_mem) (cs : option (list Condition)) : vault_mem :=
  (m.1, (m.2.1, (m.2.2.1, (m.2.2.2.1, cs)))).

(** It changes the conditions of that vault as documented, in place or not, and
    writes no memory the vault does not reach. *)
Class ConditionLaws : Prop := law_SetStatusCondition l c w h (m : vault_mem) :
  reads h (Ptr (A := VaultH) (Some l)) (Some m) →
  ∃ cs h', SetStatusConditionH l c w h = (Ok (), h') ∧
    default [] cs = SetStatusCondition (mem_conditions m) c w ∧
    reads h' (Ptr (A := VaultH) (Some l)) (Some (with_conditions m cs)) ∧
    ∀ k, k ∈ dom h → k ∉ reach (V := option vault_mem) h (Ptr (A := VaultH) (Some l)) →
      h' !! k = h !! k.

Definition set_status (x : VaultH) (generation : Z) (ready : bool) (endpoint : string) : VaultH := {|
  vh_TypeMeta := vh_TypeMeta x; vh_Meta := vh_Meta x; vh_Spec := vh_Spec x;
  vh_Status := {| sth_ObservedGeneration := generation; sth_Ready := ready;
                  sth_Endpoint := endpoint; sth_Conditions := sth_Conditions (vh_Status x) |} |}.

(** The middle of [updateStatus], on the vault read into [cur]: the base of the
    patch, the assignments to the status, the condition. *)
Definition status_patch_memory v (ready : bool) (cur : loc) w : Go heap (ptr VaultH) :=
  base ← Vault_DeepCopy (Ptr (Some cur));
  x ← deref (A := VaultH) cur;
  let generation := meta_Generation (vh_Meta x) in
  _ ← store cur (to_cell (set_status x generation ready (vault_endpoint v)));
  _ ← SetStatusConditionH cur (available_condition ready generation) w;
  mret base.

(** Assignments to plain fields of the status. *)
Lemma set_status_reads h cur x m g ready ep :
  h !! cur = Some (to_cell x) → reads h x m → cur ∉ reach (V := vault_mem) h x →
  let h' := <[cur := to_cell (set_status x g ready ep)]> h in
  reads h' (Ptr (A := VaultH) (Some cur)) (Some (m.1, (m.2.1, (m.2.2.1, (g, ready, ep, m.2.2.2.2)))))
  ∧ reach (V := option vault_mem) h' (Ptr (A := VaultH) (Some cur)) =
    reach (V := option vault_mem) h (Ptr (A := VaultH) (Some cur)).
Proof.
  intros Hx Hr Hcur h'.
  destruct (reads_agree h h' x m Hr) as [Hr' He]; [by apply agree_insert|].
  assert (h' !! cur = Some (to_cell (set_status x g ready ep))) as Hx' by apply lookup_insert_eq.
  split.
  - exists (set_status x g ready ep). split; [done|].
    destruct Hr' as (Ht & Hm & Hs & _ & Hc).
    split; [exact Ht|]. split; [exact Hm|]. split; [exact Hs|]. split; [done|exact Hc].
  - rewrite (reach_ptr _ _ _ Hx), (reach_ptr _ _ _ Hx'). f_equal. by rewrite <- He.
Qed.

(** The patch [updateStatus] sends is the one between the vault it read and
    the vault with the new status, although it changes the vault in place: after
    the sequence the base still stands for the vault as read, and the variable
    for [status_of] of it, provided nothing the variable points to leads back to
    the variable itself. *)
Theorem status_patch_exact `{!ConditionLaws} v ready cur w h x m :
  h !! cur = Some (to_cell x) → reads h x m → cur ∉ reach (V := vault_mem) h x →
  ∃ base h' m', status_patch_memory v ready cur w h = (Ok base, h') ∧
    reads h' base (Some m) ∧
    reads h' (Ptr (A := VaultH) (Some cur)) (Some m') ∧
    vault_value m' = status_of v ready (vault_value m) w.
Proof.
  intros Hx Hr Hcur.
  assert (reads h (Ptr (A := VaultH) (Some cur)) (Some m)) as Hp by by exists x.
  destruct (copy_ok h _ _ Hp) as (base & h1 & Hc & Hh1 & Hb1 & Hfr1).
  destruct (reads_extends h h1 x m Hr Hh1) as [Hr1 E1].
  assert (h1 !! cur = Some (to_cell x)) as Hx1 by by eapply lookup_weaken.
  assert (meta_Generation (vh_Meta x) = m_Generation m.2.1) as Hgen
    by by eapply law_Generation; apply Hr.
  set (g := m_Generation m.2.1) in *. set (ep := vault_endpoint v).
  destruct (set_status_reads h1 cur x m g ready ep Hx1 Hr1) as [Hp2 E2]; [by rewrite E1|].
  set (h2 := <[cur := to_cell (set_status x g ready ep)]> h1) in *.
  destruct (law_SetStatusCondition cur (available_condition ready g) w h2 _ Hp2)
    as (cs & h3 & Hset & Hcs & Hp3 & Hframe).
  exists base, h3. eexists. split.
  { unfold status_patch_memory.
    rewrite (bind_Ok_l _ _ _ base h1) by exact Hc.
    rewrite (bind_Ok_l _ _ _ _ _ (deref_ok _ _ _ Hx1)), Hgen.
    rewrite (bind_Ok_l _ _ _ _ _ (store_ok _ _ _ _ Hx1)). fold ep h2.
    by rewrite (bind_Ok_l _ _ _ _ _ Hset). }
  split; [|split; [exact Hp3|]].
  - eapply (reads_agree h1 h3 base (Some m) Hb1). intros k Hk.
    pose proof (reads_alive h1 base _ Hb1 k Hk) as Hdom.
    assert (k ∉ reach (V := option vault_mem) h1 (Ptr (A := VaultH) (Some cur))) as Hnk.
    { pose proof (reads_alive h _ _ Hp) as Halive.
      destruct (reads_extends h h1 _ _ Hp Hh1) as [_ ->]. set_solver. }
    assert (k ≠ cur) as Hkc.
    { intros ->. apply Hnk. rewrite (reach_ptr _ _ _ Hx1). set_solver. }
    rewrite Hframe; [by apply lookup_insert_ne| |by rewrite E2].
    unfold h2. rewrite dom_insert. set_solver.
  - unfold vault_value, status_of, status_value. simpl. by rewrite Hcs.
Qed.
End status.
