(* ===== verification/OperatorSpec.v ===== *)
(** * What the operator promises

    The desired state of a vault's Service, StatefulSet, disruption budget and
    claim, stated on the stored objects, and what the API server may add to an
    object it stores ([*_filled]: a field the writer left unset may be filled,
    every other named field is kept). *)

From S2P Require Import Prelude GoStrings S3Api KubeTypes KubeApi Operator.
Local Open Scope Z_scope.

(** ** What the server may fill in *)

(** An unset number may be given a default, a set one is kept. *)
Definition filled_Z (a b : Z) : Prop := a = 0 ∨ b = a.
Definition filled_str (a b : string) : Prop := a = "" ∨ b = a.

Definition probe_filled (p q : Probe) : Prop :=
  pr_Path q = pr_Path p ∧ pr_Port q = pr_Port p ∧
  filled_Z (pr_InitialDelaySeconds p) (pr_InitialDelaySeconds q) ∧
  filled_Z (pr_PeriodSeconds p) (pr_PeriodSeconds q) ∧
  filled_Z (pr_TimeoutSeconds p) (pr_TimeoutSeconds q) ∧
  filled_Z (pr_FailureThreshold p) (pr_FailureThreshold q).

Definition secctx_filled (s t : SecurityContext) : Prop :=
  sc_AllowPrivilegeEscalation t = sc_AllowPrivilegeEscalation s ∧
  sc_ReadOnlyRootFilesystem t = sc_ReadOnlyRootFilesystem s ∧
  sc_RunAsNonRoot t = sc_RunAsNonRoot s ∧
  sc_CapabilitiesDrop t = sc_CapabilitiesDrop s ∧
  sc_SeccompProfileType t = sc_SeccompProfileType s.

Definition env_filled (e f : EnvVar) : Prop :=
  env_Name f = env_Name e ∧ env_Value f = env_Value e.
Definition envfrom_filled (e f : EnvFromSource) : Prop := ef_SecretRef f = ef_SecretRef e.
Definition cport_filled (p q : ContainerPort) : Prop :=
  cp_Name q = cp_Name p ∧ cp_ContainerPort q = cp_ContainerPort p ∧ cp_Protocol q = cp_Protocol p.
Definition vmount_filled (m n : VolumeMount) : Prop :=
  vm_Name n = vm_Name m ∧ vm_MountPath n = vm_MountPath m.

Definition container_filled (c d : Container) : Prop :=
  c_Name d = c_Name c ∧ filled_str (c_Image c) (c_Image d) ∧ c_Args d = c_Args c ∧
  Forall2 env_filled (c_Env c) (c_Env d) ∧
  Forall2 envfrom_filled (c_EnvFrom c) (c_EnvFrom d) ∧
  Forall2 cport_filled (c_Ports c) (c_Ports d) ∧
  Forall2 vmount_filled (c_VolumeMounts c) (c_VolumeMounts d) ∧
  option_Forall2 probe_filled (c_ReadinessProbe c) (c_ReadinessProbe d) ∧
  option_Forall2 probe_filled (c_LivenessProbe c) (c_LivenessProbe d) ∧
  option_Forall2 probe_filled (c_StartupProbe c) (c_StartupProbe d) ∧
  option_Forall2 secctx_filled (c_SecurityContext c) (c_SecurityContext d).

Definition podsc_filled (s t : PodSecurityContext) : Prop :=
  psc_RunAsNonRoot t = psc_RunAsNonRoot s ∧ psc_RunAsUser t = psc_RunAsUser s ∧
  psc_FSGroup t = psc_FSGroup s.

Definition podspec_filled (p q : PodSpec) : Prop :=
  option_Forall2 podsc_filled (ps_SecurityContext p) (ps_SecurityContext q) ∧
  filled_str (ps_PriorityClassName p) (ps_PriorityClassName q) ∧
  ps_TerminationGracePeriodSeconds q = ps_TerminationGracePeriodSeconds p ∧
  Forall2 container_filled (ps_Containers p) (ps_Containers q).

(** Metadata the writer controls is kept; the server sets the rest. *)
Definition meta_filled (m n : ObjectMeta) : Prop :=
  m_Name n = m_Name m ∧ m_Namespace n = m_Namespace m ∧ m_Labels n = m_Labels m ∧
  m_Annotations n = m_Annotations m ∧ m_OwnerReferences n = m_OwnerReferences m ∧
  (m_CreationTimestamp m ≠ None → m_CreationTimestamp n = m_CreationTimestamp m).

Definition sport_filled (p q : ServicePort) : Prop :=
  sp_Name q = sp_Name p ∧ sp_Port q = sp_Port p ∧ sp_TargetPort q = sp_TargetPort p ∧
  sp_Protocol q = sp_Protocol p.

Definition service_filled (s t : Service) : Prop :=
  meta_filled (svc_Meta s) (svc_Meta t) ∧ filled_str (svc_Type s) (svc_Type t) ∧
  svc_Selector t = svc_Selector s ∧ filled_str (svc_ClusterIP s) (svc_ClusterIP t) ∧
  Forall2 sport_filled (svc_Ports s) (svc_Ports t).

Definition pdb_filled (p q : PodDisruptionBudget) : Prop :=
  meta_filled (pdb_Meta p) (pdb_Meta q) ∧ pdb_MinAvailable q = pdb_MinAvailable p ∧
  pdb_Selector q = pdb_Selector p.

Section spec.
Context `{!QuantityOps}.
Implicit Types v : DezhanVault.

Definition statefulset_filled (s t : StatefulSet) : Prop :=
  meta_filled (sts_Meta s) (sts_Meta t) ∧ sts_Replicas t = sts_Replicas s ∧
  sts_MinReadySeconds t = sts_MinReadySeconds s ∧
  sts_RetentionPolicy t = sts_RetentionPolicy s ∧ sts_Selector t = sts_Selector s ∧
  sts_ServiceName t = sts_ServiceName s ∧
  sts_VolumeClaimTemplates t = sts_VolumeClaimTemplates s ∧
  pt_Labels (sts_Template t) = pt_Labels (sts_Template s) ∧
  podspec_filled (pt_Spec (sts_Template s)) (pt_Spec (sts_Template t)).

Definition claim_filled (p q : PersistentVolumeClaim) : Prop :=
  meta_filled (pvc_Meta p) (pvc_Meta q) ∧ pvc_AccessModes q = pvc_AccessModes p ∧
  pvc_StorageClassName q = pvc_StorageClassName p ∧ pvc_Requests q = pvc_Requests p.

(** The API server stores a written object with nothing but unset fields
    filled in. *)
Class AdmitLaws (W : Type) `{!KubeView W} : Prop := {
  admit_service c s : ∃ t, admission c (OService s) = OService t ∧ service_filled s t;
  admit_statefulset c s : ∃ t, admission c (OStatefulSet s) = OStatefulSet t ∧ statefulset_filled s t;
  admit_pdb c p : ∃ q, admission c (OPDB p) = OPDB q ∧ pdb_filled p q;
  admit_claim c p : ∃ q, admission c (OPVC p) = OPVC q ∧ claim_filled p q;
}.

(** ** Desired state *)

(** The labels or annotations hold at least [m]. *)
Definition has_labels (m : gmap string string) (g : gomap) : Prop := m ⊆ default ∅ g.

(** Controlled by the vault, so that deleting the vault collects the object. *)
Definition owned_by v (m : ObjectMeta) : Prop :=
  ∃ r, GetControllerOf m = Some r ∧ refers_to v r ∧ or_UID r = m_UID (v_Meta v).

Definition service_ok v (s : Service) : Prop :=
  owned_by v (svc_Meta s) ∧
  has_labels (labelsFor (v_Name v)) (m_Labels (svc_Meta s)) ∧
  has_labels (scrape_annotations v) (m_Annotations (svc_Meta s)) ∧
  filled_str (s_ServiceType (v_Spec v)) (svc_Type s) ∧
  svc_Selector s = Some (labelsFor (v_Name v)) ∧
  ∃ p, svc_Ports s = [p] ∧ sp_Name p = "s3" ∧ sp_Port p = s_Port (v_Spec v) ∧
    sp_TargetPort p = FromInt32 (s_Port (v_Spec v)) ∧ sp_Protocol p = ProtocolTCP.

Definition probe_ok v (initial period failures : Z) (p : option Probe) : Prop :=
  ∃ q, p = Some q ∧ pr_Path q = "/healthz" ∧ pr_Port q = FromInt32 (s_Port (v_Spec v)) ∧
    filled_Z initial (pr_InitialDelaySeconds q) ∧ pr_PeriodSeconds q = period ∧
    pr_FailureThreshold q = failures.

(** The hardened security context: no privilege escalation, a read-only root
    file system, a non-root user, no capabilities, the default seccomp
    profile. *)
Definition hardened (s : option SecurityContext) : Prop :=
  ∃ c, s = Some c ∧ sc_AllowPrivilegeEscalation c = Some false ∧
    sc_ReadOnlyRootFilesystem c = Some true ∧ sc_RunAsNonRoot c = Some true ∧
    sc_CapabilitiesDrop c = Some ["ALL"] ∧ sc_SeccompProfileType c = Some "RuntimeDefault".

Definition container_ok v (c : Container) : Prop :=
  c_Name c = "dezhan" ∧
  filled_str (s_Image (v_Spec v)) (c_Image c) ∧
  c_Args c = [Itoa (s_Port (v_Spec v)); "/data"] ∧
  (λ e, (env_Name e, env_Value e)) <$> c_Env c =
    (λ e, (env_Name e, env_Value e)) <$> vaultEnv v ∧
  ef_SecretRef <$> c_EnvFrom c =
    (if decide (s_SecretName (v_Spec v) = "") then [] else [Some (s_SecretName (v_Spec v))]) ∧
  (λ p, (cp_Name p, cp_ContainerPort p, cp_Protocol p)) <$> c_Ports c =
    [("s3", s_Port (v_Spec v), ProtocolTCP)] ∧
  (λ m, (vm_Name m, vm_MountPath m)) <$> c_VolumeMounts c = [("data", "/data")] ∧
  probe_ok v 3 10 3 (c_ReadinessProbe c) ∧ probe_ok v 10 10 3 (c_LivenessProbe c) ∧
  probe_ok v 0 5 60 (c_StartupProbe c) ∧ hardened (c_SecurityContext c).

(** One writer that keeps its data: a single replica whose claims are never
    deleted, running as the non-root user, with a vault container that mounts
    the data and is configured from the spec. *)
Definition statefulset_ok v (s : StatefulSet) : Prop :=
  owned_by v (sts_Meta s) ∧
  has_labels (labelsFor (v_Name v)) (m_Labels (sts_Meta s)) ∧
  sts_Replicas s = Some 1 ∧ sts_MinReadySeconds s = 10 ∧
  sts_RetentionPolicy s = Some {| rp_WhenDeleted := "Retain"; rp_WhenScaled := "Retain" |} ∧
  has_labels (labelsFor (v_Name v)) (pt_Labels (sts_Template s)) ∧
  (∃ p, ps_SecurityContext (pt_Spec (sts_Template s)) = Some p ∧
    psc_RunAsNonRoot p = Some true ∧ psc_RunAsUser p = Some 65532 ∧ psc_FSGroup p = Some 65532) ∧
  filled_str (s_PriorityClassName (v_Spec v)) (ps_PriorityClassName (pt_Spec (sts_Template s))) ∧
  ps_TerminationGracePeriodSeconds (pt_Spec (sts_Template s)) = Some 60 ∧
  ∃ c, c ∈ ps_Containers (pt_Spec (sts_Template s)) ∧ container_ok v c.

Definition pdb_ok v (p : PodDisruptionBudget) : Prop :=
  owned_by v (pdb_Meta p) ∧ has_labels (labelsFor (v_Name v)) (m_Labels (pdb_Meta p)) ∧
  pdb_MinAvailable p = Some (FromInt32 1) ∧ pdb_Selector p = selector_for v.

(** The status written over the vault [cur]: readiness, endpoint, generation and
    the [Available] condition are the current ones, other conditions are kept. *)
Definition status_ok v (ready : bool) (cur : DezhanVault) (st : DezhanVaultStatus) : Prop :=
  st_Ready st = ready ∧ st_Endpoint st = vault_endpoint v ∧
  st_ObservedGeneration st = m_Generation (v_Meta cur) ∧
  (∃ c, c ∈ st_Conditions st ∧ cond_Type c = "Available" ∧
    cond_Status c = (if ready then "True" else "False") ∧
    cond_ObservedGeneration c = m_Generation (v_Meta cur)) ∧
  ∀ c, cond_Type c ≠ "Available" →
    c ∈ st_Conditions st ↔ c ∈ st_Conditions (v_Status cur).

(** The keys of the objects a vault's reconciliation may write. *)
Definition vault_keys v : list (kind * nn) :=
  [(KVault, key_of v); (KService, key_of v); (KStatefulSet, key_of v); (KPDB, key_of v);
   (KPVC, (v_Namespace v, claim_name v))].

(** Labels other than [own] are the same in both. *)
Definition foreign_kept (own : gmap string string) (g h : gomap) : Prop :=
  ∀ k, own !! k = None → default ∅ h !! k = default ∅ g !! k.

(** What a reconciliation of [v] keeps of an existing StatefulSet: the fields
    the API server refuses to change, and labels others set. *)
Definition statefulset_kept v (s t : StatefulSet) : Prop :=
  m_CreationTimestamp (sts_Meta t) = m_CreationTimestamp (sts_Meta s) ∧
  sts_Selector t = sts_Selector s ∧ sts_ServiceName t = sts_ServiceName s ∧
  sts_VolumeClaimTemplates t = sts_VolumeClaimTemplates s ∧
  foreign_kept (labelsFor (v_Name v)) (m_Labels (sts_Meta s)) (m_Labels (sts_Meta t)) ∧
  foreign_kept (labelsFor (v_Name v)) (pt_Labels (sts_Template s)) (pt_Labels (sts_Template t)).

(** The same of an existing Service, whose cluster address is immutable. *)
Definition service_kept v (s t : Service) : Prop :=
  m_CreationTimestamp (svc_Meta t) = m_CreationTimestamp (svc_Meta s) ∧
  filled_str (svc_ClusterIP s) (svc_ClusterIP t) ∧
  foreign_kept (labelsFor (v_Name v)) (m_Labels (svc_Meta s)) (m_Labels (svc_Meta t)) ∧
  foreign_kept (scrape_annotations v) (m_Annotations (svc_Meta s)) (m_Annotations (svc_Meta t)).

(** No other controller owns the object. *)
Definition ownable v (m : ObjectMeta) : Prop :=
  ∀ r, GetControllerOf m = Some r → refers_to v r.

Context {W : Type} `{!KubeView W}.

Definition has_ready_replica (req : nn) (w : W) : Prop :=
  ∃ s, objects w KStatefulSet req = Some (OStatefulSet s) ∧ 1 <= sts_ReadyReplicas s.

(** Service, StatefulSet, disruption budget and claim of [v] are as desired;
    [old] is the store the reconciliation started from. *)
Definition in_place v (old w : W) : Prop :=
  (∃ s, objects w KService (key_of v) = Some (OService s) ∧ service_ok v s) ∧
  (∃ s, objects w KStatefulSet (key_of v) = Some (OStatefulSet s) ∧ statefulset_ok v s) ∧
  (if s_DisablePodDisruptionBudget (v_Spec v) then objects w KPDB (key_of v) = None
   else ∃ p, objects w KPDB (key_of v) = Some (OPDB p) ∧ pdb_ok v p) ∧
  ∀ p, objects old KPVC (v_Namespace v, claim_name v) = Some (OPVC p) →
    ∃ q, objects w KPVC (v_Namespace v, claim_name v) = Some (OPVC q) ∧
      Cmp (s_Storage (v_Spec v)) (storage_request q) <= 0.
End spec.
