(* ===== verification/OperatorProofs.v ===== *)
(** * How the operator's steps act on stored objects

    Generic lemmas on typed reads and [CreateOrUpdate] over an API server that
    meets [KubeLaws], and, per object, what its mutation establishes and that
    what the server fills in does not undo it. *)

From S2P Require Import Prelude GoStrings S3Api KubeTypes KubeApi Operator OperatorSpec.
Local Open Scope Z_scope.

(** ** Filling in is reflexive and composes *)

Lemma filled_Z_refl a : filled_Z a a.
Proof. by right. Qed.
Lemma filled_str_refl a : filled_str a a.
Proof. by right. Qed.
#[export] Hint Resolve filled_Z_refl filled_str_refl : dezhan.

Lemma filled_Z_trans a b c : filled_Z a b → filled_Z b c → filled_Z a c.
Proof. unfold filled_Z. intuition congruence. Qed.
Lemma filled_str_trans a b c : filled_str a b → filled_str b c → filled_str a c.
Proof. unfold filled_str. intuition congruence. Qed.

Lemma filled_Z_set a b : filled_Z a b → a ≠ 0 → b = a.
Proof. unfold filled_Z. tauto. Qed.

Lemma probe_filled_refl p : probe_filled p p.
Proof. repeat split; auto with dezhan. Qed.

Lemma container_filled_refl c : container_filled c c.
Proof.
  repeat split; auto with dezhan;
    solve [apply Forall_Forall2_diag, Forall_true; done
          |apply option_Forall2_refl; intros ?; by repeat split; auto with dezhan].
Qed.

Lemma service_filled_refl s : service_filled s s.
Proof.
  repeat split; auto with dezhan. apply Forall_Forall2_diag, Forall_true. done.
Qed.

Lemma pdb_filled_refl p : pdb_filled p p.
Proof. by repeat split. Qed.

Section stored.
Context `{!QuantityOps}.

Lemma statefulset_filled_refl s : statefulset_filled s s.
Proof.
  repeat split; auto with dezhan.
  - apply option_Forall2_refl. intros ?. by repeat split.
  - apply Forall_Forall2_diag, Forall_true, container_filled_refl.
Qed.

Lemma claim_filled_refl p : claim_filled p p.
Proof. by repeat split. Qed.

Context {W : Type} `{!KubeView W}.

(** Objects the server stores with only unset fields filled in. *)
Class KStored (T : Type) `{!KObject T} := {
  filled : T → T → Prop;
  filled_refl x : filled x x;
  admit_filled c x : ∃ y, admission c (inj x) = inj y ∧ filled x y;
}.

#[export] Instance service_stored `{!AdmitLaws W} : KStored Service :=
  {| filled := service_filled; filled_refl := service_filled_refl; admit_filled := admit_service |}.
#[export] Instance statefulset_stored `{!AdmitLaws W} : KStored StatefulSet :=
  {| filled := statefulset_filled; filled_refl := statefulset_filled_refl;
     admit_filled := admit_statefulset |}.
#[export] Instance pdb_stored `{!AdmitLaws W} : KStored PodDisruptionBudget :=
  {| filled := pdb_filled; filled_refl := pdb_filled_refl; admit_filled := admit_pdb |}.
#[export] Instance claim_stored `{!AdmitLaws W} : KStored PersistentVolumeClaim :=
  {| filled := claim_filled; filled_refl := claim_filled_refl; admit_filled := admit_claim |}.

Lemma stored_after_filled `{!KObject T, !KStored T} cur (x : T) :
  ∃ y, stored_after cur (inj x) = Some (inj y) ∧ filled x y.
Proof.
  unfold stored_after. destruct cur as [c|].
  - case_decide as Hc; [exists x; subst c; split; [done|apply filled_refl]|].
    destruct (admit_filled (Some c) x) as (y & -> & Hy). eauto.
  - destruct (admit_filled None x) as (y & -> & Hy). eauto.
Qed.

(** ** Typed reads and writes *)

Context `{!KubeClient W, !KubeLaws W}.

Section typed.
Context {T : Type} `{!KObject T}.

Lemma Get_frame n w r w' : Get T n w = (r, w') → objects w' = objects w.
Proof.
  unfold Get. destruct (api_Get (kind_of T) n w) as [r1 w1] eqn:Hg.
  intros Hr. rewrite <- (law_get_frame _ _ _ _ _ Hg). f_equal.
  destruct r1; [|destruct (prj o)]; congruence.
Qed.

Lemma Get_events n w : events (Get T n w).2 = events w.
Proof.
  unfold Get. rewrite <- (law_get_events (kind_of T) n w).
  destruct (api_Get (kind_of T) n w) as [[e|o] w1]; [done|]. by destruct (prj o).
Qed.

Lemma Get_ok n w x w' : Get T n w = (inr x, w') → objects w (kind_of T) n = Some (inj x).
Proof.
  unfold Get. destruct (api_Get (kind_of T) n w) as [[e|o] w1] eqn:Hg; [done|].
  destruct (prj o) eqn:Hp; [|done]. intros [= -> ->].
  by rewrite (law_get_ok _ _ _ _ _ Hg), (inj_prj _ _ Hp).
Qed.

Lemma Get_absent n w : objects w (kind_of T) n = None →
  ∃ e w', Get T n w = (inl e, w') ∧ IgnoreNotFound e = None.
Proof.
  intros (e & w' & Hg & He)%law_get_absent. exists e, w'. unfold Get. by rewrite Hg.
Qed.

Lemma Get_notfound n w e w' : Get T n w = (inl e, w') → IgnoreNotFound e = None →
  objects w (kind_of T) n = None.
Proof.
  unfold Get. destruct (api_Get (kind_of T) n w) as [[e1|o] w1] eqn:Hg.
  - intros [= -> ->] He. by eapply law_get_notfound.
  - destruct (inj_surj o) as [x ->]; [|by rewrite prj_inj].
    apply law_get_ok in Hg. by apply law_kind in Hg.
Qed.

Lemma Get_avail `{!KubeAvailable W} n w x :
  objects w (kind_of T) n = Some (inj x) → ∃ w', Get T n w = (inr x, w').
Proof.
  intros (w' & Hg)%avail_get. exists w'. unfold Get. by rewrite Hg, prj_inj.
Qed.

(** What the mutation starts from: the stored object, or the fresh one. *)
Definition current (n : nn) (x : T) (w : W) (y : T) : Prop :=
  objects w (kind_of T) n = Some (inj y) ∨ objects w (kind_of T) n = None ∧ y = x.

Lemma typed_mutation n (x : T) (f : T → error + T) w o :
  match prj (default (inj x) (objects w (kind_of T) n)) with
  | Some y => match f y with inl e => inl e | inr z => inr (inj z) end
  | None => inl decode_error
  end = inr o →
  ∃ y z, current n x w y ∧ f y = inr z ∧ o = inj z.
Proof.
  unfold current. destruct (objects w (kind_of T) n) as [c|] eqn:Hc; simpl.
  - destruct (inj_surj c) as [y ->]; [by eapply law_kind|]. rewrite prj_inj.
    destruct (f y) as [e|z] eqn:Hf; [done|]. intros [= <-]. exists y, z. auto.
  - rewrite prj_inj. destruct (f x) as [e|z] eqn:Hf; [done|]. intros [= <-].
    exists x, z. auto.
Qed.

Lemma CreateOrUpdate_frame n (x : T) f w r w' k' n' :
  CreateOrUpdate n x f w = (r, w') → (k', n') ≠ (kind_of T, n) →
  objects w' k' n' = objects w k' n'.
Proof. unfold CreateOrUpdate. apply law_cou_frame. Qed.

Lemma CreateOrUpdate_events n (x : T) f w : events (CreateOrUpdate n x f w).2 = events w.
Proof. apply law_cou_events. Qed.

Context `{!KStored T}.

Lemma CreateOrUpdate_ok n (x : T) f w op w' :
  CreateOrUpdate n x f w = ((op, None), w') →
  ∃ y z t, current n x w y ∧ f y = inr z ∧
    objects w' (kind_of T) n = Some (inj t) ∧ filled z t ∧
    (op = OperationResultNone ↔ objects w (kind_of T) n = Some (inj z)) ∧
    (objects w (kind_of T) n = Some (inj z) → t = z).
Proof.
  intros (o & (y & z & Hy & Hz & ->)%typed_mutation & Ho & Hop)%law_cou_ok.
  destruct (stored_after_filled (objects w (kind_of T) n) z) as (t & Ht & Hf).
  exists y, z, t. rewrite Ho. repeat (split; [done|]). intros Hs.
  rewrite Hs in Ht. unfold stored_after in Ht. rewrite decide_True in Ht by done.
  injection Ht as Ht. apply (f_equal prj) in Ht. rewrite !prj_inj in Ht. congruence.
Qed.

Lemma CreateOrUpdate_err n (x : T) f w op e w' :
  CreateOrUpdate n x f w = ((op, Some e), w') →
  objects w' (kind_of T) n = objects w (kind_of T) n ∨
  ∃ y z t, current n x w y ∧ f y = inr z ∧
    objects w' (kind_of T) n = Some (inj t) ∧ filled z t.
Proof.
  intros [Hw|(o & (y & z & Hy & Hz & ->)%typed_mutation & Ho)]%law_cou_err; [by left|right].
  destruct (stored_after_filled (objects w (kind_of T) n) z) as (t & Ht & Hf).
  exists y, z, t. rewrite Ho. auto.
Qed.

(** A stored object is still stored afterwards, as it was or mutated. *)
Lemma CreateOrUpdate_stored n (x : T) f w r w' y :
  CreateOrUpdate n x f w = (r, w') → objects w (kind_of T) n = Some (inj y) →
  objects w' (kind_of T) n = Some (inj y) ∨
  ∃ z t, f y = inr z ∧ objects w' (kind_of T) n = Some (inj t) ∧ filled z t.
Proof.
  intros Hc Hy.
  assert (∀ y', current n x w y' → y' = y) as Hcur.
  { intros y' [Hy'|[Hy' _]]; [|congruence]. rewrite Hy in Hy'. injection Hy' as Hy'.
    apply (f_equal prj) in Hy'. rewrite !prj_inj in Hy'. congruence. }
  destruct r as [op [e|]].
  - apply CreateOrUpdate_err in Hc as [Hw|(y' & z & t & Hy' & Hz & Ht & Hf)].
    + left. congruence.
    + apply Hcur in Hy' as ->. eauto 6.
  - apply CreateOrUpdate_ok in Hc as (y' & z & t & Hy' & Hz & Ht & Hf & _).
    apply Hcur in Hy' as ->. eauto 6.
Qed.

Lemma CreateOrUpdate_avail `{!KubeAvailable W} n (x : T) f w :
  (∀ y, current n x w y → ∃ z, f y = inr z ∧ obj_key (inj z) = n) →
  ∃ op w', CreateOrUpdate n x f w = ((op, None), w').
Proof.
  intros Hf. unfold CreateOrUpdate.
  destruct (objects w (kind_of T) n) as [c|] eqn:Hc.
  - destruct (inj_surj c) as [y ->]; [by eapply law_kind|].
    destruct (Hf y) as (z & Hz & Hn); [by left|].
    apply (avail_cou _ _ _ _ _ (inj z)); [|apply inj_kind|done].
    by rewrite Hc; simpl; rewrite prj_inj, Hz.
  - destruct (Hf x) as (z & Hz & Hn); [by right|].
    apply (avail_cou _ _ _ _ _ (inj z)); [|apply inj_kind|done].
    by rewrite Hc; simpl; rewrite prj_inj, Hz.
Qed.
End typed.
End stored.

(** ** What the mutations establish *)

Lemma Forall2_fmap_eq {A B} (f : A → B) (R : A → A → Prop) l k :
  Forall2 R l k → (∀ x y, R x y → f y = f x) → f <$> k = f <$> l.
Proof. intros Hl Hf. induction Hl; csimpl; f_equal; auto. Qed.

Lemma has_labels_merge m g : has_labels m (mergeLabels g m).
Proof. apply map_union_subseteq_l. Qed.

(** Labels someone else set are kept. *)
Lemma mergeLabels_other m g k : m !! k = None →
  default ∅ (mergeLabels g m) !! k = default ∅ g !! k.
Proof. intros Hk. simpl. by rewrite lookup_union_r. Qed.

Lemma update_container_spec f l :
  ∃ c l1 l2, update_container f l = l1 ++ f c :: l2 ∧ c_Name c = containerName ∧
    Forall (λ d, c_Name d ≠ containerName) l1 ∧
    (l = l1 ++ c :: l2 ∨ l = l1 ∧ l2 = [] ∧ c = container_named containerName).
Proof.
  induction l as [|d l (c & l1 & l2 & Hu & Hc & Hl1 & Hl)]; simpl.
  - exists (container_named containerName), [], []. repeat split; auto.
  - case_decide as Hd.
    + exists d, [], l. repeat split; auto.
    + exists c, (d :: l1), l2. rewrite Hu. repeat split; auto.
      destruct Hl as [->|(-> & -> & ->)]; auto.
Qed.

Section mutations.
Context `{!QuantityOps} {W : Type} `{!KubeClient W, !KubeView W, !KubeLaws W}.
Implicit Types v : DezhanVault.

Lemma vault_container_ok v c : c_Name c = containerName → container_ok v (vault_container v c).
Proof.
  intros Hc. unfold container_ok, probe_ok, hardened. simpl.
  repeat split; eauto 10 with dezhan.
  unfold vaultEnvFrom. by case_decide.
Qed.

Lemma set_owner v m l a m' : SetControllerReference v (with_labels m l a) = inr m' →
  owned_by v m' ∧ m_Labels m' = l ∧ m_Annotations m' = a ∧
  m_CreationTimestamp m' = m_CreationTimestamp m.
Proof. intros (Ho & _ & _ & _ & Hl & Ha & Hc & _)%law_owner. auto. Qed.

Lemma mutate_service_ok v s s' : mutate_service v s = inr s' → service_ok v s'.
Proof.
  unfold mutate_service. destruct (SetControllerReference _ _) as [e|m] eqn:Hm; [done|].
  intros [= <-]. apply set_owner in Hm as (Ho & Hl & Ha & _). unfold service_ok; simpl.
  rewrite Hl, Ha. eauto 12 using has_labels_merge with dezhan.
Qed.

Lemma mutate_pdb_ok v p p' : mutate_pdb v p = inr p' → pdb_ok v p'.
Proof.
  unfold mutate_pdb. destruct (SetControllerReference _ _) as [e|m] eqn:Hm; [done|].
  intros [= <-]. apply set_owner in Hm as (Ho & Hl & _). unfold pdb_ok; simpl.
  rewrite Hl. auto using has_labels_merge.
Qed.

Lemma mutate_statefulset_ok v s s' : mutate_statefulset v s = inr s' → statefulset_ok v s'.
Proof.
  unfold mutate_statefulset. destruct (SetControllerReference _ _) as [e|m] eqn:Hm; [done|].
  intros [= <-]. apply set_owner in Hm as (Ho & Hl & _). unfold statefulset_ok; simpl.
  rewrite Hl.
  destruct (update_container_spec (vault_container v)
    (ps_Containers (pt_Spec (sts_Template s)))) as (c & l1 & l2 & -> & Hc & _).
  repeat (split; [by eauto using has_labels_merge with dezhan|]).
  exists (vault_container v c). split; [|by apply vault_container_ok].
  apply elem_of_app; right; left.
Qed.

(** Server defaults do not undo it. *)
Lemma owned_by_filled v m n : meta_filled m n → owned_by v m → owned_by v n.
Proof. unfold owned_by, GetControllerOf. by intros (_ & _ & _ & _ & -> & _). Qed.

Lemma probe_ok_filled v i p f a b : p ≠ 0 → f ≠ 0 → option_Forall2 probe_filled a b →
  probe_ok v i p f a → probe_ok v i p f b.
Proof.
  intros Hp Hf [x y Hxy|] (q & [= <-] & Hpath & Hport & Hi & Hper & Hfail).
  destruct Hxy as (Hpath' & Hport' & Hi' & Hper' & _ & Hfail').
  exists y. rewrite Hpath', Hport'. repeat split; eauto using filled_Z_trans.
  - rewrite <- Hper. apply filled_Z_set; [done|congruence].
  - rewrite <- Hfail. apply filled_Z_set; [done|congruence].
Qed.

Lemma hardened_filled a b : option_Forall2 secctx_filled a b → hardened a → hardened b.
Proof.
  intros [x y (H1 & H2 & H3 & H4 & H5)|] (c & [= <-] & Hc).
  exists y. rewrite H1, H2, H3, H4, H5. auto.
Qed.

Lemma container_ok_filled v c d : container_filled c d → container_ok v c → container_ok v d.
Proof.
  intros (Fn & Fi & Fa & Fe & Ff & Fp & Fm & Fr & Fl & Fs & Fc)
    (Hn & Hi & Ha & He & Hf & Hp & Hm & Hr & Hl & Hs & Hc).
  unfold container_ok. rewrite Fn, Fa.
  rewrite (Forall2_fmap_eq (λ e, (env_Name e, env_Value e)) _ _ _ Fe) by (intros ?? [-> ->]; done).
  rewrite (Forall2_fmap_eq ef_SecretRef _ _ _ Ff) by (intros ?? ->; done).
  rewrite (Forall2_fmap_eq (λ p, (cp_Name p, cp_ContainerPort p, cp_Protocol p)) _ _ _ Fp)
    by (intros ?? (-> & -> & ->); done).
  rewrite (Forall2_fmap_eq (λ m, (vm_Name m, vm_MountPath m)) _ _ _ Fm)
    by (intros ?? [-> ->]; done).
  repeat (split; [by eauto using filled_str_trans|]).
  repeat (split; [by eapply probe_ok_filled|]). by eapply hardened_filled.
Qed.

Lemma service_ok_filled v s t : service_filled s t → service_ok v s → service_ok v t.
Proof.
  intros (Fm & Ft & Fs & _ & Fp) (Ho & Hl & Ha & Ht & Hs & p & Hp & Hport).
  pose proof Fm as (_ & _ & Fl & Fan & _). unfold service_ok. rewrite Fl, Fan, Fs.
  rewrite Hp in Fp. apply Forall2_cons_inv_l in Fp as (q & k & (Q1 & Q2 & Q3 & Q4) & Fk & Hk).
  apply Forall2_nil_inv_l in Fk as ->.
  assert (∃ p, svc_Ports t = [p] ∧ sp_Name p = "s3" ∧ sp_Port p = s_Port (v_Spec v) ∧
    sp_TargetPort p = FromInt32 (s_Port (v_Spec v)) ∧ sp_Protocol p = ProtocolTCP).
  { exists q. by rewrite Q1, Q2, Q3, Q4. }
  eauto 8 using owned_by_filled, filled_str_trans.
Qed.

Lemma pdb_ok_filled v p q : pdb_filled p q → pdb_ok v p → pdb_ok v q.
Proof.
  intros (Fm & Fa & Fs) (Ho & Hl & Ha & Hs).
  pose proof Fm as (_ & _ & Fl & _). unfold pdb_ok. rewrite Fl, Fa, Fs.
  eauto using owned_by_filled.
Qed.

Lemma statefulset_ok_filled v s t :
  statefulset_filled s t → statefulset_ok v s → statefulset_ok v t.
Proof.
  intros (Fm & Fr & Fmin & Frp & _ & _ & _ & Fpl & Fsc & Fpc & Ftg & Fc)
    (Ho & Hl & Hr & Hmin & Hrp & Hpl & (p & Hp & Hpsc) & Hpc & Htg & c & Hc & Hok).
  pose proof Fm as (_ & _ & Fl & _). unfold statefulset_ok.
  rewrite Fl, Fr, Fmin, Frp, Fpl, Ftg.
  repeat (split; [by eauto using owned_by_filled, filled_str_trans|]).
  split; [|split; [by eauto using filled_str_trans|split; [done|]]].
  - rewrite Hp in Fsc. inversion Fsc as [x y (P1 & P2 & P3)|]; subst.
    exists y. by rewrite P1, P2, P3.
  - apply list_elem_of_lookup in Hc as (i & Hi).
    destruct (Forall2_lookup_l _ _ _ _ _ Fc Hi) as (d & Hd & Hcd).
    exists d. split; [by eapply list_elem_of_lookup_2|by eapply container_ok_filled].
Qed.
End mutations.
