(* ===== verification/OperatorSteps.v ===== *)
(** * The reconciler's steps

    What each step of a reconciliation leaves in the store, on success and on
    failure, and the rule that lifts what every step preserves to a whole
    reconciliation. *)

From S2P Require Import Prelude GoStrings S3Api KubeTypes KubeApi Operator OperatorSpec OperatorProofs.
Local Open Scope Z_scope.

Section steps.
Context `{!QuantityOps} {W : Type} `{!KubeClient W, !KubeView W, !KubeLaws W, !AdmitLaws W}.
Implicit Types (v : DezhanVault) (w : W).

Lemma record_event_objects t r m w : objects (record_event t r m w) = objects w.
Proof. unfold record_event. destruct Recorder; [apply law_event_objects|done]. Qed.

Lemma record_op_inv what r w' o : record_op what r = (o, w') →
  ∃ op e w1, r = ((op, e), w1) ∧ objects w' = objects w1 ∧
    match e with None => o = Ok () | Some e => o = Err e end.
Proof.
  destruct r as [[op [e|]] w1]; simpl; intros [= <- <-].
  - by exists op, (Some e), w1.
  - exists op, None, w1. split; [done|]. split; [|done].
    case_decide; [done|apply record_event_objects].
Qed.

(** ** Service, StatefulSet and disruption budget *)

Lemma reconcileService_frame v w k n : (k, n) ≠ (KService, key_of v) →
  objects (reconcileService v w).2 k n = objects w k n.
Proof.
  intros Hk. destruct (reconcileService v w) as [o w'] eqn:Hr; simpl.
  apply record_op_inv in Hr as (op & e & w1 & Hc & -> & _).
  by eapply (CreateOrUpdate_frame (T := Service)) in Hc.
Qed.

Lemma reconcileService_ok v w w' : reconcileService v w = (Ok (), w') →
  ∃ s, objects w' KService (key_of v) = Some (OService s) ∧ service_ok v s.
Proof.
  intros (op & [e|] & w1 & Hc & -> & Hok)%record_op_inv; [done|].
  apply (CreateOrUpdate_ok (T := Service)) in Hc as (y & z & t & _ & Hz & Ht & Hf & _).
  exists t. split; [done|]. eapply service_ok_filled; [exact Hf|by eapply mutate_service_ok].
Qed.

Lemma reconcileService_stored v w s : objects w KService (key_of v) = Some (OService s) →
  ∃ t, objects (reconcileService v w).2 KService (key_of v) = Some (OService t) ∧
    (t = s ∨ ∃ z, mutate_service v s = inr z ∧ service_filled z t).
Proof.
  intros Hs. destruct (reconcileService v w) as [o w'] eqn:Hr; simpl.
  apply record_op_inv in Hr as (op & e & w1 & Hc & -> & _).
  destruct (CreateOrUpdate_stored (T := Service) _ _ _ _ _ _ _ Hc Hs)
    as [Ht|(z & t & Hz & Ht & Hf)]; [exists s|exists t]; eauto.
Qed.

Lemma reconcileStatefulSet_frame v w k n : (k, n) ≠ (KStatefulSet, key_of v) →
  objects (reconcileStatefulSet v w).2 k n = objects w k n.
Proof.
  intros Hk. destruct (reconcileStatefulSet v w) as [o w'] eqn:Hr; simpl.
  apply record_op_inv in Hr as (op & e & w1 & Hc & -> & _).
  by eapply (CreateOrUpdate_frame (T := StatefulSet)) in Hc.
Qed.

Lemma reconcileStatefulSet_ok v w w' : reconcileStatefulSet v w = (Ok (), w') →
  ∃ s, objects w' KStatefulSet (key_of v) = Some (OStatefulSet s) ∧ statefulset_ok v s.
Proof.
  intros (op & [e|] & w1 & Hc & -> & Hok)%record_op_inv; [done|].
  apply (CreateOrUpdate_ok (T := StatefulSet)) in Hc as (y & z & t & _ & Hz & Ht & Hf & _).
  exists t. split; [done|]. eapply statefulset_ok_filled; [exact Hf|by eapply mutate_statefulset_ok].
Qed.

Lemma reconcileStatefulSet_stored v w s :
  objects w KStatefulSet (key_of v) = Some (OStatefulSet s) →
  ∃ t, objects (reconcileStatefulSet v w).2 KStatefulSet (key_of v) = Some (OStatefulSet t) ∧
    (t = s ∨ ∃ z, mutate_statefulset v s = inr z ∧ statefulset_filled z t).
Proof.
  intros Hs. destruct (reconcileStatefulSet v w) as [o w'] eqn:Hr; simpl.
  apply record_op_inv in Hr as (op & e & w1 & Hc & -> & _).
  destruct (CreateOrUpdate_stored (T := StatefulSet) _ _ _ _ _ _ _ Hc Hs)
    as [Ht|(z & t & Hz & Ht & Hf)]; [exists s|exists t]; eauto.
Qed.

Lemma reconcilePDB_frame v w k n : (k, n) ≠ (KPDB, key_of v) →
  objects (reconcilePDB v w).2 k n = objects w k n.
Proof.
  intros Hk. unfold reconcilePDB. destruct (s_DisablePodDisruptionBudget _).
  - unfold catch, lift. destruct (api_Delete KPDB (key_of v) w) as [[e|[]] w1] eqn:Hd; simpl.
    + eapply law_delete_frame in Hd; [|done]. by destruct (IgnoreNotFound e).
    + by eapply law_delete_frame in Hd.
  - destruct (CreateOrUpdate _ _ _ w) as [[op [e|]] w1] eqn:Hc; simpl;
      by eapply (CreateOrUpdate_frame (T := PodDisruptionBudget)) in Hc.
Qed.

Lemma reconcilePDB_ok v w w' : reconcilePDB v w = (Ok (), w') →
  if s_DisablePodDisruptionBudget (v_Spec v) then objects w' KPDB (key_of v) = None
  else ∃ p, objects w' KPDB (key_of v) = Some (OPDB p) ∧ pdb_ok v p.
Proof.
  unfold reconcilePDB. destruct (s_DisablePodDisruptionBudget _).
  - unfold catch, lift. destruct (api_Delete KPDB (key_of v) w) as [[e|[]] w1] eqn:Hd.
    + destruct (IgnoreNotFound e) eqn:He; intros [= ->]. eapply law_delete_err; eauto.
    + intros [= ->]. by eapply law_delete_ok.
  - destruct (CreateOrUpdate _ _ _ w) as [[op [e|]] w1] eqn:Hc; intros [= ->].
    apply (CreateOrUpdate_ok (T := PodDisruptionBudget)) in Hc
      as (y & z & t & _ & Hz & Ht & Hf & _).
    exists t. split; [done|]. eapply pdb_ok_filled; [exact Hf|by eapply mutate_pdb_ok].
Qed.

(** ** The claim *)

Definition claim_key v : nn := (v_Namespace v, claim_name v).

Lemma attempt_Get {A} `{!KObject T} n (f : error + T → Go W A) w :
  (attempt (lift (Get T n)) ≫= f) w = f (Get T n w).1 (Get T n w).2.
Proof.
  unfold mbind, go_bind, attempt, lift. by destruct (Get T n w) as [[e|x] w1].
Qed.

Lemma bind_Get {A} `{!KObject T} n (f : T → Go W A) w :
  (lift (Get T n) ≫= f) w =
  match Get T n w with (inl e, w1) => (Err e, w1) | (inr x, w1) => f x w1 end.
Proof. unfold mbind, go_bind, lift. by destruct (Get T n w) as [[e|x] w1]. Qed.

Lemma with_storage_request p q : storage_request (with_storage p q) = q.
Proof. unfold storage_request, with_storage. simpl. by rewrite lookup_insert_eq. Qed.

Lemma storage_request_filled p q : claim_filled p q → storage_request q = storage_request p.
Proof. unfold storage_request. by intros (_ & _ & _ & ->). Qed.

Lemma reconcilePVCExpansion_frame v w k n : (k, n) ≠ (KPVC, claim_key v) →
  objects (reconcilePVCExpansion v w).2 k n = objects w k n.
Proof.
  intros Hk. unfold reconcilePVCExpansion. rewrite attempt_Get.
  destruct (Get _ _ w) as [[e|p] w1] eqn:Hg; apply Get_frame in Hg; simpl; rewrite <- Hg.
  { by destruct (IgnoreNotFound e). }
  unfold expand_claim. case_decide; [done|]. unfold mbind, go_bind, lift, modify.
  destruct (api_Patch _ _ _ _ w1) as [[e|[]] w2] eqn:Hp; simpl;
    rewrite ?record_event_objects; by eapply law_patch_frame in Hp.
Qed.

Lemma reconcilePVCExpansion_absent v w : objects w KPVC (claim_key v) = None →
  (reconcilePVCExpansion v w).1 = Ok () ∧
  objects (reconcilePVCExpansion v w).2 = objects w.
Proof.
  intros Hn.
  destruct (Get_absent (T := PersistentVolumeClaim) (claim_key v) w)
    as (e & w1 & Hg & He); [exact Hn|].
  unfold reconcilePVCExpansion. rewrite attempt_Get. fold (claim_key v). rewrite Hg; simpl.
  rewrite He. split; [done|]. simpl. by eapply Get_frame.
Qed.

(** The live claim after the step: as it was, or with the desired request. *)
Lemma reconcilePVCExpansion_stored v w r w' p :
  reconcilePVCExpansion v w = (r, w') → objects w KPVC (claim_key v) = Some (OPVC p) →
  ∃ q, objects w' KPVC (claim_key v) = Some (OPVC q) ∧
    (q = p ∨ 0 < Cmp (s_Storage (v_Spec v)) (storage_request p) ∧
             claim_filled (with_storage p (s_Storage (v_Spec v))) q) ∧
    (r = Ok () → 0 < Cmp (s_Storage (v_Spec v)) (storage_request p) →
       claim_filled (with_storage p (s_Storage (v_Spec v))) q).
Proof.
  unfold reconcilePVCExpansion, claim_key. rewrite attempt_Get.
  destruct (Get _ _ w) as [[e|p'] w1] eqn:Hg; simpl; intros Hr Hp;
    pose proof (Get_frame _ _ _ _ Hg) as Hw1.
  { exists p. assert (w' = w1 ∧ r ≠ Ok ()) as [-> Hne].
    { destruct (IgnoreNotFound e) eqn:He; [by injection Hr as <- <-|].
      by rewrite (Get_notfound (T := PersistentVolumeClaim) _ _ _ _ Hg He) in Hp. }
    rewrite Hw1. naive_solver. }
  apply (Get_ok (T := PersistentVolumeClaim)) in Hg.
  assert (Some (OPVC p) = Some (OPVC p')) as [= <-] by (rewrite <- Hp; exact Hg).
  unfold expand_claim in Hr. case_decide as Hcmp.
  { injection Hr as <- <-. exists p. rewrite Hw1. split; [done|]. split; [auto|lia]. }
  assert (objects w1 KPVC (v_Namespace v, claim_name v) = Some (OPVC p)) as Hp1 by by rewrite Hw1.
  destruct (stored_after_filled (Some (OPVC p)) (with_storage p (s_Storage (v_Spec v))))
    as (q & Hq & Hf).
  unfold mbind, go_bind, lift, modify in Hr.
  destruct (api_Patch _ _ _ _ w1) as [[e|[]] w2] eqn:Hpatch; injection Hr as <- <-.
  - destruct (law_patch_err _ _ _ _ _ _ _ Hpatch Hp1) as [Hs|Hs]; [exists p|exists q].
    + rewrite Hs. naive_solver.
    + rewrite Hs. split; [exact Hq|]. split; [|done]. right. split; [lia|exact Hf].
  - exists q. rewrite record_event_objects, (law_patch_ok _ _ _ _ _ _ Hpatch Hp1).
    split; [exact Hq|]. split; [right; split; [lia|]|intros _ _]; exact Hf.
Qed.

(** ** The status *)

Lemma status_of_ok v ready cur w : status_ok v ready cur (v_Status (status_of v ready cur w)).
Proof.
  unfold status_ok; simpl. repeat (split; [done|]). split.
  - destruct (law_condition (st_Conditions (v_Status cur))
      (available_condition ready (m_Generation (v_Meta cur))) w)
      as (c & Hc & Ht & Hs & _ & _ & Hg). eauto.
  - intros c Hc. by apply law_condition_others.
Qed.

Lemma updateStatus_frame v ready w k n : (k, n) ≠ (KVault, key_of v) →
  objects (updateStatus v ready w).2 k n = objects w k n.
Proof.
  intros Hk. unfold updateStatus. rewrite attempt_Get.
  destruct (Get _ _ w) as [[e|cur] w1] eqn:Hg; apply Get_frame in Hg; simpl; rewrite <- Hg.
  { by destruct (IgnoreNotFound e). }
  unfold lift. destruct (api_StatusPatch _ _ _ w1) as [[e|[]] w2] eqn:Hp; simpl;
    by eapply law_status_frame in Hp.
Qed.

Lemma updateStatus_absent v ready w : objects w KVault (key_of v) = None →
  (updateStatus v ready w).1 = Ok () ∧ objects (updateStatus v ready w).2 = objects w.
Proof.
  intros Hn. destruct (Get_absent (T := DezhanVault) (key_of v) w)
    as (e & w1 & Hg & He); [exact Hn|].
  unfold updateStatus. rewrite attempt_Get, Hg; simpl.
  rewrite He. split; [done|]. exact (Get_frame _ _ _ _ Hg).
Qed.

Lemma updateStatus_stored v ready w r w' cur :
  updateStatus v ready w = (r, w') → objects w KVault (key_of v) = Some (OVault cur) →
  ∃ u, objects w' KVault (key_of v) = Some (OVault u) ∧ v_Spec u = v_Spec cur ∧
    (v_Status u = v_Status cur ∨ status_ok v ready cur (v_Status u)) ∧
    (r = Ok () → status_ok v ready cur (v_Status u)).
Proof.
  unfold updateStatus. rewrite attempt_Get.
  destruct (Get _ _ w) as [[e|cur'] w1] eqn:Hg; simpl; intros Hr Hc;
    pose proof (Get_frame _ _ _ _ Hg) as Hw1.
  { exists cur. assert (w' = w1 ∧ r ≠ Ok ()) as [-> Hne].
    { destruct (IgnoreNotFound e) eqn:He; [by injection Hr as <- <-|].
      by rewrite (Get_notfound (T := DezhanVault) _ _ _ _ Hg He) in Hc. }
    rewrite Hw1. naive_solver. }
  apply (Get_ok (T := DezhanVault)) in Hg.
  assert (Some (OVault cur) = Some (OVault cur')) as [= <-] by (rewrite <- Hc; exact Hg).
  rewrite <- Hw1 in Hc. unfold lift in Hr. pose proof (status_of_ok v ready cur w1) as Hok.
  destruct (api_StatusPatch _ _ _ w1) as [[e|[]] w2] eqn:Hp; injection Hr as <- <-.
  - destruct (law_status_err _ _ _ _ _ _ Hp Hc) as (u & Hu & Hs & Hst).
    exists u. split; [done|]. split; [done|]. split; [|done]. destruct Hst as [->| ->]; auto.
  - destruct (law_status_ok _ _ _ _ _ Hp Hc) as (u & Hu & Hs & Hst). exists u.
    rewrite Hst. auto 6.
Qed.

Lemma updateStatus_events v ready w : events (updateStatus v ready w).2 = events w.
Proof.
  unfold updateStatus. rewrite attempt_Get. pose proof (Get_events (T := DezhanVault) (key_of v) w) as Hg.
  destruct (Get _ _ w) as [[e|cur] w1]; simpl in *; rewrite <- Hg.
  { by destruct (IgnoreNotFound e). }
  unfold lift. pose proof (law_status_events (key_of v) cur (status_of v ready cur w1) w1) as Hp.
  by destruct (api_StatusPatch _ _ _ w1) as [[e|[]] w2].
Qed.

(** ** Composition *)

Lemma key_of_defaults v : key_of (applyDefaults v) = key_of v.
Proof. done. Qed.

Lemma step_or_fail_Ok v reason step rest w d w' :
  step_or_fail v reason step rest w = (Ok d, w') →
  ∃ w1, step w = (Ok (), w1) ∧ rest w1 = (Ok d, w').
Proof.
  unfold step_or_fail, fail_with. destruct (step w) as [[[]|e| |] w1]; naive_solver.
Qed.

Lemma step_or_fail_Err v reason step rest w e w' :
  step_or_fail v reason step rest w = (Err e, w') →
  (∃ w1, step w = (Err e, w1) ∧
     w' = (updateStatus v false (record_event EventTypeWarning reason (Error e) w1)).2) ∨
  ∃ w1, step w = (Ok (), w1) ∧ rest w1 = (Err e, w').
Proof.
  unfold step_or_fail, fail_with. destruct (step w) as [[[]|e1| |] w1]; naive_solver.
Qed.

(** What the steps of a reconciliation preserve, status updates aside. *)
Record steps_preserve v (P : W → Prop) : Prop := {
  pres_objects w w' : objects w' = objects w → P w → P w';
  pres_service w : P w → P (reconcileService v w).2;
  pres_statefulset w : P w → P (reconcileStatefulSet v w).2;
  pres_expansion w : P w → P (reconcilePVCExpansion v w).2;
  pres_pdb w : P w → P (reconcilePDB v w).2;
}.

(** The outcome of a reconciliation: it stopped before any status was written,
    or its last action is a status update, which reports readiness only while
    the StatefulSet at [req] has a ready replica. *)
Definition phases v req (P : W → Prop) (w' : W) : Prop :=
  P w' ∨ ∃ ready w1, P w1 ∧ (ready = true → has_ready_replica req w1) ∧
                     w' = (updateStatus v ready w1).2.

Lemma step_or_fail_phases P v req reason step rest w :
  steps_preserve v P → P (step w).2 → (∀ w', P w' → phases v req P (rest w').2) →
  phases v req P (step_or_fail v reason step rest w).2.
Proof.
  intros HP Hs Hrest. unfold step_or_fail, fail_with.
  destruct (step w) as [[[]|e| |] w1]; simpl in *; [by auto| |by left..].
  right. eexists false, _. split; [|done].
  eapply (pres_objects _ _ HP); [apply record_event_objects|done].
Qed.

Lemma finish_phases P v req w : steps_preserve v P → P w → phases v req P (finish v req w).2.
Proof.
  intros HP Hw. unfold finish. rewrite bind_Get.
  destruct (Get StatefulSet req w) as [[e|s] w1] eqn:Hg.
  { apply Get_frame in Hg. left. by eapply (pres_objects _ _ HP). }
  pose proof (Get_frame _ _ _ _ Hg) as Hw1. apply (Get_ok (T := StatefulSet)) in Hg.
  right. exists (bool_decide (1 <= sts_ReadyReplicas s)), w1.
  split; [by eapply (pres_objects _ _ HP)|]. split.
  - intros Hr%bool_decide_eq_true. exists s. rewrite Hw1. split; [exact Hg|done].
  - unfold mbind, go_bind. by destruct (updateStatus _ _ w1) as [[[]|e| |] w2].
Qed.

Lemma reconcile_vault_phases P v req w :
  steps_preserve v P → P w → phases v req P (reconcile_vault v req w).2.
Proof.
  intros HP Hw. pose proof HP as [_ Hsvc Hsts Hpvc Hpdb]. unfold reconcile_vault.
  apply step_or_fail_phases; [done|by apply Hsvc|intros w1 Hw1].
  apply step_or_fail_phases; [done|by apply Hsts|intros w2 Hw2].
  apply step_or_fail_phases; [done|by apply Hpvc|intros w3 Hw3].
  apply step_or_fail_phases; [done|by apply Hpdb|intros w4 Hw4].
  by apply finish_phases.
Qed.

(** [Reconcile] reads the vault and, unless it is gone or being deleted,
    reconciles it with its defaults applied. *)
Lemma Reconcile_cases req w :
  (∃ e, objects (Reconcile req w).2 = objects w ∧ (Reconcile req w).1 = Err e) ∨
  objects w KVault req = None ∧ objects (Reconcile req w).2 = objects w ∧
    (Reconcile req w).1 = Ok 0 ∨
  ∃ v w1, objects w KVault req = Some (OVault v) ∧ objects w1 = objects w ∧
    key_of v = req ∧
    Reconcile req w =
      if decide (m_DeletionTimestamp (v_Meta v) = None)
      then reconcile_vault (applyDefaults v) req w1 else (Ok 0, w1).
Proof.
  unfold Reconcile. rewrite attempt_Get.
  destruct (Get _ _ w) as [[e|v] w1] eqn:Hg; simpl in *;
    pose proof (Get_frame _ _ _ _ Hg) as Hw1.
  - destruct (IgnoreNotFound e) as [e'|] eqn:He; [left; by exists e'|right; left].
    apply (Get_notfound (T := DezhanVault)) in Hg; done.
  - right; right. apply (Get_ok (T := DezhanVault)) in Hg. exists v, w1.
    split; [exact Hg|]. split; [done|].
    split; [by apply law_key in Hg|]. by case_decide.
Qed.

(** What the steps preserve, and a status update too, a reconciliation
    preserves. *)
Lemma Reconcile_preserves P req w :
  (∀ w1 w2, objects w2 = objects w1 → P w1 → P w2) →
  (∀ v, objects w KVault req = Some (OVault v) → key_of v = req →
     steps_preserve (applyDefaults v) P ∧
     ∀ ready w1, P w1 → P (updateStatus (applyDefaults v) ready w1).2) →
  P w → P (Reconcile req w).2.
Proof.
  intros HP Hv Hw. destruct (Reconcile_cases req w)
    as [(e & Ho & _)|[(_ & Ho & _)|(v & w1 & Hk & Ho & Hkey & ->)]]; [by eapply HP..|].
  assert (P w1) by by eapply HP. case_decide; [|done].
  destruct (Hv v Hk Hkey) as [Hsteps Hst].
  destruct (reconcile_vault_phases P (applyDefaults v) req w1)
    as [?|(ready & w2 & Hw2 & _ & ->)]; auto.
Qed.
End steps.
