(* ===== verification/OperatorTheorems.v ===== *)
(** * Correctness of the reconciler

    The theorems about [Reconcile]: what a successful pass establishes, what no
    pass ever does, how failures are reported, and that against an API server
    that answers a pass succeeds. *)

From S2P Require Import Prelude GoStrings S3Api KubeTypes KubeApi Operator OperatorSpec OperatorProofs OperatorSteps.
Local Open Scope Z_scope.

Section theorems.
Context `{!QuantityOps, !QuantityLaws} {W : Type}
  `{!KubeClient W, !KubeView W, !KubeLaws W, !AdmitLaws W}.
Implicit Types (v : DezhanVault) (w : W).

(** ** Frames *)

(** Preservation of what is stored under one key that no step writes. *)
Lemma untouched_preserved v k n o :
  (k, n) ∉ vault_keys v → steps_preserve v (λ w, objects w k n = o).
Proof.
  unfold vault_keys. rewrite !not_elem_of_cons.
  intros (_ & H1 & H2 & H3 & H4 & _). split.
  - by intros w w' ->.
  - intros w <-. by apply reconcileService_frame.
  - intros w <-. by apply reconcileStatefulSet_frame.
  - intros w <-. by apply reconcilePVCExpansion_frame.
  - intros w <-. by apply reconcilePDB_frame.
Qed.

Lemma vault_preserved v o : steps_preserve v (λ w, objects w KVault (key_of v) = o).
Proof.
  split.
  - by intros w w' ->.
  - intros w <-. by apply reconcileService_frame.
  - intros w <-. by apply reconcileStatefulSet_frame.
  - intros w <-. by apply reconcilePVCExpansion_frame.
  - intros w <-. by apply reconcilePDB_frame.
Qed.

(** ** Success *)

Lemma expansion_in_place v w w' p : reconcilePVCExpansion v w = (Ok (), w') →
  objects w KPVC (claim_key v) = Some (OPVC p) →
  ∃ q, objects w' KPVC (claim_key v) = Some (OPVC q) ∧
    Cmp (s_Storage (v_Spec v)) (storage_request q) <= 0.
Proof.
  intros Hr Hp. destruct (reconcilePVCExpansion_stored _ _ _ _ _ Hr Hp)
    as (q & Hq & Hor & Hok). exists q. split; [done|].
  destruct (decide (0 < Cmp (s_Storage (v_Spec v)) (storage_request p))) as [Hlt|Hge].
  - rewrite (storage_request_filled _ _ (Hok eq_refl Hlt)), with_storage_request, Cmp_refl. done.
  - destruct Hor as [->|[? _]]; lia.
Qed.

(** The four steps, in the order [Reconcile] runs them. *)
Lemma steps_in_place v w w1 w2 w3 w4 :
  reconcileService v w = (Ok (), w1) → reconcileStatefulSet v w1 = (Ok (), w2) →
  reconcilePVCExpansion v w2 = (Ok (), w3) → reconcilePDB v w3 = (Ok (), w4) →
  in_place v w w4.
Proof.
  intros H1 H2 H3 H4.
  pose proof (reconcileService_frame v w) as F1. rewrite H1 in F1.
  pose proof (reconcileStatefulSet_frame v w1) as F2. rewrite H2 in F2.
  pose proof (reconcilePVCExpansion_frame v w2) as F3. rewrite H3 in F3.
  pose proof (reconcilePDB_frame v w3) as F4. rewrite H4 in F4. simpl in *.
  split; [|split; [|split]].
  - apply reconcileService_ok in H1. by rewrite F4, F3, F2.
  - apply reconcileStatefulSet_ok in H2. by rewrite F4, F3.
  - by apply reconcilePDB_ok in H4.
  - intros p Hp. rewrite F4 by done. apply (expansion_in_place _ _ _ p H3).
    unfold claim_key. by rewrite F2, F1.
Qed.

Lemma steps_preserved v P w w1 w2 w3 w4 : steps_preserve v P → P w →
  reconcileService v w = (Ok (), w1) → reconcileStatefulSet v w1 = (Ok (), w2) →
  reconcilePVCExpansion v w2 = (Ok (), w3) → reconcilePDB v w3 = (Ok (), w4) → P w4.
Proof.
  intros [_ P1 P2 P3 P4] Hw H1 H2 H3 H4.
  apply P1 in Hw. rewrite H1 in Hw. apply P2 in Hw. simpl in Hw. rewrite H2 in Hw.
  apply P3 in Hw. simpl in Hw. rewrite H3 in Hw. apply P4 in Hw. simpl in Hw.
  by rewrite H4 in Hw.
Qed.

(** A status update keeps everything but the vault. *)
Lemma in_place_status v ready old w : in_place v old w →
  in_place v old (updateStatus v ready w).2.
Proof. unfold in_place. by rewrite !updateStatus_frame. Qed.

Lemma finish_Ok v w d w' cur : finish v (key_of v) w = (Ok d, w') →
  objects w KVault (key_of v) = Some (OVault cur) →
  ∃ ready s u, objects w KStatefulSet (key_of v) = Some (OStatefulSet s) ∧
    ready = bool_decide (1 <= sts_ReadyReplicas s) ∧
    d = (if ready then 0 else requeueWait) ∧
    (∃ w1, objects w1 = objects w ∧ w' = (updateStatus v ready w1).2) ∧
    objects w' KVault (key_of v) = Some (OVault u) ∧ v_Spec u = v_Spec cur ∧
    status_ok v ready cur (v_Status u).
Proof.
  unfold finish. rewrite bind_Get. intros Hf Hcur.
  destruct (Get _ _ w) as [[e|s] w1] eqn:Hg; [done|].
  pose proof (Get_frame _ _ _ _ Hg) as Hw1. apply (Get_ok (T := StatefulSet)) in Hg.
  set (ready := bool_decide (1 <= sts_ReadyReplicas s)) in *.
  apply bind_Ok in Hf as ([] & w2 & Hu & [= <- <-]).
  rewrite <- Hw1 in Hcur.
  destruct (updateStatus_stored _ _ _ _ _ _ Hu Hcur) as (u & Hst & Hsp & _ & Hok).
  exists ready, s, u. split; [exact Hg|]. split; [done|]. split; [done|].
  split; [exists w1; by rewrite Hu|]. auto.
Qed.

Lemma reconcile_Ok req w d w' v :
  Reconcile req w = (Ok d, w') →
  objects w KVault req = Some (OVault v) → m_DeletionTimestamp (v_Meta v) = None →
  ∃ w4, in_place (applyDefaults v) w w4 ∧
    objects w4 KVault req = Some (OVault v) ∧
    finish (applyDefaults v) req w4 = (Ok d, w').
Proof.
  intros Hr Hv Hdel. destruct (Reconcile_cases req w)
    as [(e & _ & He)|[(Hn & _)|(v' & w0 & Hv' & Hw0 & <- & Heq)]];
    [by rewrite Hr in He|by rewrite Hv in Hn|].
  rewrite Hv in Hv'. injection Hv' as <-. rewrite Heq, decide_True in Hr by done.
  apply step_or_fail_Ok in Hr as (w1 & H1 & Hr). apply step_or_fail_Ok in Hr as (w2 & H2 & Hr).
  apply step_or_fail_Ok in Hr as (w3 & H3 & Hr). apply step_or_fail_Ok in Hr as (w4 & H4 & Hr).
  pose proof (steps_in_place _ _ _ _ _ _ H1 H2 H3 H4) as Hin.
  exists w4. split; [unfold in_place in *; by rewrite <- Hw0|]. split; [|done].
  eapply (steps_preserved _ (λ w, objects w KVault (key_of v) = Some (OVault v)));
    [apply (vault_preserved (applyDefaults v))|by rewrite Hw0|done..].
Qed.

Lemma finish_in_place v old w d w' : finish v (key_of v) w = (Ok d, w') →
  in_place v old w → in_place v old w'.
Proof.
  unfold finish. rewrite bind_Get. destruct (Get _ _ w) as [[e|s] w1] eqn:Hg; [done|].
  apply Get_frame in Hg. intros ([] & w2 & Hu & [= <- <-])%bind_Ok Hin.
  replace w2 with (updateStatus v (bool_decide (1 <= sts_ReadyReplicas s)) w1).2 by by rewrite Hu.
  apply in_place_status. unfold in_place in *. by rewrite Hg.
Qed.

(** C5: A reconciliation that returns without an error has put the vault's
    Service, StatefulSet and disruption budget into their desired state (one
    replica, retained claims, hardened pod, ownership, configuration from the
    spec with its defaults), grown the live claim to the requested size,
    published readiness, endpoint and generation in the vault's status without
    touching its spec, and asks to be called again exactly when no replica is
    ready. *)
Theorem reconcile_converges req w d w' v :
  Reconcile req w = (Ok d, w') →
  objects w KVault req = Some (OVault v) → m_DeletionTimestamp (v_Meta v) = None →
  in_place (applyDefaults v) w w' ∧
  ∃ s u, objects w' KStatefulSet req = Some (OStatefulSet s) ∧
    objects w' KVault req = Some (OVault u) ∧ v_Spec u = v_Spec v ∧
    status_ok (applyDefaults v) (bool_decide (1 <= sts_ReadyReplicas s)) v (v_Status u) ∧
    d = (if bool_decide (1 <= sts_ReadyReplicas s) then 0 else requeueWait).
Proof.
  intros Hr Hv Hdel. assert (key_of v = req) as <- by by apply law_key in Hv.
  destruct (reconcile_Ok _ _ _ _ _ Hr Hv Hdel) as (w4 & Hin & Hv4 & Hf).
  split; [by eapply (finish_in_place (applyDefaults v))|].
  destruct (finish_Ok (applyDefaults v) _ _ _ _ Hf Hv4)
    as (ready & s & u & Hs & -> & -> & (w5 & Hw5 & ->) & Hu & Hspec & Hst).
  exists s, u. rewrite updateStatus_frame, Hw5 by done. split; [done|].
  by repeat (split; [done|]).
Qed.

(** ** What no reconciliation does *)

(** C28: On every outcome a reconciliation writes at most the vault, its
    Service, StatefulSet and disruption budget, and the claim of its one
    replica; for a vault that is gone or being deleted it writes nothing. *)
Theorem reconcile_frame req w k n :
  (∀ v, objects w KVault req = Some (OVault v) → m_DeletionTimestamp (v_Meta v) = None →
     (k, n) ∉ vault_keys v) →
  objects (Reconcile req w).2 k n = objects w k n.
Proof.
  intros Hk. destruct (Reconcile_cases req w)
    as [(e & -> & _)|[(_ & -> & _)|(v & w1 & Hv & Hw1 & _ & ->)]]; [done..|].
  rewrite <- Hw1. case_decide as Hdel; [|done]. specialize (Hk v Hv Hdel).
  destruct (reconcile_vault_phases (λ w', objects w' k n = objects w1 k n)
    (applyDefaults v) req w1) as [Hp|(ready & w2 & Hp & _ & ->)]; [|done|done|].
  - by apply untouched_preserved.
  - rewrite updateStatus_frame; [done|].
    unfold vault_keys in Hk. rewrite !not_elem_of_cons in Hk. tauto.
Qed.

(** For a vault that does not exist the reconciliation succeeds without
    asking for another call; for one that is being deleted it does so too,
    unless reading it failed. *)
Theorem reconcile_gone_or_deleting req w :
  (∀ v, objects w KVault req = Some (OVault v) → m_DeletionTimestamp (v_Meta v) ≠ None) →
  objects (Reconcile req w).2 = objects w ∧
  (objects w KVault req = None → (Reconcile req w).1 = Ok 0) ∧
  ((Reconcile req w).1 = Ok 0 ∨ ∃ e, (Reconcile req w).1 = Err e).
Proof.
  intros Hdel. destruct (Reconcile_cases req w)
    as [(e & Ho & He)|[(_ & Ho & He)|(v & w1 & Hv & Hw1 & _ & ->)]].
  - split; [done|]. split; [|by eauto]. intros Hn.
    destruct (Get_absent (T := DezhanVault) req w) as (e' & w1 & Hg & He'); [exact Hn|].
    unfold Reconcile. by rewrite attempt_Get, Hg; simpl; rewrite He'.
  - rewrite He. auto.
  - rewrite decide_False by auto. simpl. rewrite Hv. auto.
Qed.

(** The claim is the one it was, or it grew to the desired request. *)
Definition claim_grown v p (w : W) : Prop :=
  ∃ q, objects w KPVC (claim_key v) = Some (OPVC q) ∧
    (q = p ∨ 0 < Cmp (s_Storage (v_Spec v)) (storage_request p) ∧
             claim_filled (with_storage p (s_Storage (v_Spec v))) q).

Lemma claim_grown_step v p w : claim_grown v p w → claim_grown v p (reconcilePVCExpansion v w).2.
Proof.
  intros (q & Hq & Hor). destruct (reconcilePVCExpansion v w) as [r w'] eqn:Hr.
  destruct (reconcilePVCExpansion_stored _ _ _ _ _ Hr Hq) as (q' & Hq' & Hor' & _).
  exists q'. split; [done|]. destruct Hor as [->|[Hlt Hf]]; [done|].
  assert (storage_request q = s_Storage (v_Spec v)) as Hreq
    by by rewrite (storage_request_filled _ _ Hf), with_storage_request.
  destruct Hor' as [->|[Hlt' _]]; [auto|]. rewrite Hreq, Cmp_refl in Hlt'. lia.
Qed.

Lemma claim_grown_preserved v p : steps_preserve v (claim_grown v p).
Proof.
  unfold claim_grown. split.
  - by intros w w' ->.
  - intros w. by rewrite reconcileService_frame.
  - intros w. by rewrite reconcileStatefulSet_frame.
  - apply claim_grown_step.
  - intros w. by rewrite reconcilePDB_frame.
Qed.

(** C17: On every outcome the storage request of the vault's live claim is never
    lowered: the claim is left alone, or its request, and nothing else the
    operator controls, becomes the larger desired size. *)
Theorem reconcile_never_shrinks req w v p :
  objects w KVault req = Some (OVault v) →
  objects w KPVC (claim_key v) = Some (OPVC p) →
  ∃ q, objects (Reconcile req w).2 KPVC (claim_key v) = Some (OPVC q) ∧
    Cmp (storage_request p) (storage_request q) <= 0 ∧
    (q = p ∨ claim_filled (with_storage p (s_Storage (v_Spec (applyDefaults v)))) q).
Proof.
  intros Hv Hp.
  assert (claim_grown (applyDefaults v) p (Reconcile req w).2) as (q & Hq & Hor).
  { apply Reconcile_preserves.
    - intros w1 w2 Ho. unfold claim_grown. by rewrite Ho.
    - intros v' Hv' _. rewrite Hv in Hv'. injection Hv' as <-.
      split; [apply claim_grown_preserved|]. intros ready w1. unfold claim_grown.
      by rewrite updateStatus_frame.
    - exists p. auto. }
  exists q. split; [done|]. destruct Hor as [->|[Hlt Hf]].
  - rewrite Cmp_refl. split; [lia|by left].
  - rewrite (storage_request_filled _ _ Hf), with_storage_request, Cmp_opp. split; [lia|by right].
Qed.

Lemma foreign_kept_trans own a b c :
  foreign_kept own a b → foreign_kept own b c → foreign_kept own a c.
Proof. intros Hab Hbc k Hk. by rewrite Hbc, Hab. Qed.

Lemma foreign_kept_merge own g : foreign_kept own g (mergeLabels g own).
Proof. intros k Hk. by apply mergeLabels_other. Qed.

Lemma statefulset_kept_mutate v s z t :
  m_CreationTimestamp (sts_Meta s) ≠ None → mutate_statefulset v s = inr z →
  statefulset_filled z t → statefulset_kept v s t.
Proof.
  unfold mutate_statefulset. destruct (SetControllerReference _ _) as [e|m] eqn:Hm; [done|].
  intros Hts [= <-] (Fm & _ & _ & _ & Fs & Fn & Ft & Fp & _). simpl in *.
  apply set_owner in Hm as (_ & Hl & _ & Hc). destruct Fm as (_ & _ & Fl & _ & _ & Fc).
  assert (is_new (with_labels (sts_Meta s)
    (mergeLabels (m_Labels (sts_Meta s)) (labelsFor (v_Name v)))
    (m_Annotations (sts_Meta s))) = false) as Hnew by by apply bool_decide_eq_false.
  rewrite Hnew in *. unfold statefulset_kept. rewrite Fs, Fn, Ft, Fp, Fl, Hl, Fc, Hc by congruence.
  auto 6 using foreign_kept_merge.
Qed.

Lemma service_kept_mutate v s z t :
  m_CreationTimestamp (svc_Meta s) ≠ None → mutate_service v s = inr z →
  service_filled z t → service_kept v s t.
Proof.
  unfold mutate_service. destruct (SetControllerReference _ _) as [e|m] eqn:Hm; [done|].
  intros Hts [= <-] (Fm & _ & _ & Fip & _). simpl in *.
  apply set_owner in Hm as (_ & Hl & Ha & Hc). destruct Fm as (_ & _ & Fl & Fa & _ & Fc).
  unfold service_kept. rewrite Fl, Hl, Fa, Ha, Fc, Hc by congruence.
  unfold is_new in Fip. rewrite bool_decide_eq_false_2 in Fip by done.
  auto using foreign_kept_merge.
Qed.

Lemma statefulset_kept_trans v s t u :
  statefulset_kept v s t → statefulset_kept v t u → statefulset_kept v s u.
Proof.
  intros (Hc & Hs & Hn & Ht & Hl & Hp) (Hc' & Hs' & Hn' & Ht' & Hl' & Hp').
  unfold statefulset_kept. rewrite Hc', Hs', Hn', Ht'. intuition eauto using foreign_kept_trans.
Qed.

Lemma service_kept_trans v s t u :
  service_kept v s t → service_kept v t u → service_kept v s u.
Proof.
  intros (Hc & Hi & Hl & Ha) (Hc' & Hi' & Hl' & Ha').
  unfold service_kept. rewrite Hc'. intuition eauto using foreign_kept_trans, filled_str_trans.
Qed.

Lemma statefulset_kept_preserved v s : m_CreationTimestamp (sts_Meta s) ≠ None →
  steps_preserve v (λ w, ∃ t,
    objects w KStatefulSet (key_of v) = Some (OStatefulSet t) ∧ statefulset_kept v s t).
Proof.
  intros Hts. split.
  - by intros w w' ->.
  - intros w. by rewrite reconcileService_frame.
  - intros w (t & Ht & Hk). destruct (reconcileStatefulSet_stored _ _ _ Ht) as (u & Hu & Hor).
    exists u. split; [done|]. destruct Hor as [->|(z & Hz & Hf)]; [done|].
    eapply statefulset_kept_trans; [done|]. eapply statefulset_kept_mutate; [|done..].
    destruct Hk as [-> _]. done.
  - intros w. by rewrite reconcilePVCExpansion_frame.
  - intros w. by rewrite reconcilePDB_frame.
Qed.

Lemma service_kept_preserved v s : m_CreationTimestamp (svc_Meta s) ≠ None →
  steps_preserve v (λ w, ∃ t,
    objects w KService (key_of v) = Some (OService t) ∧ service_kept v s t).
Proof.
  intros Hts. split.
  - by intros w w' ->.
  - intros w (t & Ht & Hk). destruct (reconcileService_stored _ _ _ Ht) as (u & Hu & Hor).
    exists u. split; [done|]. destruct Hor as [->|(z & Hz & Hf)]; [done|].
    eapply service_kept_trans; [done|]. eapply service_kept_mutate; [|done..].
    destruct Hk as [-> _]. done.
  - intros w. by rewrite reconcileStatefulSet_frame.
  - intros w. by rewrite reconcilePVCExpansion_frame.
  - intros w. by rewrite reconcilePDB_frame.
Qed.

(** C18: On every outcome an existing StatefulSet keeps its selector, service
    name and claim templates, and an existing Service its cluster address: the
    fields the API server refuses to change are only ever set on creation.
    Labels and annotations the operator does not own survive as well. *)
Theorem reconcile_keeps_immutable req w v :
  objects w KVault req = Some (OVault v) →
  (∀ s, objects w KStatefulSet req = Some (OStatefulSet s) →
     m_CreationTimestamp (sts_Meta s) ≠ None →
     ∃ t, objects (Reconcile req w).2 KStatefulSet req = Some (OStatefulSet t) ∧
       statefulset_kept (applyDefaults v) s t) ∧
  (∀ s, objects w KService req = Some (OService s) →
     m_CreationTimestamp (svc_Meta s) ≠ None →
     ∃ t, objects (Reconcile req w).2 KService req = Some (OService t) ∧
       service_kept (applyDefaults v) s t).
Proof.
  intros Hv. assert (key_of v = req) as <- by by apply law_key in Hv.
  split; intros s Hs Hts.
  - apply Reconcile_preserves.
    + by intros w1 w2 ->.
    + intros v' Hv' _. rewrite Hv in Hv'. injection Hv' as <-.
      split; [by apply (statefulset_kept_preserved (applyDefaults v))|].
      intros ready w1. by rewrite updateStatus_frame.
    + exists s. split; [done|]. by repeat split.
  - apply Reconcile_preserves.
    + by intros w1 w2 ->.
    + intros v' Hv' _. rewrite Hv in Hv'. injection Hv' as <-.
      split; [by apply (service_kept_preserved (applyDefaults v))|].
      intros ready w1. by rewrite updateStatus_frame.
    + exists s. split; [done|]. repeat split; auto with dezhan.
Qed.

(** ** Status and errors *)

(** C22: On every outcome the vault's spec is untouched, and its status is the
    old one or a complete new one; readiness is only ever reported when the
    stored StatefulSet has a ready replica. *)
Theorem reconcile_status_honest req w v :
  objects w KVault req = Some (OVault v) →
  ∃ u, objects (Reconcile req w).2 KVault req = Some (OVault u) ∧ v_Spec u = v_Spec v ∧
    (v_Status u = v_Status v ∨
     ∃ ready, status_ok (applyDefaults v) ready v (v_Status u) ∧
       (ready = true → has_ready_replica req (Reconcile req w).2)).
Proof.
  intros Hv. destruct (Reconcile_cases req w)
    as [(e & Ho & _)|[(Hn & _)|(v' & w1 & Hv' & Hw1 & <- & ->)]];
    [exists v; rewrite Ho; auto|congruence|].
  rewrite Hv in Hv'. injection Hv' as <-. rewrite <- Hw1 in Hv.
  case_decide; [|exists v; auto].
  destruct (reconcile_vault_phases (λ w', objects w' KVault (key_of v) = Some (OVault v))
    (applyDefaults v) (key_of v) w1) as [Hp|(ready & w2 & Hp & Hr & ->)];
    [apply (vault_preserved (applyDefaults v))|done|exists v; auto|].
  destruct (updateStatus (applyDefaults v) ready w2) as [r w3] eqn:Hu.
  destruct (updateStatus_stored _ _ _ _ _ _ Hu Hp) as (u & Hst & Hsp & Hor & _).
  exists u. split; [done|]. split; [done|]. destruct Hor as [?|?]; [by left|right].
  exists ready. split; [done|]. intros Hready. destruct (Hr Hready) as (s & Hs & Hge).
  exists s. split; [|done]. pose proof (updateStatus_frame (applyDefaults v) ready w2
    KStatefulSet (key_of v)) as Hf. rewrite Hu in Hf. by rewrite Hf.
Qed.

(** A warning with the error is the last event, and the vault is not reported
    ready by this pass. *)
Definition announced v (e : error) (w : W) : Prop :=
  ∃ reason, reason ∈ ["ServiceError"; "StatefulSetError"; "ExpansionError"; "PDBError"] ∧
    (Recorder = true → ∃ l, events w =
       l ++ [{| ev_Type := "Warning"; ev_Reason := reason; ev_Message := Error e |}]) ∧
    ∃ u, objects w KVault (key_of v) = Some (OVault u) ∧
      (v_Status u = v_Status v ∨ status_ok (applyDefaults v) false v (v_Status u)).

Lemma fail_announced v e w reason :
  reason ∈ ["ServiceError"; "StatefulSetError"; "ExpansionError"; "PDBError"] →
  objects w KVault (key_of v) = Some (OVault v) →
  announced v e
    (updateStatus (applyDefaults v) false (record_event EventTypeWarning reason (Error e) w)).2.
Proof.
  intros Hr Hv. exists reason. split; [done|]. split.
  - intros Hrec. rewrite updateStatus_events. unfold record_event. rewrite Hrec, law_event_log.
    by eexists.
  - destruct (updateStatus _ _ _) as [r w1] eqn:Hu.
    destruct (updateStatus_stored _ _ _ _ _ v Hu) as (u & Hst & _ & Hor & _).
    { rewrite record_event_objects. exact Hv. }
    by exists u.
Qed.

Lemma step_announced v reason step rest w e w' :
  step_or_fail (applyDefaults v) reason step rest w = (Err e, w') →
  reason ∈ ["ServiceError"; "StatefulSetError"; "ExpansionError"; "PDBError"] →
  objects (step w).2 KVault (key_of v) = Some (OVault v) →
  announced v e w' ∨
  ∃ w1, step w = (Ok (), w1) ∧ objects w1 KVault (key_of v) = Some (OVault v) ∧
    rest w1 = (Err e, w').
Proof.
  intros [(w1 & Hs & ->)|(w1 & Hs & Hr)]%step_or_fail_Err Hreason Hv; rewrite Hs in Hv.
  - left. by apply fail_announced.
  - right. by exists w1.
Qed.


(** ** Progress *)

Section available.
Context `{!KubeAvailable W}.

Lemma owner_avail v m l a : ownable v m → meta_key m = key_of v →
  ∃ m', SetControllerReference v (with_labels m l a) = inr m' ∧ meta_key m' = key_of v.
Proof.
  intros Hm Hkey. destruct (avail_owner v (with_labels m l a)) as [m' Hm']; [done|].
  exists m'. split; [done|]. apply law_owner in Hm' as (_ & Hn & Hns & _).
  rewrite <- Hkey. unfold meta_key. by rewrite Hn, Hns.
Qed.

(** What the mutation starts from carries the key and can be owned. *)
Lemma current_ownable `{!KObject T} v (x : T) w y (meta : T → ObjectMeta) :
  current (key_of v) x w y → (∀ z, obj_key (inj z) = meta_key (meta z)) →
  meta x = meta_named (v_Name v) (v_Namespace v) →
  (objects w (kind_of T) (key_of v) = Some (inj y) → ownable v (meta y)) →
  ownable v (meta y) ∧ meta_key (meta y) = key_of v.
Proof.
  intros [Hy|[_ ->]] Hkey Hx Hown.
  - split; [auto|]. rewrite <- Hkey. by apply law_key in Hy.
  - rewrite Hx. split; [|done]. done.
Qed.

Lemma reconcileService_avail v w :
  (∀ s, objects w KService (key_of v) = Some (OService s) → ownable v (svc_Meta s)) →
  ∃ w', reconcileService v w = (Ok (), w').
Proof.
  intros Hown. unfold reconcileService.
  destruct (CreateOrUpdate_avail (key_of v) (service_named (v_Name v) (v_Namespace v))
    (mutate_service v) w) as (op & w1 & ->); [|by eexists].
  intros s Hs. unfold mutate_service.
  destruct (current_ownable v _ w s svc_Meta Hs) as [Ho Hk]; [done|done|by apply Hown|].
  destruct (owner_avail v (svc_Meta s)
    (mergeLabels (m_Labels (svc_Meta s)) (labelsFor (v_Name v)))
    (mergeLabels (m_Annotations (svc_Meta s)) (scrape_annotations v)) Ho Hk) as (m' & -> & Hk').
  by eexists.
Qed.

Lemma reconcileStatefulSet_avail v w :
  (∀ s, objects w KStatefulSet (key_of v) = Some (OStatefulSet s) → ownable v (sts_Meta s)) →
  ∃ w', reconcileStatefulSet v w = (Ok (), w').
Proof.
  intros Hown. unfold reconcileStatefulSet.
  destruct (CreateOrUpdate_avail (key_of v) (statefulset_named (v_Name v) (v_Namespace v))
    (mutate_statefulset v) w) as (op & w1 & ->); [|by eexists].
  intros s Hs. unfold mutate_statefulset.
  destruct (current_ownable v _ w s sts_Meta Hs) as [Ho Hk]; [done|done|by apply Hown|].
  destruct (owner_avail v (sts_Meta s)
    (mergeLabels (m_Labels (sts_Meta s)) (labelsFor (v_Name v)))
    (m_Annotations (sts_Meta s)) Ho Hk) as (m' & -> & Hk').
  by eexists.
Qed.

Lemma reconcilePDB_avail v w :
  (∀ p, objects w KPDB (key_of v) = Some (OPDB p) → ownable v (pdb_Meta p)) →
  ∃ w', reconcilePDB v w = (Ok (), w').
Proof.
  intros Hown. unfold reconcilePDB. destruct (s_DisablePodDisruptionBudget _).
  - destruct (avail_delete KPDB (key_of v) w) as ([e|[]] & w1 & Hd & He);
      unfold catch, lift; rewrite Hd; [rewrite He|]; by eexists.
  - destruct (CreateOrUpdate_avail (key_of v) (pdb_named (v_Name v) (v_Namespace v))
      (mutate_pdb v) w) as (op & w1 & ->); [|by eexists].
    intros p Hp. unfold mutate_pdb.
    destruct (current_ownable v _ w p pdb_Meta Hp) as [Ho Hk]; [done|done|by apply Hown|].
    destruct (owner_avail v (pdb_Meta p)
      (mergeLabels (m_Labels (pdb_Meta p)) (labelsFor (v_Name v)))
      (m_Annotations (pdb_Meta p)) Ho Hk) as (m' & -> & Hk').
    by eexists.
Qed.

Lemma reconcilePVCExpansion_avail v w : ∃ w', reconcilePVCExpansion v w = (Ok (), w').
Proof.
  destruct (objects w KPVC (claim_key v)) as [o|] eqn:Ho.
  - destruct (inj_surj (T := PersistentVolumeClaim) o) as [p ->]; [by eapply law_kind|].
    destruct (Get_avail (T := PersistentVolumeClaim) (claim_key v) w p) as [w1 Hg]; [exact Ho|].
    unfold reconcilePVCExpansion. rewrite attempt_Get. fold (claim_key v). rewrite Hg; simpl.
    unfold expand_claim. case_decide; [by eexists|].
    destruct (avail_patch KPVC (claim_key v) (OPVC p)
      (OPVC (with_storage p (s_Storage (v_Spec v)))) w1) as [w2 Hp].
    { by rewrite (Get_frame _ _ _ _ Hg). }
    { done. }
    { by apply law_key in Ho. }
    unfold claim_key in Hp. eexists. unfold mbind, go_bind, lift. by rewrite Hp.
  - pose proof (reconcilePVCExpansion_absent v w Ho) as [Hr _].
    destruct (reconcilePVCExpansion v w) as [r w1]. simpl in Hr. subst r. by eexists.
Qed.

Lemma finish_avail v w s cur :
  objects w KStatefulSet (key_of v) = Some (OStatefulSet s) →
  objects w KVault (key_of v) = Some (OVault cur) → ∃ d w', finish v (key_of v) w = (Ok d, w').
Proof.
  intros Hs Hc. destruct (Get_avail (T := StatefulSet) (key_of v) w s) as [w1 Hg]; [exact Hs|].
  assert (objects w1 KVault (key_of v) = Some (OVault cur)) as Hc1
    by by rewrite (Get_frame _ _ _ _ Hg).
  unfold finish. rewrite bind_Get, Hg.
  destruct (Get_avail (T := DezhanVault) (key_of v) w1 cur) as [w2 Hg2]; [exact Hc1|].
  destruct (avail_status (key_of v) cur
    (status_of v (bool_decide (1 <= sts_ReadyReplicas s)) cur w2) w2) as [w3 Hp].
  { by rewrite (Get_frame _ _ _ _ Hg2). }
  { by apply law_key in Hc. }
  exists (if bool_decide (1 <= sts_ReadyReplicas s) then 0 else requeueWait), w3.
  eapply bind_Ok_l with (a := ()) (w1 := w3).
  unfold updateStatus. rewrite attempt_Get, Hg2; simpl. unfold lift. by rewrite Hp.
Qed.

Lemma reconcile_returns req w v :
  objects w KVault req = Some (OVault v) → m_DeletionTimestamp (v_Meta v) = None →
  (∀ s, objects w KService req = Some (OService s) → ownable v (svc_Meta s)) →
  (∀ s, objects w KStatefulSet req = Some (OStatefulSet s) → ownable v (sts_Meta s)) →
  (∀ p, objects w KPDB req = Some (OPDB p) → ownable v (pdb_Meta p)) →
  ∃ d w', Reconcile req w = (Ok d, w').
Proof.
  intros Hv Hdel Hsvc Hsts Hpdb. assert (key_of v = req) as <- by by apply law_key in Hv.
  destruct (Get_avail (T := DezhanVault) (key_of v) w v) as [w0 Hg]; [exact Hv|].
  unfold Reconcile. rewrite attempt_Get, Hg; simpl. rewrite decide_True by done.
  apply Get_frame in Hg. rewrite <- Hg in Hv, Hsvc, Hsts, Hpdb.
  destruct (reconcileService_avail (applyDefaults v) w0) as [w1 H1]; [by apply Hsvc|].
  pose proof (reconcileService_frame (applyDefaults v) w0) as F1. rewrite H1 in F1. simpl in F1.
  destruct (reconcileStatefulSet_avail (applyDefaults v) w1) as [w2 H2];
    [rewrite F1 by done; by apply Hsts|].
  pose proof (reconcileStatefulSet_frame (applyDefaults v) w1) as F2. rewrite H2 in F2. simpl in F2.
  destruct (reconcilePVCExpansion_avail (applyDefaults v) w2) as [w3 H3].
  pose proof (reconcilePVCExpansion_frame (applyDefaults v) w2) as F3. rewrite H3 in F3. simpl in F3.
  destruct (reconcilePDB_avail (applyDefaults v) w3) as [w4 H4];
    [rewrite F3, F2, F1 by done; by apply Hpdb|].
  destruct (steps_in_place _ _ _ _ _ _ H1 H2 H3 H4) as (_ & (s & Hs & _) & _).
  destruct (finish_avail (applyDefaults v) w4 s v Hs) as (d & w5 & Hf).
  { eapply (steps_preserved _ (λ w, objects w KVault (key_of v) = Some (OVault v)));
      [apply (vault_preserved (applyDefaults v))|by rewrite Hv|done..]. }
  exists d, w5. unfold reconcile_vault, step_or_fail. by rewrite H1, H2, H3, H4.
Qed.

(** Against an API server that answers, the reconciliation of a vault whose
    Service, StatefulSet and disruption budget no other controller owns
    returns without an error, so that its desired state is reached. *)
Theorem reconcile_succeeds req w v :
  objects w KVault req = Some (OVault v) → m_DeletionTimestamp (v_Meta v) = None →
  (∀ s, objects w KService req = Some (OService s) → ownable v (svc_Meta s)) →
  (∀ s, objects w KStatefulSet req = Some (OStatefulSet s) → ownable v (sts_Meta s)) →
  (∀ p, objects w KPDB req = Some (OPDB p) → ownable v (pdb_Meta p)) →
  ∃ d w', Reconcile req w = (Ok d, w') ∧ in_place (applyDefaults v) w w'.
Proof.
  intros Hv Hdel Hsvc Hsts Hpdb.
  destruct (reconcile_returns req w v Hv Hdel Hsvc Hsts Hpdb) as (d & w' & Hr).
  exists d, w'. split; [done|]. assert (key_of v = req) as <- by by apply law_key in Hv.
  destruct (reconcile_Ok _ _ _ _ _ Hr Hv Hdel) as (w4 & Hin & _ & Hf).
  by eapply (finish_in_place (applyDefaults v)).
Qed.
End available.
End theorems.
