(* ===== verification/OperatorPod.v ===== *)
(** * The pod template and the events of a pass

    [applyPodSpec] owns some fields and leaves the others alone; the events of a
    pass say whether the StatefulSet was written. *)

From S2P Require Import Prelude GoStrings S3Api KubeTypes KubeApi Operator OperatorSpec OperatorProofs OperatorSteps.
Local Open Scope Z_scope.

Section pod.
Context `{!QuantityOps}.
Implicit Types v : DezhanVault.

Abbreviation foreign := (λ c, c_Name c ≠ containerName).

Lemma update_container_twice f g l :
  (∀ c, c_Name (f c) = c_Name c) → (∀ c, g (f c) = g c) →
  update_container g (update_container f l) = update_container g l.
Proof.
  intros Hname Hgf. induction l as [|c l IH]; simpl.
  - rewrite Hname. simpl. by rewrite Hgf.
  - case_decide as Hc; simpl.
    + by rewrite Hname, decide_True, Hgf.
    + by rewrite decide_False, IH.
Qed.

Lemma update_container_foreign f l : (∀ c, c_Name (f c) = c_Name c) →
  filter foreign (update_container f l) = filter foreign l.
Proof.
  intros Hname. induction l as [|c l IH]; simpl.
  - rewrite filter_cons_False; [done|]. rewrite Hname. by intros [].
  - case_decide as Hc.
    + rewrite !filter_cons_False; [done|tauto|]. rewrite Hname. tauto.
    + by rewrite !filter_cons_True, IH by done.
Qed.

(** The pod template an update leaves behind depends on the latest vault
    spec only (so applying it again changes nothing), keeps every container
    other than the vault's, in order, and every field the operator does not
    own. *)
Theorem apply_pod_spec_owned spec v1 v2 :
  applyPodSpec (applyPodSpec spec v1) v2 = applyPodSpec spec v2 ∧
  filter foreign (ps_Containers (applyPodSpec spec v1)) = filter foreign (ps_Containers spec) ∧
  ps_other (applyPodSpec spec v1) = ps_other spec ∧
  ∃ c, c ∈ ps_Containers (applyPodSpec spec v1) ∧ container_ok v1 c ∧
    (c_other c = ∅ ∨ ∃ d, d ∈ ps_Containers spec ∧ c_Name d = c_Name c ∧ c_other c = c_other d).
Proof.
  split; [unfold applyPodSpec; simpl; by rewrite update_container_twice|].
  split; [by apply update_container_foreign|]. split; [done|].
  destruct (update_container_spec (vault_container v1) (ps_Containers spec))
    as (c & l1 & l2 & Heq & Hc & _ & Hl). simpl. rewrite Heq.
  exists (vault_container v1 c). split; [apply elem_of_app; right; left|].
  split; [by apply vault_container_ok|].
  destruct Hl as [->|(_ & _ & ->)]; [right|by left].
  exists c. split; [apply elem_of_app; right; left|done].
Qed.

Context {W : Type} `{!KubeClient W, !KubeView W, !KubeLaws W, !AdmitLaws W}.

Lemma reconcileStatefulSet_event v w w' s :
  reconcileStatefulSet v w = (Ok (), w') → Recorder = true →
  objects w KStatefulSet (key_of v) = Some (OStatefulSet s) →
  (mutate_statefulset v s = inr s ∧ events w' = events w ∧
     objects w' KStatefulSet (key_of v) = Some (OStatefulSet s)) ∨
  (mutate_statefulset v s ≠ inr s ∧
     ∃ msg, events w' =
       events w ++ [{| ev_Type := "Normal"; ev_Reason := "Reconciled"; ev_Message := msg |}]).
Proof.
  unfold reconcileStatefulSet. intros Hr Hrec Hs.
  destruct (CreateOrUpdate _ _ _ w) as [[op [e|]] w1] eqn:Hc; [done|].
  pose proof (CreateOrUpdate_events (key_of v) (statefulset_named (v_Name v) (v_Namespace v))
    (mutate_statefulset v) w) as Hev. rewrite Hc in Hev; simpl in Hev.
  apply (CreateOrUpdate_ok (T := StatefulSet)) in Hc as (y & z & t & Hy & Hz & Ht & _ & Hop & Hsame).
  assert (y = s) as ->.
  { destruct Hy as [Hy|[Hy _]]; simpl in Hy; rewrite Hs in Hy; [by injection Hy|done]. }
  simpl in Hr. injection Hr as <-. simpl in Hop, Ht, Hsame. rewrite Hs in Hop, Hsame.
  case_decide as Hnone.
  - left. apply Hop in Hnone as [= ->]. by rewrite Ht, Hsame.
  - right. split; [rewrite Hz; intros [= ->]; naive_solver|].
    unfold record_event. rewrite Hrec, law_event_log, Hev. by eexists.
Qed.

(** The vault container of a StatefulSet. *)
Definition vault_container_of (s : StatefulSet) : option Container :=
  head (filter (λ c, c_Name c = containerName) (ps_Containers (pt_Spec (sts_Template s)))).

Lemma update_container_head f l : (∀ c, c_Name (f c) = c_Name c) →
  ∃ c, head (filter (λ c, c_Name c = containerName) (update_container f l)) = Some (f c).
Proof.
  intros Hname. induction l as [|c l [d IH]]; simpl.
  - rewrite filter_cons_True; [by eexists|]. by rewrite Hname.
  - case_decide as Hc.
    + rewrite filter_cons_True; [by eexists|]. by rewrite Hname.
    + rewrite filter_cons_False by done. by eexists.
Qed.

(** Probes are replaced whole, and the startup probe names no timeout: once
    the API server has filled one in, every further successful pass finds a
    difference, writes the StatefulSet and records an event. *)
Theorem probe_defaults_rewritten v w w' s c p :
  reconcileStatefulSet v w = (Ok (), w') → Recorder = true →
  objects w KStatefulSet (key_of v) = Some (OStatefulSet s) →
  vault_container_of s = Some c → c_StartupProbe c = Some p → pr_TimeoutSeconds p ≠ 0 →
  mutate_statefulset v s ≠ inr s ∧
  ∃ msg, events w' =
    events w ++ [{| ev_Type := "Normal"; ev_Reason := "Reconciled"; ev_Message := msg |}].
Proof.
  intros Hr Hrec Hs Hc Hp Ht.
  assert (mutate_statefulset v s ≠ inr s) as Hne.
  { unfold mutate_statefulset. destruct (SetControllerReference _ _) as [e|m]; [done|].
    intros [= Heq]. apply (f_equal vault_container_of) in Heq. rewrite Hc in Heq.
    unfold vault_container_of in Heq; simpl in Heq.
    destruct (update_container_head (vault_container v)
      (ps_Containers (pt_Spec (sts_Template s)))) as [d Hd]; [done|].
    rewrite Hd in Heq. injection Heq as <-. simpl in Hp. by injection Hp as <-. }
  split; [done|].
  by destruct (reconcileStatefulSet_event v w w' s Hr Hrec Hs) as [[? _]|[_ ?]].
Qed.
End pod.
