(* ===== verification/OperatorLoop.v ===== *)
(** * The operator's control loop

    What [SetupWithManager] registers, and the loop controller-runtime runs for
    it: watch notifications become requests, one worker takes requests from a
    queue and calls [Reconcile], a failed or unfinished request comes back
    later.  The loop is a step relation whose other steps are the rest of the
    cluster, which may change any stored object between two passes, and a restart
    of the operator.  [no_vault_forgotten] is its invariant, [request_makes_progress]
    what a request achieves when the server answers.

    Passes are atomic: a pass reads what is stored and nothing else is written
    during it.  Notifications are not: they are in flight for as long as the
    scheduler likes.  A watch may notify more than it must (a resync does). *)

From stdpp Require Import relations.
From S2P Require Import Prelude GoStrings S3Api KubeTypes KubeApi Operator OperatorSpec OperatorProofs OperatorSteps OperatorTheorems.
Local Open Scope Z_scope.

(** ** Watches *)

(** [For] and [Owns] of the controller builder *)
Inductive watch := For (k : kind) | Owns (k : kind).

(** The watches of the vault controller ([SetupWithManager]) *)
Definition vault_watches : list watch :=
  [For KVault; Owns KStatefulSet; Owns KService; Owns KPDB].

Section requests.
Context `{!QuantityOps}.

Definition obj_meta (o : obj) : ObjectMeta :=
  match o with
  | OVault v => v_Meta v | OService s => svc_Meta s | OStatefulSet s => sts_Meta s
  | OPDB p => pdb_Meta p | OPVC p => pvc_Meta p
  end.

(** [handler.EnqueueRequestForOwner(..., OnlyControllerOwner())]: the controller
    of the object, by name, when it is a vault *)
Definition owner_requests (m : ObjectMeta) : list nn :=
  match GetControllerOf m with
  | Some r =>
      if decide (group_of (or_APIVersion r) = Some (gv_Group GroupVersion) ∧
                 or_Kind r = vault_kind)
      then [(m_Namespace m, or_Name r)] else []
  | None => []
  end.

(** The requests a watch makes of an object that was created, changed or
    deleted. *)
Definition watch_requests (o : obj) (x : watch) : list nn :=
  match x with
  | For k => if decide (obj_kind o = k) then [obj_key o] else []
  | Owns k => if decide (obj_kind o = k) then owner_requests (obj_meta o) else []
  end.

Definition requests (o : obj) : list nn := vault_watches ≫= watch_requests o.

Lemma requests_vault v : key_of v ∈ requests (OVault v).
Proof. apply list_elem_of_bind. exists (For KVault). split; [by left|]. by left. Qed.

Lemma requests_owned v k o : Owns k ∈ vault_watches → obj_kind o = k →
  obj_key o = key_of v → owned_by v (obj_meta o) → key_of v ∈ requests o.
Proof.
  intros Hw Hk Hkey (r & Hr & (Hg & Hkd & Hn) & _). apply list_elem_of_bind.
  exists (Owns k). split; [|done]. simpl. rewrite decide_True by done.
  unfold owner_requests. rewrite Hr, decide_True, Hn by done.
  replace (m_Namespace (obj_meta o)) with (v_Namespace v); [by left|].
  destruct o; injection Hkey; simpl; congruence.
Qed.
End requests.

(** ** The loop *)

Section loop.
Context `{!QuantityOps, !QuantityLaws} {W : Type}
  `{!KubeClient W, !KubeView W, !KubeLaws W, !AdmitLaws W}.
Implicit Types (v : DezhanVault) (w : W) (n req : nn).

(** A change of the store from [w] to [w'] notifies [n]: some object changed
    and a watch makes the request of what it was or of what it is now. *)
Definition notified w w' n : Prop :=
  ∃ k m o, objects w k m ≠ objects w' k m ∧
    (objects w k m = Some o ∨ objects w' k m = Some o) ∧ n ∈ requests o.

Record loop := {
  world : W;
  inflight : gset nn; (* notifications not handled yet *)
  ready : gset nn;    (* requests the worker may take *)
  waiting : gset nn;  (* requests to be added later *)
}.

(** The request comes back later: after an error (a panic is recovered as one),
    or when the pass asked for it. *)
Definition requeue (r : res Z) req : gset nn :=
  match r with
  | Ok d => if decide (0 < d) then {[req]} else ∅
  | _ => {[req]}
  end.

Inductive loop_step : loop → loop → Prop :=
  | step_change s w' N :
      (∀ n, notified (world s) w' n → n ∈ N) →
      loop_step s {| world := w'; inflight := inflight s ∪ N; ready := ready s;
                     waiting := waiting s |}
  | step_deliver s n :
      n ∈ inflight s →
      loop_step s {| world := world s; inflight := inflight s ∖ {[n]};
                     ready := ready s ∪ {[n]}; waiting := waiting s |}
  | step_due s n :
      n ∈ waiting s →
      loop_step s {| world := world s; inflight := inflight s; ready := ready s ∪ {[n]};
                     waiting := waiting s ∖ {[n]} |}
  | step_pass s req r w' N :
      req ∈ ready s → Reconcile req (world s) = (r, w') →
      (∀ n, notified (world s) w' n → n ∈ N) →
      loop_step s {| world := w'; inflight := inflight s ∪ N; ready := ready s ∖ {[req]};
                     waiting := waiting s ∪ requeue r req |}
  | step_restart s N :
      (∀ n o, objects (world s) KVault n = Some o → n ∈ N) →
      loop_step s {| world := world s; inflight := N; ready := ∅; waiting := ∅ |}.

(** The start: a notification for every stored vault. *)
Definition started (s : loop) : Prop :=
  ∀ n o, objects (world s) KVault n = Some o → n ∈ inflight s.

Definition pending (s : loop) : gset nn := inflight s ∪ ready s ∪ waiting s.

(** ** What is left to do for a settled vault: nothing *)

Definition settled v w : Prop :=
  let v' := applyDefaults v in
  (∃ s, objects w KService (key_of v) = Some (OService s) ∧ service_ok v' s) ∧
  (∃ s, objects w KStatefulSet (key_of v) = Some (OStatefulSet s) ∧ statefulset_ok v' s ∧
     1 <= sts_ReadyReplicas s) ∧
  (if s_DisablePodDisruptionBudget (v_Spec v)
   then ∀ p, objects w KPDB (key_of v) = Some (OPDB p) → ¬ owned_by v' (pdb_Meta p)
   else ∃ p, objects w KPDB (key_of v) = Some (OPDB p) ∧ pdb_ok v' p) ∧
  status_ok v' true v (v_Status v).

(** A stored object whose watch requests [n] stays as it is unless [n] is
    notified. *)
Lemma unnotified_same w w' n k m o : ¬ notified w w' n → objects w k m = Some o →
  n ∈ requests o → objects w' k m = Some o.
Proof.
  intros Hn Ho Hr. destruct (decide (objects w k m = objects w' k m)) as [<-|Hne]; [done|].
  destruct Hn. exists k, m, o. auto.
Qed.

Lemma unnotified_vault w w' n v : ¬ notified w w' n →
  objects w' KVault n = Some (OVault v) → objects w KVault n = Some (OVault v).
Proof.
  intros Hn Hv. assert (key_of v = n) as <- by by apply law_key in Hv.
  destruct (decide (objects w KVault (key_of v) = objects w' KVault (key_of v)))
    as [->|Hne]; [done|].
  destruct Hn. exists KVault, (key_of v), (OVault v). auto using requests_vault.
Qed.

Lemma settled_unnotified v w w' : ¬ notified w w' (key_of v) → settled v w → settled v w'.
Proof.
  intros Hn ((s & Hs & Hsok) & (t & Ht & Htok & Hready) & Hpdb & Hst).
  assert (∀ k o, Owns k ∈ vault_watches → objects w k (key_of v) = Some o →
    owned_by (applyDefaults v) (obj_meta o) → objects w' k (key_of v) = Some o) as Hkeep.
  { intros k o Hk Ho Hown. eapply unnotified_same; [exact Hn|exact Ho|].
    apply (requests_owned (applyDefaults v) k); [done| |by apply law_key in Ho|done].
    by apply law_kind in Ho. }
  split; [|split; [|split]].
  - exists s. split; [|done]. apply Hkeep; [set_solver|done|]. apply Hsok.
  - exists t. split; [|done]. apply Hkeep; [set_solver|done|]. apply Htok.
  - destruct (s_DisablePodDisruptionBudget (v_Spec v)).
    + intros p Hp Hown. destruct (decide (objects w KPDB (key_of v) = objects w' KPDB (key_of v)))
        as [Heq|Hne]; [by eapply Hpdb; [rewrite Heq|]|].
      destruct Hn. exists KPDB, (key_of v), (OPDB p). split; [done|]. split; [by right|].
      apply (requests_owned (applyDefaults v) KPDB); [set_solver|done| |done].
      by apply law_key in Hp.
    + destruct Hpdb as (p & Hp & Hok). exists p. split; [|done].
      apply Hkeep; [set_solver|done|]. apply Hok.
  - done.
Qed.

(** A pass that neither asks to be called again nor changes the vault has
    settled it. *)
Lemma pass_settles req w r w' v :
  Reconcile req w = (r, w') → requeue r req = ∅ →
  objects w KVault req = Some (OVault v) → objects w' KVault req = Some (OVault v) →
  m_DeletionTimestamp (v_Meta v) = None → settled v w'.
Proof.
  intros Hr Hq Hv Hv' Hdel. assert (key_of v = req) as <- by by apply law_key in Hv.
  destruct r as [d|e| |]; simpl in Hq; [|set_solver..].
  destruct (reconcile_Ok _ _ _ _ _ Hr Hv Hdel) as (w4 & Hin & Hv4 & Hf).
  pose proof (finish_in_place (applyDefaults v) _ _ _ _ Hf Hin) as (Hsvc & (s & Hs & Hsok) & Hpdb & _).
  destruct (finish_Ok (applyDefaults v) _ _ _ _ Hf Hv4)
    as (rd & s' & u & Hs' & -> & -> & (w5 & Hw5 & ->) & Hu & _ & Hst).
  rewrite key_of_defaults in *. rewrite Hu in Hv'. injection Hv' as ->.
  rewrite updateStatus_frame, Hw5, Hs' in Hs by done. injection Hs as ->.
  case_bool_decide as Hready; [|by rewrite decide_True in Hq; set_solver].
  split; [done|]. split; [exists s; rewrite updateStatus_frame, Hw5 by done; auto|].
  split; [|done]. simpl in Hpdb.
  destruct (s_DisablePodDisruptionBudget (v_Spec v)); [|done]. intros p Hp. congruence.
Qed.

(** ** The invariant *)

Definition attended (s : loop) : Prop := ∀ n v,
  objects (world s) KVault n = Some (OVault v) → m_DeletionTimestamp (v_Meta v) = None →
  n ∈ pending s ∨ settled v (world s).

Lemma attended_change s w' n v : attended s → ¬ notified (world s) w' n →
  objects w' KVault n = Some (OVault v) → m_DeletionTimestamp (v_Meta v) = None →
  n ∈ pending s ∨ settled v w'.
Proof.
  intros Hs Hn Hv Hdel. assert (key_of v = n) as <- by by apply law_key in Hv.
  destruct (Hs (key_of v) v) as [?|Hset]; [by eapply unnotified_vault|done|by left|right].
  by eapply settled_unnotified.
Qed.

Lemma attended_pass s req r w' N : attended s →
  Reconcile req (world s) = (r, w') → (∀ n, notified (world s) w' n → n ∈ N) →
  attended {| world := w'; inflight := inflight s ∪ N; ready := ready s ∖ {[req]};
              waiting := waiting s ∪ requeue r req |}.
Proof.
  intros Hs Hr HN n v Hv Hdel. unfold pending. simpl in *.
  destruct (decide (n ∈ N)) as [?|HnN]; [set_solver|].
  assert (¬ notified (world s) w' n) as Hn by auto.
  destruct (decide (n = req)) as [->|Hne].
  - destruct (decide (requeue r req = ∅)) as [Hq|Hq].
    + right. eapply pass_settles; eauto using unnotified_vault.
    + left. unfold requeue in *. destruct r; [case_decide|..]; set_solver.
  - destruct (attended_change s w' n v Hs Hn Hv Hdel) as [Hp|?]; [left|by right].
    unfold pending in Hp. set_solver.
Qed.

Lemma attended_step s s' : loop_step s s' → attended s → attended s'.
Proof.
  intros [s1 w' N HN|s1 n1 Hn1|s1 n1 Hn1|s1 req r w' N _ Hr HN|s1 N HN] Hs.
  - intros n v Hv Hdel. unfold pending. simpl in *.
    destruct (decide (n ∈ N)) as [?|HnN]; [set_solver|].
    destruct (attended_change s1 w' n v Hs) as [Hp|?]; [by auto|done|done| |by right].
    left. unfold pending in Hp. set_solver.
  - intros n v Hv Hdel. destruct (Hs n v Hv Hdel) as [Hp|?]; [left|by right].
    unfold pending in *. simpl. destruct (decide (n = n1)); set_solver.
  - intros n v Hv Hdel. destruct (Hs n v Hv Hdel) as [Hp|?]; [left|by right].
    unfold pending in *. simpl. destruct (decide (n = n1)); set_solver.
  - by apply attended_pass.
  - intros n v Hv _. left. unfold pending. simpl in *. apply HN in Hv. set_solver.
Qed.


(** ** Progress *)

(** A status patch does not change which vault it is, nor its generation:
    the status is a subresource. *)
Class KubeIdentity : Prop := law_status_identity n b o w r w' v :
  api_StatusPatch n b o w = (r, w') → objects w KVault n = Some (OVault b) →
  objects w' KVault n = Some (OVault v) →
  m_UID (v_Meta v) = m_UID (v_Meta b) ∧ m_Generation (v_Meta v) = m_Generation (v_Meta b) ∧
  m_DeletionTimestamp (v_Meta v) = m_DeletionTimestamp (v_Meta b).

Context `{!KubeIdentity}.

(** [u] is the vault [v], its status aside. *)
Record same_vault v u : Prop := {
  same_spec : v_Spec u = v_Spec v;
  same_name : m_Name (v_Meta u) = m_Name (v_Meta v);
  same_namespace : m_Namespace (v_Meta u) = m_Namespace (v_Meta v);
  same_uid : m_UID (v_Meta u) = m_UID (v_Meta v);
  same_generation : m_Generation (v_Meta u) = m_Generation (v_Meta v);
}.

Lemma same_vault_key v u n w w' : objects w KVault n = Some (OVault v) →
  objects w' KVault n = Some (OVault u) → v_Spec u = v_Spec v →
  m_UID (v_Meta u) = m_UID (v_Meta v) → m_Generation (v_Meta u) = m_Generation (v_Meta v) →
  same_vault v u.
Proof.
  intros Hv Hu. apply law_key in Hv, Hu. rewrite <- Hu in Hv. by injection Hv; split.
Qed.

Lemma updateStatus_same v cur u ready w : objects w KVault (key_of v) = Some (OVault cur) →
  objects (updateStatus v ready w).2 KVault (key_of v) = Some (OVault u) →
  v_Spec u = v_Spec cur → same_vault cur u.
Proof.
  unfold updateStatus. rewrite attempt_Get.
  destruct (Get _ _ w) as [[e|cur'] w1] eqn:Hg; pose proof (Get_frame _ _ _ _ Hg) as Hw1;
    simpl; intros Hc.
  { destruct (IgnoreNotFound e); simpl; rewrite Hw1, Hc; by intros [= ->]. }
  apply (Get_ok (T := DezhanVault)) in Hg.
  assert (Some (OVault cur) = Some (OVault cur')) as [= <-] by (rewrite <- Hc; exact Hg).
  unfold lift. destruct (api_StatusPatch _ _ _ w1) as [r w2] eqn:Hp. intros Hu Hspec.
  assert (objects w2 KVault (key_of v) = Some (OVault u)) as Hu2 by by destruct r.
  rewrite <- Hw1 in Hc.
  destruct (law_status_identity _ _ _ _ _ _ _ Hp Hc Hu2) as (Huid & Hgen & _).
  by eapply (same_vault_key cur u (key_of v)).
Qed.

Ltac same_vault_rewrite :=
  repeat match goal with
  | E : v_Spec ?u = v_Spec ?v |- _ => rewrite E; clear E
  | E : m_Name (v_Meta ?u) = _ |- _ => rewrite E; clear E
  | E : m_Namespace (v_Meta ?u) = _ |- _ => rewrite E; clear E
  | E : m_UID (v_Meta ?u) = _ |- _ => rewrite E; clear E
  | E : m_Generation (v_Meta ?u) = _ |- _ => rewrite E; clear E
  end.

Lemma same_defaults v u : same_vault v u → same_vault (applyDefaults v) (applyDefaults u).
Proof. intros [Es En Ens Eu Eg]. split; try done. unfold applyDefaults. simpl. by rewrite Es. Qed.

Lemma owned_same v u m : same_vault v u → owned_by v m → owned_by u m.
Proof.
  intros [_ En _ Eu _] (r & Hr & (Hg & Hk & Hn) & Huid). exists r. split; [done|].
  unfold refers_to, v_Name. rewrite En, Eu. done.
Qed.

Lemma service_same v u s : same_vault v u → service_ok v s → service_ok u s.
Proof.
  intros Hsame (Ho & Hrest). split; [by eapply owned_same|]. destruct Hsame.
  unfold scrape_annotations, v_Name in *. by same_vault_rewrite.
Qed.

Lemma pdb_same v u p : same_vault v u → pdb_ok v p → pdb_ok u p.
Proof.
  intros Hsame (Ho & Hrest). split; [by eapply owned_same|]. destruct Hsame.
  unfold selector_for, v_Name in *. by same_vault_rewrite.
Qed.

Lemma statefulset_same v u s : same_vault v u → statefulset_ok v s → statefulset_ok u s.
Proof.
  intros Hsame (Ho & Hrest). split; [by eapply owned_same|]. destruct Hsame.
  unfold container_ok, probe_ok, vaultEnv, v_Name in *. by same_vault_rewrite.
Qed.

Lemma status_same v u : same_vault v u →
  status_ok (applyDefaults v) true v (v_Status u) →
  status_ok (applyDefaults u) true u (v_Status u).
Proof.
  intros Hsame (Hr & He & Hg & Hc & _). pose proof (same_defaults v u Hsame) as [Es En Ens _ _].
  destruct Hsame as [_ _ _ _ Eg]. unfold status_ok, vault_endpoint, v_Name, v_Namespace in *.
  rewrite Es, En, Ens, Eg. done.
Qed.

Lemma settled_same v u w : same_vault v u →
  (∃ s, objects w KService (key_of v) = Some (OService s) ∧ service_ok (applyDefaults v) s) →
  (∃ s, objects w KStatefulSet (key_of v) = Some (OStatefulSet s) ∧
     statefulset_ok (applyDefaults v) s ∧ 1 <= sts_ReadyReplicas s) →
  (if s_DisablePodDisruptionBudget (v_Spec v) then objects w KPDB (key_of v) = None
   else ∃ p, objects w KPDB (key_of v) = Some (OPDB p) ∧ pdb_ok (applyDefaults v) p) →
  status_ok (applyDefaults v) true v (v_Status u) → settled u w.
Proof.
  intros Hsame Hsvc Hsts Hpdb Hst. pose proof (same_defaults v u Hsame) as Hd.
  assert (key_of u = key_of v) as Hk
    by (destruct Hsame as [_ En Ens _ _]; unfold key_of, v_Name, v_Namespace; congruence).
  unfold settled. rewrite Hk, (same_spec _ _ Hsame).
  split; [naive_solver eauto using service_same|].
  split; [naive_solver eauto using statefulset_same|].
  split; [|by eapply status_same].
  destruct (s_DisablePodDisruptionBudget (v_Spec v)); [|naive_solver eauto using pdb_same].
  intros p Hp. by rewrite Hpdb in Hp.
Qed.

(** C19: Against an API server that answers, taking a vault's request from the
    queue makes progress: if no other controller owns its objects, the pass
    leaves the vault, with its spec untouched, settled and asks for nothing more,
    or no replica is ready yet and the request is scheduled again. *)
Theorem request_makes_progress `{!KubeAvailable W} req w v :
  objects w KVault req = Some (OVault v) → m_DeletionTimestamp (v_Meta v) = None →
  (∀ s, objects w KService req = Some (OService s) → ownable v (svc_Meta s)) →
  (∀ s, objects w KStatefulSet req = Some (OStatefulSet s) → ownable v (sts_Meta s)) →
  (∀ p, objects w KPDB req = Some (OPDB p) → ownable v (pdb_Meta p)) →
  ∃ r w', Reconcile req w = (r, w') ∧
    ((∃ u, objects w' KVault req = Some (OVault u) ∧ v_Spec u = v_Spec v ∧ settled u w' ∧
        requeue r req = ∅) ∨
     (¬ has_ready_replica req w' ∧ requeue r req = {[req]})).
Proof.
  intros Hv Hdel Hsvc Hsts Hpdb.
  destruct (reconcile_returns req w v Hv Hdel Hsvc Hsts Hpdb) as (d & w' & Hr).
  exists (Ok d), w'. split; [done|]. assert (key_of v = req) as <- by by apply law_key in Hv.
  destruct (reconcile_Ok _ _ _ _ _ Hr Hv Hdel) as (w4 & Hin & Hv4 & Hf).
  pose proof (finish_in_place (applyDefaults v) _ _ _ _ Hf Hin) as (Hps & (s & Hs & Hsok) & Hpp & _).
  destruct (finish_Ok (applyDefaults v) _ _ _ _ Hf Hv4)
    as (rd & s' & u & Hs' & -> & -> & (w5 & Hw5 & ->) & Hu & Hspec & Hst).
  rewrite key_of_defaults in *.
  assert (Some (OStatefulSet s) = Some (OStatefulSet s')) as [= <-]
    by (rewrite <- Hs, <- Hs'; by rewrite updateStatus_frame, Hw5).
  case_bool_decide as Hready; [left; exists u|right].
  - assert (same_vault v u) as Hsame.
    { eapply (updateStatus_same (applyDefaults v)); [by rewrite Hw5|exact Hu|done]. }
    split; [done|]. split; [done|]. split; [|done]. eapply settled_same; eauto.
  - split; [|done]. intros (t & Ht & Hge). rewrite Hs in Ht. by injection Ht as ->.
Qed.
End loop.
Arguments loop W : clear implicits.
