(* ===== verification/OperatorMain.v ===== *)
(** * The operator process
    (operator/cmd/main.go, api/v1alpha1/groupversion_info.go, and
    [SetupWithManager])

    The scheme, the flags, and the sequence of calls that sets the manager up and
    starts it.  controller-runtime is the classes [SchemeOps], [Runtime] and
    [RuntimeFlags]; [TraceRuntime] is a runtime that records the calls and
    answers from an oracle. *)

From S2P Require Import Prelude GoStrings S3Api GoFlag KubeTypes KubeApi Operator OperatorLoop.

(** ** The scheme *)

(** [runtime.Scheme] and [scheme.Builder]; a type is registered under the name of
    its Go type. *)
Class SchemeOps := {
  Scheme : Type;
  NewScheme : Scheme;
  clientgo_AddToScheme : Scheme → option error * Scheme;
  Builder : Type;
  NewBuilder : GroupVersionOf → Builder;
  Register : list string → Builder → Builder;
  Builder_AddToScheme : Builder → Scheme → option error * Scheme;
}.

Section scheme.
Context `{!SchemeOps}.

(** [SchemeBuilder], after [init] registered the types of the package *)
Definition SchemeBuilder : Builder :=
  Register ["DezhanVault"; "DezhanVaultList"] (NewBuilder GroupVersion).

Definition AddToScheme : Scheme → option error * Scheme := Builder_AddToScheme SchemeBuilder.

(** The scheme of the process after [init]; errors are ignored. *)
Definition operator_scheme : Scheme :=
  (AddToScheme (clientgo_AddToScheme NewScheme).2).2.
End scheme.

(** ** controller-runtime *)

Record ManagerOptions `{!SchemeOps} := {
  mo_Scheme : Scheme;
  mo_MetricsBindAddress : string;
  mo_HealthProbeBindAddress : string;
  mo_LeaderElection : bool;
  mo_LeaderElectionID : string;
}.

(** Flags of the libraries, on their own options: those controller-runtime
    defines when it is loaded, and those of the zap logger. *)
Class RuntimeFlags := {
  rt_options : Type;
  rt_default : rt_options;
  config_flags : list (string * Flag rt_options);
  zap_flags : list (string * Flag rt_options);
}.

Class ManagerTypes := {
  Config : Type;
  Mgr : Type;
  Client : Type;
  EventRecorder : Type;
}.

(** [DezhanVaultReconciler] *)
Record DezhanVaultReconciler `{!SchemeOps, !ManagerTypes} := {
  rc_Client : Client;
  rc_Scheme : Scheme;
  rc_Recorder : option EventRecorder;
}.

Class Runtime (W : Type) `{!SchemeOps, !RuntimeFlags, !ManagerTypes} := {
  SetLogger : rt_options → W → W;
  (** an error ends the process with status 1 *)
  GetConfigOrDie : rt_options → Call W Config;
  NewManager : Config → ManagerOptions → Call W Mgr;
  GetClient : Mgr → Client;
  GetScheme : Mgr → Scheme;
  GetEventRecorderFor : Mgr → string → EventRecorder;
  (** [NewControllerManagedBy(mgr)] with the given watches, then [Complete(r)] *)
  Complete : Mgr → list watch → DezhanVaultReconciler → Call W unit;
  (** checks that answer [healthz.Ping] *)
  AddHealthzCheck : Mgr → string → Call W unit;
  AddReadyzCheck : Mgr → string → Call W unit;
  SetupSignalHandler : W → W;
  Start : Mgr → Call W unit;
}.

(** ** Flags *)

Record operator_options `{!RuntimeFlags} := {
  oo_metricsAddr : string;
  oo_probeAddr : string;
  oo_enableLeaderElection : bool;
  oo_runtime : rt_options;
}.

Section flags.
Context `{!RuntimeFlags}.
Implicit Types o : operator_options.

Definition operator_defaults : operator_options := {|
  oo_metricsAddr := ":8443"; oo_probeAddr := ":8081"; oo_enableLeaderElection := false;
  oo_runtime := rt_default |}.

Definition put_metricsAddr (v : string) o : operator_options :=
  {| oo_metricsAddr := v; oo_probeAddr := oo_probeAddr o;
     oo_enableLeaderElection := oo_enableLeaderElection o; oo_runtime := oo_runtime o |}.
Definition put_probeAddr (v : string) o : operator_options :=
  {| oo_metricsAddr := oo_metricsAddr o; oo_probeAddr := v;
     oo_enableLeaderElection := oo_enableLeaderElection o; oo_runtime := oo_runtime o |}.
Definition put_leader (b : bool) o : operator_options :=
  {| oo_metricsAddr := oo_metricsAddr o; oo_probeAddr := oo_probeAddr o;
     oo_enableLeaderElection := b; oo_runtime := oo_runtime o |}.
Definition put_runtime (r : rt_options) o : operator_options :=
  {| oo_metricsAddr := oo_metricsAddr o; oo_probeAddr := oo_probeAddr o;
     oo_enableLeaderElection := oo_enableLeaderElection o; oo_runtime := r |}.

Definition main_flags : list (string * Flag operator_options) :=
  [("metrics-bind-address", StringFlag put_metricsAddr);
   ("health-probe-bind-address", StringFlag put_probeAddr);
   ("leader-elect", BoolFlag put_leader)].

Definition library_flag (p : string * Flag rt_options) : string * Flag operator_options :=
  (p.1, part_flag oo_runtime put_runtime p.2).

Definition operator_flags : list (string * Flag operator_options) :=
  (library_flag <$> config_flags) ++ main_flags ++ (library_flag <$> zap_flags).
End flags.

(** ** The process *)

Section main.
Context {W : Type} `{!SchemeOps, !RuntimeFlags, !ManagerTypes, !Runtime W, !UnicodeTables}.

Definition SetupWithManager (r : DezhanVaultReconciler) (mgr : Mgr) : Go W unit :=
  let r' := {|
    rc_Client := rc_Client r; rc_Scheme := rc_Scheme r;
    rc_Recorder := match rc_Recorder r with
                   | None => Some (GetEventRecorderFor mgr "dezhan-operator")
                   | rec => rec
                   end |} in
  lift (Complete mgr vault_watches r').

Definition manager_options (o : operator_options) : ManagerOptions := {|
  mo_Scheme := operator_scheme;
  mo_MetricsBindAddress := oo_metricsAddr o;
  mo_HealthProbeBindAddress := oo_probeAddr o;
  mo_LeaderElection := oo_enableLeaderElection o;
  mo_LeaderElectionID := "dezhan-operator.obsernetics.io";
|}.

(** [main] after [flag.Parse()]; every error ends the process with status 1. *)
Definition operator_run (o : operator_options) : Go W unit :=
  _ ← modify (SetLogger (oo_runtime o));
  cfg ← lift (GetConfigOrDie (oo_runtime o));
  mgr ← lift (NewManager cfg (manager_options o));
  _ ← SetupWithManager {| rc_Client := GetClient mgr; rc_Scheme := GetScheme mgr;
                          rc_Recorder := None |} mgr;
  _ ← lift (AddHealthzCheck mgr "healthz");
  _ ← lift (AddReadyzCheck mgr "readyz");
  _ ← modify SetupSignalHandler;
  lift (Start mgr).

Definition operator_main (args : list string) (w : W) : outcome * W :=
  match define_all operator_flags ∅ with
  | None => (panicked, w)
  | Some fs =>
      match flag_Parse fs args operator_defaults with
      | ErrHelp => (exited 0, w)
      | ParseError _ => (exited 2, w)
      | Parsed o _ =>
          match operator_run o w with
          | (Ok _, w') => (exited 0, w')
          | (Err _, w') => (exited 1, w')
          | (_, w') => (panicked, w')
          end
      end
  end.
End main.

(** ** What the flags set *)

Definition main_names : list string :=
  ["metrics-bind-address"; "health-probe-bind-address"; "leader-elect"].

(** The libraries' flags have proper names of their own, none of them the
    operator's. *)
Class RuntimeFlagLaws `{!RuntimeFlags} : Prop := {
  rt_NoDup : NoDup (config_flags ++ zap_flags).*1;
  rt_names : Forall (λ n, var_name n = true ∧ n ∉ main_names) (config_flags ++ zap_flags).*1;
}.

Section settings.
Context `{!RuntimeFlags, !RuntimeFlagLaws}.

Definition operator_flag_set : FlagSet operator_options := list_to_map operator_flags.

Lemma operator_flags_perm :
  operator_flags ≡ₚ main_flags ++ (library_flag <$> config_flags ++ zap_flags).
Proof.
  unfold operator_flags. rewrite fmap_app, (Permutation_app_comm (library_flag <$> config_flags)),
    <- app_assoc. by rewrite (Permutation_app_comm (library_flag <$> zap_flags)).
Qed.

Lemma operator_flag_names :
  operator_flags.*1 ≡ₚ main_names ++ (config_flags ++ zap_flags).*1.
Proof. by rewrite operator_flags_perm, fmap_app, <- list_fmap_compose. Qed.

Lemma operator_flags_NoDup : NoDup operator_flags.*1.
Proof.
  rewrite operator_flag_names. apply NoDup_app. split; [by apply (bool_decide_unpack _)|].
  split; [|apply rt_NoDup]. intros n Hn Hk. pose proof rt_names as Hl.
  rewrite Forall_forall in Hl. by destruct (Hl n Hk).
Qed.

Lemma operator_flags_defined : define_all operator_flags ∅ = Some operator_flag_set.
Proof.
  rewrite define_all_ok; [by rewrite (right_id_L ∅ (∪))|apply operator_flags_NoDup|].
  cut (Forall (λ n, var_name n = true) operator_flags.*1).
  { rewrite Forall_fmap. intros Hv. eapply Forall_impl; [exact Hv|].
    intros p Hp. by rewrite lookup_empty. }
  rewrite operator_flag_names. apply Forall_app. split; [by repeat constructor|].
  eapply Forall_impl; [apply rt_names|]. by intros n [].
Qed.

Lemma operator_flag_cases n f : operator_flag_set !! n = Some f →
  (n, f) ∈ main_flags ∨ ((n ∉ main_names) ∧ ∃ g, f = part_flag oo_runtime put_runtime g).
Proof.
  intros Hf%elem_of_list_to_map_2. rewrite operator_flags_perm in Hf.
  apply elem_of_app in Hf as [Hf|Hf]; [by left|right].
  apply list_elem_of_fmap in Hf as ([m g] & [= -> ->] & Hg). split; [|by eexists].
  pose proof rt_names as Hl. rewrite Forall_forall in Hl. apply Hl.
  apply list_elem_of_fmap. by exists (m, g).
Qed.

Ltac operator_field :=
  intros n f v o o' Hf Hs; apply operator_flag_cases in Hf as [Hf|[Hn [g ->]]];
  [ unfold main_flags in Hf;
    repeat (apply elem_of_cons in Hf as [[= -> ->]|Hf];
      [simpl in *; try destruct (ParseBool v); by simplify_eq|]);
    by apply elem_of_nil in Hf
  | simpl in Hs; destruct (flag_set g v (oo_runtime o)); [done|]; injection Hs as <-;
    rewrite decide_False; [done|]; intros ->; apply Hn; unfold main_names; set_solver ].

Lemma field_metrics : field_of operator_flag_set oo_metricsAddr "metrics-bind-address" Some.
Proof. operator_field. Qed.
Lemma field_probe : field_of operator_flag_set oo_probeAddr "health-probe-bind-address" Some.
Proof. operator_field. Qed.
Lemma field_leader : field_of operator_flag_set oo_enableLeaderElection "leader-elect" ParseBool.
Proof. operator_field. Qed.

Lemma main_flag_defined n f : (n, f) ∈ main_flags → operator_flag_set !! n = Some f.
Proof.
  intros Hf. apply elem_of_list_to_map_1; [apply operator_flags_NoDup|].
  rewrite operator_flags_perm. apply elem_of_app. by left.
Qed.

Context `{!SchemeOps}.

(** The manager a list of settings asks for. *)
Definition manager_of (l : list setting) : ManagerOptions := {|
  mo_Scheme := operator_scheme;
  mo_MetricsBindAddress := last_set Some "metrics-bind-address" l ":8443";
  mo_HealthProbeBindAddress := last_set Some "health-probe-bind-address" l ":8081";
  mo_LeaderElection := last_set ParseBool "leader-elect" l false;
  mo_LeaderElectionID := "dezhan-operator.obsernetics.io" |}.

Lemma manager_settings l o : sets_all operator_flag_set l operator_defaults o →
  manager_options o = manager_of l.
Proof.
  intros Hl. unfold manager_options, manager_of.
  by rewrite (sets_all_field _ _ _ _ _ _ _ field_metrics Hl),
    (sets_all_field _ _ _ _ _ _ _ field_probe Hl),
    (sets_all_field _ _ _ _ _ _ _ field_leader Hl).
Qed.
End settings.

(** ** A runtime that records its calls *)

Section trace.
Context `{!SchemeOps, !RuntimeFlags}.

Inductive rt_call :=
  | CallSetLogger
  | CallGetConfig
  | CallNewManager (o : ManagerOptions)
  | CallComplete (ws : list watch) (recorder : option string)
  | CallAddHealthz (name : string)
  | CallAddReadyz (name : string)
  | CallSignalHandler
  | CallStart.

#[export] Instance trace_types : ManagerTypes :=
  {| Config := unit; Mgr := unit; Client := unit; EventRecorder := string |}.

(** The calls that can fail, given the calls so far. *)
Context (ans : list rt_call → option error).

Definition rt_answer (c : rt_call) : Call (list rt_call) unit := λ tr,
  (match ans (tr ++ [c]) with Some e => inl e | None => inr () end, tr ++ [c]).

Definition TraceRuntime : Runtime (list rt_call) := {|
  SetLogger _ tr := tr ++ [CallSetLogger];
  GetConfigOrDie _ := rt_answer CallGetConfig;
  NewManager _ o := rt_answer (CallNewManager o);
  GetClient _ := ();
  GetScheme _ := operator_scheme;
  GetEventRecorderFor _ name := name;
  Complete _ ws r := rt_answer (CallComplete ws (rc_Recorder r));
  AddHealthzCheck _ n := rt_answer (CallAddHealthz n);
  AddReadyzCheck _ n := rt_answer (CallAddReadyz n);
  SetupSignalHandler tr := tr ++ [CallSignalHandler];
  Start _ := rt_answer CallStart |}.

(** The calls of a start without errors, in order. *)
Definition startup (o : ManagerOptions) : list rt_call :=
  [CallSetLogger; CallGetConfig; CallNewManager o;
   CallComplete [For KVault; Owns KStatefulSet; Owns KService; Owns KPDB] (Some "dezhan-operator");
   CallAddHealthz "healthz"; CallAddReadyz "readyz"; CallSignalHandler; CallStart].

Definition fallible (c : rt_call) : bool :=
  match c with CallSetLogger | CallSignalHandler => false | _ => true end.

(** The last of these calls failed. *)
Definition failed (tr : list rt_call) : bool :=
  match last tr with
  | Some c => fallible c && bool_decide (is_Some (ans tr))
  | None => false
  end.

#[local] Existing Instance TraceRuntime.

(** Making the calls of a list until one fails *)
Fixpoint play (l : list rt_call) : Go (list rt_call) unit :=
  match l with
  | [] => mret ()
  | c :: l' =>
      if fallible c then (_ ← lift (rt_answer c); play l')
      else (_ ← modify (λ tr, tr ++ [c]); play l')
  end.

Lemma operator_run_play o tr : operator_run o tr = play (startup (manager_options o)) tr.
Proof.
  unfold operator_run, SetupWithManager, startup. simpl.
  unfold mbind, go_bind, modify, lift, rt_answer.
  repeat (destruct (ans _); [reflexivity|]). reflexivity.
Qed.

(** The calls made are a prefix of the list; none of them failed but the last
    one of a run that ends with an error. *)
Lemma play_prefix l tr : ∃ n,
  (∀ m, (0 < m < n)%nat → failed (tr ++ take m l) = false) ∧
  (play l tr = (Ok (), tr ++ l) ∧ n = S (length l) ∨
   ∃ e, play l tr = (Err e, tr ++ take n l) ∧ (0 < n)%nat ∧ failed (tr ++ take n l) = true).
Proof.
  revert tr. induction l as [|c l IH]; intros tr; simpl.
  { exists 1%nat. split; [lia|]. left. by rewrite app_nil_r. }
  assert (failed (tr ++ [c]) = fallible c && bool_decide (is_Some (ans (tr ++ [c])))) as Hc
    by (unfold failed; by rewrite last_snoc).
  destruct (IH (tr ++ [c])) as (n & Hn & Hor).
  assert (failed (tr ++ [c]) = false → ∃ n,
    (∀ m, (0 < m < n)%nat → failed (tr ++ take m (c :: l)) = false) ∧
    (play l (tr ++ [c]) = (Ok (), tr ++ c :: l) ∧ n = S (S (length l)) ∨
     ∃ e, play l (tr ++ [c]) = (Err e, tr ++ take n (c :: l)) ∧ (0 < n)%nat ∧
       failed (tr ++ take n (c :: l)) = true)) as Hnext.
  { intros Hok. exists (S n). split.
    - intros [|[|m]] Hm; [lia|done|]. change (take (S (S m)) (c :: l)) with ([c] ++ take (S m) l).
      rewrite app_assoc. apply Hn. lia.
    - destruct Hor as [[Hp ->]|(e & Hp & Hpos & Hf)]; [left|right; exists e].
      + rewrite Hp, <- app_assoc. done.
      + change (take (S n) (c :: l)) with ([c] ++ take n l). rewrite app_assoc. auto with lia. }
  unfold mbind, go_bind, lift, rt_answer, modify.
  destruct (fallible c) eqn:Hfal; [|by apply Hnext].
  destruct (ans (tr ++ [c])) as [e|] eqn:He; [|by apply Hnext].
  exists 1%nat. split; [lia|]. right. exists e. split; [done|]. split; [lia|].
  change (take 1 (c :: l)) with [c]. by rewrite Hc.
Qed.
End trace.

(** The operator starts only what is complete, and says so.  For a command
    line that spells the settings [l], whatever controller-runtime answers, the
    calls made are a prefix of: set the logger, read the configuration, create
    the manager with the addresses and leader election of [l] and the scheme of
    the vault types, register the controller with its four watches and an event
    recorder, add the health and readiness checks, handle signals, start.  The
    process ends with status 0 after all of them succeeded, or with status 1
    right after the first one that failed. *)
Theorem operator_starts_in_order `{!SchemeOps, !RuntimeFlags, !RuntimeFlagLaws, !UnicodeTables}
    ans l tail rest o :
  sets_all operator_flag_set l operator_defaults o → ends tail rest →
  let steps := startup (manager_of l) in
  let run := operator_main (Runtime0 := TraceRuntime ans) ((l ≫= spell) ++ tail) [] in
  ∃ n, (∀ m, (0 < m < n)%nat → failed ans (take m steps) = false) ∧
    (run = (exited 0, steps) ∧ n = S (length steps) ∨
     run = (exited 1, take n steps) ∧ failed ans (take n steps) = true).
Proof.
  intros Hl He steps run. destruct (play_prefix ans steps []) as (n & Hn & Hor).
  exists n. split; [exact Hn|]. unfold run, operator_main.
  rewrite operator_flags_defined, (Parse_sound _ _ _ _ _ _ Hl He).
  rewrite operator_run_play, (manager_settings l o Hl).
  destruct Hor as [[Hp ->]|(e & Hp & _ & Hf)]; fold steps; rewrite Hp; [by left|by right].
Qed.
