(* ===== verification/MemKube.v ===== *)
(** * A cluster in memory

    An API server as a finite map that meets [KubeLaws], [AdmitLaws] and
    [KubeAvailable]: it shows that the assumptions about controller-runtime can
    be met together, and the reconciler runs on it.  As the real server does, it
    stamps new objects and fills in the timeout of a probe that names none. *)

From S2P Require Import Prelude GoStrings S3Api KubeTypes KubeApi Operator OperatorSpec.
Local Open Scope Z_scope.

(** Quantities counted in bytes; [MustParse] knows the one literal of the
    operator. *)
#[export] Instance byte_quantities : QuantityOps := {|
  Quantity := Z; zeroQuantity := 0; IsZero q := bool_decide (q = 0);
  Cmp q r := Z.sgn (q - r);
  MustParse s := if decide (s = "50Gi") then 50 * 2 ^ 30 else 0;
  QuantityString := Itoa |}.

#[export] Instance byte_quantity_laws : QuantityLaws.
Proof.
  split; simpl.
  - intros q. by rewrite Z.sub_diag.
  - intros q r. rewrite <- Z.sgn_opp. f_equal. lia.
  - intros p q r. rewrite !Z.sgn_nonpos. lia.
Qed.

Record cluster := { store : gmap (kind * nn) obj; log : list event }.

Definition put_obj (k : kind) (n : nn) (o : obj) (w : cluster) : cluster :=
  {| store := <[(k, n) := o]> (store w); log := log w |}.

(** A stored object is served under the kind and name it carries. *)
Definition proper (k : kind) (n : nn) (o : obj) : bool :=
  bool_decide (obj_kind o = k) && bool_decide (obj_key o = n).

Definition mem_objects (w : cluster) (k : kind) (n : nn) : option obj :=
  o ← store w !! (k, n); if proper k n o then Some o else None.

(** ** Admission *)

Definition stamp (m : ObjectMeta) : ObjectMeta := {|
  m_Name := m_Name m; m_Namespace := m_Namespace m; m_UID := m_UID m;
  m_Labels := m_Labels m; m_Annotations := m_Annotations m;
  m_OwnerReferences := m_OwnerReferences m;
  m_CreationTimestamp := Some (default 1 (m_CreationTimestamp m));
  m_DeletionTimestamp := m_DeletionTimestamp m;
  m_Generation := m_Generation m; m_other := m_other m |}.

Definition default_probe (p : Probe) : Probe := {|
  pr_Path := pr_Path p; pr_Port := pr_Port p;
  pr_InitialDelaySeconds := pr_InitialDelaySeconds p; pr_PeriodSeconds := pr_PeriodSeconds p;
  pr_TimeoutSeconds := if decide (pr_TimeoutSeconds p = 0) then 1 else pr_TimeoutSeconds p;
  pr_FailureThreshold := pr_FailureThreshold p; pr_other := pr_other p |}.

Definition default_container (c : Container) : Container := {|
  c_Name := c_Name c; c_Image := c_Image c; c_Args := c_Args c; c_Env := c_Env c;
  c_EnvFrom := c_EnvFrom c; c_Ports := c_Ports c; c_VolumeMounts := c_VolumeMounts c;
  c_Resources := c_Resources c;
  c_ReadinessProbe := default_probe <$> c_ReadinessProbe c;
  c_LivenessProbe := default_probe <$> c_LivenessProbe c;
  c_StartupProbe := default_probe <$> c_StartupProbe c;
  c_SecurityContext := c_SecurityContext c; c_other := c_other c |}.

Definition default_podspec (s : PodSpec) : PodSpec := {|
  ps_SecurityContext := ps_SecurityContext s;
  ps_PriorityClassName := ps_PriorityClassName s;
  ps_TerminationGracePeriodSeconds := ps_TerminationGracePeriodSeconds s;
  ps_Containers := default_container <$> ps_Containers s; ps_other := ps_other s |}.

Definition mem_admit (_ : option obj) (o : obj) : obj :=
  match o with
  | OVault v => OVault v
  | OService s => OService {|
      svc_Meta := stamp (svc_Meta s); svc_Type := svc_Type s; svc_Selector := svc_Selector s;
      svc_ClusterIP := svc_ClusterIP s; svc_Ports := svc_Ports s; svc_other := svc_other s |}
  | OStatefulSet s => OStatefulSet {|
      sts_Meta := stamp (sts_Meta s); sts_Replicas := sts_Replicas s;
      sts_MinReadySeconds := sts_MinReadySeconds s;
      sts_RetentionPolicy := sts_RetentionPolicy s; sts_Selector := sts_Selector s;
      sts_ServiceName := sts_ServiceName s;
      sts_VolumeClaimTemplates := sts_VolumeClaimTemplates s;
      sts_Template := {| pt_Labels := pt_Labels (sts_Template s);
                         pt_Spec := default_podspec (pt_Spec (sts_Template s));
                         pt_other := pt_other (sts_Template s) |};
      sts_ReadyReplicas := sts_ReadyReplicas s; sts_other := sts_other s |}
  | OPDB p => OPDB {| pdb_Meta := stamp (pdb_Meta p); pdb_MinAvailable := pdb_MinAvailable p;
                      pdb_Selector := pdb_Selector p; pdb_other := pdb_other p |}
  | OPVC p => OPVC {| pvc_Meta := stamp (pvc_Meta p); pvc_AccessModes := pvc_AccessModes p;
                      pvc_StorageClassName := pvc_StorageClassName p;
                      pvc_Requests := pvc_Requests p; pvc_other := pvc_other p |}
  end.

#[export] Instance mem_kview : KubeView cluster :=
  {| objects := mem_objects; admission := mem_admit; events := log |}.

(** ** Operations *)

Definition not_found : error := apiError ReasonNotFound "not found".
Definition refused : error := apiError ReasonOther "invalid object".

Definition write (k : kind) (n : nn) (o : obj) (w : cluster) : cluster :=
  match stored_after (mem_objects w k n) o with
  | Some c => put_obj k n c w
  | None => w
  end.

Definition mem_CreateOrUpdate (k : kind) (n : nn) (x : obj) (f : obj → error + obj)
    (w : cluster) : (OperationResult * option error) * cluster :=
  match f (default x (mem_objects w k n)) with
  | inl e => ((OperationResultNone, Some e), w)
  | inr o =>
      if proper k n o then
        ((match mem_objects w k n with
          | None => OperationResultCreated
          | Some c => if decide (o = c) then OperationResultNone else OperationResultUpdated
          end, None), write k n o w)
      else ((OperationResultNone, Some refused), w)
  end.

Definition reference_to (v : DezhanVault) : OwnerReference := {|
  or_APIVersion := gv_String GroupVersion; or_Kind := vault_kind; or_Name := v_Name v;
  or_UID := m_UID (v_Meta v); or_Controller := true; or_other := ∅ |}.

(** A reference to the vault is the controller and replaces older ones, unless
    the object has another controller. *)
Definition mem_SetControllerReference (v : DezhanVault) (m : ObjectMeta) : error + ObjectMeta :=
  if from_option (λ r, bool_decide (refers_to v r)) true (GetControllerOf m) then inr {|
    m_Name := m_Name m; m_Namespace := m_Namespace m; m_UID := m_UID m;
    m_Labels := m_Labels m; m_Annotations := m_Annotations m;
    m_OwnerReferences := reference_to v ::
      filter (λ r, ¬ refers_to v r) (m_OwnerReferences m);
    m_CreationTimestamp := m_CreationTimestamp m;
    m_DeletionTimestamp := m_DeletionTimestamp m;
    m_Generation := m_Generation m; m_other := m_other m |}
  else inl (errorString "already owned").

#[export] Instance mem_kube : KubeClient cluster := {|
  api_Get k n w :=
    (match mem_objects w k n with Some o => inr o | None => inl not_found end, w);
  api_CreateOrUpdate := mem_CreateOrUpdate;
  api_Delete k n w :=
    match mem_objects w k n with
    | Some _ => (inr (), {| store := delete (k, n) (store w); log := log w |})
    | None => (inl not_found, w)
    end;
  api_Patch k n b o w :=
    if proper k n o && bool_decide (mem_objects w k n = Some b)
    then (inr (), write k n o w) else (inl refused, w);
  api_StatusPatch n b o w :=
    match mem_objects w KVault n with
    | Some (OVault cur) =>
        (inr (), put_obj KVault n
           (OVault {| v_Meta := v_Meta cur; v_Spec := v_Spec cur; v_Status := v_Status o |}) w)
    | _ => (inl not_found, w)
    end;
  IgnoreNotFound e := match e with apiError ReasonNotFound _ => None | _ => Some e end;
  SetControllerReference := mem_SetControllerReference;
  SetStatusCondition cs c _ := filter (λ c', cond_Type c' ≠ cond_Type c) cs ++ [c];
  Recorder := true;
  Eventf e w := {| store := store w; log := log w ++ [e] |} |}.

(** ** The laws *)

Lemma mem_objects_put k n o w : proper k n o = true → mem_objects (put_obj k n o w) k n = Some o.
Proof. intros Ho. unfold mem_objects, put_obj. simpl. rewrite lookup_insert_eq. simpl. by rewrite Ho. Qed.

Lemma mem_objects_put_ne k n o w k' n' : (k', n') ≠ (k, n) →
  mem_objects (put_obj k n o w) k' n' = mem_objects w k' n'.
Proof. intros Hne. unfold mem_objects, put_obj. simpl. by rewrite lookup_insert_ne. Qed.

Lemma mem_objects_proper w k n o : mem_objects w k n = Some o → proper k n o = true.
Proof.
  unfold mem_objects. destruct (store w !! (k, n)) as [c|]; simpl; [|done].
  destruct (proper k n c) eqn:Hp; [|done]. by intros [= <-].
Qed.

Lemma mem_admit_proper c k n o : proper k n o = true → proper k n (mem_admit c o) = true.
Proof. by destruct o. Qed.

Lemma write_objects k n o w : proper k n o = true →
  mem_objects (write k n o w) k n = stored_after (mem_objects w k n) o.
Proof.
  intros Ho. unfold write, stored_after. simpl.
  destruct (mem_objects w k n) as [c|] eqn:Hc.
  - case_decide as Heq; simpl.
    + apply mem_objects_put. by apply mem_objects_proper in Hc.
    + by apply mem_objects_put, mem_admit_proper.
  - by apply mem_objects_put, mem_admit_proper.
Qed.

Lemma write_objects_ne k n o w k' n' : (k', n') ≠ (k, n) →
  mem_objects (write k n o w) k' n' = mem_objects w k' n'.
Proof.
  intros Hne. unfold write. destruct (stored_after _ _); [by apply mem_objects_put_ne|done].
Qed.

Lemma write_log k n o w : log (write k n o w) = log w.
Proof. unfold write. by destruct (stored_after _ _). Qed.

Lemma reference_refers v : refers_to v (reference_to v).
Proof. split; [|done]. vm_compute. reflexivity. Qed.

Lemma mem_owner v m m' : mem_SetControllerReference v m = inr m' →
  (∃ r, GetControllerOf m' = Some r ∧ refers_to v r ∧ or_UID r = m_UID (v_Meta v)) ∧
  m_Name m' = m_Name m ∧ m_Namespace m' = m_Namespace m ∧ m_UID m' = m_UID m ∧
  m_Labels m' = m_Labels m ∧ m_Annotations m' = m_Annotations m ∧
  m_CreationTimestamp m' = m_CreationTimestamp m ∧
  m_DeletionTimestamp m' = m_DeletionTimestamp m ∧
  m_Generation m' = m_Generation m ∧ m_other m' = m_other m.
Proof.
  unfold mem_SetControllerReference. destruct (from_option _ _ _); [|done]. intros [= <-].
  split; [|done]. exists (reference_to v). auto using reference_refers.
Qed.

Lemma mem_owner_again v m m' : mem_SetControllerReference v m = inr m' →
  mem_SetControllerReference v m' = inr m'.
Proof.
  unfold mem_SetControllerReference. destruct (from_option _ _ _); [|done]. intros [= <-].
  simpl. rewrite bool_decide_eq_true_2 by apply reference_refers. rewrite filter_cons_False by (intros Hn; apply Hn, reference_refers).
  do 2 f_equal. rewrite list_filter_filter. repeat f_equal.
  apply list_filter_iff. naive_solver.
Qed.

Lemma mem_cou_frame k n x f w r w' k' n' : mem_CreateOrUpdate k n x f w = (r, w') →
  (k', n') ≠ (k, n) → mem_objects w' k' n' = mem_objects w k' n'.
Proof.
  unfold mem_CreateOrUpdate. destruct (f _) as [e|o]; [by intros [= _ <-]|].
  destruct (proper k n o); intros [= _ <-]; [apply write_objects_ne|done].
Qed.

Lemma mem_cou_ok k n x f w op w' : mem_CreateOrUpdate k n x f w = ((op, None), w') →
  ∃ o, f (default x (mem_objects w k n)) = inr o ∧
    mem_objects w' k n = stored_after (mem_objects w k n) o ∧
    (op = OperationResultNone ↔ mem_objects w k n = Some o).
Proof.
  unfold mem_CreateOrUpdate. destruct (f _) as [e|o]; [done|].
  destruct (proper k n o) eqn:Hp; [|done]. intros [= <- <-].
  exists o. split; [done|]. split; [by apply write_objects|].
  destruct (mem_objects w k n) as [c|]; [case_decide|]; naive_solver.
Qed.

Lemma mem_cou_err k n x f w op e w' : mem_CreateOrUpdate k n x f w = ((op, Some e), w') →
  w' = w.
Proof.
  unfold mem_CreateOrUpdate. destruct (f _) as [e1|o]; [by intros [= _ _ <-]|].
  by destruct (proper k n o); intros [= _ _ <-].
Qed.

Lemma mem_status n (b o : DezhanVault) w r w' :
  api_StatusPatch n b o w = (r, w') → mem_objects w KVault n = Some (OVault b) →
  ∃ v, mem_objects w' KVault n = Some (OVault v) ∧ v_Spec v = v_Spec b ∧ v_Status v = v_Status o.
Proof.
  simpl. intros Hr Hb. rewrite Hb in Hr. injection Hr as <- <-.
  eexists. split; [|split].
  - apply mem_objects_put. by apply mem_objects_proper in Hb.
  - done.
  - done.
Qed.

#[export] Instance mem_kube_laws : KubeLaws cluster.
Proof.
  split.
  - by intros k n w r w' [= _ <-].
  - intros k n w o w'. simpl. destruct (mem_objects w k n); by intros [= <- <-].
  - intros k n w Hn. exists not_found, w. simpl in *. by rewrite Hn.
  - intros k n w e w'. simpl. by destruct (mem_objects w k n).
  - intros k n w o Ho%mem_objects_proper. apply andb_true_iff in Ho as [Ho _].
    by apply bool_decide_eq_true in Ho.
  - intros k n w o Ho%mem_objects_proper. apply andb_true_iff in Ho as [_ Ho].
    by apply bool_decide_eq_true in Ho.
  - intros e e'. simpl. destruct e as [| | | |[]]; by intros [= <-].
  - apply mem_cou_frame.
  - apply mem_cou_ok.
  - intros k n x f w op e w' ->%mem_cou_err. by left.
  - intros k n w r w' k' n'. simpl. destruct (mem_objects w k n); intros [= _ <-]; [|done].
    intros Hne. unfold mem_objects. simpl. by rewrite lookup_delete_ne.
  - intros k n w w'. simpl. destruct (mem_objects w k n); intros [= <-].
    unfold mem_objects. simpl. by rewrite lookup_delete_eq.
  - intros k n w e w'. simpl. destruct (mem_objects w k n) eqn:Hn; intros [= <- <-]. by auto.
  - intros k n b o w r w' k' n'. simpl. destruct (proper k n o && _); intros [= _ <-]; [|done].
    apply write_objects_ne.
  - intros k n b o w w'. simpl. destruct (proper k n o) eqn:Hp; [|done]. simpl.
    case_bool_decide as Hb; intros [= <-] _. by rewrite write_objects, Hb.
  - intros k n b o w e w'. simpl. destruct (proper k n o && _); intros [= _ <-]. by left.
  - intros n b o w r w' k' n'. simpl.
    destruct (mem_objects w KVault n) as [[v| | | |]|]; intros [= _ <-]; try done.
    apply mem_objects_put_ne.
  - intros n b o w w'. apply mem_status.
  - intros n b o w e w' Hr Hb. destruct (mem_status _ _ _ _ _ _ Hr Hb) as (v & ? & ? & ?).
    exists v. auto.
  - apply mem_owner.
  - apply mem_owner_again.
  - intros cs c w. exists c. split; [apply elem_of_app; right; left|done].
  - intros cs c w c' Hne. simpl.
    rewrite elem_of_app, list_elem_of_filter, list_elem_of_singleton. naive_solver.
  - done.
  - intros k n x f w. simpl. unfold mem_CreateOrUpdate. destruct (f _); [done|].
    destruct (proper k n o); [apply write_log|done].
  - intros k n w. simpl. by destruct (mem_objects w k n).
  - intros k n b o w. simpl. destruct (proper k n o && _); [apply write_log|done].
  - intros n b o w. simpl. by destruct (mem_objects w KVault n) as [[]|].
  - done.
  - done.
Qed.

#[export] Instance mem_kube_available : KubeAvailable cluster.
Proof.
  split.
  - intros k n w o Ho. exists w. simpl in *. by rewrite Ho.
  - intros k n x f w o Ho Hk Hn. simpl in *. unfold mem_CreateOrUpdate. rewrite Ho.
    unfold proper. rewrite !bool_decide_eq_true_2 by done. by do 2 eexists.
  - intros k n w. simpl. destruct (mem_objects w k n); by do 2 eexists.
  - intros k n b o w Hb Hk Hn. simpl in *. unfold proper.
    rewrite !bool_decide_eq_true_2 by done. by eexists.
  - intros n b o w Hb _. simpl in *. rewrite Hb. by eexists.
  - intros v m Hown. simpl. unfold mem_SetControllerReference.
    destruct (GetControllerOf m) as [r|]; simpl; [rewrite bool_decide_eq_true_2 by auto|];
      by eexists.
Qed.

Lemma default_probe_filled p : probe_filled p (default_probe p).
Proof.
  repeat split; try by right. unfold filled_Z, default_probe; simpl. case_decide; auto.
Qed.

Lemma default_probe_option p : option_Forall2 probe_filled p (default_probe <$> p).
Proof. destruct p; constructor. apply default_probe_filled. Qed.

Lemma default_container_filled c : container_filled c (default_container c).
Proof.
  split; [done|]. split; [by right|]. split; [done|].
  repeat (split; [apply Forall_Forall2_diag, Forall_true; done|]).
  do 3 (split; [apply default_probe_option|]).
  simpl. destruct (c_SecurityContext c); constructor. by repeat split.
Qed.

Lemma stamp_filled m : meta_filled m (stamp m).
Proof. repeat split. simpl. by destruct (m_CreationTimestamp m). Qed.

#[export] Instance mem_admission : AdmitLaws cluster.
Proof.
  split; intros c x; eexists; (split; [reflexivity|]); (split; [apply stamp_filled|]).
  - repeat split; try by right. apply Forall_Forall2_diag, Forall_true. done.
  - do 7 (split; [done|]). split; simpl.
    { destruct (ps_SecurityContext _); constructor. by repeat split. }
    split; [by right|]. split; [done|].
    apply Forall2_fmap_r, Forall_Forall2_diag, Forall_true, default_container_filled.
  - done.
  - done.
Qed.
