(* ===== verification/DeepCopyDemo.v ===== *)
(** * Deep copies on a concrete memory

    The embedded Kubernetes types laid out without pointers of their own, and a
    vault with a storage class and a condition: the contracts hold there, and
    the theorems about copies are applied. *)

From S2P Require Import Prelude GoStrings S3Api KubeTypes KubeApi Operator OperatorSpec MemKube GoHeap DeepCopy DeepCopySpec.
Local Open Scope Z_scope.

Definition zero_condition : Condition := {|
  cond_Type := ""; cond_Status := ""; cond_ObservedGeneration := 0;
  cond_LastTransitionTime := None; cond_Reason := ""; cond_Message := "" |}.

#[local] Instance flat_memory : K8sMemory := {|
  MetaH := ObjectMeta; QtyH := Z; ResH := others; ListMetaH := string; CondH := Condition;
  zero_MetaH := meta_named "" ""; zero_QtyH := 0; zero_ResH := (∅ : others); zero_ListMetaH := "";
  zero_CondH := zero_condition;
  ExtCell := Empty_set; meta_Generation := m_Generation |}.

#[local] Instance flat_copies : K8sCopies := {|
  ListMeta := string;
  ObjectMeta_DeepCopyInto := plain_deep ObjectMeta; Quantity_DeepCopy := plain_deep Z;
  ResourceRequirements_DeepCopyInto := plain_deep others; ListMeta_DeepCopyInto := plain_deep string;
  Condition_DeepCopyInto := plain_deep Condition |}.

#[local] Instance flat_laws : K8sCopyLaws.
Proof. split; try apply plain_laws. by intros h m o ->. Qed.

Definition demo_condition : Condition := {|
  cond_Type := "Available"; cond_Status := "True"; cond_ObservedGeneration := 2;
  cond_LastTransitionTime := Some 7; cond_Reason := "StatefulSetReady";
  cond_Message := "vault pod is ready" |}.

(** A vault in memory: the struct at 1, its storage class at 2, its conditions at
    3, as the second of three elements of an array. *)
Definition demo_struct : VaultH := {|
  vh_TypeMeta := ("DezhanVault", "v1alpha1");
  vh_Meta := (meta_named "backups" "prod" : MetaH);
  vh_Spec := {| sh_Image := "img"; sh_Port := 9000; sh_Storage := (100 : QtyH);
    sh_StorageClassName := Ptr (Some 2%positive); sh_RequireAuth := true; sh_DeleteQuorum := 0;
    sh_ScrubIntervalSeconds := 0; sh_SecretName := ""; sh_Resources := (∅ : others);
    sh_ServiceType := ""; sh_PriorityClassName := ""; sh_DisablePodDisruptionBudget := false |};
  vh_Status := {| sth_ObservedGeneration := 2; sth_Ready := true; sth_Endpoint := "e";
    sth_Conditions := Slice (Some (3%positive, 1%nat, 1%nat)) |} |}.

Definition demo_heap : heap :=
  <[1%positive := CVault demo_struct]> (<[2%positive := CString "fast"]>
    (<[3%positive := CConds [zero_condition; demo_condition; zero_condition]]> ∅)).

Definition demo_spec : DezhanVaultSpec := {|
  s_Image := "img"; s_Port := 9000; s_Storage := (100 : Quantity); s_StorageClassName := Some "fast";
  s_RequireAuth := true; s_DeleteQuorum := 0; s_ScrubIntervalSeconds := 0; s_SecretName := "";
  s_Resources := ∅; s_ServiceType := ""; s_PriorityClassName := "";
  s_DisablePodDisruptionBudget := false |}.

Definition demo_mem : vault_mem :=
  (("DezhanVault", "v1alpha1"),
   (meta_named "backups" "prod", (demo_spec, (2, true, "e", Some [demo_condition])))).

Lemma demo_reads : reads demo_heap demo_struct demo_mem.
Proof.
  split; [done|]. split; [done|]. split; [by repeat split|]. split; [done|].
  exists [zero_condition; demo_condition; zero_condition]. split; [done|]. split; [simpl; lia|].
  by repeat constructor.
Qed.

Lemma deep_copy_correct_witness :
  ∃ q h', Vault_DeepCopy (Ptr (Some 1%positive)) demo_heap = (Ok q, h') ∧ demo_heap ⊆ h' ∧
    independent h' (Ptr (A := VaultH) (Some 1%positive)) q (Some demo_mem).
Proof.
  apply (deep_copy_correct demo_heap). exists demo_struct. split; [reflexivity|apply demo_reads].
Defined.

(** [SetStatusCondition] by a new array. *)
#[local] Instance fresh_conditions : ConditionOps cluster := {|
  SetStatusConditionH l c w :=
    x ← deref (A := VaultH) l;
    cs ← match sl_hdr (sth_Conditions (vh_Status x)) with
         | None => mret []
         | Some hdr => xs ← deref (A := list CondH) hdr.1.1; mret (window hdr xs)
         end;
    let new := SetStatusCondition cs c w in
    out ← alloc (CConds new);
    GoHeap.store l (to_cell {| vh_TypeMeta := vh_TypeMeta x; vh_Meta := vh_Meta x; vh_Spec := vh_Spec x;
      vh_Status := status_with (vh_Status x) (Slice (Some (out, 0%nat, length new))) |}) |}.

Lemma plain_all (xs vs : list Condition) : Forall2 (λ a v, a = v) xs vs ↔ xs = vs.
Proof.
  split; [|intros ->; induction vs; by constructor].
  induction 1 as [|x v xs vs Hx _ IH]; [done|]. by f_equal.
Qed.

Lemma deref_conds l (xs : list Condition) (h : heap) : h !! l = Some (@CConds flat_memory xs) →
  deref (A := list CondH) l h = (Ok xs, h).
Proof. intros Hl. unfold deref, load, mbind, go_bind. by rewrite Hl. Qed.

#[local] Instance fresh_condition_laws : ConditionLaws (W := cluster).
Proof.
  intros l c w h m (x & Hx & Hr).
  destruct m as [tm [om [sp [[[g rd] ep] ocs]]]].
  destruct Hr as (Ht & Hm & Hs & Hsc & Hcs). simpl in Hsc, Hcs.
  set (cs := default [] ocs). set (new := SetStatusCondition cs c w).
  destruct (alloc_ok (C := cell) (@CConds flat_memory new) h) as (out & Ho & Hn).
  set (y := {| vh_TypeMeta := vh_TypeMeta x; vh_Meta := vh_Meta x; vh_Spec := vh_Spec x;
    vh_Status := status_with (vh_Status x) (Slice (Some (out, 0%nat, length new))) |}).
  assert (out ≠ l) as Hne by (intros ->; congruence).
  set (h1 := <[out := @CConds flat_memory new]> h) in *.
  assert (h1 !! l = Some (to_cell x)) as Hx1 by by unfold h1; rewrite lookup_insert_ne.
  exists (Some new), (<[l := to_cell y]> h1). split; [|split; [done|split]].
  - simpl. rewrite (bind_Ok_l _ _ _ _ _ (deref_ok _ _ _ Hx)).
    rewrite (bind_Ok_l _ _ h cs h).
    + rewrite (bind_Ok_l _ _ _ _ _ Ho). by rewrite (store_ok _ _ _ _ Hx1).
    + unfold cs. destruct (sl_hdr _) as [hdr|], ocs as [vs|]; try done.
      destruct Hcs as (xs & Hl & _ & Hall). rewrite (bind_Ok_l _ _ _ _ _ (deref_conds _ _ _ Hl)).
      by apply plain_all in Hall as <-.
  - exists y. split; [apply lookup_insert_eq|]. split; [exact Ht|]. split; [exact Hm|].
    split; [|split; [exact Hsc|]].
    + destruct Hs as (Hsc' & Hq & Hcl & Hrs). split; [exact Hsc'|]. split; [exact Hq|].
      split; [|exact Hrs]. simpl in Hcl |- *.
      destruct (ptr_loc _) as [k|], (s_StorageClassName sp) as [s|]; try done.
      assert (k ≠ l) by (intros ->; rewrite Hx in Hcl; done).
      assert (k ≠ out) by (intros ->; rewrite Hn in Hcl; done).
      by unfold h1; rewrite !lookup_insert_ne by done.
    + exists new. simpl. split; [by rewrite lookup_insert_ne; [apply lookup_insert_eq|]|].
      split; [done|]. apply plain_all. unfold window. simpl. rewrite drop_0. by rewrite take_ge.
  - intros k Hk Hnk. assert (k ≠ l) by (intros ->; apply Hnk; rewrite (reach_ptr _ _ _ Hx); set_solver).
    assert (k ≠ out) by (intros ->; apply not_elem_of_dom in Hn; done).
    by unfold h1; rewrite !lookup_insert_ne by done.
Qed.

Definition empty_cluster : cluster := {| MemKube.store := ∅; log := [] |}.

Lemma status_patch_exact_witness :
  ∃ base h' m', status_patch_memory (vault_value demo_mem) false 1%positive empty_cluster demo_heap =
      (Ok base, h') ∧
    reads h' base (Some demo_mem) ∧
    reads h' (Ptr (A := VaultH) (Some 1%positive)) (Some m') ∧
    vault_value m' = status_of (vault_value demo_mem) false (vault_value demo_mem) empty_cluster.
Proof.
  apply (status_patch_exact (vault_value demo_mem) false 1%positive empty_cluster demo_heap
    demo_struct demo_mem).
  - reflexivity.
  - apply demo_reads.
  - apply (bool_decide_unpack _). vm_compute. exact I.
Defined.
