(* ===== verification/OperatorDemo.v ===== *)
(** * The reconciler on a cluster in memory

    A vault and a cluster on which the theorems about the reconciler are
    applied: the assumptions they make hold there. *)

From S2P Require Import Prelude GoStrings S3Api KubeTypes KubeApi Operator OperatorSpec OperatorProofs OperatorSteps OperatorTheorems OperatorPod MemKube.
Local Open Scope Z_scope.

Definition demo_meta : ObjectMeta := {|
  m_Name := "backups"; m_Namespace := "prod"; m_UID := "uid-1"; m_Labels := None;
  m_Annotations := None; m_OwnerReferences := []; m_CreationTimestamp := Some 1;
  m_DeletionTimestamp := None; m_Generation := 3; m_other := ∅ |}.

Definition demo_vault : DezhanVault := {|
  v_Meta := demo_meta;
  v_Spec := {| s_Image := ""; s_Port := 0; s_Storage := 100 * 2 ^ 30; s_StorageClassName := None;
               s_RequireAuth := true; s_DeleteQuorum := 2; s_ScrubIntervalSeconds := 0;
               s_SecretName := "keys"; s_Resources := ∅; s_ServiceType := "";
               s_PriorityClassName := ""; s_DisablePodDisruptionBudget := false |};
  v_Status := {| st_ObservedGeneration := 0; st_Ready := false; st_Endpoint := "";
                 st_Conditions := [] |} |}.

Definition demo_claim : PersistentVolumeClaim := {|
  pvc_Meta := meta_named "data-backups-0" "prod"; pvc_AccessModes := ["ReadWriteOnce"];
  pvc_StorageClassName := None; pvc_Requests := Some {[ ResourceStorage := 50 * 2 ^ 30 ]};
  pvc_other := ∅ |}.

Definition demo_req : nn := ("prod", "backups").

(** The vault was created, its claim is half as large as requested now. *)
Definition demo_cluster : cluster := {|
  store := <[(KVault, demo_req) := OVault demo_vault]>
             {[ (KPVC, ("prod", "data-backups-0")) := OPVC demo_claim ]};
  log := [] |}.

(** The cluster after one pass. *)
Definition demo_after : cluster := (Reconcile demo_req demo_cluster).2.

Lemma demo_pass : Reconcile demo_req demo_cluster = (Ok requeueWait, demo_after).
Proof.
  unfold demo_after.
  destruct (Reconcile demo_req demo_cluster) as [r w] eqn:Hr. simpl. f_equal.
  apply (f_equal fst) in Hr. simpl in Hr. rewrite <- Hr. vm_compute. reflexivity.
Qed.

Lemma reconcile_converges_witness : in_place (applyDefaults demo_vault) demo_cluster demo_after.
Proof. apply (reconcile_converges _ _ _ _ demo_vault demo_pass); reflexivity. Defined.

Lemma demo_stored : objects demo_cluster KVault demo_req = Some (OVault demo_vault).
Proof. reflexivity. Qed.

Lemma reconcile_frame_witness :
  objects (Reconcile demo_req demo_cluster).2 KService ("prod", "other") =
  objects demo_cluster KService ("prod", "other").
Proof.
  apply (reconcile_frame demo_req demo_cluster). intros v Hv _.
  rewrite demo_stored in Hv. injection Hv as <-.
  apply (bool_decide_unpack _). vm_compute. exact I.
Defined.

Lemma reconcile_gone_witness : (Reconcile ("prod", "none") demo_cluster).1 = Ok 0.
Proof.
  apply (reconcile_gone_or_deleting ("prod", "none") demo_cluster); [|reflexivity].
  intros v Hv. vm_compute in Hv. discriminate Hv.
Defined.

Lemma reconcile_never_shrinks_witness :
  ∃ q, objects demo_after KPVC ("prod", "data-backups-0") = Some (OPVC q) ∧
    storage_request demo_claim ≤ storage_request q.
Proof.
  destruct (reconcile_never_shrinks demo_req demo_cluster demo_vault demo_claim)
    as (q & Hq & Hle & _); [reflexivity|vm_compute; reflexivity|].
  exists q. split; [exact Hq|]. simpl in Hle. rewrite Z.sgn_nonpos in Hle.
  apply Z.le_sub_0. exact Hle.
Defined.

(** ** A second pass, over the objects the first one created *)

Definition after_vault : DezhanVault :=
  match objects demo_after KVault demo_req with Some (OVault v) => v | _ => demo_vault end.
Definition after_sts : StatefulSet :=
  match objects demo_after KStatefulSet demo_req with
  | Some (OStatefulSet s) => s | _ => statefulset_named "" "" end.

Lemma after_vault_stored : objects demo_after KVault demo_req = Some (OVault after_vault).
Proof. vm_compute. reflexivity. Qed.
Lemma after_sts_stored : objects demo_after KStatefulSet demo_req = Some (OStatefulSet after_sts).
Proof. vm_compute. reflexivity. Qed.

Lemma reconcile_keeps_immutable_witness :
  ∃ t, objects (Reconcile demo_req demo_after).2 KStatefulSet demo_req = Some (OStatefulSet t) ∧
    statefulset_kept (applyDefaults after_vault) after_sts t.
Proof.
  apply (reconcile_keeps_immutable demo_req demo_after after_vault).
  - exact after_vault_stored.
  - exact after_sts_stored.
  - vm_compute. discriminate.
Defined.

Lemma reconcile_status_honest_witness :
  ∃ u, objects demo_after KVault demo_req = Some (OVault u) ∧ v_Spec u = v_Spec demo_vault.
Proof.
  destruct (reconcile_status_honest demo_req demo_cluster demo_vault) as (u & Hu & Hs & _).
  - reflexivity.
  - exists u. split; [exact Hu|exact Hs].
Defined.

Lemma after_statefulset_pass :
  reconcileStatefulSet (applyDefaults after_vault) demo_after =
  (Ok (), (reconcileStatefulSet (applyDefaults after_vault) demo_after).2).
Proof.
  destruct (reconcileStatefulSet (applyDefaults after_vault) demo_after) as [r w] eqn:Hr.
  simpl. f_equal. apply (f_equal fst) in Hr. simpl in Hr. rewrite <- Hr.
  vm_compute. reflexivity.
Qed.

Definition after_container : Container :=
  default (container_named "") (vault_container_of after_sts).
Definition after_probe : Probe := default (healthProbe 0 0) (c_StartupProbe after_container).

Lemma probe_defaults_rewritten_witness :
  mutate_statefulset (applyDefaults after_vault) after_sts ≠ inr after_sts.
Proof.
  apply (probe_defaults_rewritten (applyDefaults after_vault) demo_after _ after_sts
    after_container after_probe after_statefulset_pass eq_refl after_sts_stored).
  - vm_compute. reflexivity.
  - vm_compute. reflexivity.
  - vm_compute. discriminate.
Defined.

(** ** A Service that belongs to another controller *)

Definition foreign_service : Service := {|
  svc_Meta := {|
    m_Name := "backups"; m_Namespace := "prod"; m_UID := "uid-9"; m_Labels := None;
    m_Annotations := None;
    m_OwnerReferences := [{| or_APIVersion := "apps/v1"; or_Kind := "Deployment"; or_Name := "web"; or_UID := "uid-2"; or_Controller := true; or_other := ∅ |}];
    m_CreationTimestamp := Some 1; m_DeletionTimestamp := None; m_Generation := 1;
    m_other := ∅ |};
  svc_Type := "ClusterIP"; svc_Selector := None; svc_ClusterIP := "10.0.0.1"; svc_Ports := [];
  svc_other := ∅ |}.

Definition foreign_cluster : cluster := put_obj KService demo_req (OService foreign_service) demo_cluster.
Definition foreign_error : error := errorString "already owned".

Lemma foreign_pass : Reconcile demo_req foreign_cluster =
  (Err foreign_error, (Reconcile demo_req foreign_cluster).2).
Proof.
  destruct (Reconcile demo_req foreign_cluster) as [r w] eqn:Hr. simpl. f_equal.
  apply (f_equal fst) in Hr. simpl in Hr. rewrite <- Hr. vm_compute. reflexivity.
Qed.


Lemma reconcile_succeeds_witness : ∃ d w', Reconcile demo_req demo_cluster = (Ok d, w') ∧
  in_place (applyDefaults demo_vault) demo_cluster w'.
Proof.
  apply (reconcile_succeeds demo_req demo_cluster demo_vault).
  - reflexivity.
  - reflexivity.
  - intros s Hs. vm_compute in Hs. discriminate Hs.
  - intros s Hs. vm_compute in Hs. discriminate Hs.
  - intros s Hs. vm_compute in Hs. discriminate Hs.
Defined.
