(* ===== verification/OperatorLoopDemo.v ===== *)
(** * The control loop on a cluster in memory

    A run of the loop to the end: a new vault is reconciled, its pod becomes
    ready, and the loop comes to rest with nothing pending, so that the vault is
    settled.  And the operator process with the arguments of its deployment:
    operator/config/manager/manager.yaml starts it with leader election and the
    two addresses; here the third call fails, so nothing is started. *)

From stdpp Require Import relations.
From S2P Require Import Prelude GoStrings S3Api GoFlag KubeTypes KubeApi Operator OperatorMain OperatorSpec OperatorProofs OperatorSteps OperatorTheorems MemKube OperatorDemo OperatorLoop.
Local Open Scope Z_scope.

(** Notifications for everything stored before or after. *)
Definition mem_notifications (w w' : cluster) : gset nn :=
  list_to_set (concat (map
    (λ '(key, o), if bool_decide (mem_objects w key.1 key.2 = mem_objects w' key.1 key.2)
                  then [] else requests o)
    (map_to_list (store w) ++ map_to_list (store w')))).

Lemma mem_objects_stored w k m o : mem_objects w k m = Some o →
  ((k, m), o) ∈ map_to_list (store w).
Proof.
  unfold mem_objects. destruct (store w !! (k, m)) as [c|] eqn:Hc; simpl; [|done].
  destruct (proper k m c); [|done]. intros [= <-]. by apply elem_of_map_to_list.
Qed.

Lemma mem_notified (w w' : cluster) n : notified w w' n → n ∈ mem_notifications w w'.
Proof.
  intros (k & m & o & Hne & Ho & Hn). unfold mem_notifications. apply elem_of_list_to_set.
  apply list_elem_of_In, in_concat. exists (requests o).
  split; [|by apply list_elem_of_In]. apply in_map_iff. exists ((k, m), o). simpl.
  rewrite bool_decide_eq_false_2 by done. split; [done|]. apply list_elem_of_In, elem_of_app.
  destruct Ho as [Ho|Ho]; [left|right]; by apply mem_objects_stored.
Qed.

(** ** Steps as functions *)

Definition change (w' : cluster) (s : loop cluster) : loop cluster :=
  {| world := w'; inflight := inflight s ∪ mem_notifications (world s) w'; ready := ready s;
     waiting := waiting s |}.
Definition deliver (n : nn) (s : loop cluster) : loop cluster :=
  {| world := world s; inflight := inflight s ∖ {[n]}; ready := ready s ∪ {[n]};
     waiting := waiting s |}.
Definition due (n : nn) (s : loop cluster) : loop cluster :=
  {| world := world s; inflight := inflight s; ready := ready s ∪ {[n]};
     waiting := waiting s ∖ {[n]} |}.
Definition pass (req : nn) (s : loop cluster) : loop cluster :=
  let w' := (Reconcile req (world s)).2 in
  {| world := w'; inflight := inflight s ∪ mem_notifications (world s) w';
     ready := ready s ∖ {[req]};
     waiting := waiting s ∪ requeue (Reconcile req (world s)).1 req |}.

Lemma change_run w' s t : rtc loop_step (change w' s) t → rtc loop_step s t.
Proof. apply rtc_l, step_change, mem_notified. Qed.

Lemma deliver_run n s t : n ∈ inflight s → rtc loop_step (deliver n s) t → rtc loop_step s t.
Proof. intros Hn. by apply rtc_l, step_deliver. Qed.

Lemma due_run n s t : n ∈ waiting s → rtc loop_step (due n s) t → rtc loop_step s t.
Proof. intros Hn. by apply rtc_l, step_due. Qed.

Lemma pass_run req s t : req ∈ ready s → rtc loop_step (pass req s) t → rtc loop_step s t.
Proof.
  intros Hr. apply rtc_l. eapply step_pass; [done|apply surjective_pairing|]. apply mem_notified.
Qed.

(** ** The run *)

Definition ready_sts (s : StatefulSet) : StatefulSet := {|
  sts_Meta := sts_Meta s; sts_Replicas := sts_Replicas s;
  sts_MinReadySeconds := sts_MinReadySeconds s;
  sts_RetentionPolicy := sts_RetentionPolicy s; sts_Selector := sts_Selector s;
  sts_ServiceName := sts_ServiceName s;
  sts_VolumeClaimTemplates := sts_VolumeClaimTemplates s;
  sts_Template := sts_Template s; sts_ReadyReplicas := 1; sts_other := sts_other s |}.

Definition run0 : loop cluster :=
  {| world := demo_cluster; inflight := {[demo_req]}; ready := ∅; waiting := ∅ |}.
(** The first pass creates the objects. *)
Definition run1 : loop cluster := pass demo_req (deliver demo_req run0).
(** The pod becomes ready. *)
Definition run2 : loop cluster :=
  change (put_obj KStatefulSet demo_req (OStatefulSet (ready_sts after_sts)) (world run1)) run1.
(** The second pass publishes it, the third finds nothing to do, nor does the
    one that was scheduled. *)
Definition run3 : loop cluster := pass demo_req (deliver demo_req run2).
Definition run4 : loop cluster := pass demo_req (deliver demo_req run3).
Definition run5 : loop cluster := pass demo_req (due demo_req run4).

Ltac member := apply (bool_decide_unpack _); vm_compute; exact I.

Lemma run_reachable : rtc loop_step run0 run5.
Proof.
  refine (deliver_run demo_req run0 _ _ (pass_run demo_req (deliver demo_req run0) _ _
    (change_run (put_obj KStatefulSet demo_req (OStatefulSet (ready_sts after_sts)) (world run1))
      run1 _
    (deliver_run demo_req run2 _ _ (pass_run demo_req (deliver demo_req run2) _ _
    (deliver_run demo_req run3 _ _ (pass_run demo_req (deliver demo_req run3) _ _
    (due_run demo_req run4 _ _ (pass_run demo_req (due demo_req run4) _ _
    (rtc_refl loop_step run5)))))))))); member.
Qed.

Lemma run_started : started run0.
Proof.
  intros n o Ho%mem_objects_stored. apply elem_of_map_to_list in Ho.
  unfold run0, demo_cluster in Ho. simpl in Ho.
  apply lookup_insert_Some in Ho as [[[= <-] _]|[_ Ho]]; [set_solver|].
  by apply lookup_singleton_Some in Ho as [[=] _].
Qed.

Definition settled_vault : DezhanVault :=
  match objects (world run5) KVault demo_req with Some (OVault v) => v | _ => demo_vault end.


(** ** Progress, once the pod is ready *)

#[export] Instance mem_identity : KubeIdentity (W := cluster).
Proof.
  intros n b o w r w' v Hp Hb Hv. simpl in *. rewrite Hb in Hp. injection Hp as _ <-.
  rewrite mem_objects_put in Hv; [by injection Hv as <-|]. by apply mem_objects_proper in Hb.
Qed.

Definition vault2 : DezhanVault :=
  match objects (world run2) KVault demo_req with Some (OVault v) => v | _ => demo_vault end.

(** The object, if there is one, has no controller but the vault. *)
Definition controlled (v : DezhanVault) (o : option obj) : bool :=
  match o ≫= λ x, GetControllerOf (obj_meta x) with
  | Some r => bool_decide (refers_to v r)
  | None => true
  end.

Lemma controlled_ownable v o x : o = Some x → controlled v o = true → ownable v (obj_meta x).
Proof.
  intros -> Hc r Hr. unfold controlled in Hc. simpl in Hc. rewrite Hr in Hc.
  by apply bool_decide_eq_true in Hc.
Qed.

Lemma request_makes_progress_witness :
  ∃ r w', Reconcile demo_req (world run2) = (r, w') ∧
    ((∃ u, objects w' KVault demo_req = Some (OVault u) ∧ v_Spec u = v_Spec vault2 ∧
        settled u w' ∧ requeue r demo_req = ∅) ∨
     (¬ has_ready_replica demo_req w' ∧ requeue r demo_req = {[demo_req]})).
Proof.
  apply (request_makes_progress demo_req (world run2) vault2).
  - vm_compute. reflexivity.
  - vm_compute. reflexivity.
  - intros s Hs. apply (controlled_ownable _ _ _ Hs). vm_compute. reflexivity.
  - intros s Hs. apply (controlled_ownable _ _ _ Hs). vm_compute. reflexivity.
  - intros s Hs. apply (controlled_ownable _ _ _ Hs). vm_compute. reflexivity.
Defined.

(** ** The process *)

Close Scope Z_scope.
Import AsciiTables.

(** A scheme as the list of the types it knows *)
#[local] Instance list_scheme : SchemeOps := {|
  Scheme := list (string * string);
  NewScheme := [];
  clientgo_AddToScheme s := (None, s ++ [("apps/v1", "StatefulSet"); ("v1", "Service")]);
  Builder := GroupVersionOf * list string;
  NewBuilder g := (g, []);
  Register ks b := (b.1, b.2 ++ ks);
  Builder_AddToScheme b s := (None, s ++ map (λ k, (gv_String b.1, k)) b.2) |}.

#[local] Instance demo_runtime_flags : RuntimeFlags := {|
  rt_options := string * string; rt_default := ("", "info");
  config_flags := [("kubeconfig", StringFlag (λ v o, (v, o.2)))];
  zap_flags := [("zap-log-level", StringFlag (λ v o, (o.1, v)))] |}.

#[local] Instance demo_runtime_laws : RuntimeFlagLaws.
Proof. split; apply (bool_decide_unpack _); vm_compute; exact I. Qed.

Definition manifest : list setting :=
  [{| set_long := true; set_shape := Bare; set_name := "leader-elect"; set_value := "true" |};
   {| set_long := true; set_shape := WithEquals; set_name := "health-probe-bind-address";
      set_value := ":8081" |};
   {| set_long := true; set_shape := WithEquals; set_name := "metrics-bind-address";
      set_value := ":8443" |}].

Definition manifest_options : operator_options :=
  put_metricsAddr ":8443" (put_probeAddr ":8081" (put_leader true operator_defaults)).

Lemma manifest_accepted : sets_all operator_flag_set manifest operator_defaults manifest_options.
Proof.
  apply (sets_cons _ _ _ _ (put_leader true operator_defaults)).
  { split; [done|]. exists (BoolFlag put_leader). split; [vm_compute; reflexivity|]. by split. }
  apply (sets_cons _ _ _ _ (put_probeAddr ":8081" (put_leader true operator_defaults))).
  { split; [done|]. eexists. split; [vm_compute; reflexivity|]. by split. }
  apply (sets_cons _ _ _ _ manifest_options); [|apply sets_nil].
  split; [done|]. eexists. split; [vm_compute; reflexivity|]. by split.
Qed.

(** The API server cannot be reached when the manager is created. *)
Definition unreachable_server (tr : list rt_call) : option error :=
  match last tr with
  | Some (CallNewManager _) => Some (errorString "connection refused")
  | _ => None
  end.

Definition manifest_run : outcome * list rt_call :=
  operator_main (Runtime0 := TraceRuntime unreachable_server)
    ["--leader-elect"; "--health-probe-bind-address=:8081"; "--metrics-bind-address=:8443"] [].

Lemma operator_starts_in_order_witness :
  manifest_run = (exited 1, take 3 (startup (manager_of manifest))) ∧
  ∃ n, manifest_run = (exited 0, startup (manager_of manifest)) ∧ n = 9%nat ∨
       manifest_run = (exited 1, take n (startup (manager_of manifest))).
Proof.
  split; [vm_compute; reflexivity|].
  destruct (operator_starts_in_order unreachable_server manifest [] [] manifest_options
    manifest_accepted ends_nil) as (n & _ & [[Hr Hn]|[Hr _]]).
  - exists n. left. split; [exact Hr|exact Hn].
  - exists n. right. exact Hr.
Defined.
