(* ===== verification/CtlClient.v ===== *)
(** * dezhanctl: the HTTP client
    (ctl/internal/client/client.go, stat.go)

    One definition per method.  The HTTP transport (Go's client, the network and
    the server behind it) is the class [HttpClient]: it answers a request with a
    response or an error.  A response carries its status code, its headers and
    the outcome of reading its body to the end. *)

From S2P Require Import Prelude GoStrings GoText GoUrl GoFloat S3Api.
Local Open Scope Z_scope.

(** ** Requests and responses *)

Record Request := {
  rq_Method : string;
  rq_URL : URL;
  rq_Header : gmap string string;
  rq_Body : string;
}.

Record Response := {
  rs_StatusCode : Z;
  rs_Header : gmap string (list string);
  rs_Body : error + string;
}.

Class HttpClient (W : Type) := { http_Do : Request → Call W Response }.

Definition MethodGet : string := "GET".
Definition MethodPut : string := "PUT".
Definition MethodPost : string := "POST".
Definition MethodDelete : string := "DELETE".
Definition MethodHead : string := "HEAD".
Definition StatusOK : Z := 200.
Definition StatusCreated : Z := 201.
Definition StatusNotFound : Z := 404.

(** ** The client *)

Record Client := { Endpoint : string }.

(** [New]; the timeout of the transport is not modelled. *)
Definition New (endpoint : string) : Client := {| Endpoint := trim_right_byte "/" endpoint |}.

(** [http.NewRequestWithContext] for the methods above: the URL is parsed, and an
    empty port is dropped from the host. *)
Definition NewRequest `{!UnicodeTables, !AddrParser} (method url : string)
    (headers : gmap string string) (body : string) : error + Request :=
  match Parse url with
  | inl e => inl e
  | inr u => inr {|
      rq_Method := method;
      rq_URL := {| u_Scheme := u_Scheme u; u_Opaque := u_Opaque u; u_User := u_User u;
                   u_Host := TrimSuffix (u_Host u) ":"; u_Path := u_Path u;
                   u_RawPath := u_RawPath u; u_ForceQuery := u_ForceQuery u;
                   u_RawQuery := u_RawQuery u |};
      rq_Header := headers; rq_Body := body |}
  end.

(** ** Parsing metrics *)

(** [cut] *)
Definition cut (s sep : string) : string * string * bool :=
  match Index s sep with
  | Some i => (str_take i s, str_drop (i + String.length sep) s, true)
  | None => (s, "", false)
  end.

Fixpoint find_label (kvs : list string) (key : string) : string :=
  match kvs with
  | [] => ""
  | kv :: kvs' =>
      let '(k, v, ok) := cut kv "=" in
      if ok && bool_decide (TrimSpace k = key) then trim_byte quote_char (TrimSpace v)
      else find_label kvs' key
  end.
Definition labelValue (labels key : string) : string := find_label (split_byte "," labels) key.

Record Metrics := {
  Values : gmap string float64;
  MVersion : string;
  Raw : string;
}.

Definition set_version (m : Metrics) (v : string) : Metrics :=
  {| Values := Values m; MVersion := v; Raw := Raw m |}.
Definition set_value (m : Metrics) (k : string) (v : float64) : Metrics :=
  {| Values := <[k := v]> (Values m); MVersion := MVersion m; Raw := Raw m |}.

(** The body of the scan loop; indexing the fields of a blank rest would panic. *)
Definition metrics_line (m : Metrics) (text : string) : res Metrics :=
  let line := TrimSpace text in
  if bool_decide (line = "") || HasPrefix line "#" then Ok m
  else
    let '(name, rest, ok) := cut line " " in
    if negb ok then Ok m
    else
      let '(base, labels, hasLabels) := cut name "{" in
      let m1 := if (hasLabels : bool) && bool_decide (base = "dezhan_build_info")
                then set_version m (labelValue (TrimSuffix labels "}") "version") else m in
      let name1 := if (hasLabels : bool) then base else name in
      match Fields rest with
      | [] => Panic
      | f :: _ =>
          match ParseFloat f with
          | Some v => Ok (set_value m1 name1 v)
          | None => Ok m1
          end
      end.

(** The metrics read, and the scanner's error. *)
Definition parse_metrics (body : string) : res (Metrics * option error) :=
  scan_lines metrics_line (raw_lines body) {| Values := ∅; MVersion := ""; Raw := body |}.

(** [Metrics.Get] *)
Definition metric (m : Metrics) (name : string) : float64 := default fzero (Values m !! name).

(** ** Headers of an object *)

Definition interesting (lk : string) : bool :=
  bool_decide (lk ∈ ["content-length"; "content-type"; "etag"; "last-modified"]) ||
  HasPrefix lk "x-dezhan-" || HasPrefix lk "x-amz-meta-" || HasPrefix lk "x-amz-version-id".

(** [InterestingHeaders], the map visited in the order of [l]: two keys with the
    same lower case keep the one visited last. *)
Definition interesting_headers `{!UnicodeTables} (l : list (string * list string))
    : gmap string string :=
  foldl (λ out kv,
    let lk := ToLower kv.1 in
    if interesting lk then <[lk := String.concat ", " kv.2]> out else out) ∅ l.

Section client.
Context {W : Type} `{!UnicodeTables, !AddrParser, !HttpClient W}.

Definition do (c : Client) (method path : string) (headers : gmap string string)
    (body : string) : Go W Response :=
  match NewRequest method (Endpoint c +:+ path) headers body with
  | inl e => fail e
  | inr req => lift (http_Do req)
  end.

Definition text (c : Client) (method path : string) (headers : gmap string string)
    (body : string) : Go W (string * Z) :=
  resp ← do c method path headers body;
  match rs_Body resp with
  | inl e => fail e
  | inr b => mret (b, rs_StatusCode resp)
  end.

Definition http_error (what : string) (code : Z) : error :=
  errorString (what +:+ ": HTTP " +:+ Itoa code).
Definition http_error_body (what : string) (code : Z) (body : string) : error :=
  errorString (what +:+ ": HTTP " +:+ Itoa code +:+ ": " +:+ TrimSpace body).

Definition Health (c : Client) : Go W string :=
  r ← text c MethodGet "/healthz" ∅ "";
  if decide (r.2 ≠ StatusOK) then fail (http_error "healthz" r.2) else mret (TrimSpace r.1).

Definition Version (c : Client) : Go W string :=
  r ← text c MethodGet "/version" ∅ "";
  if decide (r.2 ≠ StatusOK) then fail (http_error "version" r.2) else mret (TrimSpace r.1).

(** The names in the body of a listing. *)
Definition list_names (body : string) : list string :=
  sort_Strings (filter (λ s, s ≠ "") (TrimSpace <$> split_byte newline body)).

Definition List (c : Client) : Go W (list string) :=
  r ← text c MethodGet "/v" ∅ "";
  if decide (r.2 ≠ StatusOK) then fail (http_error "list" r.2) else mret (list_names r.1).

Definition Get (c : Client) (name : string) : Go W string :=
  resp ← do c MethodGet ("/v/" +:+ name) ∅ "";
  match rs_Body resp with
  | inl e => fail e
  | inr b =>
      if decide (rs_StatusCode resp ≠ StatusOK)
      then fail (http_error_body ("get " +:+ name) (rs_StatusCode resp) b)
      else mret b
  end.

Definition Put (c : Client) (name data mode : string) (retainSecs : Z) : Go W string :=
  let h := <["X-Dezhan-Mode" := mode]> (<["X-Dezhan-Retain" := Itoa retainSecs]>
             (<["Content-Type" := "application/octet-stream"]> ∅)) in
  r ← text c MethodPut ("/v/" +:+ name) h data;
  if decide (r.2 ≠ StatusOK ∧ r.2 ≠ StatusCreated)
  then fail (http_error_body ("put " +:+ name) r.2 r.1)
  else mret (TrimSpace r.1).

Definition delete_headers (bypass : bool) : gmap string string :=
  if bypass then <["X-Dezhan-Bypass" := "1"]> ∅ else ∅.

Definition Delete (c : Client) (name : string) (bypass : bool) : Go W string :=
  r ← text c MethodDelete ("/v/" +:+ name) (delete_headers bypass) "";
  if decide (r.2 ≠ StatusOK) then fail (http_error_body ("delete " +:+ name) r.2 r.1)
  else mret (TrimSpace r.1).

Definition Admin (c : Client) (action token : string) : Go W string :=
  let h := if decide (token = "") then ∅ else <["X-Dezhan-Admin-Token" := token]> ∅ in
  r ← text c MethodPost ("/admin/" +:+ action) h "";
  if decide (r.2 ≠ StatusOK) then fail (http_error_body ("admin " +:+ action) r.2 r.1)
  else mret (TrimSpace r.1).

(** [Client.Metrics] returns what it parsed together with the scanner's error. *)
Definition FetchMetrics (c : Client) : Go W (Metrics * option error) :=
  r ← text c MethodGet "/metrics" ∅ "";
  if decide (r.2 ≠ StatusOK) then fail (http_error "metrics" r.2)
  else λ w, (parse_metrics r.1, w).

(** Headers, status and error; without a response there are none. *)
Definition Stat (c : Client) (name : string) : Go W (gmap string (list string) * Z * option error) :=
  r ← attempt (do c MethodHead ("/v/" +:+ name) ∅ "");
  match r with
  | inl e => mret (∅, 0, Some e)
  | inr resp =>
      let code := rs_StatusCode resp in
      mret (rs_Header resp, code,
        if decide (code = StatusNotFound) then Some (errorString ("stat " +:+ name +:+ ": not found"))
        else if decide (code ≠ StatusOK) then Some (http_error ("stat " +:+ name) code)
        else None)
  end.
End client.
