(* ===== verification/CtlSpec.v ===== *)
(** * Correctness of the dezhanctl client

    Parsing the metrics is total, listings are sorted and complete, object
    requests reach the object they name when the name needs no escaping, and
    headers are selected by their lower-case names. *)

From S2P Require Import Prelude GoStrings GoText GoUrl GoFloat S3Api CtlClient.
Local Open Scope Z_scope.

(** ** Metrics *)

Lemma cut_found s sep b a : cut s sep = (b, a, true) → s = b +:+ sep +:+ a.
Proof.
  unfold cut. destruct (Index s sep) as [i|] eqn:Hi; [|done]. intros [= <- <-].
  by apply Index_Some.
Qed.

Lemma metrics_line_total m text : ∃ m', metrics_line m text = Ok m' ∧ Raw m' = Raw m.
Proof.
  unfold metrics_line. destruct (_ || _); [by eauto|].
  destruct (cut (TrimSpace text) " ") as [[name rest] ok] eqn:Hc.
  destruct ok; [|by eauto]. apply cut_found in Hc. apply TrimSpace_fields in Hc.
  simpl. destruct (cut name "{") as [[base labels] has]. destruct (Fields rest) as [|f fs]; [done|].
  destruct (has && _); destruct (ParseFloat f); by eauto.
Qed.

Lemma scan_metrics_total ls m : ∃ m' e, scan_lines metrics_line ls m = Ok (m', e) ∧
  Raw m' = Raw m ∧
  (e = None ↔ Forall (λ l, String.length l ≤ max_line)%nat ls).
Proof.
  revert m; induction ls as [|l ls IH]; intros m; cbn [scan_lines].
  { exists m, None. by rewrite Forall_nil. }
  destruct (Nat.ltb_spec max_line (String.length l)) as [Hlt|Hle].
  - exists m, (Some ErrTooLong). split; [done|]. split; [done|]. split; [done|].
    intros Hf. apply Forall_cons in Hf as [Hf _]. lia.
  - destruct (metrics_line_total m (dropCR l)) as (m1 & -> & Hraw).
    destruct (IH m1) as (m2 & e & -> & Hraw2 & He). exists m2, e.
    split; [done|]. split; [congruence|]. rewrite Forall_cons, He. tauto.
Qed.

(** Parsing never panics: for every body a server may send, the parser
    returns (no blank remainder of a line is ever indexed), keeps the raw text,
    and reports an error exactly when a line exceeds the scanner's 64 KiB
    buffer. *)
Theorem metrics_total body :
  ∃ m e, parse_metrics body = Ok (m, e) ∧ Raw m = body ∧
    (e = None ↔ Forall (λ l, String.length l ≤ max_line)%nat (raw_lines body)).
Proof. apply scan_metrics_total. Qed.

(** ** Listings *)

Lemma list_names_perm body :
  list_names body ≡ₚ filter (λ s, s ≠ "") (TrimSpace <$> split_byte newline body).
Proof. apply sort_Strings_perm. Qed.

(** The text of a listing: one name per line. *)
Fixpoint listing (names : list string) : string :=
  match names with
  | [] => ""
  | n :: ns => n +:+ String newline (listing ns)
  end.

Definition name_ok (n : string) : Prop := n ≠ "" ∧ string_forallb printable n = true.

Lemma printable_no_newline n : string_forallb printable n = true →
  string_forallb (λ a, bool_decide (a ≠ newline)) n = true.
Proof.
  apply string_forallb_impl. intros c Hc. apply bool_decide_eq_true. by intros ->.
Qed.

(** A name as a line of a listing holds it. *)
Definition line_ok (n : string) : Prop :=
  n ≠ "" ∧ string_forallb (λ a, bool_decide (a ≠ newline)) n = true ∧ TrimSpace n = n.

Lemma name_line n : name_ok n → line_ok n.
Proof.
  intros [Hne Hn]. split; [done|]. split; [by apply printable_no_newline|by apply TrimSpace_printable].
Qed.

Lemma split_lines ns : Forall line_ok ns → split_byte newline (listing ns) = ns ++ [""].
Proof.
  induction 1 as [|n ns (_ & Hn & _) _ IH]; [done|]. cbn [listing].
  by rewrite split_byte_app, IH.
Qed.

Lemma trim_lines ns : Forall line_ok ns →
  filter (λ s, s ≠ "") (TrimSpace <$> (ns ++ [""])) = ns.
Proof.
  induction 1 as [|n ns (Hne & _ & Hn) _ IH]; [done|]. csimpl. rewrite Hn.
  rewrite filter_cons_True by done. by rewrite IH.
Qed.

Lemma list_names_listing ns : Forall line_ok ns → StronglySorted String.le ns →
  list_names (listing ns) = ns.
Proof.
  intros Hns Hs. unfold list_names. rewrite split_lines, trim_lines by done.
  apply (StronglySorted_unique String.le); [apply sort_Strings_sorted|done|apply sort_Strings_perm].
Qed.

Lemma list_names_lines body : Forall line_ok (list_names body).
Proof.
  apply Forall_forall. intros n Hn. rewrite list_names_perm, list_elem_of_filter in Hn.
  destruct Hn as [Hne (line & -> & Hl)%list_elem_of_fmap]. split; [done|]. split.
  - by apply TrimSpace_forallb, (split_byte_forallb _ body).
  - apply TrimSpace_idem.
Qed.

(** A listing is returned sorted by bytes; it holds, as often as they occur,
    the lines of the body that are not blank, without surrounding white space;
    names written one per line come back as they were. *)
Theorem list_names_correct body :
  StronglySorted String.le (list_names body) ∧
  (∀ n, n ∈ list_names body ↔
     n ≠ "" ∧ ∃ line, line ∈ split_byte newline body ∧ n = TrimSpace line) ∧
  (∀ n, n ∈ list_names body → TrimSpace n = n) ∧
  (∀ ns, Forall name_ok ns → body = listing ns →
     list_names body ≡ₚ ns ∧ (StronglySorted String.le ns → list_names body = ns)).
Proof.
  assert (∀ n, n ∈ list_names body ↔
    n ≠ "" ∧ ∃ line, line ∈ split_byte newline body ∧ n = TrimSpace line) as Hin.
  { intros n. rewrite list_names_perm, list_elem_of_filter, list_elem_of_fmap. naive_solver. }
  split; [apply sort_Strings_sorted|]. split; [done|]. split.
  - intros n (_ & line & _ & ->)%Hin. apply TrimSpace_idem.
  - intros ns Hns ->. assert (list_names (listing ns) ≡ₚ ns) as Hp.
    { by rewrite list_names_perm, split_lines, trim_lines by by eapply Forall_impl, name_line. }
    split; [done|]. intros Hs. by apply (StronglySorted_unique String.le); [apply sort_Strings_sorted|..].
Qed.

(** ** Headers *)

Section headers.
Context `{!UnicodeTables}.

Lemma interesting_fold l (acc : gmap string string) lk v :
  NoDup (ToLower ∘ fst <$> l) → (∀ k, k ∈ l → acc !! ToLower k.1 = None) →
  foldl (λ out kv, let lk := ToLower kv.1 in
    if interesting lk then <[lk := String.concat ", " kv.2]> out else out) acc l !! lk = Some v ↔
  acc !! lk = Some v ∨
  ∃ k vs, (k, vs) ∈ l ∧ ToLower k = lk ∧ interesting lk = true ∧ v = String.concat ", " vs.
Proof.
  revert acc; induction l as [|[k vs] l IH]; intros acc Hnd Hacc; simpl.
  { split; [by left|]. intros [?|(? & ? & Hn & _)]; [done|]. by apply elem_of_nil in Hn. }
  apply NoDup_cons in Hnd as [Hk Hnd].
  assert (∀ kv, kv ∈ l → ToLower kv.1 ≠ ToLower k) as Hne.
  { intros kv Hkv Heq. apply Hk, list_elem_of_fmap. by exists kv. }
  pose proof (Hacc (k, vs) ltac:(left)) as Hk0. simpl in Hk0.
  rewrite IH; [|done|].
  - destruct (interesting (ToLower k)) eqn:Hi.
    + rewrite lookup_insert_Some. setoid_rewrite elem_of_cons. naive_solver congruence.
    + setoid_rewrite elem_of_cons. naive_solver congruence.
  - intros kv Hkv. specialize (Hacc kv ltac:(by right)). simpl.
    destruct (interesting (ToLower k)); [|exact Hacc].
    rewrite lookup_insert_ne; [exact Hacc|]. intros Heq. by eapply Hne.
Qed.

(** The headers shown for an object are exactly those whose lower-case name
    is one of the four standard ones or carries one of the vault's prefixes, with
    all their values, in whatever order the header map is visited (names that
    differ in case only aside, which HTTP does not have). *)
Theorem interesting_headers_correct l lk v : NoDup (ToLower ∘ fst <$> l) →
  interesting_headers l !! lk = Some v ↔
  ∃ k vs, (k, vs) ∈ l ∧ ToLower k = lk ∧ interesting lk = true ∧ v = String.concat ", " vs.
Proof.
  intros Hnd. unfold interesting_headers. rewrite interesting_fold; [|done|].
  - rewrite lookup_empty. naive_solver.
  - intros k _. apply lookup_empty.
Qed.
End headers.

(** ** Object requests *)

(** [k] slashes *)
Fixpoint slashes (k : nat) : string :=
  match k with O => "" | S k' => String "/" (slashes k') end.

Lemma trim_right_slashes k : trim_right_byte "/" (slashes k) = "".
Proof. induction k as [|k IH]; [done|]. simpl. by rewrite IH. Qed.

Lemma trim_right_base s a k : a ≠ "/"%char →
  trim_right_byte "/" ((s +:+ String a "") +:+ slashes k) = s +:+ String a "".
Proof.
  intros Ha. induction s as [|b s IH].
  - rewrite str_app_nil_l, str_app_cons, str_app_nil_l. cbn [trim_right_byte].
    rewrite trim_right_slashes. by rewrite decide_False by naive_solver.
  - rewrite !str_app_cons. cbn [trim_right_byte]. rewrite IH.
    rewrite decide_False; [done|]. intros [He _]. by destruct s.
Qed.

Section requests.
Context `{!UnicodeTables, !AddrParser}.

(** A server address: scheme, host and port. *)
Definition address (scheme h : string) : Prop :=
  string_forallb (in_range 97 122) scheme = true ∧ scheme ≠ "" ∧ plain_host h ∧ h ≠ "".

Lemma New_endpoint scheme h k : address scheme h →
  Endpoint (New (scheme +:+ "://" +:+ h +:+ slashes k)) = scheme +:+ "://" +:+ h.
Proof.
  intros (_ & _ & Hh & Hne). destruct (str_snoc h Hne) as (t & a & ->).
  apply plain_host_chars in Hh. rewrite string_forallb_app in Hh.
  apply andb_true_iff in Hh as [_ Ha]. unfold New. simpl Endpoint.
  rewrite !str_app_assoc. apply trim_right_base. intros ->. by vm_compute in Ha.
Qed.

Definition object_request (scheme h method name : string) (hdr : gmap string string)
    (body : string) : Request := {|
  rq_Method := method; rq_URL := plain_url scheme (TrimSuffix h ":") ("/v/" +:+ name);
  rq_Header := hdr; rq_Body := body |}.

Lemma object_path name : string_forallb path_char name = true → plain_path ("/v/" +:+ name).
Proof. intros Hn. split; [by rewrite string_forallb_app, Hn|by right]. Qed.

Lemma NewRequest_object scheme h method name hdr body :
  address scheme h → string_forallb path_char name = true →
  NewRequest method ((scheme +:+ "://" +:+ h) +:+ "/v/" +:+ name) hdr body =
  inr (object_request scheme h method name hdr body).
Proof.
  intros (Hs & Hne & Hh & _) Hn. unfold NewRequest. rewrite <- !str_app_assoc.
  rewrite (Parse_plain scheme h ("/v/" +:+ name)) by auto using object_path. done.
Qed.

(** For a client built for [scheme://host[:port]] with any number of
    trailing slashes and an object name that needs no escaping, the request an
    operation sends goes to that host and its target is [/v/<name>]. *)
Theorem object_request_target scheme h k method name hdr body :
  address scheme h → string_forallb path_char name = true →
  ∃ req, NewRequest method
      (Endpoint (New (scheme +:+ "://" +:+ h +:+ slashes k)) +:+ "/v/" +:+ name) hdr body = inr req ∧
    rq_Method req = method ∧ RequestURI (rq_URL req) = "/v/" +:+ name ∧
    u_Host (rq_URL req) = TrimSuffix h ":" ∧ rq_Header req = hdr ∧ rq_Body req = body.
Proof.
  intros Ha Hn. rewrite New_endpoint, NewRequest_object by done.
  eexists. split; [done|]. split; [done|]. split; [|done]. simpl.
  apply RequestURI_plain; [by rewrite string_forallb_app, Hn|done|done].
Qed.

(** A name with a hash sign asks for the object before it. *)
Lemma NewRequest_fragment scheme h method name frag hdr body :
  address scheme h → string_forallb path_char name = true →
  is_Some (match unescape encodeFragment frag with inr f => Some f | inl _ => None end) →
  NewRequest method ((scheme +:+ "://" +:+ h) +:+ "/v/" +:+ (name +:+ "#" +:+ frag)) hdr body =
  inr (object_request scheme h method name hdr body).
Proof.
  intros (Hs & Hne & Hh & _) Hn Hf. unfold NewRequest.
  replace ((scheme +:+ "://" +:+ h) +:+ "/v/" +:+ (name +:+ "#" +:+ frag))
    with ((scheme +:+ "://" +:+ h +:+ ("/v/" +:+ name)) +:+ "#" +:+ frag)
    by by rewrite !str_app_assoc.
  rewrite (Parse_fragment _ _ (plain_url scheme h ("/v/" +:+ name))).
  - done.
  - eapply string_forallb_impl; [|by apply plain_text; auto using object_path].
    intros c Hc. apply path_char_not; [done|by vm_compute].
  - done.
  - by apply Parse_plain; auto using object_path.
Qed.

Context {W : Type} `{!HttpClient W}.

(** Names are put into the URL unescaped: deleting, reading or overwriting
    an object whose name holds a hash sign sends the request for the object
    named by the part before it, with the same effect on the server. *)
Theorem hash_names_alias scheme h name frag data mode secs bypass w :
  address scheme h → string_forallb path_char name = true →
  is_Some (match unescape encodeFragment frag with inr f => Some f | inl _ => None end) →
  let c := {| Endpoint := scheme +:+ "://" +:+ h |} in
  let alias := name +:+ "#" +:+ frag in
  (Delete c alias bypass w).2 = (Delete c name bypass w).2 ∧
  (is_Ok (Delete c alias bypass w).1 = is_Ok (Delete c name bypass w).1) ∧
  (Put c alias data mode secs w).2 = (Put c name data mode secs w).2 ∧
  (is_Ok (Get c alias w).1 → (Get c alias w).1 = (Get c name w).1).
Proof.
  intros Ha Hn Hf c alias.
  assert (∀ method hdr body, do c method ("/v/" +:+ alias) hdr body =
    do (W := W) c method ("/v/" +:+ name) hdr body) as Hdo.
  { intros method hdr body. unfold do, c, alias. simpl Endpoint.
    by rewrite NewRequest_fragment, NewRequest_object. }
  unfold Delete, Put, Get, text. rewrite !Hdo. split; [|split; [|split]].
  - unfold mbind, go_bind. destruct (do c _ _ _ _ w) as [[resp|e| |] w1]; try done.
    destruct (rs_Body resp) as [e|b]; [done|]. simpl. by case_decide.
  - unfold mbind, go_bind. destruct (do c _ _ _ _ w) as [[resp|e| |] w1]; try done.
    destruct (rs_Body resp) as [e|b]; [done|]. simpl. by case_decide.
  - unfold mbind, go_bind. destruct (do c _ _ _ _ w) as [[resp|e| |] w1]; try done.
    destruct (rs_Body resp) as [e|b]; [done|]. simpl. by case_decide.
  - unfold mbind, go_bind. destruct (do c _ _ _ _ w) as [[resp|e| |] w1]; try done.
    destruct (rs_Body resp) as [e|b]; [done|]. by case_decide.
Qed.

(** What a successful round trip delivered. *)
Definition delivered (c : Client) (method path : string) (hdr : gmap string string)
    (body : string) (w : W) (code : Z) (answer : string) (w' : W) : Prop :=
  ∃ req resp, NewRequest method (Endpoint c +:+ path) hdr body = inr req ∧
    http_Do req w = (inr resp, w') ∧ rs_StatusCode resp = code ∧ rs_Body resp = inr answer.

Lemma text_Ok c method path hdr body w a code w' :
  text c method path hdr body w = (Ok (a, code), w') ↔
  delivered c method path hdr body w code a w'.
Proof.
  unfold text, delivered. rewrite bind_Ok. split.
  - intros (resp & w1 & Hd & Hb). unfold do in Hd.
    destruct (NewRequest _ _ _ _) as [e|req]; [done|]. apply lift_Ok in Hd.
    destruct (rs_Body resp) as [e|b] eqn:Hbody; [done|]. injection Hb as <- <- <-. eauto 8.
  - intros (req & resp & Hreq & Hdo & <- & Hbody). exists resp, w'. unfold do. rewrite Hreq.
    split; [by apply lift_Ok|]. by rewrite Hbody.
Qed.

(** An object operation succeeds exactly when the server answered with the
    status for success (200; 201 as well for a store) and its body was read to
    the end: [Get] returns that body byte for byte, [Put] sends the data under
    the retention mode and window given, [Delete] asks for a bypass only when
    told to. *)
Theorem object_operations c name data mode secs bypass w a w' :
  (Get c name w = (Ok a, w') ↔ delivered c "GET" ("/v/" +:+ name) ∅ "" w 200 a w') ∧
  (Put c name data mode secs w = (Ok a, w') ↔
     ∃ code b, (code = 200 ∨ code = 201) ∧ a = TrimSpace b ∧
       delivered c "PUT" ("/v/" +:+ name)
         (<["X-Dezhan-Mode" := mode]> (<["X-Dezhan-Retain" := Itoa secs]>
            (<["Content-Type" := "application/octet-stream"]> ∅))) data w code b w') ∧
  (Delete c name bypass w = (Ok a, w') ↔
     ∃ b, a = TrimSpace b ∧
       delivered c "DELETE" ("/v/" +:+ name)
         (if bypass then {[ "X-Dezhan-Bypass" := "1" ]} else ∅) "" w 200 b w').
Proof.
  split; [|split].
  - rewrite <- text_Ok. unfold Get, text, StatusOK. rewrite !bind_Ok. split.
    + intros (resp & w1 & Hd & Hb). destruct (rs_Body resp) as [e|b] eqn:E; [done|].
      case_decide as Hc; [done|]. exists resp, w1. rewrite E. split; [done|].
      injection Hb as <- <-. by rewrite Hc.
    + intros (resp & w1 & Hd & Hb). destruct (rs_Body resp) as [e|b] eqn:E; [done|].
      injection Hb as <- Hcode <-. exists resp, w1. rewrite E, decide_False by tauto. done.
  - unfold Put. rewrite bind_Ok. split.
    + intros ([b code] & w1 & Ht & Hb). simpl in Hb. case_decide as Hc; [done|].
      injection Hb as <- <-. exists code, b. apply text_Ok in Ht. split; [|done].
      unfold StatusOK, StatusCreated in Hc. lia.
    + intros (code & b & Hc & -> & Hd). exists (b, code), w'. apply text_Ok in Hd.
      split; [done|]. simpl. rewrite decide_False; [done|]. unfold StatusOK, StatusCreated. lia.
  - unfold Delete. rewrite bind_Ok. split.
    + intros ([b code] & w1 & Ht & Hb). simpl in Hb. case_decide as Hc; [done|].
      injection Hb as <- <-. exists b. apply text_Ok in Ht. split; [done|].
      rewrite Hc in Ht. by destruct bypass.
    + intros (b & -> & Hd). exists (b, 200), w'. split; [apply text_Ok; by destruct bypass|done].
Qed.
End requests.
