(* ===== verification/Interop.v ===== *)
(** * Where the Go programs meet the server
    (server/src/dezhan_server.adb, vault/src/dezhan-vault.adb)

    The text the Ada server produces for [/metrics] and [/v], and what the Go
    clients make of it; what the server makes of the headers and copy sources
    they send.  Ada strings are byte strings; ['Image] of a natural number starts
    with a blank. *)

From S2P Require Import Prelude GoStrings GoText ServerText GoUrl GoFloat S3Api CtlClient CtlSpec.
Local Open Scope Z_scope.

(** ** The metrics page *)

Definition Version_Number : string := "1.3.0".

(** The state the metrics page shows. *)
Record vault_state := {
  Object_Count : Z; Quarantined_Count : Z; Audit_Length : Z; Sealed : bool; Now : Z;
  Scrub_Runs : Z; Scrub_Corrupt : Z; Shards_Repaired : Z; Dir_Bytes : Z; Denied_Deletes : Z;
  One_Way_Ingest : bool; Sync_Window_Open : bool;
}.

(** ['Image] of a natural number *)
Definition Image (n : Z) : string := " " +:+ Itoa n.
Definition flag (b : bool) : Z := if b then 1 else 0.

(** Name, help text, type and value of each metric, in the order of the page. *)
Definition server_metrics (v : vault_state) : list (string * string * string * Z) := [
  ("dezhan_objects", "Stored object count", "gauge", Object_Count v);
  ("dezhan_quarantined", "Objects quarantined (unrepairable)", "gauge", Quarantined_Count v);
  ("dezhan_audit_entries", "Audit chain length", "counter", Audit_Length v);
  ("dezhan_sealed", "Vault sealed (clock anomaly)", "gauge", flag (Sealed v));
  ("dezhan_trusted_time", "Trusted monotonic time", "counter", Now v);
  ("dezhan_scrub_runs", "Background scrub passes", "counter", Scrub_Runs v);
  ("dezhan_scrub_corrupt", "Objects found corrupt in last scrub", "gauge", Scrub_Corrupt v);
  ("dezhan_scrub_shards_repaired", "Shards rebuilt in last scrub", "gauge", Shards_Repaired v);
  ("dezhan_storage_bytes", "Bytes stored on disk under the vault root", "gauge", Dir_Bytes v);
  ("dezhan_retention_denied_total", "Deletes refused by retention/WORM", "counter",
     Denied_Deletes v);
  ("dezhan_ingest_only", "One-way ingest mode (reads blocked)", "gauge", flag (One_Way_Ingest v));
  ("dezhan_sync_window_open", "Sync window currently open", "gauge", flag (Sync_Window_Open v))].

Definition build_info_lines : list string := [
  "# HELP dezhan_build_info Build/version info (value is always 1)";
  "# TYPE dezhan_build_info gauge";
  "dezhan_build_info{version=" +:+ String quote_char (Version_Number +:+ String quote_char "} 1")].

Definition metric_lines (x : string * string * string * Z) : list string :=
  let '(name, help, typ, n) := x in
  ["# HELP " +:+ name +:+ " " +:+ help; "# TYPE " +:+ name +:+ " " +:+ typ; name +:+ Image n].

Definition page_lines (v : vault_state) : list string :=
  build_info_lines ++ concat (metric_lines <$> server_metrics v).

Fixpoint crlf_text (ls : list string) : string :=
  match ls with
  | [] => ""
  | l :: ls' => l +:+ crlf +:+ crlf_text ls'
  end.

(** The body of [GET /metrics]. *)
Definition metrics_page (v : vault_state) : string := crlf_text (page_lines v).

(** ** Lemmas *)

Lemma Itoa_length n k : 0 <= n < 10 ^ Z.of_nat k → (0 < k)%nat → (String.length (Itoa n) ≤ k)%nat.
Proof.
  intros Hn Hk. destruct n as [|p|p]; [simpl; lia| |lia].
  change (Itoa (Zpos p)) with (pretty_N_go (N.pos p) "").
  assert (∀ k x s, Z.of_N x < 10 ^ Z.of_nat k →
    (String.length (pretty_N_go x s) ≤ k + String.length s)%nat) as Hlen.
  { clear. intros k; induction k as [|k IH]; intros x s Hx.
    - simpl in Hx. replace x with 0%N by lia. by rewrite pretty_N_go_0.
    - destruct (decide (x = 0)%N) as [->|Hne]; [rewrite pretty_N_go_0; lia|].
      rewrite pretty_N_go_step by lia. rewrite Nat2Z.inj_succ, Z.pow_succ_r in Hx by lia.
      etrans; [apply IH|simpl; lia]. rewrite N2Z.inj_div. apply Z.div_lt_upper_bound; lia. }
  rewrite (Hlen k) by (simpl; lia). simpl. lia.
Qed.

Lemma digits_printable s : string_forallb digit s = true → string_forallb printable s = true.
Proof.
  apply string_forallb_impl. intros c Hc%in_range_spec. apply in_range_spec. lia.
Qed.

(** Text between printable bytes is not trimmed. *)
Lemma TrimSpace_ends a s b : printable a = true → printable b = true →
  TrimSpace (String a (s +:+ String b "")) = String a (s +:+ String b "").
Proof.
  intros Ha Hb. apply TrimSpace_id; right.
  - rewrite decode_printable by done. by apply printable_not_space.
  - rewrite <- str_app_cons, decode_last_printable by done. by apply printable_not_space.
Qed.

Definition metric_name (name : string) : Prop :=
  ∃ a s, name = String a s ∧ a ≠ "#"%char ∧ string_forallb printable name = true ∧
    string_forallb (λ c, bool_decide (c ≠ "{"%char)) name = true.

Lemma cut_app s c t : string_forallb (λ a, bool_decide (a ≠ c)) s = true →
  cut (s +:+ String c t) (String c "") = (s, t, true).
Proof.
  intros Hs. unfold cut. rewrite Index_byte_app by done.
  pose proof (str_take_app s (String c t) 0) as Ht. rewrite Nat.add_0_r in Ht.
  rewrite Ht. cbn [str_take]. rewrite str_app_nil_r, str_drop_app_ge by lia.
  by replace (_ - _)%nat with 1%nat by (simpl; lia).
Qed.

Lemma printable_no_space s : string_forallb printable s = true →
  string_forallb (λ a, bool_decide (a ≠ " "%char)) s = true.
Proof.
  apply string_forallb_impl. intros c Hc. apply bool_decide_eq_true. by intros ->.
Qed.

(** A line of the page is read back. *)
Lemma metric_line_read m name n : metric_name name → 0 <= n < 2 ^ 53 →
  metrics_line m (name +:+ Image n) = Ok (set_value m name (float_of_Z n)).
Proof.
  intros (a & s & -> & Hhash & Hp & Hbr) Hn.
  destruct (Itoa_digits n) as [Hd Hne]; [lia|]. pose proof (digits_printable _ Hd) as Hdp.
  destruct (str_snoc _ Hne) as (t & b & Ht).
  assert (TrimSpace (String a s +:+ Image n) = String a s +:+ Image n) as Htrim.
  { unfold Image. rewrite Ht, str_app_cons, !str_app_assoc.
    apply TrimSpace_ends; [by simpl in Hp; apply andb_true_iff in Hp as [-> _]|].
    rewrite Ht, string_forallb_app in Hdp. apply andb_true_iff in Hdp as [_ Hb].
    simpl in Hb. by rewrite andb_true_r in Hb. }
  unfold metrics_line. rewrite Htrim. rewrite str_app_cons, HasPrefix_byte.
  rewrite !bool_decide_eq_false_2 by done. simpl orb. cbv iota. rewrite <- str_app_cons.
  unfold Image. change (" " +:+ Itoa n) with (String " " (Itoa n)).
  rewrite (cut_app (String a s) " ") by by apply printable_no_space. simpl negb. cbv iota.
  unfold cut at 1. rewrite (proj2 (Index_byte_None (String a s) "{")) by done. simpl andb. cbv iota.
  rewrite Fields_printable by done. by rewrite ParseFloat_Itoa.
Qed.

(** ** The page is read back *)

Lemma TrimSuffix_app s t : TrimSuffix (s +:+ t) t = s.
Proof.
  unfold TrimSuffix, HasSuffix. rewrite str_app_length.
  replace (String.length s + String.length t - String.length t)%nat with (String.length s) by lia.
  rewrite str_drop_app, !bool_decide_eq_true_2 by (done || lia). simpl.
  pose proof (str_take_app s t 0) as Ht. rewrite Nat.add_0_r in Ht. rewrite Ht. simpl.
  apply str_app_nil_r.
Qed.

Definition with_cr (l : string) : string := l +:+ String carriage "".
Definition no_newline (l : string) : bool := string_forallb (λ a, bool_decide (a ≠ newline)) l.

Lemma raw_lines_crlf ls : Forall (λ l, no_newline l = true) ls →
  raw_lines (crlf_text ls) = with_cr <$> ls.
Proof.
  intros Hls. unfold raw_lines.
  assert (split_byte newline (crlf_text ls) = (with_cr <$> ls) ++ [""]) as ->.
  { induction Hls as [|l ls Hl _ IH]; [done|]. cbn [crlf_text]. unfold crlf.
    rewrite str_app_cons, str_app_cons, str_app_nil_l.
    change (String carriage (String newline (crlf_text ls)))
      with (String carriage "" +:+ String newline (crlf_text ls)).
    rewrite str_app_assoc, split_byte_app, IH; [done|].
    unfold no_newline in Hl. by rewrite string_forallb_app, Hl. }
  by rewrite last_snoc, removelast_last.
Qed.

Lemma scan_step {A} (f : A → string → res A) l ls a a' :
  (String.length l < max_line)%nat → f a l = Ok a' →
  scan_lines f (with_cr l :: ls) a = scan_lines f ls a'.
Proof.
  intros Hlen Hf. cbn [scan_lines]. unfold with_cr at 1. rewrite str_app_length.
  rewrite (proj2 (Nat.ltb_ge _ _)) by (simpl; lia). unfold dropCR, with_cr.
  by rewrite TrimSuffix_app, Hf.
Qed.

Definition help_line (x : string * string * string * Z) : string :=
  let '(name, help, _, _) := x in "# HELP " +:+ name +:+ " " +:+ help.
Definition type_line (x : string * string * string * Z) : string :=
  let '(name, _, typ, _) := x in "# TYPE " +:+ name +:+ " " +:+ typ.
Definition x_name (x : string * string * string * Z) : string := x.1.1.1.

(** A metric whose lines the parser understands. *)
Definition readable (x : string * string * string * Z) : Prop :=
  metric_name (x_name x) ∧ 0 <= x.2 < 2 ^ 53 ∧
  (String.length (x_name x) < 100)%nat ∧ no_newline (x_name x) = true ∧
  (∀ l, l ∈ [help_line x; type_line x] →
     (String.length l < 200)%nat ∧ no_newline l = true ∧ ∀ m, metrics_line m l = Ok m).

Definition add_metric (m : Metrics) (x : string * string * string * Z) : Metrics :=
  set_value m (x_name x) (float_of_Z x.2).

Lemma metric_lines_eq x :
  metric_lines x = [help_line x; type_line x; x_name x +:+ Image x.2].
Proof. by destruct x as [[[name help] typ] n]. Qed.

Lemma value_line_length x : readable x → (String.length (x_name x +:+ Image x.2) < 200)%nat.
Proof.
  intros (_ & Hn & Hl & _). rewrite str_app_length. unfold Image. rewrite str_app_length.
  pose proof (Itoa_length x.2 16) as Hi. change (2 ^ 53) with 9007199254740992 in Hn.
  change (10 ^ Z.of_nat 16) with 10000000000000000 in Hi. specialize (Hi ltac:(lia) ltac:(lia)).
  simpl. lia.
Qed.

Lemma max_line_big : (200 < max_line)%nat.
Proof. unfold max_line. lia. Qed.

Lemma scan_metric_lines l m : Forall readable l →
  scan_lines metrics_line (with_cr <$> concat (metric_lines <$> l)) m =
  Ok (foldl add_metric m l, None).
Proof.
  intros Hl. revert m. induction Hl as [|x l Hx Hl IH]; intros m; [done|].
  csimpl. rewrite metric_lines_eq. cbn [app]. rewrite !fmap_cons.
  pose proof (value_line_length x Hx) as Hlen. pose proof max_line_big as Hmax.
  destruct Hx as (Hname & Hn & _ & _ & Hc).
  destruct (Hc (help_line x)) as (Hh & _ & Hhelp); [by left|].
  destruct (Hc (type_line x)) as (Ht & _ & Htype); [by right; left|].
  rewrite (scan_step _ _ _ _ m) by (lia || done). rewrite (scan_step _ _ _ _ m) by (lia || done).
  rewrite (scan_step _ _ _ _ (add_metric m x)); [apply IH|lia|]. by apply metric_line_read.
Qed.

Lemma image_no_newline n : 0 <= n → no_newline (Image n) = true.
Proof.
  intros Hn. unfold Image, no_newline. rewrite string_forallb_app. simpl.
  apply printable_no_newline, digits_printable. by apply Itoa_digits.
Qed.

Lemma page_no_newline l : Forall readable l →
  Forall (λ s, no_newline s = true) (concat (metric_lines <$> l)).
Proof.
  induction 1 as [|x l (_ & Hn & _ & Hnn & Hc) _ IH]; [done|]. csimpl.
  rewrite metric_lines_eq. apply Forall_app. split; [|done].
  repeat (apply Forall_cons; split); [..|by apply Forall_nil].
  - by apply Hc; left.
  - by apply Hc; right; left.
  - unfold no_newline in *. rewrite string_forallb_app, Hnn. simpl.
    apply image_no_newline. lia.
Qed.

Lemma add_metric_other l m name : name ∉ (x_name <$> l) →
  Values (foldl add_metric m l) !! name = Values m !! name.
Proof.
  revert m; induction l as [|x l IH]; intros m Hn; [done|]. csimpl in *.
  apply not_elem_of_cons in Hn as [Hx Hn]. rewrite IH by done. simpl.
  by rewrite lookup_insert_ne.
Qed.

Lemma add_metric_lookup l m x : NoDup (x_name <$> l) → x ∈ l →
  Values (foldl add_metric m l) !! x_name x = Some (float_of_Z x.2).
Proof.
  revert m; induction l as [|y l IH]; intros m Hnd Hx; [by apply elem_of_nil in Hx|].
  csimpl in *. apply NoDup_cons in Hnd as [Hy Hnd].
  apply elem_of_cons in Hx as [->|Hx]; [|by apply IH].
  rewrite add_metric_other by done. simpl. by rewrite lookup_insert_eq.
Qed.

Lemma add_metric_version l m : MVersion (foldl add_metric m l) = MVersion m.
Proof. revert m; induction l as [|x l IH]; intros m; [done|]. csimpl. by rewrite IH. Qed.

(** Counters a [float64] holds exactly. *)
Definition counters_exact (v : vault_state) : Prop :=
  Forall (λ n, 0 <= n < 2 ^ 53)
    [Object_Count v; Quarantined_Count v; Audit_Length v; Now v; Scrub_Runs v; Scrub_Corrupt v;
     Shards_Repaired v; Dir_Bytes v; Denied_Deletes v].

Ltac comment_line := split; [vm_compute; lia|split; [reflexivity|intros ?; reflexivity]].

Ltac readable_metric :=
  split; [do 2 eexists; split; [reflexivity|];
          split; [discriminate|split; reflexivity]|];
  split; [simpl; assumption || lia|];
  split; [vm_compute; lia|]; split; [reflexivity|];
  intros l Hl; rewrite !elem_of_cons, elem_of_nil in Hl;
  destruct Hl as [->|[->|[]]]; comment_line.

Lemma flag_range b : 0 <= flag b < 2 ^ 53.
Proof. destruct b; simpl; lia. Qed.

Lemma server_metrics_readable v : counters_exact v → Forall readable (server_metrics v).
Proof.
  unfold counters_exact. rewrite !Forall_cons. intros (?&?&?&?&?&?&?&?&?&_).
  pose proof (flag_range (Sealed v)). pose proof (flag_range (One_Way_Ingest v)).
  pose proof (flag_range (Sync_Window_Open v)).
  unfold server_metrics. repeat (apply Forall_cons; split; [readable_metric|]). done.
Qed.

Lemma server_metrics_names v : NoDup (x_name <$> server_metrics v).
Proof. apply (bool_decide_unpack _). by vm_compute. Qed.

Definition build_info_metrics (m : Metrics) : Metrics :=
  set_value (set_version m "1.3.0") "dezhan_build_info" (float_of_Z 1).

(** C37: The client reads the server's metrics page completely and exactly: every
    counter and flag of the vault is the value under its name, printed back
    digit for digit, the version is the server's, and the scanner reports no
    error, as long as the counters fit a [float64] exactly. *)
Theorem metrics_page_read v : counters_exact v →
  ∃ m, parse_metrics (metrics_page v) = Ok (m, None) ∧
    MVersion m = Version_Number ∧
    ∀ name help typ n, (name, help, typ, n) ∈ server_metrics v →
      metric m name = float_of_Z n ∧ format_f 0 (metric m name) = Itoa n.
Proof.
  intros Hv. pose proof (server_metrics_readable v Hv) as Hr.
  unfold parse_metrics, metrics_page, page_lines.
  rewrite raw_lines_crlf.
  2: { apply Forall_app. split; [repeat constructor|by apply page_no_newline]. }
  rewrite fmap_app. unfold build_info_lines. rewrite !fmap_cons, fmap_nil. cbn [app].
  set (m0 := {| Values := ∅; MVersion := ""; Raw := _ |}).
  pose proof max_line_big as Hmax.
  rewrite (scan_step _ _ _ _ m0); [|etrans; [|exact Hmax]; vm_compute; lia|reflexivity].
  rewrite (scan_step _ _ _ _ m0); [|etrans; [|exact Hmax]; vm_compute; lia|reflexivity].
  rewrite (scan_step _ _ _ _ (build_info_metrics m0));
    [|etrans; [|exact Hmax]; vm_compute; lia|reflexivity].
  rewrite scan_metric_lines by done. eexists. split; [done|].
  split; [by rewrite add_metric_version|].
  intros name help typ n Hx. unfold metric.
  pose proof (add_metric_lookup _ (build_info_metrics m0) _ (server_metrics_names v) Hx) as Hl.
  change (x_name (name, help, typ, n)) with name in Hl.
  change ((name, help, typ, n).2) with n in Hl. rewrite Hl. cbn [default]. split; [done|].
  apply format_float_of_Z. rewrite Forall_forall in Hr.
  destruct (Hr _ Hx) as (_ & Hn & _). exact Hn.
Qed.

(** ** Copy sources and bypass headers *)

Lemma PathEscape_no_slash s : string_forallb (λ a, bool_decide (a ≠ "/"%char)) (PathEscape s) = true.
Proof.
  assert (∀ c, (if shouldEscape c then
      bool_decide (upperhex (Z.shiftr (byte_val c) 4) ≠ "/"%char) &&
      bool_decide (upperhex (Z.land (byte_val c) 15) ≠ "/"%char)
    else bool_decide (c ≠ "/"%char)) = true) as Hall by by apply all_bytes; vm_compute.
  induction s as [|a s IH]; [done|]. specialize (Hall a). cbn [PathEscape].
  destruct (shouldEscape a); cbn [string_forallb]; rewrite IH.
  - apply andb_true_iff in Hall as [-> ->]. done.
  - by rewrite Hall.
Qed.

(** The CSI driver sends the source of a copy as one escaped segment, and the
    server looks it up as it stands: the name it looks up holds no slash, so it
    is never the name [bucket/key] of an object in a bucket, and copying an
    object between buckets finds nothing. *)
Theorem copy_source_never_found b k b' k' :
  copy_source_name (PathEscape (b +:+ "/" +:+ k)) ≠ b' +:+ "/" +:+ k'.
Proof.
  intros Heq. pose proof (PathEscape_no_slash (b +:+ "/" +:+ k)) as Hns.
  assert (copy_source_name (PathEscape (b +:+ "/" +:+ k)) = PathEscape (b +:+ "/" +:+ k)) as Hid.
  { destruct (PathEscape (b +:+ "/" +:+ k)) as [|c s]; [done|]. simpl in *.
    apply andb_true_iff in Hns as [Hc _]. apply bool_decide_eq_true in Hc.
    by rewrite decide_False. }
  rewrite Hid in Heq. rewrite Heq, !string_forallb_app in Hns.
  rewrite !andb_true_iff in Hns. destruct Hns as (_ & Hns & _). by vm_compute in Hns.
Qed.

Definition bypass_key : string := "X-Dezhan-Bypass".

(** A request head with the value of the bypass header, which occurs in [pre]
    neither as a header nor elsewhere. *)
Definition head_with (pre value post : string) : string :=
  pre +:+ bypass_key +:+ ": " +:+ value +:+ crlf +:+ post.

Lemma Header_bypass pre value post :
  Index (string_map lower_char (head_with pre value post)) "x-dezhan-bypass:" =
    Some (String.length pre) →
  value = "1" ∨ value = "true" → Header (head_with pre value post) bypass_key = value.
Proof.
  intros Hi Hval. unfold Header.
  change (string_map lower_char bypass_key +:+ ":") with "x-dezhan-bypass:". rewrite Hi.
  unfold head_with. rewrite <- Nat.add_assoc, str_drop_app_ge by lia.
  replace (_ - _)%nat with 16%nat by (simpl; lia).
  destruct Hval as [->| ->]; unfold crlf; simpl; by destruct post.
Qed.

(** [dezhanctl del --bypass] never obtains a bypass: the header the client
    sends carries the value 1, and the server only honours the value true. *)
Theorem bypass_never_honoured pre value post :
  delete_headers true !! bypass_key = Some value →
  Index (string_map lower_char (head_with pre value post)) "x-dezhan-bypass:" =
    Some (String.length pre) →
  bypass_requested (head_with pre value post) = false ∧
  (∀ w, Index (string_map lower_char (head_with pre w post)) "x-dezhan-bypass:" =
     Some (String.length pre) → w = "true" → bypass_requested (head_with pre w post) = true).
Proof.
  intros Hv Hi. assert (value = "1") as -> by (unfold delete_headers, bypass_key in Hv;
    rewrite lookup_insert_eq in Hv; congruence).
  unfold bypass_requested. split.
  - rewrite Header_bypass by auto. done.
  - intros w Hw ->. rewrite Header_bypass by auto. done.
Qed.
