(* ===== verification/CtlDashboard.v ===== *)
(** * dezhanctl: the dashboard (ctl/internal/tui/dashboard.go)

    The Bubble Tea model: its state, its reaction to messages and its view.
    Commands are data here; [dashboard_step] is the event loop that runs them:
    a pending fetch or tick delivers its message at any later time, in any
    order.  Styling (lipgloss) and the local clock are the class [Terminal]. *)

From Stdlib Require Import SpecFloat.
From S2P Require Import Prelude GoStrings GoText GoUrl GoFloat S3Api CtlClient.
Local Open Scope Z_scope.
#[local] Set Warnings "-register-all".

Definition Second : Z := 1000000000.

Record snapshotMsg := {
  health : string;
  version : string;
  metrics : option Metrics;
  objects : list string;
  snap_err : option error;
  at_time : Z;
}.

Definition no_snapshot : snapshotMsg := {|
  health := ""; version := ""; metrics := None; objects := []; snap_err := None; at_time := 0 |}.

Record Model := {
  cli : Client;
  endpoint : string;
  every : Z;
  snap : snapshotMsg;
  loaded : bool;
  width : Z;
  height : Z;
}.

(** [New]: refreshing more than once a second is not allowed. *)
Definition NewModel (cli : Client) (endpoint : string) (every : Z) : Model := {|
  cli := cli; endpoint := endpoint; every := if every <? Second then Second else every;
  snap := no_snapshot; loaded := false; width := 0; height := 0 |}.

(** ** Commands and messages *)

Inductive Cmd :=
  | CmdNone
  | CmdFetch
  | CmdTick (d : Z)
  | CmdQuit
  | CmdBatch (l : list Cmd).

Inductive Msg :=
  | KeyMsg (key : string)
  | WindowSizeMsg (w h : Z)
  | TickMsg (t : Z)
  | SnapshotMsg (s : snapshotMsg)
  | OtherMsg.

Definition Init (m : Model) : Cmd := CmdBatch [CmdFetch; CmdTick (every m)].

Definition with_snap (m : Model) (s : snapshotMsg) : Model := {|
  cli := cli m; endpoint := endpoint m; every := every m; snap := s; loaded := true;
  width := width m; height := height m |}.

Definition with_size (m : Model) (w h : Z) : Model := {|
  cli := cli m; endpoint := endpoint m; every := every m; snap := snap m; loaded := loaded m;
  width := w; height := h |}.

Definition Update (m : Model) (msg : Msg) : Model * Cmd :=
  match msg with
  | KeyMsg key =>
      if bool_decide (key ∈ ["q"; "ctrl+c"; "esc"]) then (m, CmdQuit)
      else if decide (key = "r") then (m, CmdFetch)
      else (m, CmdNone)
  | WindowSizeMsg w h => (with_size m w h, CmdNone)
  | TickMsg _ => (m, CmdBatch [CmdFetch; CmdTick (every m)])
  | SnapshotMsg s => (with_snap m s, CmdNone)
  | OtherMsg => (m, CmdNone)
  end.

(** ** Fetching *)

Section fetch.
Context {W : Type} `{!UnicodeTables, !AddrParser, !HttpClient W}.

(** [x, _ := m]: the zero value on an error *)
Definition or_zero {A} (zero : A) (m : Go W A) : Go W A := catch m (λ _, mret zero).

(** The command [fetch] runs, started at time [now]. *)
Definition fetch (c : Client) (now : Z) : Go W snapshotMsg :=
  h ← or_zero "" (Health c);
  v ← or_zero "" (Version c);
  mm ← attempt (FetchMetrics c);
  os ← or_zero [] (List c);
  mret {|
    health := h; version := v;
    metrics := match mm with inr (m, None) => Some m | _ => None end;
    objects := os;
    snap_err := match mm with inl e => Some e | inr (_, e) => e end;
    at_time := now |}.

Definition FetchOnce (m : Model) (w now : Z) : Go W Model :=
  s ← fetch (cli m) now;
  let m' := with_snap m s in
  mret (if 0 <? w then with_size m' w (height m') else m').
End fetch.

(** ** Rendering *)

Definition nz (s dflt : string) : string := if decide (TrimSpace s = "") then dflt else s.

Definition unit1024 : float64 := float_of_Z 1024.

(** The loop of [human]: divide while the value is at least 1024 and a larger
    unit is left. *)
Fixpoint human_loop (v : float64) (u : string) (units : list string) : float64 * string :=
  match units with
  | [] => (v, u)
  | u' :: units' => if fge v unit1024 then human_loop (fdiv v unit1024) u' units' else (v, u)
  end.

Definition human (bytes : float64) : string :=
  if flt bytes unit1024 then format_f 0 bytes +:+ " B"
  else
    let '(v, u) := human_loop (fdiv bytes unit1024) "KiB" ["MiB"; "GiB"; "TiB"; "PiB"] in
    format_f 1 v +:+ " " +:+ u.

(** [time.Duration.String] for durations of at least a second *)
Definition nine_digits (n : Z) : string :=
  str_drop 1 (Itoa (1000000000 + n)).

Definition Duration_String (d : Z) : string :=
  let frac := trim_right_byte "0" (nine_digits (d `mod` Second)) in
  let secs := d / Second in
  let tail := Itoa (secs `mod` 60) +:+ (if decide (frac = "") then "" else "." +:+ frac) +:+ "s" in
  let mins := secs / 60 in
  if mins =? 0 then tail
  else if mins / 60 =? 0 then Itoa mins +:+ "m" +:+ tail
  else Itoa (mins / 60) +:+ "h" +:+ Itoa (mins `mod` 60) +:+ "m" +:+ tail.

Class Terminal := {
  titleStyle : string → string;
  panelStyle : string → string;
  cardStyle : string → string;
  labelStyle : string → string;
  valueStyle : string → string;
  footStyle : string → string;
  errorStyle : string → string;
  warnStyle : string → string;
  (** background colour green, red or amber *)
  badgeStyle : bool → string → string;
  boolBadgeStyle : bool → string → string;
  JoinHorizontal : list string → string;
  clock : Z → string;
}.

Section view.
Context `{!UnicodeTables, !Terminal}.

Definition nl : string := String newline "".

Definition stat (label value : string) : string :=
  cardStyle (valueStyle value +:+ nl +:+ labelStyle label).
Definition kv (label value : string) : string := labelStyle (label +:+ " ") +:+ value.
Definition badge (ok : bool) (text : string) : string := badgeStyle ok text.
Definition boolBadge (danger state : bool) : string :=
  boolBadgeStyle danger (if state then "yes" else "no").
Definition warnNum (v : float64) : string :=
  let s := format_f 0 v in if flt fzero v then warnStyle s else s.

(** [v != 0] *)
Definition nonzero (v : float64) : bool := negb (feq v fzero).

Definition status_line (s : snapshotMsg) : string :=
  "  " +:+ badge (bool_decide (health s = "ok")) (ToUpper (nz (health s) "down")) +:+
  match metrics s with
  | None => ""
  | Some m =>
      let sealed := nonzero (metric m "dezhan_sealed") in
      "   " +:+ kv "sealed" (boolBadge sealed sealed) +:+
      (if nonzero (metric m "dezhan_ingest_only") then "   " +:+ badge false "INGEST-ONLY" else "") +:+
      (if nonzero (metric m "dezhan_sync_window_open")
       then "   " +:+ badge true "SYNC-WINDOW OPEN" else "")
  end.

Definition cards (m : Metrics) : list string := [
  stat "objects" (format_f 0 (metric m "dezhan_objects"));
  stat "stored" (human (metric m "dezhan_storage_bytes"));
  stat "audit entries" (format_f 0 (metric m "dezhan_audit_entries"));
  stat "quarantined" (warnNum (metric m "dezhan_quarantined"));
  stat "retention denied" (format_f 0 (metric m "dezhan_retention_denied_total"));
  stat "scrub runs" (format_f 0 (metric m "dezhan_scrub_runs"));
  stat "shards repaired" (format_f 0 (metric m "dezhan_scrub_shards_repaired"));
  stat "trusted time" (format_f 0 (metric m "dezhan_trusted_time") +:+ "s")].

(** [for i := 0; i < len(cards); i += 4]: at most four per row *)
Fixpoint card_rows (fuel : nat) (l : list string) : string :=
  match fuel, l with
  | S n, _ :: _ => JoinHorizontal (take 4 l) +:+ nl +:+ card_rows n (drop 4 l)
  | _, _ => ""
  end.

Definition max_objects : nat := 12.

(** One line per object, or the number of those left out after the first
    twelve. *)
Definition object_lines (os : list string) : list string :=
  let shown := (λ o, "• " +:+ o) <$> take max_objects os in
  let ls := if (max_objects <? length os)%nat
            then shown ++ [footStyle ("... and " +:+
                   Itoa (Z.of_nat (length os - max_objects)) +:+ " more")]
            else shown in
  match ls with [] => [footStyle "(none)"] | _ => ls end.

Definition View (m : Model) : string :=
  if negb (loaded m) then nl +:+ "  connecting to " +:+ endpoint m +:+ " ..." +:+ nl
  else
    let s := snap m in
    titleStyle " dezhan vault " +:+ labelStyle ("  " +:+ endpoint m) +:+
    (if decide (version s = "") then "" else labelStyle ("  " +:+ version s)) +:+ nl +:+ nl +:+
    status_line s +:+ nl +:+ nl +:+
    match metrics s with None => "" | Some mm => card_rows 8 (cards mm) end +:+ nl +:+
    labelStyle ("objects (" +:+ Itoa (Z.of_nat (length (objects s))) +:+ ")") +:+ nl +:+
    panelStyle (String.concat nl (object_lines (objects s))) +:+ nl +:+ nl +:+
    match snap_err s with None => "" | Some e => errorStyle ("  " +:+ Error e) +:+ nl end +:+
    footStyle ("  updated " +:+ clock (at_time s) +:+ " · refresh " +:+
               Duration_String (every m) +:+ " · [r] refresh  [q] quit").
End view.

(** ** The event loop *)

(** The commands a command starts. *)
Fixpoint started (c : Cmd) : list Cmd :=
  match c with
  | CmdNone => []
  | CmdBatch l => concat (started <$> l)
  | c => [c]
  end.

Definition is_quit (c : Cmd) : bool := match c with CmdQuit => true | _ => false end.
Definition is_tick (c : Cmd) : bool := match c with CmdTick _ => true | _ => false end.

(** The program: its model, the commands under way, the snapshots delivered so
    far, and whether it still runs. *)
Record loop := { model : Model; pending : list Cmd; delivered : list snapshotMsg; running : bool }.

(** One message handled, with the other commands under way in [rest]. *)
Definition handle (l : loop) (rest : list Cmd) (msg : Msg) : loop :=
  let '(m', c) := Update (model l) msg in
  {| model := m';
     pending := rest ++ List.filter (λ c, negb (is_quit c)) (started c);
     delivered := match msg with SnapshotMsg s => delivered l ++ [s] | _ => delivered l end;
     running := negb (existsb is_quit (started c)) |}.

Definition input (msg : Msg) : Prop :=
  match msg with KeyMsg _ | WindowSizeMsg _ _ | OtherMsg => True | _ => False end.

Inductive dashboard_step : loop → loop → Prop :=
  | step_input l msg : running l = true → input msg →
      dashboard_step l (handle l (pending l) msg)
  | step_tick l p1 p2 d t : running l = true → pending l = p1 ++ CmdTick d :: p2 →
      dashboard_step l (handle l (p1 ++ p2) (TickMsg t))
  | step_fetch l p1 p2 s : running l = true → pending l = p1 ++ CmdFetch :: p2 →
      dashboard_step l (handle l (p1 ++ p2) (SnapshotMsg s)).

Definition start (m : Model) : loop :=
  {| model := m; pending := started (Init m); delivered := []; running := true |}.

(** ** The invariant of the loop *)

Definition ticks (l : list Cmd) : nat := length (List.filter is_tick l).

Record loop_ok (c : Client) (ep : string) (l : loop) : Prop := {
  ok_tick : ticks (pending l) = 1%nat;
  ok_period : Forall (λ c, is_tick c = true → c = CmdTick (every (model l))) (pending l);
  ok_second : Second <= every (model l);
  ok_client : cli (model l) = c ∧ endpoint (model l) = ep;
  ok_snap : snap (model l) = default no_snapshot (last (delivered l)) ∧
            loaded (model l) = bool_decide (delivered l ≠ []);
}.

Lemma ticks_app l k : ticks (l ++ k) = (ticks l + ticks k)%nat.
Proof. unfold ticks. by rewrite List.filter_app, length_app. Qed.

Lemma ticks_cons c l : ticks (c :: l) = ((if is_tick c then 1 else 0) + ticks l)%nat.
Proof. unfold ticks. simpl. by destruct (is_tick c). Qed.

Lemma loop_ok_start c ep d : loop_ok c ep (start (NewModel c ep d)).
Proof.
  split; simpl; try done.
  - repeat constructor; done.
  - destruct (Z.ltb_spec d Second); lia.
Qed.

Lemma loop_ok_step c ep l l' : loop_ok c ep l → dashboard_step l l' → loop_ok c ep l'.
Proof.
  intros [Ht Hp Hs Hc Hsnap] Hstep. destruct Hstep as [l msg _ Hin|l p1 p2 d t _ Hpend|l p1 p2 s _ Hpend].
  - destruct msg as [key|w h|t|s|]; simpl in Hin; try done; unfold handle, Update.
    + destruct (bool_decide (key ∈ _)); [|case_decide];
        split; simpl; rewrite ?app_nil_r, ?ticks_app; try done.
      * rewrite Ht. by vm_compute.
      * apply Forall_app. split; [done|]. by repeat constructor.
    + split; simpl; rewrite ?app_nil_r; done.
    + split; simpl; rewrite ?app_nil_r; done.
  - rewrite Hpend, ticks_app, ticks_cons in Ht. rewrite Hpend in Hp. simpl in Ht.
    apply Forall_app in Hp as [Hp1 Hp2]. apply Forall_cons in Hp2 as [_ Hp2].
    split; simpl; try done.
    + rewrite !ticks_app, !ticks_cons. simpl. unfold ticks in *. simpl. lia.
    + rewrite !Forall_app. by repeat constructor.
  - rewrite Hpend, ticks_app, ticks_cons in Ht. rewrite Hpend in Hp. simpl in Ht.
    apply Forall_app in Hp as [Hp1 Hp2]. apply Forall_cons in Hp2 as [_ Hp2].
    split; simpl; try done; rewrite ?app_nil_r.
    + rewrite ticks_app. lia.
    + by rewrite Forall_app.
    + rewrite last_snoc. split; [done|]. symmetry. apply bool_decide_eq_true.
      by destruct (delivered l).
Qed.


(** The object panel always has a line: a bullet per object for up to twelve
    objects, and for more the first twelve and the number of the others. *)
Theorem object_panel `{!UnicodeTables, !Terminal} os :
  (1 ≤ length (object_lines os) ≤ 13)%nat ∧
  (os ≠ [] → length os ≤ 12 → object_lines os = (λ o, "• " +:+ o) <$> os)%nat ∧
  (12 < length os →
     object_lines os = ((λ o, "• " +:+ o) <$> take 12 os) ++
       [footStyle ("... and " +:+ Itoa (Z.of_nat (length os) - 12) +:+ " more")])%nat.
Proof.
  assert (∀ l : list string, l ≠ [] →
    match l with [] => [footStyle "(none)"] | _ => l end = l) as Hmatch by by intros [].
  unfold object_lines, max_objects. destruct (Nat.ltb_spec 12 (length os)) as [Hlt|Hle].
  - rewrite Hmatch by by intros [_ ?]%app_nil. split; [|split; [lia|]].
    + rewrite length_app, length_fmap, length_take. simpl length. lia.
    + intros _. by rewrite Nat2Z.inj_sub by lia.
  - rewrite take_ge by lia. destruct os as [|o os].
    + split; [simpl; lia|]. split; [done|simpl; lia].
    + rewrite Hmatch by done. split; [|split; [done|lia]]. rewrite length_fmap. simpl in *. lia.
Qed.

(** ** Sizes *)

Lemma unit1024_eq : unit1024 = float1024.
Proof. by vm_compute. Qed.

(** The size of an integer, from the exponent of its float. *)
Lemma mantissa_size m n k a : full m → Zpos m = n * 2 ^ k → 0 <= k → 0 <= a → 0 < n →
  2 ^ a <= n ↔ k + a <= 52.
Proof.
  intros Hm Hn Hk Ha Hpos. apply full_bounds in Hm. rewrite Hn in Hm.
  assert (0 < 2 ^ k) by (apply Z.pow_pos_nonneg; lia). split; intros Hle.
  - destruct (Z.le_gt_cases (k + a) 52) as [|Hgt]; [done|].
    assert (2 ^ 53 <= 2 ^ (k + a)) as Hp by (apply Z.pow_le_mono_r; lia).
    rewrite (Z.pow_add_r 2 k a) in Hp by lia. nia.
  - assert (2 ^ (k + a) <= 2 ^ 52) as Hp by (apply Z.pow_le_mono_r; lia).
    rewrite Z.pow_add_r in Hp by lia. nia.
Qed.

(** The loop divides exactly, and stops below 1024 or at the last unit. *)
Lemma human_loop_spec m e u us : full m → -1000 + 10 * Z.of_nat (length us) <= e <= 0 →
  ∃ (j : nat) u', human_loop (S754_finite false m e) u us =
      (S754_finite false m (e - 10 * Z.of_nat j), u') ∧
    (u :: us) !! j = Some u' ∧
    ((j < length us)%nat → e - 10 * Z.of_nat j < -42) ∧
    ((0 < j)%nat → -42 <= e - 10 * (Z.of_nat j - 1)).
Proof.
  intros Hm. revert u e. induction us as [|u1 us IH]; intros u e He.
  { exists 0%nat, u. simpl. rewrite Z.sub_0_r. repeat split; lia. }
  cbn [human_loop length] in *. rewrite unit1024_eq, fge_1024 by done.
  case_bool_decide as Hge.
  - rewrite fdiv_1024 by (done || lia).
    destruct (IH u1 (e - 10)) as (j & u' & Heq & Hu & Hlt & Hpos); [lia|].
    exists (S j), u'. rewrite Heq. replace (e - 10 * Z.of_nat (S j)) with (e - 10 - 10 * Z.of_nat j) by lia.
    split; [done|]. split; [done|]. split; [lia|]. intros _. destruct j; lia.
  - exists 0%nat, u. rewrite Z.sub_0_r. split; [done|]. split; [done|]. lia.
Qed.

Lemma format_tenths m e : format_f 1 (S754_finite false m e) =
  Itoa (round_int (Zpos m * 10) e / 10) +:+ "." +:+ Itoa (round_int (Zpos m * 10) e `mod` 10).
Proof. reflexivity. Qed.

Definition byte_units : list string := ["KiB"; "MiB"; "GiB"; "TiB"; "PiB"].

(** The size card is right: a count of bytes below 1024 is printed exactly;
    any other (up to [2^53]) in the largest unit that does not exceed it, with
    one decimal, at most half a tenth of the unit away from the exact value. *)
Theorem human_correct n : 0 <= n < 2 ^ 53 →
  (n < 1024 → human (float_of_Z n) = Itoa n +:+ " B") ∧
  (1024 <= n → ∃ (j : nat) u q,
     byte_units !! j = Some u ∧
     human (float_of_Z n) = Itoa (q / 10) +:+ "." +:+ Itoa (q `mod` 10) +:+ " " +:+ u ∧
     2 ^ (10 * Z.of_nat (S j)) <= n ∧
     ((j < 4)%nat → n < 2 ^ (10 * Z.of_nat (S (S j)))) ∧
     2 * Z.abs (q * 2 ^ (10 * Z.of_nat (S j)) - 10 * n) <= 2 ^ (10 * Z.of_nat (S j))).
Proof.
  intros Hn. unfold human. destruct n as [|p|p]; [by split|set (n := Zpos p) in *|lia].
  rewrite <- (format_float_of_Z n) by done.
  destruct (float_of_Z_full p) as (m & k & Hf & Hk & Hm & Hmn); [lia|]. fold n in Hf, Hmn. rewrite Hf.
  assert (∀ a, 0 <= a → 2 ^ a <= n ↔ k + a <= 52) as Hsize
    by (intros a Ha; apply (mantissa_size m); lia || done).
  rewrite unit1024_eq, flt_1024 by done. rewrite <- unit1024_eq.
  change 1024 with (2 ^ 10). split; intros H10.
  - rewrite bool_decide_eq_true_2; [done|]. pose proof (Hsize 10). lia.
  - apply Hsize in H10; [|done]. rewrite bool_decide_eq_false_2 by lia.
    rewrite unit1024_eq, fdiv_1024 by (done || lia).
    destruct (human_loop_spec m (- k - 10) "KiB" ["MiB"; "GiB"; "TiB"; "PiB"])
      as (j & u & -> & Hu & Hlt & Hpos); [done|simpl; lia|]. simpl length in Hlt.
    exists j, u, (round_int (10 * n) (- (10 * Z.of_nat (S j)))). split; [done|].
    rewrite format_tenths, Hmn. replace (n * 2 ^ k * 10) with (10 * n * 2 ^ k) by lia.
    replace (- k - 10 - 10 * Z.of_nat j) with (- k - 10 * Z.of_nat (S j)) by lia.
    rewrite round_int_scale, <- !str_app_assoc by lia. split; [done|].
    split; [apply Hsize; [lia|]; destruct j; lia|]. split; [|apply round_int_nearest; lia].
    intros Hj. specialize (Hlt Hj). pose proof (Hsize (10 * Z.of_nat (S (S j)))). lia.
Qed.
