(* ===== verification/CtlCommands.v ===== *)
(** * dezhanctl: the commands
    (ctl/cmd/commands.go, admin.go, stat.go, dashboard.go, root.go,
    completion.go, ctl/main.go)

    The [RunE] function of every command over the flags it reads, and the
    process around them.  Cobra, which parses the command line, hands over the
    flags and the command; the operating system, the terminal program and the
    completion scripts are the class [Process].  The request timeout is not
    modelled. *)

From S2P Require Import Prelude GoStrings GoText GoUrl GoFloat GoJson S3Api CtlClient CtlDashboard.
Local Open Scope Z_scope.

(** ** The process *)

Class Process (W : Type) := {
  (** [os.Stdout.Write], [os.Stderr.Write] *)
  os_Stdout : string → Call W unit;
  os_Stderr : string → Call W unit;
  os_ReadFile : string → Call W string;
  os_WriteFile : string → string → Call W unit;
  time_Now : W → Z;
  (** [tea.NewProgram(m, tea.WithAltScreen()).Run()] *)
  tea_Run : Model → Call W unit;
  (** the script of the root command for a shell, written to the standard output *)
  GenCompletion : string → Call W unit;
}.

(** ** Flags and their defaults *)

Record Flags := {
  f_endpoint : string;
  f_adminToken : string;
  f_jsonOut : bool;
  f_getOutput : string;
  f_putMode : string;
  f_putRetain : Z;
  f_putFile : string;
  f_delBypass : bool;
  f_dashEvery : Z;
  f_dashOnce : bool;
  f_dashFrame : bool;
}.

Definition defaultEndpoint (env : string → string) : string :=
  let e := env "DEZHAN_ENDPOINT" in
  if decide (e ≠ "") then e else "http://127.0.0.1:8080".

Definition default_flags (env : string → string) : Flags := {|
  f_endpoint := defaultEndpoint env; f_adminToken := env "DEZHAN_ADMIN_TOKEN"; f_jsonOut := false;
  f_getOutput := ""; f_putMode := "compliance"; f_putRetain := 3600; f_putFile := "";
  f_delBypass := false; f_dashEvery := 2 * Second; f_dashOnce := false; f_dashFrame := false |}.

Definition newClient (f : Flags) : Client := New (f_endpoint f).

(** The commands, with the arguments Cobra has checked the number of. *)
Inductive command :=
  | healthCmd | versionCmd | lsCmd | metricsCmd
  | getCmd (name : string)
  | putCmd (name : string) (data : option string)
  | delCmd (name : string)
  | statCmd (name : string)
  | adminCmd (action : string)
  | dashboardCmd
  | completionCmd (shell : string).

(** The actions of [admin]. *)
Definition admin_actions : list string := ["scrub"; "gc"; "seal"; "checkpoint"; "tick"].

(** [%-18s]: blanks up to 18 runes *)
Fixpoint rune_count (fuel : nat) (s : string) : nat :=
  match fuel, s with
  | S n, String _ _ => S (rune_count n (str_drop (decode_rune s).2 s))
  | _, _ => 0
  end.
Definition pad_right (width : nat) (s : string) : string :=
  s +:+ String.concat "" (replicate (width - rune_count (String.length s) s) " ").

Section commands.
Context {W : Type} `{!UnicodeTables, !AddrParser, !HttpClient W, !Process W, !Terminal}.

(** ** Output: [fmt]'s printing functions, whose results are dropped *)

Definition Print (s : string) : Go W unit := λ w, (Ok (), (os_Stdout s w).2).
Definition Println (s : string) : Go W unit := Print (s +:+ nl).
Definition Eprint (s : string) : Go W unit := λ w, (Ok (), (os_Stderr s w).2).

Definition printJSON (v : json) : Go W unit :=
  match MarshalIndent v with
  | inl e => fail e
  | inr b => Println b
  end.

(** ** The commands *)

Definition run_health (f : Flags) : Go W unit :=
  h ← Health (newClient f);
  if f_jsonOut f
  then printJSON (JMap [("health", JString h); ("ok", JBool (bool_decide (h = "ok")))])
  else Println h.

Definition run_version (f : Flags) : Go W unit :=
  v ← Version (newClient f);
  if f_jsonOut f then printJSON (JMap [("version", JString v)]) else Println v.

Definition run_ls (f : Flags) : Go W unit :=
  names ← List (newClient f);
  if f_jsonOut f then printJSON (JArray (JString <$> names)) else go_iter Println names.

(** [m, err := cli.Metrics(c); if err != nil { return err }] *)
Definition metrics_or_fail (c : Client) : Go W Metrics :=
  r ← FetchMetrics c;
  match r.2 with
  | Some e => fail e
  | None => mret r.1
  end.

Definition metrics_json (m : Metrics) : json :=
  JMap [("version", JString (MVersion m));
        ("values", JMap (prod_map id JFloat <$> map_to_list (Values m)))].

Definition run_metrics (f : Flags) : Go W unit :=
  m ← metrics_or_fail (newClient f);
  if f_jsonOut f then printJSON (metrics_json m) else Print (Raw m).

(** Is the object written to a file? *)
Definition to_file (f : Flags) : bool :=
  bool_decide (f_getOutput f ≠ "") && bool_decide (f_getOutput f ≠ "-").

Definition run_get (f : Flags) (name : string) : Go W unit :=
  b ← Get (newClient f) name;
  if to_file f then
    _ ← lift (os_WriteFile (f_getOutput f) b);
    Eprint ("wrote " +:+ Itoa (Z.of_nat (String.length b)) +:+ " bytes to " +:+ f_getOutput f +:+ nl)
  else lift (os_Stdout b).

Definition put_data (f : Flags) (data : option string) : Go W string :=
  if decide (f_putFile f ≠ "") then lift (os_ReadFile (f_putFile f))
  else match data with
  | Some d => mret d
  | None => fail (errorString "provide <data> or --file")
  end.

Definition run_put (f : Flags) (name : string) (data : option string) : Go W unit :=
  b ← put_data f data;
  out ← Put (newClient f) name b (f_putMode f) (f_putRetain f);
  Println out.

Definition run_del (f : Flags) (name : string) : Go W unit :=
  out ← Delete (newClient f) name (f_delBypass f);
  Println out.

Definition adminAction (f : Flags) (action : string) : Go W unit :=
  out ← Admin (newClient f) action (f_adminToken f);
  if decide (out ≠ "") then Println out else Println "ok".

Definition stat_json (name : string) (code : Z) (meta : gmap string string) : json :=
  JMap [("name", JString name); ("status", JInt code);
        ("headers", JMap (prod_map id JString <$> map_to_list meta))].

Definition run_stat (f : Flags) (name : string) : Go W unit :=
  '(h, code, err) ← Stat (newClient f) name;
  match err with
  | Some e => fail e
  | None =>
      let meta := interesting_headers (map_to_list h) in
      if f_jsonOut f then printJSON (stat_json name code meta)
      else
        _ ← Print ("name    " +:+ name +:+ nl);
        _ ← Print ("status  " +:+ Itoa code +:+ nl);
        go_iter (λ k, Print (pad_right 18 k +:+ " " +:+ default "" (meta !! k) +:+ nl))
          (sort_Strings (map_to_list meta).*1)
  end.

(** The lines of [dashboard --once]. *)
Definition snapshot_lines (ep h v : string) (m : Metrics) (names : list string) : list string :=
  let fmt0 name := format_f 0 (metric m name) in [
  "endpoint  " +:+ ep;
  "health    " +:+ h;
  "version   " +:+ v;
  "sealed    " +:+ (if nonzero (metric m "dezhan_sealed") then "true" else "false");
  "objects   " +:+ fmt0 "dezhan_objects";
  "stored    " +:+ fmt0 "dezhan_storage_bytes" +:+ " bytes";
  "audit     " +:+ fmt0 "dezhan_audit_entries" +:+ " entries";
  "quarantd  " +:+ fmt0 "dezhan_quarantined";
  "scrubs    " +:+ fmt0 "dezhan_scrub_runs" +:+ " (repaired " +:+
     fmt0 "dezhan_scrub_shards_repaired" +:+ " shards)";
  "listed    " +:+ Itoa (Z.of_nat (length names)) +:+ " objects"].

Definition snapshot (f : Flags) : Go W unit :=
  let cl := newClient f in
  h ← Health cl;
  v ← or_zero "" (Version cl);
  m ← metrics_or_fail cl;
  names ← or_zero [] (List cl);
  go_iter Println (snapshot_lines (f_endpoint f) h v m names).

Definition run_dashboard (f : Flags) : Go W unit :=
  let m := NewModel (newClient f) (f_endpoint f) (f_dashEvery f) in
  if f_dashOnce f then snapshot f
  else if f_dashFrame f then
    λ w, (m' ← FetchOnce m 0 (time_Now w); Println (View m')) w
  else lift (tea_Run m).

Definition run_completion (shell : string) : Go W unit :=
  if decide (shell ∈ ["bash"; "zsh"; "fish"; "powershell"]) then lift (GenCompletion shell)
  else mret ().

Definition RunE (f : Flags) (c : command) : Go W unit :=
  match c with
  | healthCmd => run_health f
  | versionCmd => run_version f
  | lsCmd => run_ls f
  | metricsCmd => run_metrics f
  | getCmd name => run_get f name
  | putCmd name data => run_put f name data
  | delCmd name => run_del f name
  | statCmd name => run_stat f name
  | adminCmd action => adminAction f action
  | dashboardCmd => run_dashboard f
  | completionCmd shell => run_completion shell
  end.

(** [Execute]: what Cobra made of the command line is run; Cobra prints an error
    itself, as [SilenceErrors] is not set. *)
Definition Execute (parsed : error + Flags * command) : Go W unit :=
  catch (match parsed with inl e => fail e | inr (f, c) => RunE f c end)
    (λ e, _ ← Eprint ("Error: " +:+ Error e +:+ nl); fail e).

(** [main]: the exit status; [None] stands for a panic. *)
Definition main (parsed : error + Flags * command) (w : W) : option Z * W :=
  match Execute parsed w with
  | (Ok _, w') => (Some 0, w')
  | (Err e, w') => (Some 1, (Eprint ("dezhanctl: " +:+ Error e +:+ nl) w').2)
  | (_, w') => (None, w')
  end.
End commands.
