(* ===== verification/CtlCommandSpec.v ===== *)
(** * What the commands of dezhanctl guarantee

    Scripts rely on the exit status and on what reaches the standard output.
    [ProcessView] are the streams and files of a process, [ProcessLaws] the
    documented behaviour of the calls on them, [StreamsOpen] a process whose
    streams accept what is written. *)

From S2P Require Import Prelude GoStrings GoText GoUrl GoFloat GoJson S3Api CtlClient CtlSpec CtlDashboard CtlCommands.
Local Open Scope Z_scope.

Class ProcessView (W : Type) := {
  stdout : W → string;
  stderr : W → string;
  file : W → string → option string;
}.

Class ProcessLaws (W : Type) `{!HttpClient W, !Process W, !ProcessView W} : Prop := {
  (** a write appends what it was given, or on an error a part of it *)
  law_stdout s w : ∃ p, stdout (os_Stdout s w).2 = stdout w +:+ p ∧
    HasPrefix s p = true ∧ ((os_Stdout s w).1 = inr () → p = s);
  law_stdout_stderr s w : stderr (os_Stdout s w).2 = stderr w;
  law_stderr s w : ∃ p, stderr (os_Stderr s w).2 = stderr w +:+ p ∧
    ((os_Stderr s w).1 = inr () → p = s);
  law_stderr_stdout s w : stdout (os_Stderr s w).2 = stdout w;
  law_http_stdout req w : stdout (http_Do req w).2 = stdout w;
  law_read_stdout f w : stdout (os_ReadFile f w).2 = stdout w;
  law_read f w s : (os_ReadFile f w).1 = inr s → file w f = Some s;
  law_write_stdout f d w : stdout (os_WriteFile f d w).2 = stdout w;
  law_write f d w : (os_WriteFile f d w).1 = inr () → file (os_WriteFile f d w).2 f = Some d;
  law_stderr_file s w f : file (os_Stderr s w).2 f = file w f;
}.

Class StreamsOpen (W : Type) `{!Process W} : Prop := {
  stdout_open s w : (os_Stdout s w).1 = inr ();
  stderr_open s w : (os_Stderr s w).1 = inr ();
}.

(** ** Kinds of actions *)

Section kinds.
Context {W : Type} `{!ProcessView W}.

(** returns a value or an error, and neither panics nor runs out of fuel *)
Definition returns {A} (m : Go W A) : Prop :=
  ∀ w, match (m w).1 with Ok _ | Err _ => True | _ => False end.
(** writes nothing to the standard output *)
Definition silent {A} (m : Go W A) : Prop := ∀ w, stdout (m w).2 = stdout w.
Definition never_fails {A} (m : Go W A) : Prop := ∀ w e w', m w ≠ (Err e, w').
(** writes nothing to the standard output when it fails *)
Definition silent_failure {A} (m : Go W A) : Prop :=
  ∀ w e w', m w = (Err e, w') → stdout w' = stdout w.

Lemma returns_bind {A B} (m : Go W A) (f : A → Go W B) :
  returns m → (∀ a, returns (f a)) → returns (m ≫= f).
Proof.
  intros Hm Hf w. specialize (Hm w). unfold mbind, go_bind.
  destruct (m w) as [[a|e| |] w1]; [|done..]. apply Hf.
Qed.
Lemma returns_ret {A} (a : A) : returns (mret (M := Go W) a).
Proof. done. Qed.
Lemma returns_fail {A} e : returns (fail (W := W) (A := A) e).
Proof. done. Qed.
Lemma returns_lift {A} (c : Call W A) : returns (lift c).
Proof. intros w. unfold lift. by destruct (c w) as [[]]. Qed.
Lemma returns_attempt {A} (m : Go W A) : returns m → returns (attempt m).
Proof. intros Hm w. specialize (Hm w). unfold attempt. by destruct (m w) as [[]]. Qed.
Lemma returns_catch {A} (m : Go W A) h :
  returns m → (∀ e, returns (h e)) → returns (catch m h).
Proof.
  intros Hm Hh w. specialize (Hm w). unfold catch.
  destruct (m w) as [[a|e| |] w1]; [done| |done..]. apply Hh.
Qed.
Lemma returns_iter {A} (f : A → Go W unit) l : (∀ a, returns (f a)) → returns (go_iter f l).
Proof. intros Hf. induction l; simpl; [done|]. by apply returns_bind. Qed.

Lemma silent_bind {A B} (m : Go W A) (f : A → Go W B) :
  silent m → (∀ a, silent (f a)) → silent (m ≫= f).
Proof.
  intros Hm Hf w. apply (bind_preserves_mid (λ w1, stdout w1 = stdout w)); [apply Hm|].
  intros a w1 <-. apply Hf.
Qed.
Lemma silent_ret {A} (a : A) : silent (mret (M := Go W) a).
Proof. done. Qed.
Lemma silent_fail {A} e : silent (fail (W := W) (A := A) e).
Proof. done. Qed.
Lemma silent_lift {A} (c : Call W A) : (∀ w, stdout (c w).2 = stdout w) → silent (lift c).
Proof. intros Hc w. by rewrite lift_state. Qed.
Lemma silent_attempt {A} (m : Go W A) : silent m → silent (attempt m).
Proof. intros Hm w. specialize (Hm w). unfold attempt. by destruct (m w) as [[]]. Qed.
Lemma silent_catch {A} (m : Go W A) h : silent m → (∀ e, silent (h e)) → silent (catch m h).
Proof.
  intros Hm Hh w. specialize (Hm w). unfold catch.
  destruct (m w) as [[a|e| |] w1]; simpl in *; try done. by rewrite Hh.
Qed.

Lemma never_fails_bind {A B} (m : Go W A) (f : A → Go W B) :
  never_fails m → (∀ a, never_fails (f a)) → never_fails (m ≫= f).
Proof. intros Hm Hf w e w' [Hw|(a & w1 & _ & Hw)]%bind_Err; [by eapply Hm|by eapply Hf]. Qed.
Lemma never_fails_ret {A} (a : A) : never_fails (mret (M := Go W) a).
Proof. done. Qed.
Lemma never_fails_iter {A} (f : A → Go W unit) l :
  (∀ a, never_fails (f a)) → never_fails (go_iter f l).
Proof. intros Hf. induction l; simpl; [done|]. by apply never_fails_bind. Qed.

Lemma silent_failure_bind {A B} (m : Go W A) (f : A → Go W B) :
  silent m → (∀ a, silent_failure (f a)) → silent_failure (m ≫= f).
Proof.
  intros Hm Hf w e w' [Hw|(a & w1 & Hm1 & Hw)]%bind_Err.
  - specialize (Hm w). by rewrite Hw in Hm.
  - rewrite (Hf _ _ _ _ Hw). specialize (Hm w). by rewrite Hm1 in Hm.
Qed.
Lemma silent_failure_of_silent {A} (m : Go W A) : silent m → silent_failure m.
Proof. intros Hm w e w' Hw. specialize (Hm w). by rewrite Hw in Hm. Qed.
Lemma silent_failure_never {A} (m : Go W A) : never_fails m → silent_failure m.
Proof. intros Hm w e w' Hw. by apply Hm in Hw. Qed.
End kinds.

Create HintDb ctl discriminated.
#[export] Hint Resolve returns_bind returns_ret returns_fail returns_lift returns_attempt
  returns_catch returns_iter silent_bind silent_ret silent_fail silent_attempt silent_catch
  never_fails_bind never_fails_ret never_fails_iter : ctl.

(** Take an action apart along its structure. *)
Ltac ctl_auto :=
  repeat first
    [ progress intros
    | done
    | solve [eauto 3 with ctl nocore]
    | apply returns_bind | apply returns_attempt | apply returns_catch | apply returns_iter
    | apply silent_bind | apply silent_attempt | apply silent_catch
    | apply never_fails_bind | apply never_fails_iter
    | apply silent_failure_bind
    | progress case_match ].

Section client_kinds.
Context {W : Type} `{!UnicodeTables, !AddrParser, !HttpClient W}.
Implicit Types (c : Client) (name : string).

Lemma do_returns c method path h b : returns (do c method path h b).
Proof. unfold do. ctl_auto. Qed.
#[local] Hint Resolve do_returns : ctl.
Lemma text_returns c method path h b : returns (text c method path h b).
Proof. unfold text. ctl_auto. Qed.
#[local] Hint Resolve text_returns : ctl.
Lemma Health_returns c : returns (Health c).
Proof. unfold Health. ctl_auto. Qed.
Lemma Version_returns c : returns (Version c).
Proof. unfold Version. ctl_auto. Qed.
Lemma List_returns c : returns (List c).
Proof. unfold List. ctl_auto. Qed.
Lemma Get_returns c name : returns (Get c name).
Proof. unfold Get. ctl_auto. Qed.
Lemma Put_returns c name d mode secs : returns (Put c name d mode secs).
Proof. unfold Put. ctl_auto. Qed.
Lemma Delete_returns c name bypass : returns (Delete c name bypass).
Proof. unfold Delete. ctl_auto. Qed.
Lemma Admin_returns c action token : returns (Admin c action token).
Proof. unfold Admin. ctl_auto. Qed.
Lemma Stat_returns c name : returns (Stat c name).
Proof. unfold Stat. ctl_auto. Qed.
Lemma FetchMetrics_returns c : returns (FetchMetrics c).
Proof.
  unfold FetchMetrics. apply returns_bind; [ctl_auto|]. intros [body code].
  case_decide; [ctl_auto|]. intros w. simpl.
  destruct (scan_metrics_total (raw_lines body) {| Values := ∅; MVersion := ""; Raw := body |})
    as (m & e & Hm & _). unfold parse_metrics. by rewrite Hm.
Qed.

Context `{!Process W, !ProcessView W, !ProcessLaws W}.

Lemma do_silent c method path h b : silent (do c method path h b).
Proof. unfold do. case_match; [ctl_auto|]. apply silent_lift, law_http_stdout. Qed.
#[local] Hint Resolve do_silent : ctl.
Lemma text_silent c method path h b : silent (text c method path h b).
Proof. unfold text. ctl_auto. Qed.
#[local] Hint Resolve text_silent : ctl.
Lemma Health_silent c : silent (Health c).
Proof. unfold Health. ctl_auto. Qed.
Lemma Version_silent c : silent (Version c).
Proof. unfold Version. ctl_auto. Qed.
Lemma List_silent c : silent (List c).
Proof. unfold List. ctl_auto. Qed.
Lemma Get_silent c name : silent (Get c name).
Proof. unfold Get. ctl_auto. Qed.
Lemma Put_silent c name d mode secs : silent (Put c name d mode secs).
Proof. unfold Put. ctl_auto. Qed.
Lemma Delete_silent c name bypass : silent (Delete c name bypass).
Proof. unfold Delete. ctl_auto. Qed.
Lemma Admin_silent c action token : silent (Admin c action token).
Proof. unfold Admin. ctl_auto. Qed.
Lemma Stat_silent c name : silent (Stat c name).
Proof. unfold Stat. ctl_auto. Qed.
Lemma FetchMetrics_silent c : silent (FetchMetrics c).
Proof. unfold FetchMetrics. apply silent_bind; [ctl_auto|]. intros. case_decide; ctl_auto. Qed.
End client_kinds.

#[export] Hint Resolve Health_returns Version_returns List_returns Get_returns Put_returns
  Delete_returns Admin_returns Stat_returns FetchMetrics_returns
  Health_silent Version_silent List_silent Get_silent Put_silent Delete_silent Admin_silent
  Stat_silent FetchMetrics_silent : ctl.

(** ** The commands *)

Section commands.
Context {W : Type} `{!UnicodeTables, !AddrParser, !HttpClient W, !Process W, !Terminal}.
Implicit Types (f : Flags) (c : command) (w : W).

Lemma Print_returns s : returns (Print s).
Proof. done. Qed.
Lemma Eprint_returns s : returns (Eprint s).
Proof. done. Qed.
Lemma Print_never_fails s : never_fails (Print s).
Proof. done. Qed.
#[local] Hint Resolve Print_returns Eprint_returns Print_never_fails : ctl.

Lemma printJSON_returns v : returns (printJSON v).
Proof. unfold printJSON. ctl_auto. Qed.
Lemma metrics_or_fail_returns cl : returns (metrics_or_fail cl).
Proof. unfold metrics_or_fail. ctl_auto. Qed.
#[local] Hint Resolve printJSON_returns metrics_or_fail_returns : ctl.

Lemma fetch_returns cl now : returns (fetch cl now).
Proof. unfold fetch, or_zero. ctl_auto. Qed.
#[local] Hint Resolve fetch_returns : ctl.

Lemma snapshot_returns f : returns (snapshot f).
Proof. unfold snapshot, or_zero. ctl_auto. Qed.

Lemma RunE_returns f c : returns (RunE f c).
Proof.
  destruct c; simpl.
  - unfold run_health. ctl_auto.
  - unfold run_version. ctl_auto.
  - unfold run_ls. ctl_auto.
  - unfold run_metrics. ctl_auto.
  - unfold run_get. ctl_auto.
  - unfold run_put, put_data. ctl_auto.
  - unfold run_del. ctl_auto.
  - unfold run_stat. ctl_auto.
  - unfold adminAction. ctl_auto.
  - unfold run_dashboard. case_match; [apply snapshot_returns|].
    case_match; [|ctl_auto]. intros w. apply returns_bind; [unfold FetchOnce; ctl_auto|ctl_auto].
  - unfold run_completion. ctl_auto.
Qed.

Context `{!ProcessView W, !ProcessLaws W}.

Lemma Eprint_silent s : silent (Eprint s).
Proof. intros w. apply law_stderr_stdout. Qed.
Lemma printJSON_silent_failure v : silent_failure (printJSON v).
Proof.
  unfold printJSON. destruct (MarshalIndent v); [by apply silent_failure_of_silent|].
  by apply silent_failure_never.
Qed.
Lemma metrics_or_fail_silent cl : silent (metrics_or_fail cl).
Proof. unfold metrics_or_fail. ctl_auto. Qed.
Lemma Println_silent_failure s : silent_failure (Println s).
Proof. by apply silent_failure_never. Qed.
Lemma Print_silent_failure s : silent_failure (Print s).
Proof. by apply silent_failure_never. Qed.
Lemma iter_silent_failure {A} (g : A → Go W unit) l :
  (∀ a, never_fails (g a)) → silent_failure (go_iter g l).
Proof. intros Hg. by apply silent_failure_never, never_fails_iter. Qed.
#[local] Hint Resolve Eprint_silent printJSON_silent_failure metrics_or_fail_silent
  Println_silent_failure Print_silent_failure iter_silent_failure : ctl.

Lemma fetch_silent cl now : silent (fetch cl now).
Proof. unfold fetch, or_zero. ctl_auto. Qed.
#[local] Hint Resolve fetch_silent : ctl.

Lemma snapshot_silent_failure f : silent_failure (snapshot f).
Proof. unfold snapshot, or_zero. ctl_auto. Qed.

(** Commands whose output is their own: neither the interactive dashboard nor a
    completion script. *)
Definition scripted f c : bool :=
  match c with
  | dashboardCmd => f_dashOnce f || f_dashFrame f
  | completionCmd _ => false
  | _ => true
  end.

Lemma run_get_silent_failure `{!StreamsOpen W} f name : silent_failure (run_get f name).
Proof.
  unfold run_get. apply silent_failure_bind; [ctl_auto|]. intros b. case_match.
  - apply silent_failure_bind; [apply silent_lift, law_write_stdout|]. intros _.
    by apply silent_failure_never.
  - intros w e w' Hw%lift_Err. pose proof (stdout_open b w) as Ho. by rewrite Hw in Ho.
Qed.

Lemma RunE_silent_failure `{!StreamsOpen W} f c :
  scripted f c = true → silent_failure (RunE f c).
Proof.
  destruct c; simpl; intros Hs.
  - unfold run_health. ctl_auto.
  - unfold run_version. ctl_auto.
  - unfold run_ls. ctl_auto.
  - unfold run_metrics. ctl_auto.
  - apply run_get_silent_failure.
  - unfold run_put. apply silent_failure_bind; [unfold put_data|ctl_auto].
    case_decide; [apply silent_lift, law_read_stdout|ctl_auto].
  - unfold run_del. ctl_auto.
  - unfold run_stat. apply silent_failure_bind; [ctl_auto|]. intros [[h code] [e|]].
    + by apply silent_failure_of_silent.
    + case_match; [ctl_auto|]. apply silent_failure_never. ctl_auto.
  - unfold adminAction. ctl_auto.
  - unfold run_dashboard. destruct (f_dashOnce f); [apply snapshot_silent_failure|].
    simpl in Hs. rewrite Hs. intros w. apply silent_failure_bind; [unfold FetchOnce|]; ctl_auto.
  - done.
Qed.

Lemma Print_open `{!StreamsOpen W} s w : stdout (Print s w).2 = stdout w +:+ s.
Proof.
  destruct (law_stdout s w) as (p & Hp & _ & Hall). simpl. rewrite Hp.
  by rewrite Hall by apply stdout_open.
Qed.

Lemma Eprint_open `{!StreamsOpen W} s w : stderr (Eprint s w).2 = stderr w +:+ s.
Proof.
  destruct (law_stderr s w) as (p & Hp & Hall). simpl. rewrite Hp.
  by rewrite Hall by apply stderr_open.
Qed.

Lemma Println_lines `{!StreamsOpen W} ls w :
  ∃ w', go_iter Println ls w = (Ok (), w') ∧ stdout w' = stdout w +:+ listing ls.
Proof.
  revert w; induction ls as [|l ls IH]; intros w; cbn [go_iter listing].
  { exists w. by rewrite str_app_nil_r. }
  destruct (IH (Println l w).2) as (w' & Hw & Hs). exists w'. split.
  - by rewrite (bind_Ok_l _ _ _ () (Println l w).2).
  - rewrite Hs. unfold Println. rewrite Print_open, <- !str_app_assoc. done.
Qed.

Lemma main_failed f c w e w1 : RunE f c w = (Err e, w1) →
  main (inr (f, c)) w =
  (Some 1, (Eprint ("dezhanctl: " +:+ Error e +:+ nl) (Eprint ("Error: " +:+ Error e +:+ nl) w1).2).2).
Proof. intros Hr. unfold main, Execute. by rewrite (catch_Err_l _ _ _ _ _ Hr). Qed.

(** Every command but the interactive dashboard and the completion scripts,
    whatever the server answers and the files hold, ends with status 0 or 1 and
    never panics.  Status 0 means the command succeeded; status 1 means it
    failed, nothing was written to the standard output, and the error is the
    last thing on the standard error. *)
Theorem exit_status `{!StreamsOpen W} f c w : scripted f c = true →
  let '(status, w') := main (inr (f, c)) w in
  (status = Some 0 ∧ RunE f c w = (Ok (), w')) ∨
  (status = Some 1 ∧ stdout w' = stdout w ∧
   ∃ e w1, RunE f c w = (Err e, w1) ∧
     stderr w' = stderr w1 +:+ ("Error: " +:+ Error e +:+ nl) +:+ ("dezhanctl: " +:+ Error e +:+ nl)).
Proof.
  intros Hc. pose proof (RunE_returns f c w) as Hr.
  destruct (RunE f c w) as [[[]|e| |] w1] eqn:Hrun; [| |done..].
  - unfold main, Execute. rewrite (catch_Ok_l _ _ _ _ _ Hrun). by left.
  - rewrite (main_failed _ _ _ _ _ Hrun). right. split; [done|]. rewrite !Eprint_silent.
    split; [by eapply RunE_silent_failure|]. exists e, w1. split; [done|].
    by rewrite !Eprint_open, <- !str_app_assoc.
Qed.

(** A successful [get] delivers the object byte for byte: to the file named,
    leaving the standard output alone, or to the standard output with nothing
    added. *)
Theorem get_delivers f name w w' : RunE f (getCmd name) w = (Ok (), w') →
  ∃ b w1, Get (newClient f) name w = (Ok b, w1) ∧
    if to_file f then file w' (f_getOutput f) = Some b ∧ stdout w' = stdout w
    else stdout w' = stdout w +:+ b.
Proof.
  simpl. unfold run_get. intros (b & w1 & Hg & Hw)%bind_Ok. exists b, w1. split; [done|].
  assert (stdout w1 = stdout w) as Hs by by rewrite <- (Get_silent (newClient f) name w), Hg.
  rewrite <- Hs. destruct (to_file f).
  - apply bind_Ok in Hw as ([] & w2 & Hf%lift_Ok & Hw). injection Hw as <-.
    pose proof (law_write (f_getOutput f) b w1) as Hfile.
    pose proof (law_write_stdout (f_getOutput f) b w1) as Hout. rewrite Hf in Hfile, Hout. simpl in *.
    split; [rewrite law_stderr_file; by apply Hfile|by rewrite law_stderr_stdout].
  - apply lift_Ok in Hw. destruct (law_stdout b w1) as (p & Hp & _ & Hall). rewrite Hw in Hp, Hall.
    simpl in *. by rewrite Hp, Hall.
Qed.

(** [put] stores the content of the file given with [--file], or else its
    second argument, under the mode and window of the flags; with neither it
    fails without a request. *)
Theorem put_sends f name data w :
  (f_putFile f = "" → data = None →
     RunE f (putCmd name data) w = (Err (errorString "provide <data> or --file"), w)) ∧
  (∀ w', RunE f (putCmd name data) w = (Ok (), w') →
     ∃ b w1 w2 out,
       (if decide (f_putFile f ≠ "") then file w (f_putFile f) = Some b else data = Some b ∧ w1 = w) ∧
       Put (newClient f) name b (f_putMode f) (f_putRetain f) w1 = (Ok out, w2) ∧
       w' = (Println out w2).2).
Proof.
  simpl. unfold run_put, put_data. split.
  - intros -> ->. by rewrite decide_False by tauto.
  - intros w' (b & w1 & Hd & (out & w2 & Hp & Hw)%bind_Ok)%bind_Ok. exists b, w1, w2, out.
    split; [|split; [done|by injection Hw as <-]]. case_decide.
    + apply lift_Ok in Hd. apply law_read. by rewrite Hd.
    + destruct data as [d|]; [|done]. by injection Hd as -> ->.
Qed.

(** [ls] prints the names of the objects one per line, in order, and what it
    prints reads back as the same list. *)
Theorem ls_roundtrip `{!StreamsOpen W} f w w' :
  f_jsonOut f = false → RunE f lsCmd w = (Ok (), w') →
  ∃ names w1, List (newClient f) w = (Ok names, w1) ∧
    stdout w' = stdout w +:+ listing names ∧ list_names (listing names) = names.
Proof.
  simpl. unfold run_ls. intros -> (names & w1 & Hl & Hw)%bind_Ok. exists names, w1.
  split; [done|]. split.
  - destruct (Println_lines names w1) as (w2 & Hp & Hs). rewrite Hp in Hw. injection Hw as <-.
    rewrite Hs. f_equal. by rewrite <- (List_silent (newClient f) w), Hl.
  - unfold List in Hl. apply bind_Ok in Hl as ([body code] & w2 & _ & Hb). simpl in Hb.
    case_decide; [done|]. injection Hb as <- _.
    apply list_names_listing; [apply list_names_lines|apply sort_Strings_sorted].
Qed.

(** [metrics --json] fails exactly when a value of the page is infinite or not
    a number, which the parser accepts and JSON cannot express. *)
Theorem metrics_json_fails f w m w1 : f_jsonOut f = true →
  metrics_or_fail (newClient f) w = (Ok m, w1) →
  (∃ e w', RunE f metricsCmd w = (Err e, w')) ↔
  ∃ name v, Values m !! name = Some v ∧ finite v = false.
Proof.
  intros Hj Hm. simpl. unfold run_metrics. rewrite (bind_Ok_l _ _ _ _ _ Hm), Hj. unfold printJSON.
  assert ((∃ s, MarshalIndent (metrics_json m) = inr s) ↔
    ∀ name v, Values m !! name = Some v → finite v = true) as Henc.
  { unfold MarshalIndent, metrics_json. rewrite encode_map, !Forall_cons. simpl snd.
    rewrite encode_map, Forall_fmap. split.
    - intros (_ & Hf & _) name v Hv. rewrite Forall_forall in Hf. apply json_float_finite.
      apply (Hf (name, v)). by apply elem_of_map_to_list.
    - intros Hf. split; [by eexists|]. split; [|done]. apply Forall_forall.
      intros [name v] Hv%elem_of_map_to_list. by apply json_float_finite, (Hf name). }
  destruct (MarshalIndent (metrics_json m)) as [e|s] eqn:Hmar; split.
  - intros _. destruct (decide (map_Forall (λ _ v, finite v = true) (Values m))) as [Hall|Hnot].
    + destruct (proj2 Henc Hall) as [? [=]].
    + apply map_not_Forall in Hnot as (name & v & Hv & Hfin); [|apply _].
      exists name, v. split; [done|]. by destruct (finite v).
  - intros _. by exists e, w1.
  - intros (e & w' & Hf). done.
  - intros (name & v & Hv & Hfin). rewrite (proj1 Henc (ex_intro _ s eq_refl) name v Hv) in Hfin. done.
Qed.
End commands.
