(* ===== verification/CtlDemo.v ===== *)
(** * The dezhanctl theorems at concrete inputs

    A small object store answers the client of a process with its streams and a
    disk; the metrics page, the headers and the dashboard are run on given
    values. *)

From S2P Require Import Prelude GoStrings GoText ServerText GoUrl GoFloat GoJson S3Api CtlClient CtlSpec Interop CtlDashboard CtlCommands CtlCommandSpec.
Import AsciiTables.
Local Open Scope Z_scope.

#[local] Instance no_addresses : AddrParser := {| ParseAddr _ := inl (errorString "not an address") |}.

Definition answer (code : Z) (body : string) : Response :=
  {| rs_StatusCode := code; rs_Header := ∅; rs_Body := inr body |}.

(** The vault's objects, the streams of the process and its files. *)
Record shell := { store : gmap string string; out : string; errs : string; disk : gmap string string }.

Definition with_store (w : shell) (m : gmap string string) : shell :=
  {| store := m; out := out w; errs := errs w; disk := disk w |}.

Definition demo_vault : vault_state := {|
  Object_Count := 42; Quarantined_Count := 0; Audit_Length := 1234; Sealed := false;
  Now := 86400; Scrub_Runs := 7; Scrub_Corrupt := 0; Shards_Repaired := 3;
  Dir_Bytes := 1610612736; Denied_Deletes := 2; One_Way_Ingest := true; Sync_Window_Open := false |}.

(** [/v]: the names; [/v/<name>]: store, read and delete objects. *)
Definition demo_do (req : Request) (w : shell) : (error + Response) * shell :=
  let uri := RequestURI (rq_URL req) in
  let name := str_drop 3 uri in
  if decide (uri = "/metrics") then (inr (answer 200 (metrics_page demo_vault)), w)
  else if decide (uri = "/v") then (inr (answer 200 (listing (map_to_list (store w)).*1)), w)
  else if decide (rq_Method req = MethodPut)
  then (inr (answer 201 "stored"), with_store w (<[name := rq_Body req]> (store w)))
  else match store w !! name with
  | None => (inr (answer 404 "not found"), w)
  | Some v => if decide (rq_Method req = MethodDelete)
              then (inr (answer 200 "deleted"), with_store w (delete name (store w)))
              else (inr (answer 200 v), w)
  end.

#[local] Instance demo_http : HttpClient shell := {| http_Do := demo_do |}.

#[local] Instance demo_process : Process shell := {|
  os_Stdout s w := (inr (), {| store := store w; out := out w +:+ s; errs := errs w; disk := disk w |});
  os_Stderr s w := (inr (), {| store := store w; out := out w; errs := errs w +:+ s; disk := disk w |});
  os_ReadFile f w := (match disk w !! f with
                      | Some d => inr d
                      | None => inl (errorString ("open " +:+ f +:+ ": no such file or directory"))
                      end, w);
  os_WriteFile f d w :=
    (inr (), {| store := store w; out := out w; errs := errs w; disk := <[f := d]> (disk w) |});
  time_Now _ := 0;
  tea_Run _ w := (inl (errorString "could not open a new TTY"), w);
  GenCompletion _ w := (inr (), w) |}.

#[local] Instance demo_view : ProcessView shell := {|
  stdout := out; stderr := errs; file w f := disk w !! f |}.

#[local] Instance demo_laws : ProcessLaws shell.
Proof.
  split; simpl; try done.
  - intros s w. exists s. split; [done|]. split; [apply HasPrefix_spec; by exists ""; rewrite str_app_nil_r|done].
  - intros s w. by exists s.
  - intros req w. unfold demo_do. repeat case_match; done.
  - intros f w s. destruct (disk w !! f); naive_solver.
  - intros f d w _. apply lookup_insert_eq.
Qed.

#[local] Instance demo_open : StreamsOpen shell.
Proof. by split. Qed.

Lemma demo_address : address "http" "localhost:8443".
Proof.
  split; [reflexivity|]. split; [done|]. split; [|done].
  exists "localhost", ":8443". repeat split.
Qed.

Definition demo_headers : list (string * list string) :=
  [("Content-Type", ["text/plain"]); ("X-Dezhan-Mode", ["compliance"; "worm"]); ("Server", ["x"])].

Lemma interesting_headers_witness :
  interesting_headers demo_headers !! "x-dezhan-mode" = Some "compliance, worm" ↔
  ∃ k vs, (k, vs) ∈ demo_headers ∧ ToLower k = "x-dezhan-mode" ∧
    interesting "x-dezhan-mode" = true ∧ "compliance, worm" = String.concat ", " vs.
Proof.
  apply (interesting_headers_correct demo_headers "x-dezhan-mode" "compliance, worm").
  apply (bool_decide_unpack _). by vm_compute.
Defined.

Lemma object_request_target_witness :
  ∃ req, NewRequest "GET" (Endpoint (New ("http" +:+ "://" +:+ "localhost:8443" +:+ slashes 2))
      +:+ "/v/" +:+ "a/b.txt") ∅ "" = inr req ∧
    rq_Method req = "GET" ∧ RequestURI (rq_URL req) = "/v/" +:+ "a/b.txt" ∧
    u_Host (rq_URL req) = TrimSuffix "localhost:8443" ":" ∧ rq_Header req = ∅ ∧ rq_Body req = "".
Proof.
  apply (object_request_target "http" "localhost:8443" 2 "GET" "a/b.txt" ∅ "").
  - apply demo_address.
  - reflexivity.
Defined.

Definition demo_store : shell := {|
  store := <["report" := "keep me"]> (<["a/b" := "x"]> ∅); out := ""; errs := ""; disk := ∅ |}.
Definition demo_client : Client := {| Endpoint := "http" +:+ "://" +:+ "localhost:8443" |}.

(** Deleting [report#draft] deletes [report]. *)
Lemma hash_names_alias_witness :
  store (Delete demo_client "report#draft" false demo_store).2 = <["a/b" := "x"]> ∅ ∧
  (Delete demo_client ("report" +:+ "#" +:+ "draft") false demo_store).2 =
    (Delete demo_client "report" false demo_store).2.
Proof.
  split; [by vm_compute|].
  exact (proj1 (hash_names_alias (W := shell) "http" "localhost:8443" "report" "draft"
    "" "" 0 false demo_store demo_address eq_refl ltac:(by eexists))).
Defined.

Lemma metrics_page_read_witness :
  ∃ m, parse_metrics (metrics_page demo_vault) = Ok (m, None) ∧
    MVersion m = Version_Number ∧
    ∀ name help typ n, (name, help, typ, n) ∈ server_metrics demo_vault →
      metric m name = float_of_Z n ∧ format_f 0 (metric m name) = Itoa n.
Proof.
  apply (metrics_page_read demo_vault). repeat (apply Forall_cons; split; [simpl; lia|]).
  apply Forall_nil. exact I.
Defined.

Definition demo_head : string := "DELETE /v/report HTTP/1.1" +:+ crlf +:+ "Host: localhost" +:+ crlf.

Lemma bypass_never_honoured_witness :
  bypass_requested (head_with demo_head "1" crlf) = false ∧
  bypass_requested (head_with demo_head "true" crlf) = true.
Proof.
  destruct (bypass_never_honoured demo_head "1" crlf) as [Hf Ht]; [reflexivity|by vm_compute|].
  split; [exact Hf|]. apply Ht; [by vm_compute|reflexivity].
Defined.

Definition demo_snapshot : snapshotMsg := {|
  health := "ok"; version := "1.3.0"; metrics := None; objects := ["report"]; snap_err := None;
  at_time := 5 |}.

Definition demo_start : loop := start (NewModel demo_client "http://localhost:8443" 0).

(** A refresh by key, and the first fetch delivered. *)
Definition demo_loop : loop :=
  handle (handle demo_start (pending demo_start) (KeyMsg "r"))
    [CmdTick Second; CmdFetch] (SnapshotMsg demo_snapshot).


Lemma human_correct_witness :
  human (float_of_Z 1023) = Itoa 1023 +:+ " B" ∧
  (∃ (j : nat) u q, byte_units !! j = Some u ∧
     human (float_of_Z 1610612736) = Itoa (q / 10) +:+ "." +:+ Itoa (q `mod` 10) +:+ " " +:+ u ∧
     2 ^ (10 * Z.of_nat (S j)) <= 1610612736 ∧
     ((j < 4)%nat → 1610612736 < 2 ^ (10 * Z.of_nat (S (S j)))) ∧
     2 * Z.abs (q * 2 ^ (10 * Z.of_nat (S j)) - 10 * 1610612736) <= 2 ^ (10 * Z.of_nat (S j))).
Proof.
  split.
  - apply (human_correct 1023); lia.
  - apply (human_correct 1610612736); lia.
Defined.

(** ** The commands *)

#[local] Instance plain_terminal : Terminal := {|
  titleStyle s := s; panelStyle s := s; cardStyle s := s; labelStyle s := s; valueStyle s := s;
  footStyle s := s; errorStyle s := s; warnStyle s := s; badgeStyle _ s := s;
  boolBadgeStyle _ s := s; JoinHorizontal := String.concat ""; clock := Itoa |}.

Definition demo_flags : Flags :=
  default_flags (λ k, if decide (k = "DEZHAN_ENDPOINT") then "http://localhost:8443/" else "").

(** Reading an object that is not there. *)
Lemma exit_status_witness :
  (main (inr (demo_flags, getCmd "missing")) demo_store).1 = Some 1 ∧
  stdout (main (inr (demo_flags, getCmd "missing")) demo_store).2 = "".
Proof.
  pose proof (exit_status demo_flags (getCmd "missing") demo_store eq_refl) as Hm.
  destruct (main (inr (demo_flags, getCmd "missing")) demo_store) as [status w'] eqn:E.
  destruct Hm as [[_ Hr]|(Hs & Ho & _)].
  - vm_compute in Hr. discriminate Hr.
  - split; [exact Hs|exact Ho].
Defined.

Definition to_out : Flags := {|
  f_endpoint := f_endpoint demo_flags; f_adminToken := ""; f_jsonOut := true;
  f_getOutput := "out.bin"; f_putMode := "compliance"; f_putRetain := 60; f_putFile := "";
  f_delBypass := false; f_dashEvery := Second; f_dashOnce := false; f_dashFrame := false |}.

Lemma get_delivers_witness :
  ∃ b w1, Get (newClient to_out) "report" demo_store = (Ok b, w1) ∧
    disk (RunE to_out (getCmd "report") demo_store).2 !! "out.bin" = Some b.
Proof.
  destruct (get_delivers to_out "report" demo_store (RunE to_out (getCmd "report") demo_store).2)
    as (b & w1 & Hg & Hf & _).
  - vm_compute. reflexivity.
  - exists b, w1. split; [exact Hg|exact Hf].
Defined.

Lemma put_sends_witness :
  RunE demo_flags (putCmd "x" None) demo_store =
    (Err (errorString "provide <data> or --file"), demo_store) ∧
  (∃ b w1 w2 out', Put (newClient demo_flags) "x" b "compliance" 3600 w1 = (Ok out', w2) ∧ b = "data").
Proof.
  split.
  - apply (put_sends demo_flags "x" None demo_store); reflexivity.
  - destruct (proj2 (put_sends demo_flags "x" (Some "data") demo_store)
      (RunE demo_flags (putCmd "x" (Some "data")) demo_store).2) as (b & w1 & w2 & o & [Hb _] & Hp & _).
    + vm_compute. reflexivity.
    + exists b, w1, w2, o. split; [exact Hp|congruence].
Defined.

Lemma ls_roundtrip_witness :
  ∃ names w1, List (newClient demo_flags) demo_store = (Ok names, w1) ∧
    stdout (RunE demo_flags lsCmd demo_store).2 = stdout demo_store +:+ listing names ∧
    list_names (listing names) = names.
Proof.
  apply (ls_roundtrip demo_flags demo_store (RunE demo_flags lsCmd demo_store).2).
  - reflexivity.
  - vm_compute. reflexivity.
Defined.

Definition demo_metrics : Metrics :=
  match metrics_or_fail (newClient to_out) demo_store with
  | (Ok m, _) => m
  | _ => {| Values := ∅; MVersion := ""; Raw := "" |}
  end.

Lemma metrics_json_fails_witness :
  (∃ e w', RunE to_out metricsCmd demo_store = (Err e, w')) ↔
  ∃ name v, Values demo_metrics !! name = Some v ∧ finite v = false.
Proof.
  apply (metrics_json_fails to_out demo_store demo_metrics demo_store).
  - reflexivity.
  - vm_compute. reflexivity.
Defined.
