(* ===== verification/Gf256.v ===== *)
(** The arithmetic of GF(256) behind the erasure code of the trusted core
    (src/trusted_core/src/dezhan-trusted_core-erasure.adb): the operations on
    [Symbol] (Ada's [Unsigned_8]) that the body uses, its shift-and-add
    multiplication [Mul], square-and-multiply [Pow] and the total inverse
    [Inv], and the proof that they form a field of characteristic two.  The
    field laws are derived from bilinearity and finitely many products of
    powers of two; the [ring] tactic is then set up with coefficients in Z/2,
    so that it also cancels [x + x]. *)
From Stdlib Require Import Strings.Byte List Bool Arith NArith Lia Btauto Ring Ring_theory.
Import ListNotations.

(** * Unsigned_8 *)

(** One byte; [Interfaces.Unsigned_8]. *)
Definition Symbol : Type := Byte.byte.

Definition bits8 : Type := bool * (bool * (bool * (bool * (bool * (bool * (bool * bool)))))).

Definition lift2 (f : bool -> bool -> bool) (x y : bits8) : bits8 :=
  let '(a0, (a1, (a2, (a3, (a4, (a5, (a6, a7))))))) := x in
  let '(b0, (b1, (b2, (b3, (b4, (b5, (b6, b7))))))) := y in
  (f a0 b0, (f a1 b1, (f a2 b2, (f a3 b3, (f a4 b4, (f a5 b5, (f a6 b6, f a7 b7))))))).

(** [A xor B] *)
Definition sxor (a b : Symbol) : Symbol :=
  Byte.of_bits (lift2 xorb (Byte.to_bits a) (Byte.to_bits b)).

(** [(Y and 1) /= 0] *)
Definition low_bit (a : Symbol) : bool := fst (Byte.to_bits a).

(** [(X and 16#80#) /= 0] *)
Definition high_bit (a : Symbol) : bool :=
  let '(_, (_, (_, (_, (_, (_, (_, b7))))))) := Byte.to_bits a in b7.

(** [Shift_Left (X, 1)] *)
Definition Shift_Left1 (a : Symbol) : Symbol :=
  let '(b0, (b1, (b2, (b3, (b4, (b5, (b6, _))))))) := Byte.to_bits a in
  Byte.of_bits (false, (b0, (b1, (b2, (b3, (b4, (b5, b6))))))).

(** [Shift_Right (Y, 1)] *)
Definition Shift_Right1 (a : Symbol) : Symbol :=
  let '(_, (b1, (b2, (b3, (b4, (b5, (b6, b7))))))) := Byte.to_bits a in
  Byte.of_bits (b1, (b2, (b3, (b4, (b5, (b6, (b7, false))))))).

(** [Symbol (N)], for a number in range. *)
Definition symbol (n : nat) : Symbol :=
  match Byte.of_N (N.of_nat n) with Some b => b | None => x00 end.

(** * The operations of the body *)

(** The part of the loop of [Mul] that moves [X] on: shift and reduce by
    16#11D#. *)
Definition xtime (x : Symbol) : Symbol :=
  let s := Shift_Left1 x in if high_bit x then sxor s x1d else s.

(** The loop of [Mul] after [n] more rounds from the state [P], [X], [Y]. *)
Fixpoint mul_loop (n : nat) (p x y : Symbol) : Symbol :=
  match n with
  | O => p
  | S n => mul_loop n (if low_bit y then sxor p x else p) (xtime x) (Shift_Right1 y)
  end.

Definition Mul (a b : Symbol) : Symbol := mul_loop 8 x00 a b.

(** The [while] loop of [Pow]; [fuel] bounds the number of rounds. *)
Fixpoint pow_loop (fuel : nat) (r base : Symbol) (e : nat) : Symbol :=
  match fuel with
  | O => r
  | S fuel =>
      if (0 <? e)%nat then
        pow_loop fuel (if (e mod 2 =? 1)%nat then Mul r base else r) (Mul base base) (e / 2)
      else r
  end.

(** The exponent halves in every round, so [n] rounds are enough. *)
Definition Pow (a : Symbol) (n : nat) : Symbol := pow_loop n x01 a n.

Definition Inv (a : Symbol) : Symbol := if Byte.eqb a x00 then x00 else Pow a 254.

Declare Scope gf_scope.
Delimit Scope gf_scope with gf.
Infix "+" := sxor : gf_scope.
Infix "*" := Mul : gf_scope.
Notation "0" := x00 : gf_scope.
Notation "1" := x01 : gf_scope.
Open Scope gf_scope.

(** * The additive group *)

Lemma to_bits_sxor a b :
  Byte.to_bits (a + b) = lift2 xorb (Byte.to_bits a) (Byte.to_bits b).
Proof. apply Byte.to_bits_of_bits. Qed.

Lemma to_bits_inj a b : Byte.to_bits a = Byte.to_bits b -> a = b.
Proof. intros E. now rewrite <- (Byte.of_bits_to_bits a), E, Byte.of_bits_to_bits. Qed.

(** An equation of bit tuples, bit by bit. *)
Ltac bits_eq := cbn [lift2]; repeat (apply (f_equal2 pair); [btauto|]); btauto.

Lemma sxor_comm a b : a + b = b + a.
Proof.
  apply to_bits_inj. rewrite !to_bits_sxor.
  destruct (Byte.to_bits a) as (?&?&?&?&?&?&?&?), (Byte.to_bits b) as (?&?&?&?&?&?&?&?).
  bits_eq.
Qed.

Lemma sxor_assoc a b c : a + (b + c) = a + b + c.
Proof.
  apply to_bits_inj. rewrite !to_bits_sxor.
  destruct (Byte.to_bits a) as (?&?&?&?&?&?&?&?), (Byte.to_bits b) as (?&?&?&?&?&?&?&?),
    (Byte.to_bits c) as (?&?&?&?&?&?&?&?).
  bits_eq.
Qed.

Lemma sxor_0_l a : 0 + a = a.
Proof. now destruct a. Qed.

Lemma sxor_nilpotent a : a + a = 0.
Proof. now destruct a. Qed.

(** * Linear maps *)

Definition linear (f : Symbol -> Symbol) : Prop := forall a b, f (a + b) = f a + f b.

Lemma linear_0 f : linear f -> f 0 = 0.
Proof.
  intros L. pose proof (L 0 0) as E. change (0 + 0) with 0 in E.
  now rewrite sxor_nilpotent in E.
Qed.

Definition basis : list Symbol := [x01; x02; x04; x08; x10; x20; x40; x80].

(** A set of symbols closed under xor that holds zero and the powers of two
    holds every symbol. *)
Lemma basis_ind (P : Symbol -> Prop) :
  P 0 -> (forall b, In b basis -> P b) -> (forall a b, P a -> P b -> P (a + b)) ->
  forall a, P a.
Proof.
  intros P0 Pb Px a.
  pose (bit := fun (c : bool) (b : Symbol) => if c then b else 0).
  assert (B : forall c b, In b basis -> P (bit c b)) by (intros [] b Hb; [now apply Pb | exact P0]).
  assert (E : a = let '(b0, (b1, (b2, (b3, (b4, (b5, (b6, b7))))))) := Byte.to_bits a in
    bit b0 x01 + (bit b1 x02 + (bit b2 x04 + (bit b3 x08 + (bit b4 x10 + (bit b5 x20 + (bit b6 x40
      + bit b7 x80)))))))
    by now destruct a.
  rewrite E. destruct (Byte.to_bits a) as (?&?&?&?&?&?&?&?).
  repeat apply Px; apply B; cbn; tauto.
Qed.

Lemma linear_ext f g :
  linear f -> linear g -> forallb (fun b => Byte.eqb (f b) (g b)) basis = true ->
  forall a, f a = g a.
Proof.
  intros F G E. rewrite forallb_forall in E. apply basis_ind.
  - now rewrite (linear_0 f F), (linear_0 g G).
  - intros b Hb. apply Byte.byte_dec_bl, E, Hb.
  - intros a b Ea Eb. now rewrite F, G, Ea, Eb.
Qed.

Lemma xtime_linear : linear xtime.
Proof.
  intros a b. apply to_bits_inj. rewrite to_bits_sxor. unfold xtime, high_bit, Shift_Left1.
  rewrite !to_bits_sxor.
  destruct (Byte.to_bits a) as (a0&a1&a2&a3&a4&a5&a6&a7), (Byte.to_bits b) as (b0&b1&b2&b3&b4&b5&b6&b7).
  cbn [lift2].
  destruct a7, b7; cbn [xorb]; rewrite ?to_bits_sxor, ?Byte.to_bits_of_bits; cbn [lift2 Byte.to_bits];
    bits_eq.
Qed.

Lemma low_bit_sxor a b : low_bit (a + b) = xorb (low_bit a) (low_bit b).
Proof.
  unfold low_bit. rewrite to_bits_sxor.
  now destruct (Byte.to_bits a) as (?&?&?&?&?&?&?&?), (Byte.to_bits b) as (?&?&?&?&?&?&?&?).
Qed.

Lemma Shift_Right1_linear : linear Shift_Right1.
Proof.
  intros a b. apply to_bits_inj. rewrite to_bits_sxor. unfold Shift_Right1. rewrite !to_bits_sxor.
  destruct (Byte.to_bits a) as (?&?&?&?&?&?&?&?), (Byte.to_bits b) as (?&?&?&?&?&?&?&?).
  cbn [lift2]. now rewrite !Byte.to_bits_of_bits.
Qed.

(** The abelian group alone: enough to rearrange sums before [ring] exists. *)
Lemma sxor_swap a b c d : a + b + (c + d) = a + c + (b + d).
Proof. rewrite !sxor_assoc. f_equal. now rewrite <- !sxor_assoc, (sxor_comm b). Qed.

Lemma mul_loop_linear_l n : forall p q x x' y,
  mul_loop n (p + q) (x + x') y = mul_loop n p x y + mul_loop n q x' y.
Proof.
  induction n as [|n IH]; intros p q x x' y; cbn [mul_loop]; [reflexivity|].
  rewrite xtime_linear, <- IH. now destruct (low_bit y); rewrite 1?sxor_swap.
Qed.

Lemma mul_loop_linear_r n : forall p q x y y',
  mul_loop n (p + q) x (y + y') = mul_loop n p x y + mul_loop n q x y'.
Proof.
  induction n as [|n IH]; intros p q x y y'; cbn [mul_loop]; [reflexivity|].
  rewrite Shift_Right1_linear, <- IH, low_bit_sxor. f_equal.
  destruct (low_bit y), (low_bit y'); cbn [xorb].
  - now rewrite sxor_swap, sxor_nilpotent, (sxor_comm _ 0), sxor_0_l.
  - now rewrite <- !sxor_assoc, (sxor_comm q).
  - now rewrite sxor_assoc.
  - reflexivity.
Qed.

Lemma Mul_linear_l b : linear (fun a => a * b).
Proof. intros x y. unfold Mul. rewrite <- mul_loop_linear_l. reflexivity. Qed.

Lemma Mul_linear_r a : linear (Mul a).
Proof. intros x y. unfold Mul. rewrite <- mul_loop_linear_r. reflexivity. Qed.

#[local] Hint Resolve Mul_linear_l Mul_linear_r : core.

(** Two bilinear maps that agree on the powers of two are equal. *)
Lemma bilinear_ext f g :
  (forall b, linear (fun a => f a b)) -> (forall a, linear (f a)) ->
  (forall b, linear (fun a => g a b)) -> (forall a, linear (g a)) ->
  forallb (fun a => forallb (fun b => Byte.eqb (f a b) (g a b)) basis) basis = true ->
  forall a b, f a b = g a b.
Proof.
  intros F1 F2 G1 G2 E a b. rewrite forallb_forall in E.
  revert a. apply basis_ind.
  - now rewrite (linear_0 _ (F1 b)), (linear_0 _ (G1 b)).
  - intros a Ha. apply (linear_ext (f a) (g a)); auto.
  - intros a c Ea Ec. now rewrite (F1 b a c), (G1 b a c), Ea, Ec.
Qed.

Lemma Mul_comm a b : a * b = b * a.
Proof. apply (bilinear_ext Mul (fun a b => b * a)); auto. Qed.

Lemma Mul_linear_l2 b c : linear (fun a => a * b * c).
Proof. intros x y. now rewrite (Mul_linear_l b x y), (Mul_linear_l c). Qed.

Lemma Mul_assoc a b c : a * (b * c) = a * b * c.
Proof.
  revert a b. refine (bilinear_ext (fun a b => a * (b * c)) (fun a b => a * b * c) _ _ _ _ _); auto.
  - intros a x y. now rewrite (Mul_linear_l c x y), Mul_linear_r.
  - intros b. apply (Mul_linear_l2 b c).
  - intros a x y. now rewrite Mul_linear_r, (Mul_linear_l c).
  - apply forallb_forall. intros a Ha. apply forallb_forall. intros b Hb.
    apply Byte.byte_dec_lb.
    apply (linear_ext (fun c => a * (b * c)) (Mul (a * b))); auto.
    + intros x y. now rewrite !Mul_linear_r.
    + revert b Hb. apply forallb_forall. revert a Ha. apply forallb_forall. vm_compute. reflexivity.
Qed.

Lemma Mul_1_l a : 1 * a = a.
Proof. apply (linear_ext (Mul 1) (fun a => a)); auto. now intros ??. Qed.

(** * The field *)

Lemma gf_ring_theory : ring_theory (R := Symbol) 0 1 sxor Mul sxor (fun a => a) (@eq Symbol).
Proof.
  constructor.
  - apply sxor_0_l.
  - apply sxor_comm.
  - apply sxor_assoc.
  - apply Mul_1_l.
  - apply Mul_comm.
  - apply Mul_assoc.
  - intros a b c. apply (Mul_linear_l c).
  - reflexivity.
  - apply sxor_nilpotent.
Qed.

Definition of_bool (b : bool) : Symbol := if b then 1 else 0.

Lemma gf_morph :
  ring_morph (R := Symbol) 0 1 sxor Mul sxor (fun a => a) (@eq Symbol)
    false true xorb andb xorb (fun b => b) Bool.eqb of_bool.
Proof.
  constructor; try reflexivity; repeat intros []; try reflexivity; discriminate.
Qed.

Ltac gf_const t := match t with 0%gf => constr:(false) | 1%gf => constr:(true) | _ => constr:(NotConstant) end.
Add Ring gf_ring : gf_ring_theory (morphism gf_morph, constants [gf_const]).

(** [ring], also where a side is a constant. *)
Ltac gf_ring := first [reflexivity | ring | symmetry; ring].

Definition symbols : list Symbol :=
  flat_map (fun n => match Byte.of_N n with Some b => [b] | None => [] end)
    (map N.of_nat (seq 0 256)).

Lemma symbols_complete a : In a symbols.
Proof.
  unfold symbols. apply in_flat_map. exists (Byte.to_N a). rewrite Byte.of_to_N. split; [|now left].
  apply in_map_iff. exists (N.to_nat (Byte.to_N a)). rewrite N2Nat.id. split; [reflexivity|].
  apply in_seq. pose proof (Byte.to_N_bounded a). lia.
Qed.

Lemma Mul_Inv a : a <> 0 -> a * Inv a = 1.
Proof.
  assert (E : forallb (fun a => Byte.eqb a 0 || Byte.eqb (a * Inv a) 1) symbols = true)
    by (vm_compute; reflexivity).
  rewrite forallb_forall in E. intros N.
  specialize (E a (symbols_complete a)). apply orb_true_iff in E as [E|E];
    apply Byte.byte_dec_bl in E; [contradiction|exact E].
Qed.

Lemma Mul_eq_0 a b : a * b = 0 -> a <> 0 -> b = 0.
Proof.
  intros E N. rewrite <- (Mul_1_l b), <- (Mul_Inv a N), (Mul_comm a), <- Mul_assoc, E. ring.
Qed.

Lemma sxor_eq_0 a b : a + b = 0 -> a = b.
Proof. intros E. replace b with (a + (a + b)) by ring. rewrite E. ring. Qed.

Lemma sxor_neq a b : a <> b -> a + b <> 0.
Proof. intros N E. now apply N, sxor_eq_0. Qed.

Lemma Inv_neq_0 a : a <> 0 -> Inv a <> 0.
Proof.
  intros N E. pose proof (Mul_Inv a N) as H. rewrite E in H.
  assert (Z : a * 0 = 0) by ring. rewrite Z in H. discriminate H.
Qed.
