(* ===== verification/Erasure.v ===== *)
(** The erasure code of the trusted core
    (src/trusted_core/src/dezhan-trusted_core-erasure.adb): systematic
    Reed-Solomon coding over GF(256) with a Cauchy matrix.  [Encode], the
    Gauss-Jordan inversion [Invert] and [Reconstruct] are translated loop by
    loop over Ada arrays, which are functions of their indices here.

    The body of the package is checked by its authors for run-time errors
    only and leaves reconstruction to a test.  Here it is a theorem: any [K]
    of the [K + M] shards give back the data and fewer are refused
    ([erasure_recovers]).  The proof has three parts: the loops
    compute the row operations they are meant to; row operations keep the
    solutions of the linear system, so a missing pivot gives a kernel vector
    of the coding matrix; and no square part of a Cauchy matrix bordered by
    unit rows has one. *)
From Stdlib Require Import Strings.Byte List Bool Arith NArith Lia Ring Permutation.
From S2P Require Import Gf256.
Import ListNotations.
Open Scope gf_scope.

(** * Ada loops and arrays *)

(** [for I in lo .. hi loop body end loop] *)
Definition for_loop {S : Type} (lo hi : nat) (body : nat -> S -> S) (s : S) : S :=
  fold_left (fun s i => body i s) (seq lo (hi + 1 - lo)) s.

(** A two-dimensional array of symbols. *)
Definition Block : Type := nat -> nat -> Symbol.

Definition zeros : Block := fun _ _ => 0.

(** [M (R, C) := V] *)
Definition set (m : Block) (r c : nat) (v : Symbol) : Block :=
  fun i j => if (i =? r)%nat && (j =? c)%nat then v else m i j.

(** * The code *)

Definition Max_Data : nat := 8.
Definition Max_Parity : nat := 8.
Definition Max_Shard_Length : nat := 1024.

Definition X_Point (i : nat) : Symbol := symbol (Max_Data + i - 1).
Definition Y_Point (j : nat) : Symbol := symbol (j - 1).

(** Parity row [i], data column [j]. *)
Definition Coeff (i j : nat) : Symbol := Inv (X_Point i + Y_Point j).

Definition Encode (K M L : nat) (Data : Block) : Block :=
  for_loop 1 M (fun i Parity =>
    for_loop 1 L (fun b Parity =>
      set Parity i b
        (for_loop 1 K (fun j Acc => Acc + Coeff i j * Data j b) 0))
      Parity)
    zeros.

(** The two matrices that [Invert] works on. *)
Record work : Type := Work { Mtx : Block; Idn : Block }.

(** The first row at or below the diagonal with a non-zero entry in column
    [Col], or zero. *)
Definition find_pivot (K Col : nat) (w : work) : nat :=
  for_loop Col K (fun R Piv =>
    if (Piv =? 0)%nat && negb (Byte.eqb (Mtx w R Col) 0) then R else Piv) 0%nat.

Definition swap_rows (K Col Piv : nat) (w : work) : work :=
  if (Piv =? Col)%nat then w
  else for_loop 1 K (fun J w =>
    let T1 := Mtx w Col J in
    let T2 := Idn w Col J in
    let w := Work (set (Mtx w) Col J (Mtx w Piv J)) (Idn w) in
    let w := Work (set (Mtx w) Piv J T1) (Idn w) in
    let w := Work (Mtx w) (set (Idn w) Col J (Idn w Piv J)) in
    Work (Mtx w) (set (Idn w) Piv J T2)) w.

Definition normalize_row (K Col : nat) (w : work) : work :=
  let Inv_P := Inv (Mtx w Col Col) in
  for_loop 1 K (fun J w =>
    let w := Work (set (Mtx w) Col J (Mtx w Col J * Inv_P)) (Idn w) in
    Work (Mtx w) (set (Idn w) Col J (Idn w Col J * Inv_P))) w.

Definition eliminate_row (K Col R : nat) (w : work) : work :=
  let Factor := Mtx w R Col in
  for_loop 1 K (fun J w =>
    let w := Work (set (Mtx w) R J (Mtx w R J + Factor * Mtx w Col J)) (Idn w) in
    Work (Mtx w) (set (Idn w) R J (Idn w R J + Factor * Idn w Col J))) w.

Definition eliminate (K Col : nat) (w : work) : work :=
  for_loop 1 K (fun R w => if (R =? Col)%nat then w else eliminate_row K Col R w) w.

(** One round of the column loop of [Invert]; [None] is its early return. *)
Definition invert_col (K Col : nat) (w : work) : option work :=
  let Piv := find_pivot K Col w in
  if (Piv =? 0)%nat then None
  else Some (eliminate K Col (normalize_row K Col (swap_rows K Col Piv w))).

Definition invert_loop (K : nat) : list nat -> work -> option work :=
  fix loop cols w :=
    match cols with
    | [] => Some w
    | Col :: cols => match invert_col K Col w with None => None | Some w => loop cols w end
    end.

(** [A_Out] and [Success]. *)
Definition Invert (K : nat) (A_In : Block) : Block * bool :=
  let Idn0 := for_loop 1 K (fun I m => set m I I 1) zeros in
  match invert_loop K (seq 1 K) (Work A_In Idn0) with
  | None => (zeros, false)
  | Some w => (Idn w, true)
  end.

(** The chosen rows and their number: [Sel] and [Cnt]. *)
Definition choose (K N : nat) (Present : nat -> bool) : (nat -> nat) * nat :=
  for_loop 1 N (fun I '(Sel, Cnt) =>
    if Present I && (Cnt <? K)%nat
    then (fun t => if (t =? Cnt + 1)%nat then I else Sel t, (Cnt + 1)%nat)
    else (Sel, Cnt)) (fun _ => 1%nat, 0%nat).

(** The rows of the coding matrix that belong to the chosen shards. *)
Definition submatrix (K : nat) (Sel : nat -> nat) : Block :=
  for_loop 1 K (fun T A =>
    let R := Sel T in
    for_loop 1 K (fun J A =>
      if (R <=? K)%nat then set A T J (if (R =? J)%nat then 1 else 0)
      else set A T J (Coeff (R - K) J)) A) zeros.

(** [Data] and [Success]. *)
Definition Reconstruct (K M L : nat) (Present : nat -> bool) (Shards : Block) : Block * bool :=
  let N := (K + M)%nat in
  let '(Sel, Cnt) := choose K N Present in
  if (Cnt <? K)%nat then (zeros, false)
  else
    let '(A_Inv, ok) := Invert K (submatrix K Sel) in
    if negb ok then (zeros, false)
    else
      (for_loop 1 K (fun J Data =>
         for_loop 1 L (fun B Data =>
           set Data J B
             (for_loop 1 K (fun T Acc => Acc + A_Inv J T * Shards (Sel T) B) 0)) Data) zeros,
       true).

(** * Loops *)

Lemma for_loop_rule {S : Type} (P : nat -> S -> Prop) lo hi body s :
  (lo <= hi + 1)%nat -> P lo s ->
  (forall i s, (lo <= i <= hi)%nat -> P i s -> P (i + 1)%nat (body i s)) ->
  P (hi + 1)%nat (for_loop lo hi body s).
Proof.
  intros Hle H0 Hstep. unfold for_loop.
  assert (G : forall n i s, (i + n = hi + 1)%nat -> (lo <= i)%nat -> P i s ->
    P (hi + 1)%nat (fold_left (fun s i => body i s) (seq i n) s)).
  { induction n as [|n IH]; intros i s' E Hi Hs; cbn [seq fold_left].
    - now replace (hi + 1)%nat with i by lia.
    - apply IH; [lia..|]. replace (Datatypes.S i) with (i + 1)%nat by lia. apply Hstep; [lia|assumption]. }
  apply G; [lia..|assumption].
Qed.

Lemma for_loop_ext {S : Type} lo hi (body body' : nat -> S -> S) :
  (forall i s, body i s = body' i s) -> forall s, for_loop lo hi body s = for_loop lo hi body' s.
Proof.
  intros E. unfold for_loop. induction (seq lo (hi + 1 - lo)) as [|i l IH]; intros s; [reflexivity|].
  cbn [fold_left]. now rewrite E, IH.
Qed.

(** Decides the index comparisons of a goal about array cells. *)
Ltac cells :=
  repeat match goal with
  | |- context [(?a =? ?b)%nat] => destruct (Nat.eqb_spec a b); subst; cbn [andb]
  | |- context [(?a <=? ?b)%nat] => destruct (Nat.leb_spec a b); cbn [andb]
  | |- context [(?a <? ?b)%nat] => destruct (Nat.ltb_spec a b); cbn [andb]
  end; try lia.

(** A loop that writes a row from values that do not depend on the array. *)
Lemma write_row L i (g : nat -> Symbol) m r c :
  for_loop 1 L (fun b m => set m i b (g b)) m r c
  = if (r =? i)%nat && (1 <=? c)%nat && (c <=? L)%nat then g c else m r c.
Proof.
  assert (H : forall r c, for_loop 1 L (fun b m => set m i b (g b)) m r c
     = if (r =? i)%nat && (1 <=? c)%nat && (c <? L + 1)%nat then g c else m r c).
  { apply (for_loop_rule (fun n m' => forall r c, m' r c
      = if (r =? i)%nat && (1 <=? c)%nat && (c <? n)%nat then g c else m r c)); [lia| |].
    - intros r' c'. cells; reflexivity.
    - intros b m' Hb IH r' c'. unfold set. rewrite IH. cells; reflexivity. }
  rewrite H. cells; reflexivity.
Qed.

Lemma write_block M L (g : nat -> nat -> Symbol) r c :
  for_loop 1 M (fun i m => for_loop 1 L (fun b m => set m i b (g i b)) m) zeros r c
  = if (1 <=? r)%nat && (r <=? M)%nat && (1 <=? c)%nat && (c <=? L)%nat then g r c else 0.
Proof.
  assert (H : forall r c,
    for_loop 1 M (fun i m => for_loop 1 L (fun b m => set m i b (g i b)) m) zeros r c
    = if (1 <=? r)%nat && (r <? M + 1)%nat && (1 <=? c)%nat && (c <=? L)%nat then g r c else 0).
  { apply (for_loop_rule (fun n m' => forall r c, m' r c
      = if (1 <=? r)%nat && (r <? n)%nat && (1 <=? c)%nat && (c <=? L)%nat then g r c else 0)); [lia| |].
    - intros r' c'. cells; reflexivity.
    - intros i m' Hi IH r' c'. rewrite write_row, IH. cells; reflexivity. }
  rewrite H. cells; reflexivity.
Qed.

(** * Sums *)

Definition lsum (f : nat -> Symbol) (l : list nat) : Symbol :=
  fold_right (fun j a => f j + a) 0 l.

Lemma lsum_cons f j l : lsum f (j :: l) = f j + lsum f l.
Proof. reflexivity. Qed.

Lemma lsum_ext f g l : (forall j, In j l -> f j = g j) -> lsum f l = lsum g l.
Proof.
  induction l as [|j l IH]; intros E; [reflexivity|]. rewrite !lsum_cons.
  f_equal; [apply E; now left|apply IH; intros; apply E; now right].
Qed.

Lemma lsum_add f g l : lsum (fun j => f j + g j) l = lsum f l + lsum g l.
Proof. induction l as [|j l IH]; [reflexivity|]. rewrite !lsum_cons, IH. ring. Qed.

Lemma lsum_mul c f l : lsum (fun j => c * f j) l = c * lsum f l.
Proof.
  induction l as [|j l IH]; [|rewrite !lsum_cons, IH; ring].
  change (lsum (fun j => c * f j) []) with (0 : Symbol). symmetry. cbn [lsum fold_right]. ring.
Qed.

Lemma lsum_filter (f : nat -> Symbol) (p : nat -> bool) l :
  (forall j, In j l -> p j = false -> f j = 0) -> lsum f l = lsum f (filter p l).
Proof.
  induction l as [|j l IH]; intros E; [reflexivity|]. rewrite lsum_cons, IH by (intros; apply E; [now right|assumption]).
  cbn [filter]. destruct (p j) eqn:Hp; [reflexivity|].
  rewrite (E j) by (first [now left | assumption]). apply sxor_0_l.
Qed.

Lemma lsum_0 (f : nat -> Symbol) l : (forall j, In j l -> f j = 0) -> lsum f l = 0.
Proof.
  intros E. rewrite (lsum_filter f (fun _ => false)) by (intros; now apply E).
  clear E. now induction l.
Qed.

Lemma lsum_delta (f : nat -> Symbol) l r :
  NoDup l -> In r l -> lsum (fun j => (if (r =? j)%nat then 1 else 0) * f j) l = f r.
Proof.
  induction l as [|j l IH]; intros Hnd Hin; [destruct Hin|].
  apply NoDup_cons_iff in Hnd as [Hj Hnd]. rewrite lsum_cons.
  destruct (Nat.eqb_spec r j) as [->|Hne].
  - rewrite lsum_0; [ring|]. intros i Hi. destruct (Nat.eqb_spec j i); [congruence|]. ring.
  - destruct Hin as [->|Hin]; [congruence|]. rewrite (IH Hnd Hin). ring.
Qed.

Lemma acc_lsum K (f : nat -> Symbol) : for_loop 1 K (fun j Acc => Acc + f j) 0 = lsum f (seq 1 K).
Proof.
  unfold for_loop. replace (K + 1 - 1)%nat with K by lia.
  assert (G : forall l a, fold_left (fun s i => s + f i) l a = a + lsum f l).
  { induction l as [|j l IH]; intros a; cbn [fold_left]; [cbn [lsum fold_right]; ring|].
    rewrite IH, lsum_cons. ring. }
  rewrite G. apply sxor_0_l.
Qed.

(** The product of a row and a vector, both of length [K]. *)
Definition dot (K : nat) (m x : nat -> Symbol) : Symbol := lsum (fun j => m j * x j) (seq 1 K).

Lemma in_range K j : In j (seq 1 K) <-> (1 <= j <= K)%nat.
Proof. rewrite in_seq. lia. Qed.

Lemma dot_ext K m m' x x' :
  (forall j, (1 <= j <= K)%nat -> m j = m' j) -> (forall j, (1 <= j <= K)%nat -> x j = x' j) ->
  dot K m x = dot K m' x'.
Proof. intros E E'. apply lsum_ext. intros j Hj%in_range. now rewrite E, E'. Qed.

Lemma dot_add K m m' x : dot K (fun j => m j + m' j) x = dot K m x + dot K m' x.
Proof. unfold dot. rewrite <- lsum_add. apply lsum_ext. intros. ring. Qed.

Lemma dot_mul K c m x : dot K (fun j => c * m j) x = c * dot K m x.
Proof. unfold dot. rewrite <- lsum_mul. apply lsum_ext. intros. ring. Qed.

Lemma dot_unit K r x :
  (1 <= r <= K)%nat -> dot K (fun j => if (r =? j)%nat then 1 else 0) x = x r.
Proof. intros Hr. apply lsum_delta; [apply seq_NoDup|now apply in_range]. Qed.

(** * The row operations *)

(** The linear system that a pair of matrices stands for: row [r] of [Mtx]
    times [x] is row [r] of [Idn] times [s]. *)
Definition solves (K : nat) (w : work) (x s : nat -> Symbol) : Prop :=
  forall r, (1 <= r <= K)%nat -> dot K (Mtx w r) x = dot K (Idn w r) s.

(** [w'] has the rows of [w] after the map [f] on rows, for columns in
    range. *)
Definition rows_are (K : nat) (f : (nat -> nat -> Symbol) -> nat -> nat -> Symbol) (w w' : work) : Prop :=
  forall r j, (1 <= r <= K)%nat -> (1 <= j <= K)%nat ->
    Mtx w' r j = f (Mtx w) r j /\ Idn w' r j = f (Idn w) r j.

Definition swapped (Col Piv : nat) (m : Block) : Block :=
  fun r => if (r =? Col)%nat then m Piv else if (r =? Piv)%nat then m Col else m r.

Definition normalized (Col : nat) (p : Symbol) (m : Block) : Block :=
  fun r j => if (r =? Col)%nat then p * m Col j else m r j.

Definition eliminated (Col : nat) (fct : nat -> Symbol) (m : Block) : Block :=
  fun r j => if (r =? Col)%nat then m Col j else m r j + fct r * m Col j.

(** A loop over the columns whose round [J] maps column [J] of both matrices
    by [f] and leaves the rest maps the whole matrix by [f]. *)
Lemma column_loop (f : Block -> Block) K body w :
  (forall m m' j, (forall r, m r j = m' r j) -> forall r, f m r j = f m' r j) ->
  (forall J w r j, (1 <= J <= K)%nat ->
    Mtx (body J w) r j = (if (j =? J)%nat then f (Mtx w) r j else Mtx w r j) /\
    Idn (body J w) r j = (if (j =? J)%nat then f (Idn w) r j else Idn w r j)) ->
  rows_are K f w (for_loop 1 K body w).
Proof.
  intros Hf Hbody.
  pose (upto := fun n (m m' : Block) => forall r j,
    m' r j = if (1 <=? j)%nat && (j <? n)%nat then f m r j else m r j).
  assert (Step : forall J (m m1 m2 : Block), (1 <= J <= K)%nat -> upto J m m1 ->
    (forall r j, m2 r j = if (j =? J)%nat then f m1 r j else m1 r j) -> upto (J + 1)%nat m m2).
  { intros J m m1 m2 HJ I1 E2 r j. rewrite E2. destruct (Nat.eqb_spec j J) as [E|].
    - subst j. rewrite (Hf _ m) by (intros r'; rewrite I1; now cells). now cells.
    - rewrite I1. now cells. }
  assert (G : upto (K + 1)%nat (Mtx w) (Mtx (for_loop 1 K body w)) /\
              upto (K + 1)%nat (Idn w) (Idn (for_loop 1 K body w))).
  { apply (for_loop_rule (fun n w' => upto n (Mtx w) (Mtx w') /\ upto n (Idn w) (Idn w'))); [lia| |].
    - split; intros r j; now cells.
    - intros J w' HJ [IM II]. split; eapply Step; eauto; intros r j; apply (Hbody J w' r j HJ). }
  intros r j Hr Hj. destruct G as [GM GI]. rewrite GM, GI. now cells.
Qed.

Lemma swap_rows_spec K Col Piv w : rows_are K (swapped Col Piv) w (swap_rows K Col Piv w).
Proof.
  unfold swap_rows. destruct (Nat.eqb_spec Piv Col) as [->|Hne].
  - intros r j _ _. unfold swapped. now cells.
  - apply column_loop.
    + intros m m' j E r. unfold swapped. now cells.
    + intros J w' r j HJ. cbn [Mtx Idn]. unfold set, swapped. now cells.
Qed.

Lemma normalize_row_spec K Col w :
  rows_are K (normalized Col (Inv (Mtx w Col Col))) w (normalize_row K Col w).
Proof.
  apply column_loop.
  - intros m m' j E r. unfold normalized. cells; now rewrite E.
  - intros J w' r j HJ. cbn [Mtx Idn]. unfold set, normalized. cells; split; auto using Mul_comm.
Qed.

Lemma eliminate_row_spec K Col R w : R <> Col ->
  rows_are K (fun m r j => if (r =? R)%nat then m R j + Mtx w R Col * m Col j else m r j)
    w (eliminate_row K Col R w).
Proof.
  intros Hne. apply column_loop.
  - intros m m' j E r. cells; now rewrite !E.
  - intros J w' r j HJ. cbn [Mtx Idn]. unfold set. now cells.
Qed.

Lemma eliminate_spec K Col w : (1 <= Col <= K)%nat ->
  rows_are K (eliminated Col (fun r => Mtx w r Col)) w (eliminate K Col w).
Proof.
  intros HCol.
  pose (upto := fun n (m : Block) r j =>
    if (r <? n)%nat then eliminated Col (fun r => Mtx w r Col) m r j else m r j).
  assert (G : rows_are K (upto (K + 1)%nat) w (eliminate K Col w)).
  { apply (for_loop_rule (fun n w' => rows_are K (upto n) w w')); [lia| |].
    - intros r j Hr Hj. unfold upto. now cells.
    - intros R w' HR IH r j Hr Hj. destruct (Nat.eqb_spec R Col) as [->|Hne].
      + destruct (IH r j Hr Hj) as [-> ->]. unfold upto, eliminated. now cells.
      + destruct (eliminate_row_spec K Col R w' Hne r j Hr Hj) as [-> ->].
        destruct (IH r j Hr Hj) as [-> ->]. destruct (IH R j HR Hj) as [-> ->].
        destruct (IH Col j HCol Hj) as [-> ->]. destruct (IH R Col HR HCol) as [-> _].
        unfold upto, eliminated. now cells. }
  intros r j Hr Hj. destruct (G r j Hr Hj) as [-> ->]. unfold upto. now cells.
Qed.

(** * Row operations keep the solutions *)

Lemma solves_rows K f w w' x s : rows_are K f w w' ->
  solves K w' x s <-> (forall r, (1 <= r <= K)%nat -> dot K (f (Mtx w) r) x = dot K (f (Idn w) r) s).
Proof.
  intros R. assert (E : forall r, (1 <= r <= K)%nat ->
    dot K (Mtx w' r) x = dot K (f (Mtx w) r) x /\ dot K (Idn w' r) s = dot K (f (Idn w) r) s).
  { intros r Hr. split; apply dot_ext; try reflexivity; intros j Hj; apply (R r j Hr Hj). }
  split; intros G r Hr; destruct (E r Hr) as [E1 E2]; specialize (G r Hr); congruence.
Qed.

Lemma swap_rows_solves K Col Piv w x s : (1 <= Col <= K)%nat -> (1 <= Piv <= K)%nat ->
  solves K (swap_rows K Col Piv w) x s <-> solves K w x s.
Proof.
  intros HC HP. rewrite (solves_rows _ _ _ _ _ _ (swap_rows_spec K Col Piv w)). unfold swapped, solves.
  split; intros G r Hr.
  - pose proof (G Col HC) as G1. pose proof (G Piv HP) as G2. specialize (G r Hr).
    revert G G1 G2. now cells.
  - now cells; apply G.
Qed.

Lemma normalize_row_solves K Col w x s : (1 <= Col <= K)%nat -> Mtx w Col Col <> 0 ->
  solves K (normalize_row K Col w) x s <-> solves K w x s.
Proof.
  intros HC Hp. rewrite (solves_rows _ _ _ _ _ _ (normalize_row_spec K Col w)). unfold normalized, solves.
  split; intros G r Hr; specialize (G r Hr); destruct (Nat.eqb_spec r Col) as [E|]; try exact G; subst r.
  - rewrite !dot_mul in G. apply (f_equal (Mul (Mtx w Col Col))) in G.
    now rewrite !Mul_assoc, Mul_Inv, !Mul_1_l in G.
  - now rewrite !dot_mul, G.
Qed.

Lemma eliminate_solves K Col w x s : (1 <= Col <= K)%nat ->
  solves K (eliminate K Col w) x s <-> solves K w x s.
Proof.
  intros HC. rewrite (solves_rows _ _ _ _ _ _ (eliminate_spec K Col w HC)). unfold eliminated, solves.
  split; intros G; pose proof (G Col HC) as GC; rewrite ?Nat.eqb_refl in GC;
    change (dot K (Mtx w Col) x = dot K (Idn w Col) s) in GC; intros r Hr; specialize (G r Hr);
    destruct (Nat.eqb_spec r Col) as [E|]; try (subst r; exact GC).
  - rewrite !dot_add, !dot_mul, GC in G.
    apply (f_equal (fun a => a + Mtx w r Col * dot K (Idn w Col) s)) in G.
    rewrite <- !sxor_assoc, sxor_nilpotent, !(sxor_comm _ 0), !sxor_0_l in G. exact G.
  - now rewrite !dot_add, !dot_mul, G, GC.
Qed.

(** The first [n] columns are those of the unit matrix. *)
Definition unit_cols (K n : nat) (w : work) : Prop :=
  forall c r, (1 <= c <= n)%nat -> (1 <= r <= K)%nat -> Mtx w r c = if (r =? c)%nat then 1 else 0.

Lemma find_pivot_spec K Col w : (1 <= Col <= K)%nat ->
  let Piv := find_pivot K Col w in
  (Piv = 0%nat /\ forall r, (Col <= r <= K)%nat -> Mtx w r Col = 0) \/
  ((Col <= Piv <= K)%nat /\ Mtx w Piv Col <> 0).
Proof.
  intros HC.
  assert (G : let Piv := find_pivot K Col w in
    (Piv = 0%nat /\ forall r, (Col <= r < K + 1)%nat -> Mtx w r Col = 0) \/
    ((Col <= Piv < K + 1)%nat /\ Mtx w Piv Col <> 0)).
  { apply (for_loop_rule (fun n Piv =>
      (Piv = 0%nat /\ forall r, (Col <= r < n)%nat -> Mtx w r Col = 0) \/
      ((Col <= Piv < n)%nat /\ Mtx w Piv Col <> 0))); [lia|left; split; [reflexivity|lia]|].
    intros R Piv HR [[-> IH]|[HP Hne]].
    - cbn [Nat.eqb andb]. destruct (Byte.eqb (Mtx w R Col) 0) eqn:E; cbn [negb].
      + apply Byte.byte_dec_bl in E. left. split; [reflexivity|]. intros r Hr.
        destruct (Nat.eq_dec r R) as [->|]; [exact E|apply IH; lia].
      + right. split; [lia|]. intros E'. rewrite E' in E. discriminate E.
    - destruct (Nat.eqb_spec Piv 0); [lia|]. cbn [andb]. right. split; [lia|exact Hne]. }
  cbn zeta in *. destruct G as [[E G]|[E G]]; [left|right]; split; try exact E; try exact G; try lia.
  intros r Hr. apply G. lia.
Qed.

(** A column without a pivot gives a vector in the kernel. *)
Lemma no_pivot_kernel K Col w : (1 <= Col <= K)%nat -> unit_cols K (Col - 1) w ->
  (forall r, (Col <= r <= K)%nat -> Mtx w r Col = 0) ->
  exists x : nat -> Symbol, x Col = 1 /\ solves K w x (fun _ => 0).
Proof.
  intros HC HU HZ.
  exists (fun j => (if (j <? Col)%nat then Mtx w j Col else 0) + (if (Col =? j)%nat then 1 else 0)).
  split; [now cells|]. intros r Hr.
  transitivity (0 : Symbol); [|symmetry; apply lsum_0; intros; ring].
  transitivity ((if (r <? Col)%nat then Mtx w r Col else 0) + Mtx w r Col).
  - rewrite <- (dot_unit K r (fun j => if (j <? Col)%nat then Mtx w j Col else 0)) by assumption.
    rewrite <- (dot_unit K Col (fun j => Mtx w r j)) by assumption.
    unfold dot. rewrite <- lsum_add. apply lsum_ext. intros j Hj%in_range.
    destruct (Nat.ltb_spec j Col) as [Hlt|Hge].
    + rewrite (HU j r) by lia. cells; gf_ring.
    + cells; gf_ring.
  - cells; [gf_ring|]. rewrite HZ by lia. reflexivity.
Qed.

Lemma invert_col_unit K Col Piv w : (1 <= Col <= K)%nat -> unit_cols K (Col - 1) w ->
  (Col <= Piv <= K)%nat -> Mtx w Piv Col <> 0 ->
  unit_cols K Col (eliminate K Col (normalize_row K Col (swap_rows K Col Piv w))).
Proof.
  intros HC HU HP Hne c r Hc Hr.
  set (w1 := swap_rows K Col Piv w). set (w2 := normalize_row K Col w1).
  assert (S1 : forall r, (1 <= r <= K)%nat -> Mtx w1 r c = swapped Col Piv (Mtx w) r c)
    by (intros r' Hr'; apply (swap_rows_spec K Col Piv w); lia).
  assert (S2 : forall r, (1 <= r <= K)%nat -> Mtx w2 r c = normalized Col (Inv (Mtx w Piv Col)) (swapped Col Piv (Mtx w)) r c).
  { intros r' Hr'. unfold w2. destruct (normalize_row_spec K Col w1 r' c Hr') as [-> _]; [lia|].
    destruct (swap_rows_spec K Col Piv w Col Col HC HC) as [E _]. fold w1 in E. rewrite E.
    unfold normalized. rewrite !S1 by lia. unfold swapped. rewrite Nat.eqb_refl. reflexivity. }
  destruct (eliminate_spec K Col w2 HC r c Hr) as [-> _]; [lia|]. unfold eliminated.
  destruct (Nat.eq_dec c Col) as [->|Hcc].
  - rewrite !S2 by lia. unfold normalized, swapped. rewrite !Nat.eqb_refl.
    rewrite (Mul_comm (Inv _)), Mul_Inv by assumption. cells; gf_ring.
  - assert (HU' : forall r, (1 <= r <= K)%nat -> Mtx w r c = if (r =? c)%nat then 1 else 0)
      by (intros; apply HU; lia).
    rewrite !S2 by lia. unfold normalized, swapped. rewrite !Nat.eqb_refl.
    cells; rewrite ?HU' by lia; cells; gf_ring.
Qed.

(** One round of the column loop: it stops with a kernel vector, or it keeps
    the solutions and has one more unit column. *)
Lemma invert_col_spec K Col w : (1 <= Col <= K)%nat -> unit_cols K (Col - 1) w ->
  match invert_col K Col w with
  | None => exists x : nat -> Symbol, x Col = 1 /\ solves K w x (fun _ => 0)
  | Some w' => (forall x s, solves K w' x s <-> solves K w x s) /\ unit_cols K Col w'
  end.
Proof.
  intros HC HU. unfold invert_col.
  destruct (find_pivot_spec K Col w HC) as [[E HZ]|[HP Hne]]; cbn zeta in *.
  - rewrite E. now apply no_pivot_kernel.
  - destruct (Nat.eqb_spec (find_pivot K Col w) 0); [lia|]. split; [|now apply invert_col_unit].
    intros x s. rewrite eliminate_solves, normalize_row_solves, swap_rows_solves by
      (lia || (destruct (swap_rows_spec K Col (find_pivot K Col w) w Col Col HC HC) as [-> _];
       unfold swapped; now rewrite Nat.eqb_refl)).
    reflexivity.
Qed.

Lemma invert_loop_spec K w n : unit_cols K (K - n) w -> (n <= K)%nat ->
  match invert_loop K (seq (K - n + 1) n) w with
  | None => exists x c, (1 <= c <= K)%nat /\ x c <> 0 /\ solves K w x (fun _ => 0)
  | Some w' => (forall x s, solves K w' x s <-> solves K w x s) /\ unit_cols K K w'
  end.
Proof.
  revert w. induction n as [|n IH]; intros w HU Hn; cbn [seq invert_loop].
  - split; [reflexivity|]. now replace K with (K - 0)%nat at 2 by lia.
  - replace (K - S n)%nat with (K - n - 1)%nat in * by lia.
    pose proof (invert_col_spec K (K - n - 1 + 1) w) as HS.
    destruct (invert_col K (K - n - 1 + 1) w) as [w'|].
    + destruct HS as [HS HU']; [lia| |].
      { now replace (K - n - 1 + 1 - 1)%nat with (K - n - 1)%nat by lia. }
      replace (K - n - 1 + 1)%nat with (K - n)%nat in * by lia.
      specialize (IH w' HU' ltac:(lia)). replace (S (K - n)) with (K - n + 1)%nat by lia.
      destruct (invert_loop K (seq (K - n + 1) n) w') as [w''|].
      * destruct IH as [IS IU]. split; [|exact IU]. intros x s. now rewrite IS, HS.
      * destruct IH as (x & c & Hc & Hx & Hs). exists x, c. repeat split; try lia; try assumption. now apply HS.
    + destruct HS as (x & Hx & Hs); [lia| |].
      { now replace (K - n - 1 + 1 - 1)%nat with (K - n - 1)%nat by lia. }
      exists x, (K - n - 1 + 1)%nat. repeat split; try lia; try assumption. rewrite Hx. discriminate.
Qed.

(** [Invert] of a matrix with trivial kernel succeeds, and its result solves
    every system of the matrix. *)
Lemma Invert_spec K A :
  (forall x, (forall r, (1 <= r <= K)%nat -> dot K (A r) x = 0) ->
     forall c, (1 <= c <= K)%nat -> x c = 0) ->
  exists B, Invert K A = (B, true) /\
    forall x s, (forall r, (1 <= r <= K)%nat -> dot K (A r) x = s r) ->
      forall r, (1 <= r <= K)%nat -> x r = dot K (B r) s.
Proof.
  intros HK. unfold Invert.
  set (I0 := for_loop 1 K (fun I m => set m I I 1) zeros).
  assert (HI : forall r s, (1 <= r <= K)%nat -> dot K (I0 r) s = s r).
  { intros r s Hr. rewrite <- (dot_unit K r s Hr) at 1. apply dot_ext; [|reflexivity]. intros j Hj.
    assert (G : forall r j, I0 r j = if (1 <=? r)%nat && (r <? K + 1)%nat && (r =? j)%nat then 1 else 0).
    { apply (for_loop_rule (fun n m => forall r j,
        m r j = if (1 <=? r)%nat && (r <? n)%nat && (r =? j)%nat then 1 else 0)); [lia| |].
      - intros r' j'. now cells.
      - intros i m Hi IH r' j'. unfold set. rewrite IH. now cells. }
    rewrite G. now cells. }
  assert (H : forall x s, solves K (Work A I0) x s <-> forall r, (1 <= r <= K)%nat -> dot K (A r) x = s r).
  { intros x s. split; intros G r Hr; specialize (G r Hr); cbn [Mtx Idn] in *;
      [now rewrite HI in G|now rewrite HI]. }
  pose proof (invert_loop_spec K (Work A I0) K) as L.
  replace (K - K + 1)%nat with 1%nat in L by lia.
  assert (U : unit_cols K (K - K) (Work A I0)) by (intros c r Hc; lia).
  specialize (L U (le_n K)). destruct (invert_loop K (seq 1 K) (Work A I0)) as [w|].
  - destruct L as [LS LU]. exists (Idn w). split; [reflexivity|]. intros x s Hx r Hr.
    rewrite <- H, <- LS in Hx. rewrite <- (Hx r Hr).
    rewrite <- (dot_unit K r x Hr) at 1. apply dot_ext; [|reflexivity]. intros j Hj. symmetry. now apply LU.
  - destruct L as (x & c & Hc & Hx & Hs). destruct Hx. apply (HK x); [|exact Hc]. now apply H.
Qed.

(** * The coding matrix *)

(** A Cauchy system with at least as many equations as unknowns has only the
    zero solution. *)
Lemma cauchy (X Y : nat -> Symbol) ys : forall xs (a : nat -> Symbol),
  NoDup (map X xs) -> NoDup (map Y ys) -> (forall i j, In i xs -> In j ys -> X i <> Y j) ->
  (length ys <= length xs)%nat ->
  (forall i, In i xs -> lsum (fun j => Inv (X i + Y j) * a j) ys = 0) ->
  forall j, In j ys -> a j = 0.
Proof.
  induction ys as [|y ys IH]; intros xs a HX HY HXY Hlen HS; [easy|].
  destruct xs as [|x xs]; [cbn in Hlen; lia|].
  apply NoDup_cons_iff in HX as [Hx HX]. apply NoDup_cons_iff in HY as [Hy HY].
  assert (U : forall i j, In i (x :: xs) -> In j (y :: ys) -> (X i + Y j) * Inv (X i + Y j) = 1)
    by (intros; apply Mul_Inv, sxor_neq, HXY; assumption).
  assert (Hb : forall j, In j ys -> (Y j + Y y) * Inv (X x + Y j) * a j = 0).
  { apply (IH xs); auto; [intros; apply HXY; now right|cbn in Hlen; lia|].
    intros i Hi. apply (Mul_eq_0 (X i + X x)).
    - rewrite <- lsum_mul.
      transitivity ((X i + Y y) * lsum (fun j => Inv (X i + Y j) * a j) (y :: ys)
                  + (X x + Y y) * lsum (fun j => Inv (X x + Y j) * a j) (y :: ys));
        [|rewrite !HS by (first [now left | now right]); gf_ring].
      rewrite !lsum_cons.
      transitivity ((X i + Y y) * Inv (X i + Y y) * a y + (X x + Y y) * Inv (X x + Y y) * a y
        + ((X i + Y y) * lsum (fun j => Inv (X i + Y j) * a j) ys
           + (X x + Y y) * lsum (fun j => Inv (X x + Y j) * a j) ys)); [|gf_ring].
      rewrite (U i y), (U x y) by (first [now left | now right]). rewrite sxor_nilpotent, sxor_0_l, <- !lsum_mul, <- lsum_add.
      apply lsum_ext. intros j Hj.
      pose proof (U i j ltac:(now right) ltac:(now right)) as U1.
      pose proof (U x j ltac:(now left) ltac:(now right)) as U2.
      transitivity ((X i + Y y) * Inv (X i + Y j) * a j * ((X x + Y j) * Inv (X x + Y j))
                  + (X x + Y y) * Inv (X x + Y j) * a j * ((X i + Y j) * Inv (X i + Y j)));
        [gf_ring|rewrite U1, U2; gf_ring].
    - apply sxor_neq. intros E. apply Hx. rewrite <- E. now apply in_map. }
  assert (Ha : forall j, In j ys -> a j = 0).
  { intros j Hj. apply (Mul_eq_0 _ _ (Hb j Hj)). intros E.
    apply (f_equal (fun v => (X x + Y j) * v)) in E.
    assert (E' : (Y j + Y y) * ((X x + Y j) * Inv (X x + Y j)) = 0)
      by (transitivity ((X x + Y j) * ((Y j + Y y) * Inv (X x + Y j))); [gf_ring|rewrite E; gf_ring]).
    rewrite U in E' by (first [now left | now right]).
    assert (E2 : Y j + Y y = 0) by (rewrite <- E'; gf_ring).
    apply sxor_eq_0 in E2. apply Hy. rewrite <- E2. now apply in_map. }
  intros j [<-|Hj]; [|now apply Ha].
  pose proof (HS x (or_introl eq_refl)) as E. rewrite lsum_cons, lsum_0 in E
    by (intros; rewrite Ha by assumption; gf_ring).
  apply (Mul_eq_0 (Inv (X x + Y y))).
  - rewrite <- E. gf_ring.
  - apply Inv_neq_0, sxor_neq, HXY; now left.
Qed.

Lemma symbol_inj m n : (m < 256)%nat -> (n < 256)%nat -> symbol m = symbol n -> m = n.
Proof.
  assert (V : forall n, (n < 256)%nat -> Byte.to_N (symbol n) = N.of_nat n).
  { intros k Hk. unfold symbol. destruct (Byte.of_N (N.of_nat k)) as [b|] eqn:E.
    - now apply Byte.to_of_N.
    - apply Byte.of_N_None_iff in E. lia. }
  intros Hm Hn E. apply (f_equal Byte.to_N) in E. rewrite !V in E by assumption. lia.
Qed.

Lemma in_filter_range (p : nat -> bool) K j : In j (filter p (seq 1 K)) <-> (1 <= j <= K)%nat /\ p j = true.
Proof. now rewrite filter_In, in_range. Qed.

Lemma NoDup_map_on {A B} (f : A -> B) l :
  (forall x y, In x l -> In y l -> f x = f y -> x = y) -> NoDup l -> NoDup (map f l).
Proof.
  induction l as [|x l IH]; intros Hf Hnd; cbn [map]; constructor; apply NoDup_cons_iff in Hnd as [Hx Hnd].
  - rewrite in_map_iff. intros (y & E & Hy). apply Hx.
    rewrite (Hf x y) by (first [now left | now right | now symmetry]). exact Hy.
  - apply IH; [|exact Hnd]. intros; apply Hf; try assumption; now right.
Qed.

Definition member (R : list nat) (j : nat) : bool := existsb (Nat.eqb j) R.

Lemma member_spec R j : member R j = true <-> In j R.
Proof.
  unfold member. rewrite existsb_exists. split.
  - intros (x & Hx & E%Nat.eqb_eq). now subst.
  - intros Hj. exists j. split; [exact Hj|apply Nat.eqb_refl].
Qed.

(** There are as many parity rows among the chosen rows as there are data
    rows that were not chosen. *)
Lemma missing_columns K R : NoDup R -> length R = K -> (forall r, In r R -> (1 <= r)%nat) ->
  length (filter (fun j => negb (member R j)) (seq 1 K)) = length (filter (fun r => K <? r)%nat R).
Proof.
  intros Hnd Hlen HR.
  assert (P : Permutation (filter (fun r => negb (K <? r)%nat) R) (filter (member R) (seq 1 K))).
  { apply NoDup_Permutation; [now apply NoDup_filter|apply NoDup_filter, seq_NoDup|].
    intros j. rewrite filter_In, in_filter_range, member_spec, negb_true_iff, Nat.ltb_ge.
    split; [intros [Hj Hle]; specialize (HR j Hj)|]; intuition lia. }
  apply Permutation_length in P.
  pose proof (filter_length (fun r => K <? r)%nat R) as L1.
  pose proof (filter_length (member R) (seq 1 K)) as L2. rewrite length_seq in L2. lia.
Qed.

(** The row of the coding matrix that belongs to shard [r]. *)
Definition code_row (K r j : nat) : Symbol :=
  if (r <=? K)%nat then (if (r =? j)%nat then 1 else 0) else Coeff (r - K) j.

Lemma submatrix_spec K Sel t j : (1 <= t <= K)%nat -> (1 <= j <= K)%nat ->
  submatrix K Sel t j = code_row K (Sel t) j.
Proof.
  intros Ht Hj. unfold submatrix.
  rewrite (for_loop_ext _ _ _ (fun t => for_loop 1 K (fun j A => set A t j (code_row K (Sel t) j)))).
  - rewrite (write_block K K (fun t j => code_row K (Sel t) j)). now cells.
  - intros i m. apply for_loop_ext. intros j' m'. unfold code_row. now destruct (Sel i <=? K)%nat.
Qed.

(** The matrix of any [K] distinct shards has a trivial kernel. *)
Lemma code_kernel K M R x : (K <= Max_Data)%nat -> (M <= Max_Parity)%nat ->
  NoDup R -> length R = K -> (forall r, In r R -> (1 <= r <= K + M)%nat) ->
  (forall r, In r R -> dot K (code_row K r) x = 0) ->
  forall c, (1 <= c <= K)%nat -> x c = 0.
Proof.
  unfold Max_Data, Max_Parity. intros HK HM Hnd Hlen HR HS c Hc.
  assert (HD : forall r, In r R -> (r <= K)%nat -> x r = 0).
  { intros r Hr Hle. rewrite <- (HS r Hr), <- (dot_unit K r x) by (specialize (HR r Hr); lia).
    apply dot_ext; [|reflexivity]. intros j Hj. unfold code_row. now cells. }
  destruct (member R c) eqn:E; [apply HD; [now apply member_spec|lia]|].
  set (J := filter (fun j => negb (member R j)) (seq 1 K)).
  assert (HJ : forall j, In j J -> (1 <= j <= K)%nat) by (intros j Hj; now apply in_filter_range in Hj).
  assert (HP : forall r, In r (filter (fun r => K <? r)%nat R) -> In r R /\ (K < r <= K + M)%nat).
  { intros r [Hr Hlt%Nat.ltb_lt]%filter_In. specialize (HR r Hr). split; [exact Hr|lia]. }
  apply (cauchy (fun r => X_Point (r - K)) Y_Point J (filter (fun r => K <? r)%nat R)).
  - apply NoDup_map_on; [|now apply NoDup_filter]. intros r r' Hr Hr' E'.
    apply HP in Hr, Hr'. apply symbol_inj in E'; unfold Max_Data in *; lia.
  - apply NoDup_map_on; [|apply NoDup_filter, seq_NoDup]. intros j j' Hj Hj' E'.
    apply HJ in Hj, Hj'. apply symbol_inj in E'; lia.
  - intros r j Hr Hj E'. apply HP in Hr. apply HJ in Hj. apply symbol_inj in E'; unfold Max_Data in *; lia.
  - rewrite <- missing_columns; auto. intros r Hr. apply (HR r Hr).
  - intros r Hr. apply HP in Hr as [Hr Hlt]. rewrite <- (HS r Hr). unfold dot.
    symmetry. rewrite (lsum_filter _ (fun j => negb (member R j))).
    + apply lsum_ext. intros j Hj. unfold code_row. now cells.
    + intros j Hj Hm%negb_false_iff%member_spec. rewrite (HD j Hm); [gf_ring|]. now apply in_range in Hj.
  - apply in_filter_range. split; [exact Hc|]. now rewrite E.
Qed.

(** * Reconstruction *)

(** The chosen rows are the first [K] present ones. *)
Lemma choose_spec K N Present :
  let '(Sel, Cnt) := choose K N Present in
  map Sel (seq 1 Cnt) = firstn K (filter Present (seq 1 N)).
Proof.
  assert (G : let '(Sel, Cnt) := choose K N Present in
    map Sel (seq 1 Cnt) = firstn K (filter Present (seq 1 (N + 1 - 1)))).
  { apply (for_loop_rule (fun n '(Sel, Cnt) =>
      map Sel (seq 1 Cnt) = firstn K (filter Present (seq 1 (n - 1))))); [lia| |].
    - now destruct K.
    - intros I [Sel Cnt] HI IH. replace (I + 1 - 1)%nat with (S (I - 1)) by lia.
      rewrite seq_S, filter_app. cbn [filter]. replace (1 + (I - 1))%nat with I by lia.
      assert (L : Cnt = Nat.min K (length (filter Present (seq 1 (I - 1)))))
        by (rewrite <- length_firstn, <- IH, length_map, length_seq; reflexivity).
      set (l := filter Present (seq 1 (I - 1))) in *.
      destruct (Present I); cbn [andb]; [|now rewrite app_nil_r].
      destruct (Nat.ltb_spec Cnt K) as [Hlt|Hge].
      + rewrite firstn_all2 in IH by lia.
        rewrite firstn_all2 by (rewrite length_app; cbn [length]; lia).
        replace (Cnt + 1)%nat with (S Cnt) by lia. rewrite seq_S, map_app, <- IH. cbn [map].
        replace (1 + Cnt)%nat with (S Cnt) by lia. rewrite Nat.eqb_refl. f_equal.
        apply map_ext_in. intros t Ht%in_range. now cells.
      + rewrite firstn_app, <- IH. replace (K - length l)%nat with 0%nat by lia. symmetry. apply app_nil_r. }
  now replace (N + 1 - 1)%nat with N in G by lia.
Qed.

Lemma NoDup_firstn {A} n (l : list A) : NoDup l -> NoDup (firstn n l).
Proof. intros Hl. rewrite <- (firstn_skipn n l) in Hl. now apply NoDup_app_remove_r in Hl. Qed.

Lemma Encode_spec K M L Data i b : (1 <= i <= M)%nat -> (1 <= b <= L)%nat ->
  Encode K M L Data i b = dot K (Coeff i) (fun j => Data j b).
Proof.
  intros Hi Hb. unfold Encode.
  rewrite (write_block M L (fun i b => for_loop 1 K (fun j Acc => Acc + Coeff i j * Data j b) 0)).
  rewrite acc_lsum. now cells.
Qed.

(** The shards that are present are those of [Data]: the data itself in rows
    [1 .. K], its parity in rows [K + 1 .. K + M]. *)
Definition shards_of (K M L : nat) (Data : Block) (Present : nat -> bool) (Shards : Block) : Prop :=
  forall i b, (1 <= i <= K + M)%nat -> (1 <= b <= L)%nat -> Present i = true ->
    Shards i b = if (i <=? K)%nat then Data i b else Encode K M L Data (i - K) b.

(** How many of the [K + M] shards are present. *)
Definition count_present (K M : nat) (Present : nat -> bool) : nat :=
  length (filter Present (seq 1 (K + M))).

Lemma shards_code_row K M L Data Present Shards i b :
  shards_of K M L Data Present Shards ->
  (1 <= i <= K + M)%nat -> (1 <= b <= L)%nat -> Present i = true ->
  Shards i b = dot K (code_row K i) (fun j => Data j b).
Proof.
  intros HS Hi Hb HP. rewrite (HS i b Hi Hb HP). destruct (Nat.leb_spec i K) as [Hle|Hgt].
  - rewrite <- (dot_unit K i (fun j => Data j b)) by lia. apply dot_ext; [|reflexivity].
    intros j Hj. unfold code_row. now cells.
  - rewrite Encode_spec by lia. apply dot_ext; [|reflexivity]. intros j Hj. unfold code_row. now cells.
Qed.

Lemma Reconstruct_spec K M L (Data Shards : Block) (Present : nat -> bool) :
  (1 <= K <= Max_Data)%nat -> (M <= Max_Parity)%nat ->
  shards_of K M L Data Present Shards -> (K <= count_present K M Present)%nat ->
  exists D, Reconstruct K M L Present Shards = (D, true) /\
    forall j b, (1 <= j <= K)%nat -> (1 <= b <= L)%nat -> D j b = Data j b.
Proof.
  intros HK HM HS HP. unfold Reconstruct. pose proof (choose_spec K (K + M) Present) as C.
  destruct (choose K (K + M) Present) as [Sel Cnt].
  set (l := filter Present (seq 1 (K + M))) in *.
  assert (Len : Cnt = K).
  { apply (f_equal (@length nat)) in C. rewrite length_map, length_seq, length_firstn in C.
    unfold count_present in HP. fold l in HP. lia. }
  subst Cnt. rewrite Nat.ltb_irrefl.
  assert (HR : forall r, In r (map Sel (seq 1 K)) -> (1 <= r <= K + M)%nat /\ Present r = true).
  { intros r Hr. rewrite C in Hr. apply in_filter_range. fold l.
    rewrite <- (firstn_skipn K l). apply in_or_app. now left. }
  destruct (Invert_spec K (submatrix K Sel)) as (B & -> & HB).
  - intros x Hx. apply (code_kernel K M (map Sel (seq 1 K)) x); try lia.
    + rewrite C. apply NoDup_firstn, NoDup_filter, seq_NoDup.
    + now rewrite length_map, length_seq.
    + intros r Hr. now apply HR.
    + intros r (t & <- & Ht%in_range)%in_map_iff. rewrite <- (Hx t Ht). apply dot_ext; [|reflexivity].
      intros j Hj. symmetry. now apply submatrix_spec.
  - cbn [negb]. eexists. split; [reflexivity|]. intros j b Hj Hb.
    rewrite (write_block K L (fun J B0 => for_loop 1 K (fun T Acc => Acc + B J T * Shards (Sel T) B0) 0)).
    rewrite acc_lsum. replace ((1 <=? j)%nat && (j <=? K)%nat && (1 <=? b)%nat && (b <=? L)%nat)
      with true by now cells.
    symmetry. apply (HB (fun j => Data j b) (fun t => Shards (Sel t) b)); [|exact Hj].
    intros t Ht. destruct (HR (Sel t)) as [Hr Hp]; [apply in_map_iff; exists t; now rewrite in_range|].
    rewrite (shards_code_row K M L Data Present Shards) by assumption. apply dot_ext; [|reflexivity].
    intros i Hi. now apply submatrix_spec.
Qed.

(** C14: any [K] of the [K + M] shards that [Encode] gives for a block of
    data are enough: [Reconstruct] succeeds and returns every byte of the
    data, whatever the other shards hold; with fewer shards it reports failure
    and hands out no data. *)
Theorem erasure_recovers (K M L : nat) (Data Shards : Block) (Present : nat -> bool)
  (HK : (1 <= K <= Max_Data)%nat) (HM : (M <= Max_Parity)%nat)
  (HS : shards_of K M L Data Present Shards) :
  ((K <= count_present K M Present)%nat ->
    exists D, Reconstruct K M L Present Shards = (D, true) /\
      forall j b, (1 <= j <= K)%nat -> (1 <= b <= L)%nat -> D j b = Data j b) /\
  ((count_present K M Present < K)%nat ->
    Reconstruct K M L Present Shards = (zeros, false)).
Proof.
  split; [now apply Reconstruct_spec|]. intros HP.
  unfold Reconstruct. pose proof (choose_spec K (K + M) Present) as C.
  destruct (choose K (K + M) Present) as [Sel Cnt].
  apply (f_equal (@length nat)) in C. rewrite length_map, length_seq, length_firstn in C.
  unfold count_present in HP. destruct (Nat.ltb_spec Cnt K); [reflexivity|lia].
Qed.

(** * An example *)

(** Three data shards of two bytes with two parity shards, of which the first
    and the third are lost. *)
Definition demo_data : Block := fun j b => symbol (17 * j + 100 * b).
Definition demo_present (i : nat) : bool := match i with 2 | 4 | 5 => true | _ => false end%nat.
Definition demo_shards : Block := fun i b =>
  if demo_present i then if (i <=? 3)%nat then demo_data i b else Encode 3 2 2 demo_data (i - 3) b else xff.

Example demo_reconstructed :
  let '(D, ok) := Reconstruct 3 2 2 demo_present demo_shards in
  (map (fun j => map (D j) [1; 2]) [1; 2; 3], ok)%nat
  = (map (fun j => map (demo_data j) [1; 2]) [1; 2; 3], true)%nat.
Proof. vm_compute. reflexivity. Qed.

Lemma erasure_recovers_witness :
  exists D, Reconstruct 3 2 2 demo_present demo_shards = (D, true) /\
    forall j b, (1 <= j <= 3)%nat -> (1 <= b <= 2)%nat -> D j b = demo_data j b.
Proof.
  apply (erasure_recovers 3 2 2 demo_data demo_shards demo_present).
  - unfold Max_Data. lia.
  - unfold Max_Parity. lia.
  - intros i b _ _ HP. unfold demo_shards. now rewrite HP.
  - vm_compute. lia.
Defined.
