(* ===== verification/TrustedCore.v ===== *)
(** The retention rules and the clock guard of the trusted core
    (src/trusted_core/src/dezhan-trusted_core-times.ads, -retention.ads/.adb,
    -clock_guard.ads/.adb).

    Module [Retention] is the lock of an object and the rule that decides on
    its deletion.  Module [Clock_Guard] turns readings of the system's clocks
    into trusted time.  The package contracts speak about one call; the
    theorems here speak about any sequence of calls: [locks_never_weaken] (a
    lock that is extended, held and released in any order never becomes
    deletable earlier) and [trusted_time_sound] (trusted time after any run of
    readings is monotone, is bounded by the time the monotonic clock really
    advanced, is the same whatever the realtime clock showed, and the seal,
    once set, stays). *)
From S2P Require Import Prelude.
Open Scope Z_scope.

(** ** Trusted time: [type Trusted_Time is range 0 .. 2**63 - 1] *)

Definition Trusted_Time : Type := Z.
Definition Time_Last : Z := 2 ^ 63 - 1.
Definition in_time (t : Trusted_Time) : Prop := 0 ≤ t ≤ Time_Last.

Module Retention.

Inductive Lock_Mode := Unlocked | Governance | Compliance.

#[export] Instance lock_mode_eq_dec : EqDecision Lock_Mode.
Proof. solve_decision. Defined.

(** [Authorization]: the audited capability to delete early. *)
Record Authorization := { Bypass_Governance : bool }.

Record Retention_Lock := {
  Mode : Lock_Mode;
  Retain_Until : Trusted_Time;
  Created_At : Trusted_Time;
  Legal_Hold : bool;
}.

#[export] Instance retention_lock_eq_dec : EqDecision Retention_Lock.
Proof. solve_decision. Defined.

Definition Create_Lock (m : Lock_Mode) (until now : Trusted_Time) : Retention_Lock :=
  {| Mode := m; Retain_Until := until; Created_At := now; Legal_Hold := false |}.

Definition with_hold (h : bool) (l : Retention_Lock) : Retention_Lock :=
  {| Mode := Mode l; Retain_Until := Retain_Until l; Created_At := Created_At l; Legal_Hold := h |}.

Definition Set_Hold (l : Retention_Lock) : Retention_Lock := with_hold true l.
Definition Release_Hold (l : Retention_Lock) : Retention_Lock := with_hold false l.

Definition Extend_Retention (l : Retention_Lock) (new_until : Trusted_Time) : Retention_Lock :=
  {| Mode := Mode l;
     Retain_Until := if Retain_Until l <? new_until then new_until else Retain_Until l;
     Created_At := Created_At l; Legal_Hold := Legal_Hold l |}.

Record Extension_Result := { Lock : Retention_Lock; Accepted : bool }.

Definition Request_Extension (l : Retention_Lock) (new_until : Trusted_Time) : Extension_Result :=
  {| Lock := Extend_Retention l new_until; Accepted := Retain_Until l <? new_until |}.

(** The deletion policy. *)
Definition Can_Delete (l : Retention_Lock) (now : Trusted_Time) (auth : Authorization) : bool :=
  if Legal_Hold l then false
  else match Mode l with
       | Unlocked => true
       | Compliance => Retain_Until l <=? now
       | Governance => (Retain_Until l <=? now) || Bypass_Governance auth
       end.

(** What may be done to a lock after its creation. *)
Inductive lock_op := OpHold | OpRelease | OpExtend (new_until : Trusted_Time).

Definition apply_op (l : Retention_Lock) (o : lock_op) : Retention_Lock :=
  match o with
  | OpHold => Set_Hold l
  | OpRelease => Release_Hold l
  | OpExtend u => Lock (Request_Extension l u)
  end.

(** Deletion before the retention point is reached. *)
Definition protected (l : Retention_Lock) (now : Trusted_Time) (auth : Authorization) : Prop :=
  Can_Delete l now auth = false.

(** A lock is at least as strong as another: it is later and of the same
    mode. *)
Definition stronger (l' l : Retention_Lock) : Prop :=
  Mode l' = Mode l ∧ Retain_Until l ≤ Retain_Until l' ∧ Created_At l' = Created_At l.

#[export] Instance stronger_preorder : PreOrder stronger.
Proof.
  split.
  - intros l. unfold stronger. repeat split. lia.
  - intros a b c (E1 & L1 & C1) (E2 & L2 & C2). unfold stronger in *. repeat split; congruence || lia.
Qed.

Lemma apply_op_stronger l o : stronger (apply_op l o) l.
Proof.
  destruct o as [| |u]; unfold stronger; simpl; repeat split; try lia.
  destruct (Z.ltb_spec (Retain_Until l) u); lia.
Qed.

Lemma apply_ops_stronger ops l : stronger (foldl apply_op l ops) l.
Proof.
  revert l. induction ops as [|o ops IH]; intros l; simpl; [reflexivity|].
  etransitivity; [apply IH|apply apply_op_stronger].
Qed.

(** A stronger lock without a hold refuses whatever the weaker one refuses by
    its mode and expiry. *)
Lemma stronger_refuses l l' now auth :
  stronger l' l → Legal_Hold l = false → protected l now auth → protected l' now auth.
Proof.
  unfold protected, Can_Delete. intros (EM & EU & _) -> HP. rewrite EM.
  destruct (Legal_Hold l'); [done|]. destruct (Mode l).
  - done.
  - apply orb_false_iff in HP as [HP ->]. rewrite orb_false_r in *. apply Z.leb_gt in HP. apply Z.leb_gt. lia.
  - apply Z.leb_gt in HP. apply Z.leb_gt. lia.
Qed.

Lemma protected_earlier l now now' auth : protected l now auth → now' ≤ now → protected l now' auth.
Proof.
  unfold protected, Can_Delete. destruct (Legal_Hold l), (Mode l); intros HP Hle; try done.
  - apply orb_false_iff in HP as [HP ->]. rewrite orb_false_r. apply Z.leb_gt in HP. apply Z.leb_gt. lia.
  - apply Z.leb_gt in HP. apply Z.leb_gt. lia.
Qed.

(** Whatever sequence of holds, releases and extension requests a lock goes
    through, and whatever the requested times are: it keeps its mode, its
    expiry never moves back, and a deletion that the lock refused by its mode
    and expiry is still refused, also at any earlier time. *)
Theorem locks_never_weaken (m : Lock_Mode) (until created now now' : Trusted_Time)
  (auth : Authorization) (ops : list lock_op)
  (Hrefused : protected (Create_Lock m until created) now auth) (Hearlier : now' ≤ now) :
  let l := foldl apply_op (Create_Lock m until created) ops in
  Mode l = m ∧ until ≤ Retain_Until l ∧ Created_At l = created ∧ protected l now' auth.
Proof.
  pose proof (apply_ops_stronger ops (Create_Lock m until created)) as S.
  pose proof (stronger_refuses _ _ _ _ S eq_refl Hrefused) as P.
  destruct S as (EM & EU & EC). simpl in *. repeat split; try done. by eapply protected_earlier.
Qed.

Lemma locks_never_weaken_witness :
  let l := foldl apply_op (Create_Lock Compliance 100 0) [OpHold; OpExtend 50; OpRelease; OpExtend 120] in
  100 ≤ Retain_Until l ∧ protected l 90 {| Bypass_Governance := true |}.
Proof.
  destruct (locks_never_weaken Compliance 100 0 99 90 {| Bypass_Governance := true |}
    [OpHold; OpExtend 50; OpRelease; OpExtend 120]) as (_ & Hu & _ & Hp).
  - reflexivity.
  - lia.
  - exact (conj Hu Hp).
Defined.

End Retention.

Module Clock_Guard.

Inductive Anomaly_Kind := NoAnomaly | Monotonic_Reset | Rollback | Forward_Jump.

#[export] Instance anomaly_eq_dec : EqDecision Anomaly_Kind.
Proof. solve_decision. Defined.

Record Guard_State := {
  Floor : Trusted_Time;
  Last_Mono : Trusted_Time;
  Last_Real : Trusted_Time;
  Anomaly : Anomaly_Kind;
  Sealed : bool;
}.

Record Clock_Sample := {
  Mono : Trusted_Time;
  Realtime : Trusted_Time;
  Boot_Changed : bool;
}.

Definition Mono_Delta (s : Guard_State) (c : Clock_Sample) : Trusted_Time :=
  if Boot_Changed c || (Mono c <? Last_Mono s) then 0 else Mono c - Last_Mono s.

(** Addition that saturates at [Trusted_Time'Last]. *)
Definition sat_add (a d : Trusted_Time) : Trusted_Time :=
  if a <=? Time_Last - d then a + d else Time_Last.

Definition Advanced_Floor (s : Guard_State) (c : Clock_Sample) : Trusted_Time :=
  sat_add (Floor s) (Mono_Delta s c).

Definition Init (c : Clock_Sample) : Guard_State :=
  {| Floor := 0; Last_Mono := Mono c; Last_Real := Realtime c; Anomaly := NoAnomaly; Sealed := false |}.

(** What a reading says about manipulation of the clocks. *)
Definition classify (s : Guard_State) (c : Clock_Sample) (tolerance : Trusted_Time) : Anomaly_Kind :=
  let expected := sat_add (Last_Real s) (Mono_Delta s c) in
  if Boot_Changed c then Monotonic_Reset
  else if Mono c <? Last_Mono s then Rollback
  else if (expected <? Realtime c) && (tolerance <? Realtime c - expected) then Forward_Jump
  else if (Realtime c <? expected) && (tolerance <? expected - Realtime c) then Rollback
  else NoAnomaly.

Definition Tick (s : Guard_State) (c : Clock_Sample) (tolerance : Trusted_Time) : Guard_State :=
  let anomaly := classify s c tolerance in
  {| Floor := sat_add (Floor s) (Mono_Delta s c);
     Last_Mono := Mono c;
     Last_Real := Realtime c;
     Anomaly := anomaly;
     Sealed := bool_decide (anomaly = Rollback ∨ anomaly = Forward_Jump) || Sealed s |}.

Definition Now (s : Guard_State) : Trusted_Time := Floor s.
Definition Is_Sealed (s : Guard_State) : bool := Sealed s.

(** ** Runs of readings *)

Definition run (tolerance : Trusted_Time) (s : Guard_State) (cs : list Clock_Sample) : Guard_State :=
  foldl (λ s c, Tick s c tolerance) s cs.

(** How far the monotonic clock advanced over a run: the sum of its forward
    steps, where a reboot and a step back count as nothing. *)
Fixpoint elapsed (last : Trusted_Time) (cs : list Clock_Sample) : Z :=
  match cs with
  | [] => 0
  | c :: cs =>
      (if Boot_Changed c || (Mono c <? last) then 0 else Mono c - last) + elapsed (Mono c) cs
  end.

(** Two runs that differ in the realtime clock only. *)
Definition same_mono (c c' : Clock_Sample) : Prop :=
  Mono c = Mono c' ∧ Boot_Changed c = Boot_Changed c'.

Lemma Mono_Delta_nonneg s c : 0 ≤ Mono_Delta s c.
Proof.
  unfold Mono_Delta. destruct (Boot_Changed c); simpl; [lia|].
  destruct (Z.ltb_spec (Mono c) (Last_Mono s)); lia.
Qed.

Lemma sat_add_bounds a d : in_time a → 0 ≤ d →
  in_time (sat_add a d) ∧ a ≤ sat_add a d ≤ a + d.
Proof.
  unfold in_time, sat_add, Time_Last. intros Ha Hd.
  destruct (Z.leb_spec a (2 ^ 63 - 1 - d)); lia.
Qed.

Lemma run_floor tol cs : ∀ s, in_time (Floor s) →
  in_time (Floor (run tol s cs)) ∧
  Floor s ≤ Floor (run tol s cs) ≤ Floor s + elapsed (Last_Mono s) cs.
Proof.
  induction cs as [|c cs IH]; intros s Hs; simpl.
  - split; [done|lia].
  - destruct (sat_add_bounds (Floor s) (Mono_Delta s c) Hs (Mono_Delta_nonneg s c)) as [Hb Hb'].
    destruct (IH (Tick s c tol) Hb) as [Hi Hi']. simpl in *. split; [done|].
    change (if Boot_Changed c || (Mono c <? Last_Mono s) then 0 else Mono c - Last_Mono s)
      with (Mono_Delta s c). lia.
Qed.

Lemma run_floor_independent tol tol' cs cs' : Forall2 same_mono cs cs' → ∀ s s',
  Floor s = Floor s' → Last_Mono s = Last_Mono s' →
  Floor (run tol s cs) = Floor (run tol' s' cs').
Proof.
  induction 1 as [|c c' cs cs' [EM EB] _ IH]; intros s s' EF EL; simpl; [done|].
  apply IH; simpl; [|done]. unfold Mono_Delta. by rewrite EF, EL, EM, EB.
Qed.

Lemma run_sealed tol cs : ∀ s, Sealed s = true → Sealed (run tol s cs) = true.
Proof.
  induction cs as [|c cs IH]; intros s Hs; simpl; [done|]. apply IH. simpl. rewrite Hs. apply orb_true_r.
Qed.

(** C23: Trusted time over any run of clock readings from a state in range: it
    stays in range, never goes back, never advances by more than the
    monotonic clock did, is the same for any other realtime readings and any
    other tolerance, and a seal is never lost. *)
Theorem trusted_time_sound (tol tol' : Trusted_Time) (s : Guard_State) (cs cs' : list Clock_Sample)
  (Hrange : in_time (Floor s)) (Hmono : Forall2 same_mono cs cs') :
  in_time (Now (run tol s cs)) ∧
  Now s ≤ Now (run tol s cs) ≤ Now s + elapsed (Last_Mono s) cs ∧
  Now (run tol' s cs') = Now (run tol s cs) ∧
  (Is_Sealed s = true → Is_Sealed (run tol s cs) = true).
Proof.
  destruct (run_floor tol cs s Hrange) as [Hi Hb]. unfold Now, Is_Sealed. repeat split; try apply Hi; try apply Hb.
  - symmetry. by apply run_floor_independent.
  - apply run_sealed.
Qed.

Definition demo_samples (real : Z) : list Clock_Sample :=
  [{| Mono := 10; Realtime := 1010; Boot_Changed := false |}; {| Mono := 15; Realtime := real; Boot_Changed := false |};
   {| Mono := 3; Realtime := 2000; Boot_Changed := true |}].

Lemma trusted_time_sound_witness :
  let s := Init {| Mono := 5; Realtime := 1000; Boot_Changed := false |} in
  Now (run 2 s (demo_samples 1015)) ≤ 10 ∧ Now (run 2 s (demo_samples 9999)) = Now (run 2 s (demo_samples 1015)).
Proof.
  destruct (trusted_time_sound 2 2 (Init {| Mono := 5; Realtime := 1000; Boot_Changed := false |})
    (demo_samples 1015) (demo_samples 9999)) as (_ & [_ Hb] & He & _).
  - split; [apply Z.le_refl|]. unfold Time_Last. simpl. lia.
  - repeat constructor.
  - exact (conj Hb He).
Defined.

End Clock_Guard.
