(* ===== verification/Sha256.v ===== *)
(** SHA-256 as the trusted core computes it
    (src/trusted_core/src/dezhan-trusted_core-hashing.adb), executable, on
    lists of bytes.  Words are [Unsigned_32]: numbers below [2^32] with
    wrapping addition.  The padded buffer of the body is the message, the
    terminator, zeros up to the last eight bytes and the bit length. *)
From Stdlib Require Import Strings.Byte NArith.
From S2P Require Import Prelude.
Open Scope N_scope.

(** [Byte_Array] *)
Notation Byte_Array := (list Byte.byte) (only parsing).

(** [Digest]: 32 bytes. *)
Definition Digest : Type := list Byte.byte.

#[export] Instance byte_eq_dec : EqDecision Byte.byte := Byte.byte_eq_dec.
#[export] Instance digest_eq_dec : EqDecision Digest := list_eq_dec.

Definition Max_Message : N := 8192.

(** [Byte (N and 16#FF#)] *)
Definition byte_of (n : N) : Byte.byte :=
  match Byte.of_N (n `mod` 256) with Some b => b | None => "000"%byte end.

Definition Zero_Digest : Digest := replicate 32 "000"%byte.

(** ** Words *)

Definition word (n : N) : N := n `mod` 2 ^ 32.
Definition add32 (x y : N) : N := word (x + y).
Definition Rotr (x n : N) : N := N.lor (N.shiftr x n) (word (N.shiftl x (32 - n))).
Definition Shr (x n : N) : N := N.shiftr x n.
Definition Ch (x y z : N) : N := N.lxor (N.land x y) (N.land (N.lnot x 32) z).
Definition Maj (x y z : N) : N := N.lxor (N.lxor (N.land x y) (N.land x z)) (N.land y z).
Definition Big_Sigma0 (x : N) : N := N.lxor (N.lxor (Rotr x 2) (Rotr x 13)) (Rotr x 22).
Definition Big_Sigma1 (x : N) : N := N.lxor (N.lxor (Rotr x 6) (Rotr x 11)) (Rotr x 25).
Definition Small_Sigma0 (x : N) : N := N.lxor (N.lxor (Rotr x 7) (Rotr x 18)) (Shr x 3).
Definition Small_Sigma1 (x : N) : N := N.lxor (N.lxor (Rotr x 17) (Rotr x 19)) (Shr x 10).

(** Eight words, written one after the other. *)
Definition row (v : N) : list N := map (λ i, N.land (N.shiftr v (32 * i)) 0xffffffff) [7; 6; 5; 4; 3; 2; 1; 0].

Definition H0 : list N := Eval cbv in
  row 0x6a09e667bb67ae853c6ef372a54ff53a510e527f9b05688c1f83d9ab5be0cd19.

(** The table of constants, one row for two lines of the source. *)
Definition K : list N := Eval cbv in
  concat (map row
  [0x428a2f9871374491b5c0fbcfe9b5dba53956c25b59f111f1923f82a4ab1c5ed5;
   0xd807aa9812835b01243185be550c7dc372be5d7480deb1fe9bdc06a7c19bf174;
   0xe49b69c1efbe47860fc19dc6240ca1cc2de92c6f4a7484aa5cb0a9dc76f988da;
   0x983e5152a831c66db00327c8bf597fc7c6e00bf3d5a7914706ca635114292967;
   0x27b70a852e1b21384d2c6dfc53380d13650a7354766a0abb81c2c92e92722c85;
   0xa2bfe8a1a81a664bc24b8b70c76c51a3d192e819d6990624f40e3585106aa070;
   0x19a4c1161e376c082748774c34b0bcb5391c0cb34ed8aa4a5b9cca4f682e6ff3;
   0x748f82ee78a5636f84c878148cc7020890befffaa4506cebbef9a3f7c67178f2]).

(** ** Padding *)

(** [N] bytes of a number, most significant first: the shift-and-mask loops
    of the package bodies. *)
Fixpoint be_bytes (n : nat) (v : N) : Byte_Array :=
  match n with
  | O => []
  | S n => byte_of (N.shiftr v (8 * N.of_nat n)) :: be_bytes n v
  end.

(** [NB], the number of blocks. *)
Definition blocks (len : nat) : nat := (len + 8) / 64 + 1.

Definition padded (msg : Byte_Array) : Byte_Array :=
  let len := length msg in
  msg ++ "128"%byte :: replicate (blocks len * 64 - 8 - len - 1) "000"%byte
    ++ be_bytes 8 (N.of_nat len * 8).

(** ** Compression *)

(** [W (0 .. 15)]: the words of a block. *)
Fixpoint be_words (l : Byte_Array) : list N :=
  match l with
  | a :: b :: c :: d :: l =>
      N.lor (N.lor (N.lor (N.shiftl (Byte.to_N a) 24) (N.shiftl (Byte.to_N b) 16))
                   (N.shiftl (Byte.to_N c) 8)) (Byte.to_N d) :: be_words l
  | _ => []
  end.

(** [W (16 .. 63)], built with the latest word first. *)
Fixpoint extend (n : nat) (rw : list N) : list N :=
  match n with
  | O => rw
  | S n =>
      let w t := nth (t - 1) rw 0 in
      extend n (add32 (add32 (add32 (Small_Sigma1 (w 2%nat)) (w 7%nat)) (Small_Sigma0 (w 15%nat)))
                      (w 16%nat) :: rw)
  end.

Definition schedule (block : Byte_Array) : list N := rev (extend 48 (rev (be_words block))).

(** The working variables [A .. Hh]. *)
Record vars := Vars { vA : N; vB : N; vC : N; vD : N; vE : N; vF : N; vG : N; vH : N }.

Definition round (v : vars) (kw : N * N) : vars :=
  let T1 := add32 (add32 (add32 (add32 (vH v) (Big_Sigma1 (vE v))) (Ch (vE v) (vF v) (vG v))) kw.1) kw.2 in
  let T2 := add32 (Big_Sigma0 (vA v)) (Maj (vA v) (vB v) (vC v)) in
  Vars (add32 T1 T2) (vA v) (vB v) (vC v) (add32 (vD v) T1) (vE v) (vF v) (vG v).

Definition compress (h : list N) (block : Byte_Array) : list N :=
  let v0 := Vars (nth 0 h 0) (nth 1 h 0) (nth 2 h 0) (nth 3 h 0) (nth 4 h 0) (nth 5 h 0) (nth 6 h 0) (nth 7 h 0) in
  let v := foldl round v0 (zip K (schedule block)) in
  [add32 (nth 0 h 0) (vA v); add32 (nth 1 h 0) (vB v); add32 (nth 2 h 0) (vC v); add32 (nth 3 h 0) (vD v);
   add32 (nth 4 h 0) (vE v); add32 (nth 5 h 0) (vF v); add32 (nth 6 h 0) (vG v); add32 (nth 7 h 0) (vH v)].

(** [for Blk in 0 .. NB - 1] *)
Fixpoint compress_all (nb : nat) (buf : Byte_Array) (h : list N) : list N :=
  match nb with
  | O => h
  | S nb => compress_all nb (drop 64 buf) (compress h (take 64 buf))
  end.

Definition SHA256 (msg : Byte_Array) : Digest :=
  concat (map (be_bytes 4) (compress_all (blocks (length msg)) (padded msg) H0)).

(** ** Facts *)

Lemma be_bytes_length n v : length (be_bytes n v) = n.
Proof. induction n; simpl; congruence. Qed.

Lemma compress_all_length nb : ∀ buf h, length h = 8%nat → length (compress_all nb buf h) = 8%nat.
Proof. induction nb as [|nb IH]; intros buf h Hh; [done|]. by apply IH. Qed.

Lemma SHA256_length msg : length (SHA256 msg) = 32%nat.
Proof.
  unfold SHA256. assert (G : ∀ l, length (concat (map (be_bytes 4) l)) = (4 * length l)%nat).
  { induction l as [|x l IH]; [done|]. change (map (be_bytes 4) (x :: l)) with (be_bytes 4 x :: map (be_bytes 4) l).
    rewrite concat_cons, length_app, be_bytes_length, IH. simpl. lia. }
  by rewrite G, compress_all_length.
Qed.

(** The padded message fills its blocks exactly. *)
Lemma padded_length msg : length (padded msg) = (blocks (length msg) * 64)%nat.
Proof.
  unfold padded. rewrite length_app, length_cons, length_app, length_replicate, be_bytes_length.
  unfold blocks. pose proof (Nat.div_mod (length msg + 8) 64). pose proof (Nat.mod_upper_bound (length msg + 8) 64).
  lia.
Qed.

Lemma byte_of_to_N b : byte_of (Byte.to_N b) = b.
Proof.
  unfold byte_of. pose proof (Byte.to_N_bounded b). rewrite N.mod_small by lia. by rewrite Byte.of_to_N.
Qed.

Lemma to_N_byte_of n : Byte.to_N (byte_of n) = n `mod` 256.
Proof.
  unfold byte_of. destruct (Byte.of_N (n `mod` 256)) as [b|] eqn:E.
  - by apply Byte.to_of_N.
  - apply Byte.of_N_None_iff in E. pose proof (N.mod_lt n 256). lia.
Qed.

(** Big-endian bytes determine a number below [256 ^ n]. *)
Lemma be_bytes_inj n : ∀ v v', v < 256 ^ N.of_nat n → v' < 256 ^ N.of_nat n →
  be_bytes n v = be_bytes n v' → v = v'.
Proof.
  assert (G : ∀ n v v', be_bytes n v = be_bytes n v' → v `mod` 256 ^ N.of_nat n = v' `mod` 256 ^ N.of_nat n).
  { clear n. induction n as [|n IH]; intros v v' E.
    - by rewrite !N.mod_1_r.
    - simpl in E. injection E as E1 E2. apply IH in E2.
      apply (f_equal Byte.to_N) in E1. rewrite !to_N_byte_of, !N.shiftr_div_pow2 in E1.
      replace (2 ^ (8 * N.of_nat n)) with (256 ^ N.of_nat n) in E1 by (by rewrite N.pow_mul_r).
      rewrite Nat2N.inj_succ, N.pow_succ_r'. rewrite (N.mul_comm 256).
      rewrite !N.Div0.mod_mul_r. by rewrite E1, E2. }
  intros v v' Hv Hv' E. apply G in E. by rewrite !N.mod_small in E.
Qed.

(** ** Test vectors (FIPS 180-4) *)

Definition hex (d : Digest) : N := foldl (λ a b, a * 256 + Byte.to_N b) 0 d.

Example sha256_abc :
  hex (SHA256 ["097"; "098"; "099"]%byte)
  = 0xba7816bf8f01cfea414140de5dae2223b00361a396177a9cb410ff61f20015ad.
Proof. vm_compute. reflexivity. Qed.

Example sha256_empty :
  hex (SHA256 []) = 0xe3b0c44298fc1c149afbf4c8996fb92427ae41e4649b934ca495991b7852b855.
Proof. vm_compute. reflexivity. Qed.

(** 56 bytes: the first length that needs a second block. *)
Example sha256_two_blocks :
  hex (SHA256 (String.list_byte_of_string "abcdbcdecdefdefgefghfghighijhijkijkljklmklmnlmnomnopnopq"))
  = 0x248d6a61d20638b8e5c026930c3e6039a33ce45964ff2167f6ecedd419db06c1.
Proof. vm_compute. reflexivity. Qed.
