(* ===== verification/AuditChain.v ===== *)
(** The audit chain of the trusted core
    (src/trusted_core/src/dezhan-trusted_core-audit.ads/.adb): entries that
    carry the hash of their predecessor, and the check of a whole chain.

    The package proves that one altered entry breaks the link to its
    successor, from an assumption that hashes bind their fields.  Here the
    layout of the hashed bytes is proved injective ([serial_inj]), and the
    theorem [audit_tamper_evident] needs no assumption: two chains that verify
    and end in the same hash are the same chain, or two entries of theirs are
    a collision of SHA-256. *)
From Stdlib Require Import Strings.Byte NArith.
From S2P Require Import Prelude Sha256 TrustedCore.
Open Scope Z_scope.

Definition Natural_Last : Z := 2 ^ 31 - 1.

Inductive Audit_Event :=
  | Genesis | Lock_Created | Retention_Extended | Delete_Denied
  | Delete_Allowed | Clock_Anomaly | Seal_Engaged
  | Legal_Hold_Set | Legal_Hold_Released | Object_Quarantined.

#[export] Instance audit_event_eq_dec : EqDecision Audit_Event.
Proof. solve_decision. Defined.

(** [Audit_Event'Pos] and [Audit_Event'Val] *)
Definition Event_Pos (k : Audit_Event) : N :=
  match k with
  | Genesis => 0 | Lock_Created => 1 | Retention_Extended => 2 | Delete_Denied => 3
  | Delete_Allowed => 4 | Clock_Anomaly => 5 | Seal_Engaged => 6
  | Legal_Hold_Set => 7 | Legal_Hold_Released => 8 | Object_Quarantined => 9
  end.

Definition Event_Val (n : Z) : option Audit_Event :=
  match n with
  | 0 => Some Genesis | 1 => Some Lock_Created | 2 => Some Retention_Extended
  | 3 => Some Delete_Denied | 4 => Some Delete_Allowed | 5 => Some Clock_Anomaly
  | 6 => Some Seal_Engaged | 7 => Some Legal_Hold_Set | 8 => Some Legal_Hold_Released
  | 9 => Some Object_Quarantined | _ => None
  end.

Record Audit_Entry := {
  Seq : Z;
  Time : Trusted_Time;
  Kind : Audit_Event;
  Subject : Digest;
  Detail : Trusted_Time;
  Prev_Hash : Digest;
  Hash : Digest;
}.

#[export] Instance audit_entry_eq_dec : EqDecision Audit_Entry.
Proof. intros [] []. unfold Digest, Trusted_Time in *. solve_decision. Defined.

(** The ranges of the components of an entry: what the Ada types admit. *)
Record entry_ok (e : Audit_Entry) : Prop := {
  ok_Seq : 0 ≤ Seq e ≤ Natural_Last;
  ok_Time : in_time (Time e);
  ok_Detail : in_time (Detail e);
  ok_Subject : length (Subject e) = 32%nat;
  ok_Prev : length (Prev_Hash e) = 32%nat;
  ok_Hash : length (Hash e) = 32%nat;
}.

(** [Put64]: eight bytes, most significant first. *)
Definition Put64 (v : Z) : Byte_Array := be_bytes 8 (Z.to_N v).

(** The 89 bytes that [Hash_Of] hashes. *)
Definition serial (seq : Z) (time : Trusted_Time) (kind : Audit_Event) (subject : Digest)
    (detail : Trusted_Time) (prev : Digest) : Byte_Array :=
  Put64 seq ++ Put64 time ++ [byte_of (Event_Pos kind)] ++ subject ++ Put64 detail ++ prev.

Definition Hash_Of (seq : Z) (time : Trusted_Time) (kind : Audit_Event) (subject : Digest)
    (detail : Trusted_Time) (prev : Digest) : Digest :=
  SHA256 (serial seq time kind subject detail prev).

Definition entry_serial (e : Audit_Entry) : Byte_Array :=
  serial (Seq e) (Time e) (Kind e) (Subject e) (Detail e) (Prev_Hash e).

Definition Compute_Hash (e : Audit_Entry) : Digest :=
  Hash_Of (Seq e) (Time e) (Kind e) (Subject e) (Detail e) (Prev_Hash e).

Definition Self_Consistent (e : Audit_Entry) : bool := bool_decide (Hash e = Compute_Hash e).

Definition Is_Genesis (e : Audit_Entry) : bool :=
  (Seq e =? 0) && bool_decide (Kind e = Genesis) && bool_decide (Prev_Hash e = Zero_Digest)
  && bool_decide (Hash e = Compute_Hash e).

Definition Links_To (e p : Audit_Entry) : bool :=
  (Seq e =? Seq p + 1) && bool_decide (Prev_Hash e = Hash p) && bool_decide (Hash e = Compute_Hash e).

Definition with_hash (e : Audit_Entry) : Audit_Entry :=
  {| Seq := Seq e; Time := Time e; Kind := Kind e; Subject := Subject e; Detail := Detail e;
     Prev_Hash := Prev_Hash e; Hash := Compute_Hash e |}.

Definition Genesis_Entry (time : Trusted_Time) : Audit_Entry :=
  with_hash {| Seq := 0; Time := time; Kind := Genesis; Subject := Zero_Digest; Detail := 0;
               Prev_Hash := Zero_Digest; Hash := Zero_Digest |}.

Definition Append (prev : Audit_Entry) (time : Trusted_Time) (kind : Audit_Event) (subject : Digest)
    (detail : Trusted_Time) : Audit_Entry :=
  with_hash {| Seq := Seq prev + 1; Time := time; Kind := kind; Subject := subject; Detail := detail;
               Prev_Hash := Hash prev; Hash := Zero_Digest |}.

(** The loop of [Verify_Chain] from the entry after [p] on. *)
Fixpoint verify_from (p : Audit_Entry) (c : list Audit_Entry) : bool :=
  match c with
  | [] => true
  | e :: c =>
      if Seq p =? Natural_Last then false
      else if negb (Links_To e p) then false
      else verify_from e c
  end.

Definition Verify_Chain (c : list Audit_Entry) : bool :=
  match c with
  | [] => false
  | g :: c => if negb (Is_Genesis g) then false else verify_from g c
  end.

(** ** The hashed bytes determine the hashed fields *)

Lemma Put64_inj v v' : 0 ≤ v < 2 ^ 64 → 0 ≤ v' < 2 ^ 64 → Put64 v = Put64 v' → v = v'.
Proof.
  unfold Put64. intros Hv Hv' E. apply be_bytes_inj in E; [lia| |];
    change (256 ^ N.of_nat 8)%N with (2 ^ 64)%N; lia.
Qed.

Lemma Put64_length v : length (Put64 v) = 8%nat.
Proof. apply be_bytes_length. Qed.

Lemma Event_Pos_inj k k' : Event_Pos k = Event_Pos k' → k = k'.
Proof. by destruct k, k'. Qed.

Lemma Event_Val_Pos k : Event_Val (Z.of_N (Event_Pos k)) = Some k.
Proof. by destruct k. Qed.

Lemma Event_byte_inj k k' : byte_of (Event_Pos k) = byte_of (Event_Pos k') → k = k'.
Proof.
  intros E. apply (f_equal Byte.to_N) in E. rewrite !to_N_byte_of in E. apply Event_Pos_inj.
  by destruct k, k'.
Qed.

Lemma serial_inj e e' : entry_ok e → entry_ok e' → entry_serial e = entry_serial e' →
  Seq e = Seq e' ∧ Time e = Time e' ∧ Kind e = Kind e' ∧ Subject e = Subject e' ∧
  Detail e = Detail e' ∧ Prev_Hash e = Prev_Hash e'.
Proof.
  unfold entry_serial, serial, in_time, Time_Last, Natural_Last.
  intros [? [] [] ? ? ?] [? [] [] ? ? ?] E. unfold Time_Last, Natural_Last in *.
  apply app_inj_1 in E as [E1 E]; [|by rewrite !Put64_length].
  apply app_inj_1 in E as [E2 E]; [|by rewrite !Put64_length].
  apply app_inj_1 in E as [E3 E]; [|done]. injection E3 as E3.
  apply app_inj_1 in E as [E4 E]; [|congruence].
  apply app_inj_1 in E as [E5 E6]; [|by rewrite !Put64_length].
  repeat split; try done; [apply Put64_inj; lia || done..|by apply Event_byte_inj|apply Put64_inj; lia || done].
Qed.

(** ** Whole chains *)

(** Two entries whose hashed bytes differ and have the same hash. *)
Definition collides (e e' : Audit_Entry) : Prop :=
  entry_serial e ≠ entry_serial e' ∧ SHA256 (entry_serial e) = SHA256 (entry_serial e').

Lemma Links_To_spec e p : Links_To e p = true ↔
  Seq e = Seq p + 1 ∧ Prev_Hash e = Hash p ∧ Hash e = Compute_Hash e.
Proof.
  unfold Links_To. rewrite !andb_true_iff, Z.eqb_eq, !bool_decide_eq_true. tauto.
Qed.

Lemma Is_Genesis_spec e : Is_Genesis e = true ↔
  Seq e = 0 ∧ Kind e = Genesis ∧ Prev_Hash e = Zero_Digest ∧ Hash e = Compute_Hash e.
Proof.
  unfold Is_Genesis. rewrite !andb_true_iff, Z.eqb_eq, !bool_decide_eq_true. tauto.
Qed.

(** A verified chain, from its end: the last entry, and the chain before it. *)
Inductive chained : list Audit_Entry → Audit_Entry → Prop :=
  | chained_one g : Is_Genesis g = true → chained [g] g
  | chained_snoc c p e : chained c p → Seq p ≠ Natural_Last → Links_To e p = true →
      chained (c ++ [e]) e.

Lemma verify_from_chained c : ∀ c0 p, chained c0 p → verify_from p c = true →
  ∃ e, chained (c0 ++ c) e ∧ last (p :: c) = Some e.
Proof.
  induction c as [|e c IH]; intros c0 p Hc; simpl; intros Hv.
  - exists p. by rewrite app_nil_r.
  - destruct (Z.eqb_spec (Seq p) Natural_Last); [done|].
    destruct (Links_To e p) eqn:HL; [|done]. simpl in Hv.
    destruct (IH (c0 ++ [e]) e) as (e' & He & Hlast); [by eapply chained_snoc|done|].
    exists e'. rewrite <- app_assoc in He. done.
Qed.

Lemma chained_last c e : chained c e → last c = Some e.
Proof. destruct 1; [done|]. apply last_snoc. Qed.

Lemma verify_from_snoc e' l : ∀ p e, verify_from p l = true → last (p :: l) = Some e →
  Seq e ≠ Natural_Last → Links_To e' e = true → verify_from p (l ++ [e']) = true.
Proof.
  induction l as [|x l IH]; intros p e Hv He Hs HL.
  - injection He as ->. simpl. rewrite (proj2 (Z.eqb_neq _ _) Hs). by rewrite HL.
  - simpl in *. destruct (Seq p =? Natural_Last); [done|]. destruct (Links_To x p); [|done]. simpl in *.
    by eapply IH.
Qed.

Lemma chained_verify c e : chained c e → Verify_Chain c = true.
Proof.
  induction 1 as [g Hg|c p e Hc IH Hs HL]; simpl; [by rewrite Hg|].
  apply chained_last in Hc. destruct c as [|g c]; [done|]. simpl in *.
  destruct (Is_Genesis g); [|done]. simpl in *. by eapply verify_from_snoc.
Qed.

Lemma Verify_Chain_chained c : Verify_Chain c = true ↔ ∃ e, chained c e.
Proof.
  split.
  - destruct c as [|g c]; [done|]. simpl. destruct (Is_Genesis g) eqn:Hg; [|done]. simpl. intros Hv.
    destruct (verify_from_chained c [g] g) as (e & He & _); eauto using chained_one.
  - intros [e He]. by eapply chained_verify.
Qed.

Lemma chained_hash c e : chained c e → Hash e = Compute_Hash e.
Proof.
  destruct 1 as [g Hg|c p e _ _ HL]; [apply Is_Genesis_spec in Hg|apply Links_To_spec in HL]; tauto.
Qed.

Lemma chained_seq c e : chained c e → Seq e = Z.of_nat (length c) - 1.
Proof.
  induction 1 as [g Hg|c p e _ IH _ HL]; [by apply Is_Genesis_spec in Hg as [-> _]|].
  apply Links_To_spec in HL as [-> _]. rewrite length_app, IH. simpl. lia.
Qed.

Lemma chained_in c e : chained c e → e ∈ c.
Proof. destruct 1; [by apply list_elem_of_singleton|]. apply elem_of_app. right. by apply list_elem_of_singleton. Qed.

Lemma chained_pos c e : chained c e → (0 < length c)%nat.
Proof. destruct 1; [simpl; lia|]. rewrite length_app. simpl. lia. Qed.

(** Equal hashes come from equal entries or from a collision. *)
Lemma hash_binds e e' : entry_ok e → entry_ok e' →
  Hash e = Compute_Hash e → Hash e' = Compute_Hash e' → Hash e = Hash e' →
  e = e' ∨ collides e e'.
Proof.
  intros Ho Ho' HE HE' E. destruct (decide (entry_serial e = entry_serial e')) as [ES|NS].
  - left. destruct (serial_inj e e' Ho Ho' ES) as (?&?&?&?&?&?). destruct e, e'. simpl in *. congruence.
  - right. split; [done|]. change (Compute_Hash e = Compute_Hash e'). congruence.
Qed.

Lemma chained_unique c e : chained c e → Forall entry_ok c → ∀ c' e', chained c' e' →
  Forall entry_ok c' → Hash e = Hash e' →
  c = c' ∨ ∃ x x', x ∈ c ∧ x' ∈ c' ∧ collides x x'.
Proof.
  induction 1 as [g Hg|c p e Hc IH Hs HL]; intros Hok c' e' Hc' Hok' E.
  - assert (Hgc : chained [g] g) by by constructor.
    destruct (hash_binds g e') as [<-|Hcol]; eauto using chained_hash.
    + by apply (proj1 (Forall_forall _ _) Hok), chained_in.
    + by apply (proj1 (Forall_forall _ _) Hok'), chained_in.
    + left. inversion Hc' as [|c0 p0 e0 Hc0]; subst; [done|].
      apply chained_seq in Hc', Hgc. apply chained_pos in Hc0. rewrite length_app in Hc'. simpl in *. lia.
    + right. exists g, e'. split_and!; eauto using chained_in.
  - assert (Hce : chained (c ++ [e]) e) by by econstructor.
    destruct (hash_binds e e') as [<-|Hcol]; eauto using chained_hash.
    + by apply (proj1 (Forall_forall _ _) Hok), chained_in.
    + by apply (proj1 (Forall_forall _ _) Hok'), chained_in.
    + inversion Hc' as [g Hg|c0 p0 e0 Hc0 Hs0 HL0]; subst.
      { apply chained_seq in Hce, Hc'. apply chained_pos in Hc. rewrite length_app in Hce. simpl in *. lia. }
      apply Forall_app in Hok as [Hok _]. apply Forall_app in Hok' as [Hok' _].
      apply Links_To_spec in HL as (_ & EP & _), HL0 as (_ & EP0 & _).
      destruct (IH Hok c0 p0 Hc0 Hok') as [->|(x & x' & Hx & Hx' & Hcol)]; [congruence|by left|].
      right. exists x, x'. rewrite !elem_of_app. eauto.
    + right. exists e, e'. split_and!; eauto using chained_in.
Qed.

(** The hash of the newest entry. *)
Definition head_hash (c : list Audit_Entry) : option Digest := Hash <$> last c.

(** C16: Two chains of well-typed entries that both verify and whose newest entries
    carry the same hash are equal entry by entry, unless an entry of one and
    an entry of the other hash to the same value from different bytes: no
    record can be altered, inserted or dropped undetected without a collision
    of SHA-256 on two concrete records. *)
Theorem audit_tamper_evident (c c' : list Audit_Entry)
  (Hok : Forall entry_ok c) (Hok' : Forall entry_ok c')
  (Hv : Verify_Chain c = true) (Hv' : Verify_Chain c' = true)
  (Hhead : head_hash c = head_hash c') :
  c = c' ∨ ∃ e e', e ∈ c ∧ e' ∈ c' ∧ collides e e'.
Proof.
  apply Verify_Chain_chained in Hv as [e He], Hv' as [e' He'].
  apply (chained_unique c e He Hok c' e' He' Hok'). unfold head_hash in Hhead.
  rewrite (chained_last _ _ He), (chained_last _ _ He') in Hhead. simpl in Hhead. congruence.
Qed.

(** ** Appending *)

Lemma Append_links p t k s d : Links_To (Append p t k s d) p = true.
Proof. by apply Links_To_spec. Qed.

Lemma Append_chained c p t k s d :
  chained c p → Seq p ≠ Natural_Last → chained (c ++ [Append p t k s d]) (Append p t k s d).
Proof. intros Hc Hs. econstructor; eauto using Append_links. Qed.

Lemma Append_ok p t k s d : entry_ok p → Seq p ≠ Natural_Last → in_time t → in_time d →
  length s = 32%nat → entry_ok (Append p t k s d).
Proof.
  intros [[] ? ? ? ? ?] Hne Ht Hd Hl. split; simpl; try done; [unfold Natural_Last in *; lia|].
  apply SHA256_length.
Qed.

Lemma Genesis_ok t : in_time t → entry_ok (Genesis_Entry t).
Proof.
  intros Ht. split; try done; apply SHA256_length.
Qed.

Lemma Genesis_chained t : chained [Genesis_Entry t] (Genesis_Entry t).
Proof. constructor. by apply Is_Genesis_spec. Qed.

(** ** An altered record *)

(** A chain of three entries, and the same with the middle one altered and
    its hash recomputed: it no longer verifies. *)
Definition demo_chain : list Audit_Entry :=
  let g := Genesis_Entry 0 in
  let a := Append g 5 Lock_Created Zero_Digest 100 in
  [g; a; Append a 9 Delete_Denied Zero_Digest 9].

Definition demo_altered : list Audit_Entry :=
  let g := Genesis_Entry 0 in
  let a := Append g 5 Lock_Created Zero_Digest 100 in
  [g; with_hash {| Seq := 1; Time := 5; Kind := Lock_Created; Subject := Zero_Digest; Detail := 6;
                   Prev_Hash := Hash g; Hash := Zero_Digest |};
   Append a 9 Delete_Denied Zero_Digest 9].

Example demo_chain_verifies : Verify_Chain demo_chain = true ∧ Verify_Chain demo_altered = false.
Proof. vm_compute. done. Qed.

Lemma demo_chain_ok : Forall entry_ok demo_chain.
Proof.
  assert (H0 : entry_ok (Genesis_Entry 0)) by (apply Genesis_ok; unfold in_time, Time_Last; lia).
  repeat constructor; try done; simpl; unfold Natural_Last, in_time, Time_Last; try lia; try apply SHA256_length.
Qed.

Lemma audit_tamper_evident_witness :
  Verify_Chain demo_chain = true ∧
  (demo_chain = demo_chain ∨ ∃ e e', e ∈ demo_chain ∧ e' ∈ demo_chain ∧ collides e e').
Proof.
  assert (Hv : Verify_Chain demo_chain = true) by (vm_compute; reflexivity).
  split; [exact Hv|].
  exact (audit_tamper_evident demo_chain demo_chain demo_chain_ok demo_chain_ok Hv Hv eq_refl).
Defined.
