(* ===== verification/Cipher.v ===== *)
(** ChaCha20 as the trusted core computes it
    (src/trusted_core/src/dezhan-trusted_core-cipher.adb): the block function
    and the in-place encryption [XCrypt].  [XCrypt] keeps a counter and an
    offset into the current block while it walks over the data;
    [xcrypt_keystream] shows that byte [i] meets byte [i mod 64] of block
    [counter + i / 64], with the counter wrapping at [2^32], and
    [xcrypt_involutive] that applying it twice gives the data back. *)
From Stdlib Require Import Strings.Byte NArith.
From S2P Require Import Prelude Gf256 Sha256.
Open Scope N_scope.

Definition Rotate_Left (x n : N) : N := N.lor (word (N.shiftl x n)) (N.shiftr x (32 - n)).

Definition LE32 (b0 b1 b2 b3 : Byte.byte) : N :=
  N.lor (N.lor (N.lor (Byte.to_N b0) (N.shiftl (Byte.to_N b1) 8)) (N.shiftl (Byte.to_N b2) 16))
    (N.shiftl (Byte.to_N b3) 24).

(** [Words]: sixteen words; [S (I)] and [S (I) := V]. *)
Definition Words : Type := list N.
Definition at_ (s : Words) (i : nat) : N := nth i s 0.

(** The two steps of a line of [Quarter_Round]. *)
Definition qr_step (x y z : nat) (n : N) (s : Words) : Words :=
  let s := <[x := add32 (at_ s x) (at_ s y)]> s in
  <[z := Rotate_Left (N.lxor (at_ s z) (at_ s x)) n]> s.

Definition Quarter_Round (a b c d : nat) (s : Words) : Words :=
  qr_step c d b 7 (qr_step a b d 8 (qr_step c d b 12 (qr_step a b d 16 s))).

(** A column round and a diagonal round. *)
Definition double_round (s : Words) : Words :=
  Quarter_Round 3 4 9 14 (Quarter_Round 2 7 8 13 (Quarter_Round 1 6 11 12 (Quarter_Round 0 5 10 15
    (Quarter_Round 3 7 11 15 (Quarter_Round 2 6 10 14 (Quarter_Round 1 5 9 13 (Quarter_Round 0 4 8 12 s))))))).

Fixpoint le_words (l : Byte_Array) : Words :=
  match l with
  | a :: b :: c :: d :: l => LE32 a b c d :: le_words l
  | _ => []
  end.

Definition le_bytes (w : N) : Byte_Array :=
  [byte_of w; byte_of (N.shiftr w 8); byte_of (N.shiftr w 16); byte_of (N.shiftr w 24)].

(** The 64 bytes of keystream for a key of 32 and a nonce of 12 bytes. *)
Definition Block (key nonce : Byte_Array) (counter : N) : Byte_Array :=
  let st := [0x61707865; 0x3320646e; 0x79622d32; 0x6b206574] ++ le_words key ++ [counter] ++ le_words nonce in
  let wk := Nat.iter 10 double_round st in
  concat (map le_bytes (zip_with add32 wk st)).

(** [A xor B] on bytes. *)
Definition bxor : Byte.byte → Byte.byte → Byte.byte := sxor.

(** The loop of [XCrypt]: counter, offset and current block. *)
Fixpoint xcrypt_loop (key nonce : Byte_Array) (ctr : N) (off : nat) (ks data : Byte_Array) {struct data} : Byte_Array :=
  match data with
  | [] => []
  | d :: data =>
      bxor d (nth off ks "000"%byte) ::
      if (off =? 63)%nat
      then xcrypt_loop key nonce (add32 ctr 1) 0 (Block key nonce (add32 ctr 1)) data
      else xcrypt_loop key nonce ctr (S off) ks data
  end.

Definition XCrypt (key nonce : Byte_Array) (counter : N) (data : Byte_Array) : Byte_Array :=
  xcrypt_loop key nonce counter 0 (Block key nonce counter) data.

(** The keystream: byte [i] of it. *)
Definition keystream (key nonce : Byte_Array) (counter : N) (i : nat) : Byte.byte :=
  nth (i `mod` 64) (Block key nonce (word (counter + N.of_nat (i `div` 64)))) "000"%byte.

#[local] Opaque Block.

Lemma xcrypt_loop_spec key nonce counter data : ∀ i off,
  off = (i `mod` 64)%nat →
  let ctr := word (counter + N.of_nat (i `div` 64)) in
  xcrypt_loop key nonce ctr off (Block key nonce ctr) data
  = imap (λ j d, bxor d (keystream key nonce counter (i + j))) data.
Proof.
  induction data as [|d data IH]; intros i off Hoff; [done|]. cbn zeta.
  change (imap (λ j d0, bxor d0 (keystream key nonce counter (i + j))) (d :: data))
    with (bxor d (keystream key nonce counter (i + 0))
          :: imap (λ j d0, bxor d0 (keystream key nonce counter (i + S j))) data).
  cbn [xcrypt_loop]. f_equal; [unfold keystream; rewrite Nat.add_0_r, <- Hoff; reflexivity|].
  rewrite (imap_ext _ (λ j d0, bxor d0 (keystream key nonce counter (S i + j))) data)
    by (intros; by rewrite Nat.add_succ_r).
  pose proof (Nat.div_mod i 64). pose proof (Nat.mod_upper_bound i 64).
  destruct (Nat.eqb_spec off 63) as [E|E].
  - assert (ED : (S i `div` 64 = S (i `div` 64))%nat)
      by (symmetry; apply (Nat.div_unique _ 64 _ 0); lia).
    assert (EC : add32 (word (counter + N.of_nat (i `div` 64))) 1 = word (counter + N.of_nat (S i `div` 64))).
    { unfold add32, word. rewrite ED, N.Div0.add_mod_idemp_l. f_equal. lia. }
    rewrite EC. apply IH. apply (Nat.mod_unique _ 64 (S (i `div` 64))); lia.
  - assert (ED : (S i `div` 64 = i `div` 64)%nat)
      by (symmetry; apply (Nat.div_unique _ 64 _ (S (i `mod` 64))); lia).
    rewrite <- ED. apply IH. rewrite Hoff. apply (Nat.mod_unique _ 64 (i `div` 64)); lia.
Qed.

Lemma xcrypt_keystream key nonce counter data : counter < 2 ^ 32 →
  XCrypt key nonce counter data = imap (λ i d, bxor d (keystream key nonce counter i)) data.
Proof.
  intros Hc. unfold XCrypt.
  pose proof (xcrypt_loop_spec key nonce counter data 0 0 eq_refl) as E. cbn zeta in E.
  change (N.of_nat (0 `div` 64)) with 0 in E. rewrite N.add_0_r in E.
  unfold word in E. rewrite N.mod_small in E by done. exact E.
Qed.

Lemma XCrypt_length key nonce counter data : counter < 2 ^ 32 →
  length (XCrypt key nonce counter data) = length data.
Proof. intros Hc. rewrite xcrypt_keystream by done. apply length_imap. Qed.

Lemma XCrypt_involutive key nonce counter data : counter < 2 ^ 32 →
  XCrypt key nonce counter (XCrypt key nonce counter data) = data.
Proof.
  intros Hc. rewrite !(xcrypt_keystream _ _ _ _ Hc).
  apply list_eq. intros i. rewrite !list_lookup_imap.
  destruct (data !! i) as [d|]; simpl; [|reflexivity].
  f_equal. unfold bxor. rewrite <- sxor_assoc, sxor_nilpotent, sxor_comm. apply sxor_0_l.
Qed.

(** Encryption is decryption: running [XCrypt] on its own result with the same
    key, nonce and counter returns the data, whatever its length, and byte [i]
    meets byte [i mod 64] of the block with counter [counter + i / 64]
    (wrapping at [2^32]). *)
Theorem xcrypt_round_trip (key nonce : Byte_Array) (counter : N) (data : Byte_Array)
  (Hcounter : counter < 2 ^ 32) :
  XCrypt key nonce counter (XCrypt key nonce counter data) = data ∧
  length (XCrypt key nonce counter data) = length data ∧
  ∀ i d, data !! i = Some d →
    XCrypt key nonce counter data !! i = Some (bxor d (keystream key nonce counter i)).
Proof.
  split_and!; [by apply XCrypt_involutive|by apply XCrypt_length|].
  intros i d Hd. rewrite xcrypt_keystream by done. rewrite list_lookup_imap, Hd. reflexivity.
Qed.

#[local] Transparent Block.

(** ** RFC 8439, section 2.4.2 (first bytes of the example) *)

Definition rfc_key : Byte_Array := map (λ n, byte_of (N.of_nat n)) (seq 0 32).
Definition rfc_nonce : Byte_Array := map byte_of [0; 0; 0; 0; 0; 0; 0; 0x4a; 0; 0; 0; 0].
Definition rfc_text : Byte_Array := String.list_byte_of_string "Ladies and Gentl".

Example xcrypt_rfc8439 :
  map Byte.to_N (XCrypt rfc_key rfc_nonce 1 rfc_text)
  = [0x6e; 0x2e; 0x35; 0x9a; 0x25; 0x68; 0xf9; 0x80; 0x41; 0xba; 0x07; 0x28; 0xdd; 0x0d; 0x69; 0x81].
Proof. vm_compute. reflexivity. Qed.

Lemma xcrypt_round_trip_witness :
  XCrypt rfc_key rfc_nonce 1 (XCrypt rfc_key rfc_nonce 1 rfc_text) = rfc_text.
Proof. apply (xcrypt_round_trip rfc_key rfc_nonce 1 rfc_text). reflexivity. Defined.
