(* ===== verification/AdaText.v ===== *)
(** What the vault's persistence code uses of Ada's strings
    (src/vault/src/dezhan-vault.adb, lines 159 to 235): images and values of
    numbers, hexadecimal text of digests and names, the fields of a line, and
    the lines of a text file.  A function that can raise [Constraint_Error]
    returns an option.  The round trips below are what reading a snapshot or a
    journal back rests on. *)
From Stdlib Require Import Strings.Byte NArith.
From S2P Require Import Prelude GoStrings GoText GoFloat Sha256.
Open Scope Z_scope.

(** ** Numbers *)

(** ['Image] of a number that is not negative: its digits after one space. *)
Definition Image (z : Z) : string := " " +:+ Itoa z.

(** ['Value] of a string of digits for a type whose last value is [hi]. *)
Definition Value (hi : Z) (s : string) : option Z :=
  if decide (s = "") then None
  else if string_forallb digit s then
    let z := (read_mantissa false s (read_so_far 0 false)).1.(mant) in
    if z <=? hi then Some z else None
  else None.

Lemma Value_Itoa hi z : 0 ≤ z ≤ hi → Value hi (Itoa z) = Some z.
Proof.
  intros [H0 H1]. unfold Value. destruct (Itoa_digits z H0) as [Hd Hne].
  rewrite decide_False by done. rewrite Hd, read_Itoa by done. simpl. by rewrite (proj2 (Z.leb_le _ _)).
Qed.

(** ** Hexadecimal text *)

Definition Hex_Digits : string := "0123456789abcdef".

Definition hex_digit (n : N) : ascii := default "0"%char (String.get (N.to_nat n) Hex_Digits).

Definition hex2 (n : N) : string :=
  String (hex_digit (n `div` 16)%N) (String (hex_digit (n `mod` 16)%N) "").

(** [Nibble]; a character before 'a' that is no digit has none. *)
Definition Nibble (c : ascii) : option Z :=
  let v := byte_val c in
  if (48 <=? v) && (v <=? 57) then Some (v - 48)
  else let r := v - 97 + 10 in if 0 <=? r then Some r else None.

(** The byte two characters spell. *)
Definition unhex2 (a b : ascii) : option Z :=
  x ← Nibble a; y ← Nibble b;
  let v := x * 16 + y in if v <=? 255 then Some v else None.

Fixpoint Str_To_Hex (s : string) : string :=
  match s with
  | "" => ""
  | String c s => hex2 (N_of_ascii c) +:+ Str_To_Hex s
  end.

(** A last odd character is not read. *)
Fixpoint Hex_To_Str (h : string) : option string :=
  match h with
  | String a (String b h) =>
      v ← unhex2 a b; s ← Hex_To_Str h; Some (String (ascii_of_N (Z.to_N v)) s)
  | _ => Some ""
  end.

Fixpoint To_Hex (d : Digest) : string :=
  match d with
  | [] => ""
  | b :: d => hex2 (Byte.to_N b) +:+ To_Hex d
  end.

(** [n] bytes from the start of the string. *)
Fixpoint from_hex (n : nat) (s : string) : option Digest :=
  match n, s with
  | O, _ => Some []
  | S n, String a (String b s) =>
      v ← unhex2 a b; d ← from_hex n s; Some (Sha256.byte_of (Z.to_N v) :: d)
  | _, _ => None
  end.

Definition From_Hex (s : string) : option Digest := from_hex 32 s.

Definition is_hex (c : ascii) : bool :=
  ((48 <=? byte_val c) && (byte_val c <=? 57)) || ((97 <=? byte_val c) && (byte_val c <=? 102)).

Lemma hex_digit_spec n : (n < 16)%N →
  Nibble (hex_digit n) = Some (Z.of_N n) ∧ is_hex (hex_digit n) = true.
Proof.
  intros Hn. assert (Hc : In n (map N.of_nat (seq 0 16))).
  { apply in_map_iff. exists (N.to_nat n). split; [lia|]. apply in_seq. lia. }
  simpl in Hc. repeat (destruct Hc as [<-|Hc]; [by vm_compute|]). done.
Qed.

Lemma Nibble_hex n : (n < 16)%N → Nibble (hex_digit n) = Some (Z.of_N n).
Proof. intros Hn. by apply hex_digit_spec. Qed.

Lemma hex_digit_hex n : (n < 16)%N → is_hex (hex_digit n) = true.
Proof. intros Hn. by apply hex_digit_spec. Qed.

Lemma unhex2_hex n : (n < 256)%N →
  unhex2 (hex_digit (n `div` 16)%N) (hex_digit (n `mod` 16)%N) = Some (Z.of_N n).
Proof.
  intros Hn. unfold unhex2.
  pose proof (N.mod_lt n 16). pose proof (N.div_mod n 16).
  assert (n `div` 16 < 16)%N by (apply N.Div0.div_lt_upper_bound; lia).
  rewrite !Nibble_hex by lia. simpl.
  replace (Z.of_N (n `div` 16) * 16 + Z.of_N (n `mod` 16)) with (Z.of_N n) by lia.
  by rewrite (proj2 (Z.leb_le _ _)) by lia.
Qed.

Lemma Hex_To_Str_To_Hex s : Hex_To_Str (Str_To_Hex s) = Some s.
Proof.
  induction s as [|c s IH]; [done|]. cbn [Str_To_Hex]. unfold hex2. rewrite !str_app_cons, str_app_nil_l.
  cbn [Hex_To_Str]. rewrite unhex2_hex by apply N_ascii_bounded. simpl. rewrite IH. simpl.
  by rewrite N2Z.id, ascii_N_embedding.
Qed.

Lemma From_Hex_To_Hex d : length d = 32%nat → From_Hex (To_Hex d) = Some d.
Proof.
  unfold From_Hex. intros Hl. rewrite <- Hl. clear Hl.
  induction d as [|b d IH]; [done|]. cbn [To_Hex length]. unfold hex2.
  rewrite !str_app_cons, str_app_nil_l. cbn [from_hex].
  rewrite unhex2_hex by (pose proof (Byte.to_N_bounded b); lia). simpl. rewrite IH. simpl.
  by rewrite N2Z.id, byte_of_to_N.
Qed.

(** ** Fields of a line *)

Definition is_space (c : ascii) : bool := bool_decide (c = " "%char).

(** The word the string starts with, perhaps empty, and the words after it. *)
Fixpoint scan (s : string) : string * list string :=
  match s with
  | "" => ("", [])
  | String c s =>
      let '(w, ws) := scan s in
      if is_space c then ("", if decide (w = "") then ws else w :: ws) else (String c w, ws)
  end.

Definition words (s : string) : list string :=
  let '(w, ws) := scan s in if decide (w = "") then ws else w :: ws.

(** [Field (Line, N)]: the [N]-th word, empty if absent. *)
Definition Field (line : string) (n : nat) : string := nth (n - 1) (words line) "".

(** A word: not empty, without spaces and line feeds. *)
Definition word_char (c : ascii) : bool := negb (is_space c) && bool_decide (c ≠ "010"%char).
Definition is_word (s : string) : Prop := s ≠ "" ∧ string_forallb word_char s = true.

Lemma scan_app w s : string_forallb word_char w = true →
  scan (w +:+ s) = (w +:+ (scan s).1, (scan s).2).
Proof.
  induction w as [|c w IH]; intros Hw; [by rewrite !str_app_nil_l; destruct (scan s)|].
  simpl in Hw. apply andb_true_iff in Hw as [Hc Hw]. rewrite !str_app_cons. cbn [scan].
  rewrite (IH Hw). unfold word_char in Hc. apply andb_true_iff in Hc as [Hc _].
  by destruct (is_space c).
Qed.

Lemma words_space s : words (" " +:+ s) = words s.
Proof.
  unfold words. change (" " +:+ s) with (String " " s). cbn [scan]. by destruct (scan s) as [w ws].
Qed.

Lemma words_cons w s : is_word w → words (w +:+ " " +:+ s) = w :: words s.
Proof.
  intros [Hne Hw]. unfold words at 1. rewrite scan_app by done.
  change (" " +:+ s) with (String " " s). cbn [scan]. unfold words. destruct (scan s) as [w' ws]. simpl.
  rewrite str_app_nil_r. by rewrite decide_False.
Qed.

Lemma words_one w : is_word w → words w = [w].
Proof.
  intros [Hne Hw]. unfold words. rewrite <- (str_app_nil_r w), scan_app by done. simpl.
  rewrite str_app_nil_r. by rewrite decide_False.
Qed.

(** A word may be missing at the end of a line. *)
Lemma words_opt w : string_forallb word_char w = true → words w = if decide (w = "") then [] else [w].
Proof. intros Hw. destruct (decide (w = "")) as [->|]; [done|]. by apply words_one. Qed.

(** [Image] starts with the separator. *)
Lemma words_cons_Image w z s : is_word w → words (w +:+ Image z +:+ s) = w :: words (Itoa z +:+ s).
Proof. intros Hw. unfold Image. rewrite <- str_app_assoc. by apply words_cons. Qed.

Lemma is_word_weaken p s : s ≠ "" → string_forallb p s = true →
  (∀ c, p c = true → word_char c = true) → is_word s.
Proof.
  intros Hne Hp Hi. split; [done|]. clear Hne. induction s as [|c s IH]; [done|]. simpl in *.
  apply andb_true_iff in Hp as [Hc Hs]. by rewrite (Hi c Hc), IH.
Qed.

Lemma digit_word_char c : digit c = true → word_char c = true.
Proof.
  intros Hc. unfold word_char, is_space. rewrite bool_decide_false, bool_decide_true; [done|..];
    by intros ->.
Qed.

Lemma hex_word_char c : is_hex c = true → word_char c = true.
Proof.
  intros Hc. unfold word_char, is_space. rewrite bool_decide_false, bool_decide_true; [done|..];
    by intros ->.
Qed.

Lemma Itoa_word z : 0 ≤ z → is_word (Itoa z).
Proof. intros Hz. destruct (Itoa_digits z Hz). eauto using is_word_weaken, digit_word_char. Qed.

Lemma hex2_hex n : (n < 256)%N → string_forallb is_hex (hex2 n) = true.
Proof.
  intros Hn. unfold hex2. simpl. pose proof (N.mod_lt n 16).
  assert (n `div` 16 < 16)%N by (apply N.Div0.div_lt_upper_bound; lia).
  by rewrite !hex_digit_hex by lia.
Qed.

Lemma Str_To_Hex_hex s : string_forallb is_hex (Str_To_Hex s) = true.
Proof.
  induction s as [|c s IH]; [done|]. cbn [Str_To_Hex]. rewrite string_forallb_app, IH, hex2_hex; [done|].
  apply N_ascii_bounded.
Qed.

Lemma To_Hex_hex d : string_forallb is_hex (To_Hex d) = true.
Proof.
  induction d as [|b d IH]; [done|]. cbn [To_Hex]. rewrite string_forallb_app, IH, hex2_hex; [done|].
  pose proof (Byte.to_N_bounded b). lia.
Qed.

Lemma Str_To_Hex_word s : s ≠ "" → is_word (Str_To_Hex s).
Proof.
  intros Hs. eapply is_word_weaken; [|apply Str_To_Hex_hex|apply hex_word_char].
  by destruct s.
Qed.

Lemma Str_To_Hex_chars s : string_forallb word_char (Str_To_Hex s) = true.
Proof. destruct s as [|c s]; [done|]. by apply Str_To_Hex_word. Qed.

Lemma To_Hex_word d : d ≠ [] → is_word (To_Hex d).
Proof.
  intros Hd. eapply is_word_weaken; [|apply To_Hex_hex|apply hex_word_char]. by destruct d.
Qed.

(** ** Lines of a text file *)

Definition LF : ascii := "010"%char.

(** What repeated [Get_Line] calls return up to the end of the file. *)
Fixpoint lines_of (s : string) : list string :=
  match s with
  | "" => []
  | String c s' =>
      if bool_decide (c = LF) then "" :: lines_of s'
      else match lines_of s' with
           | [] => [String c ""]
           | l :: ls => String c l :: ls
           end
  end.

(** [Put_Line] of every line. *)
Fixpoint unlines (ls : list string) : string :=
  match ls with
  | [] => ""
  | l :: ls => l +:+ String LF "" +:+ unlines ls
  end.

Definition no_LF (s : string) : bool := string_forallb (λ c, bool_decide (c ≠ LF)) s.

Lemma lines_of_line l s : no_LF l = true → lines_of (l +:+ String LF s) = l :: lines_of s.
Proof.
  induction l as [|c l IH]; intros Hl; [done|]. unfold no_LF in Hl. simpl in Hl.
  apply andb_true_iff in Hl as [Hc Hl]. apply bool_decide_eq_true in Hc.
  rewrite str_app_cons. cbn [lines_of]. rewrite bool_decide_false by done. by rewrite (IH Hl).
Qed.

Lemma lines_of_unlines_app ls s : Forall (λ l, no_LF l = true) ls →
  lines_of (unlines ls +:+ s) = ls ++ lines_of s.
Proof.
  induction 1 as [|l ls Hl _ IH]; [done|]. cbn [unlines]. rewrite <- !str_app_assoc.
  change (String LF "" +:+ (unlines ls +:+ s)) with (String LF (unlines ls +:+ s)).
  rewrite lines_of_line by done. by rewrite IH.
Qed.

Lemma lines_of_unlines ls : Forall (λ l, no_LF l = true) ls → lines_of (unlines ls) = ls.
Proof.
  intros Hl. rewrite <- (str_app_nil_r (unlines ls)), lines_of_unlines_app by done. apply app_nil_r.
Qed.

Lemma unlines_app ls ls' : unlines (ls ++ ls') = unlines ls +:+ unlines ls'.
Proof.
  induction ls as [|l ls IH]; [done|]. cbn [unlines app]. rewrite IH. by rewrite <- !str_app_assoc.
Qed.

Lemma no_LF_app s t : no_LF (s +:+ t) = no_LF s && no_LF t.
Proof. apply string_forallb_app. Qed.

Lemma word_chars_no_LF s : string_forallb word_char s = true → no_LF s = true.
Proof.
  induction s as [|c s IH]; [done|]. unfold no_LF. simpl. rewrite !andb_true_iff.
  unfold word_char at 1. rewrite andb_true_iff. intros [[_ Hc] Hs]. split; [done|]. by apply IH.
Qed.
