(* ===== verification/AdaMonad.v ===== *)
(** Effects of the Ada code: a procedure works on a state and either returns
    or raises one of the exceptions of the packages it belongs to; what was
    written before an exception stays written. *)
From Stdlib Require Import Strings.Byte.
From S2P Require Import Prelude.

Inductive exn :=
  (* dezhan-vault.ads *)
  | Not_Found | Invalid_Mode | Vault_Sealed | No_Such_Upload | Egress_Denied | Sync_Closed
  | Object_Quarantined_Error | Bucket_Exists_Error | Bucket_Not_Empty
  (* dezhan-storage-cas.ads, dezhan-storage-deflate.ads *)
  | Corruption_Detected | Auth_Failed | Object_Too_Large | Format_Error
  (* the language and its library: a failed range or index check, a file that
     is not there, a stream that ends *)
  | Constraint_Error | Name_Error | End_Error.

#[export] Instance exn_eq_dec : EqDecision exn.
Proof. solve_decision. Defined.

Definition Ada (W A : Type) : Type := W → (exn + A) * W.

#[export] Instance ada_ret W : MRet (Ada W) := λ A a w, (inr a, w).
#[export] Instance ada_bind W : MBind (Ada W) := λ A B f m w,
  match m w with
  | (inr a, w') => f a w'
  | (inl e, w') => (inl e, w')
  end.

Definition raise {W A} (e : exn) : Ada W A := λ w, (inl e, w).
Definition gets {W A} (f : W → A) : Ada W A := λ w, (inr (f w), w).
Definition update {W} (f : W → W) : Ada W unit := λ w, (inr (), f w).

(** [if c then raise e; end if;] *)
Definition raise_when {W} (c : bool) (e : exn) : Ada W unit := if c then raise e else mret ().

(** A function without effects that may raise. *)
Definition lift {W A} (r : exn + A) : Ada W A := λ w, (r, w).

Definition of_option {A} (o : option A) : exn + A :=
  match o with Some a => inr a | None => inl Constraint_Error end.

(** [begin m; exception when e => h; end] *)
Definition handle {W A} (m : Ada W A) (e : exn) (h : Ada W A) : Ada W A := λ w,
  match m w with
  | (inl e', w') => if decide (e' = e) then h w' else (inl e', w')
  | r => r
  end.

(** [for x of l loop f (x); end loop;] *)
Fixpoint ada_iter {W A} (f : A → Ada W unit) (l : list A) : Ada W unit :=
  match l with
  | [] => mret ()
  | x :: l => _ ← f x; ada_iter f l
  end.

(** The results of a loop, in order. *)
Fixpoint ada_map {W A B} (f : A → Ada W B) (l : list A) : Ada W (list B) :=
  match l with
  | [] => mret []
  | x :: l => b ← f x; bs ← ada_map f l; mret (b :: bs)
  end.

(** What an array holds that was never written to. *)
Class Memory := { uninitialized : nat → Byte.byte }.

(** ** Lemmas *)

Section lemmas.
Context {W A B : Type}.
Implicit Types (m : Ada W A) (f : A → Ada W B) (w : W).

Lemma ada_bind_inr m f w b w' :
  (m ≫= f) w = (inr b, w') ↔ ∃ a w1, m w = (inr a, w1) ∧ f a w1 = (inr b, w').
Proof.
  unfold mbind, ada_bind. destruct (m w) as [[e|a] w1].
  - split; [done|]. by intros (?&?&?&?).
  - split; [by eauto|]. by intros (?&?&[= -> ->]&?).
Qed.

Lemma ada_bind_inr_l m f w a w1 : m w = (inr a, w1) → (m ≫= f) w = f a w1.
Proof. unfold mbind, ada_bind. by intros ->. Qed.

Lemma ada_bind_inl_l m f w e w1 : m w = (inl e, w1) → (m ≫= f) w = (inl e, w1).
Proof. unfold mbind, ada_bind. by intros ->. Qed.

(** A property of the state that both parts keep, on every outcome. *)
Lemma ada_bind_preserves (P : W → Prop) m f w :
  P (m w).2 → (∀ a w1, m w = (inr a, w1) → P (f a w1).2) → P ((m ≫= f) w).2.
Proof. unfold mbind, ada_bind. destruct (m w) as [[e|a] w1]; simpl; eauto. Qed.
End lemmas.

Lemma ada_iter_preserves {W A} (P : W → Prop) (f : A → Ada W unit) l :
  (∀ x w, x ∈ l → P w → P (f x w).2) → ∀ w, P w → P (ada_iter f l w).2.
Proof.
  induction l as [|x l IH]; intros Hf w Hw; [done|]. simpl. apply ada_bind_preserves.
  - apply Hf; [left|done].
  - intros [] w1 E. apply IH; [intros; apply Hf; [by right|done]|].
    specialize (Hf x w (list_elem_of_here _ _) Hw). by rewrite E in Hf.
Qed.

(** The loop rule for loops that return. *)
Lemma ada_iter_inr {W A} (I : list A → W → Prop) (f : A → Ada W unit) :
  (∀ x l w w', I (x :: l) w → f x w = (inr (), w') → I l w') →
  ∀ l w w', I l w → ada_iter f l w = (inr (), w') → I [] w'.
Proof.
  intros Hstep l. induction l as [|x l IH]; simpl; intros w w' HI.
  - by intros [= <-].
  - intros ([] & w1 & Hx & Hl)%ada_bind_inr. eauto.
Qed.

(** ** Invariants *)

(** An operation that keeps [P], whether it returns or raises. *)
Definition preserves {W A} (P : W → Prop) (p : Ada W A) : Prop := ∀ w, P w → P (p w).2.

Section preserves.
Context {W : Type} (P : W → Prop).

Lemma preserves_bind {A B} (p : Ada W A) (f : A → Ada W B) :
  preserves P p → (∀ a, preserves P (f a)) → preserves P (p ≫= f).
Proof.
  intros Hp Hf w Hw. apply ada_bind_preserves; [by apply Hp|]. intros a w1 E. apply Hf.
  specialize (Hp w Hw). by rewrite E in Hp.
Qed.

Lemma preserves_pure {A} (p : Ada W A) : (∀ w, (p w).2 = w) → preserves P p.
Proof. intros Hp w. by rewrite Hp. Qed.

Lemma preserves_map {A B} (f : A → Ada W B) l : (∀ x, preserves P (f x)) → preserves P (ada_map f l).
Proof.
  intros Hf. induction l as [|x l IH]; [by apply preserves_pure|]. simpl. apply preserves_bind; [done|]. intros b.
  apply preserves_bind; [done|]. intros bs. by apply preserves_pure.
Qed.

Lemma preserves_handle {A} (p h : Ada W A) e : preserves P p → preserves P h → preserves P (handle p e h).
Proof.
  intros Hp Hh w Hw. unfold handle. specialize (Hp w Hw). destruct (p w) as [[e'|a] w1]; [|done].
  case_decide; [|done]. by apply Hh.
Qed.
End preserves.

(** Follows the structure of an operation; [atom] deals with its steps, and
    hypotheses about parts of it are used. *)
Ltac solve_preserves atom :=
  repeat first
    [ progress intros
    | match goal with Hyp : ∀ _, _ |- _ => apply Hyp end
    | assumption
    | apply preserves_handle | apply preserves_map
    | atom
    | apply preserves_pure; reflexivity
    | match goal with
      | |- preserves _ (_ ≫= _) => apply preserves_bind
      | |- preserves _ (if ?b then _ else _) => destruct b
      | |- preserves _ (match ?x with _ => _ end) => destruct x
      end ].
