(* ===== verification/Deflate.v ===== *)
(** DEFLATE as the content store has it
    (src/storage/src/dezhan-storage-deflate.adb): [Deflate] writes one block
    with the fixed Huffman codes and greedy matches found through hash chains;
    [Inflate] reads stored, fixed and dynamic blocks.

    Octets are bytes; [Unsigned_32] is a number below [2^32] with the
    wrap-around written out.  Positions in a buffer are counted from its first
    element.  The vectors the code appends to are kept with the last element
    first.  The two loops of [Inflate] that only end when the stream says so
    take fuel, and running out of it is a result of its own ([None]);
    DeflateSpec shows that it does not happen and that what was deflated is
    inflated. *)
From Stdlib Require Import Strings.Byte NArith.
From S2P Require Import Prelude AdaMonad Sha256.
Close Scope N_scope.
Open Scope nat_scope.

(** [Shift_Left] and [-] on [Unsigned_32] *)
Definition shl32 (x : N) (n : nat) : N := word (N.shiftl x (N.of_nat n)).
Definition sub32 (x y : N) : N := word (x + (2 ^ 32 - y)).

(** ** The tables of RFC 1951 *)

Definition Len_Base : list nat :=
  seq 3 8 ++ [11; 13; 15; 17; 19; 23; 27; 31; 35; 43; 51; 59; 67; 83; 99; 115; 131; 163; 195; 227; 258].
Definition Len_Extra : list nat :=
  replicate 8 0 ++ replicate 4 1 ++ replicate 4 2 ++ replicate 4 3 ++ replicate 4 4 ++ replicate 4 5 ++ [0].
Definition Dist_Base : list nat :=
  [1; 2; 3; 4; 5; 7; 9; 13; 17; 25; 33; 49; 65; 97; 129; 193; 257; 385; 513;
   769; 1025; 1537; 2049; 3073; 4097; 6145; 8193; 12289; 16385; 24577].
Definition Dist_Extra : list nat := 0 :: 0 :: concat (map (λ n, [n; n]) (seq 0 14)).

(** ** Inflate *)

(** Where the reader stands: the bytes of [Data] from [In_Pos] on, the bit
    buffer, and the output. *)
Record infl := { In_Rest : list Byte.byte; Bit_Buf : N; Bit_Cnt : nat; Out_V : list Byte.byte }.

Definition set_out (out : list Byte.byte) (s : infl) : infl :=
  {| In_Rest := In_Rest s; Bit_Buf := Bit_Buf s; Bit_Cnt := Bit_Cnt s; Out_V := out |}.

(** A procedure nested in [Inflate]: it returns, raises, or is still looping
    when its fuel ends. *)
Definition Inf (A : Type) : Type := infl → option ((exn + A) * infl).

#[export] Instance inf_ret : MRet Inf := λ A a s, Some (inr a, s).
#[export] Instance inf_bind : MBind Inf := λ A B f m s,
  match m s with
  | Some (inr a, s') => f a s'
  | Some (inl e, s') => Some (inl e, s')
  | None => None
  end.
Definition inf_raise {A} (e : exn) : Inf A := λ s, Some (inl e, s).
Definition inf_update (f : infl → infl) : Inf unit := λ s, Some (inr (), f s).
Definition inf_raise_when (c : bool) (e : exn) : Inf unit := if c then inf_raise e else mret ().

(** [loop body; exit when ...; end loop]: the body tells whether to exit. *)
Fixpoint inf_loop (fuel : nat) (body : Inf bool) : Inf unit :=
  match fuel with
  | O => λ _, None
  | S fuel => stop ← body; if (stop : bool) then mret () else inf_loop fuel body
  end.

(** *** Bits *)

Fixpoint fill (rest : list Byte.byte) (buf : N) (cnt need : nat) : option (list Byte.byte * N * nat) :=
  if need <=? cnt then Some (rest, buf, cnt)
  else match rest with
       | [] => None
       | b :: rest => fill rest (N.lor buf (shl32 (Byte.to_N b) cnt)) (cnt + 8) need
       end.

Definition Bits (need : nat) : Inf nat := λ s,
  match fill (In_Rest s) (Bit_Buf s) (Bit_Cnt s) need with
  | None => Some (inl Format_Error, s)
  | Some (rest, buf, cnt) =>
      let val := N.land buf (sub32 (shl32 1 need) 1) in
      Some (inr (N.to_nat val),
            {| In_Rest := rest; Bit_Buf := N.shiftr buf (N.of_nat need); Bit_Cnt := cnt - need;
               Out_V := Out_V s |})
  end.

(** *** Huffman tables *)

Record Huffman := { Count : list nat; Symbol : list nat }.

Definition count_lengths (lengths : list nat) : list nat :=
  foldl (λ c l, alter S l c) (replicate 16 0) lengths.

Definition offsets (count : list nat) : list nat :=
  foldl (λ offs l, <[l + 1 := nth l offs 0 + nth l count 0]> offs) (replicate 16 0) (seq 1 14).

(** The second loop over the symbols: the table and the next free places. *)
Definition place (ts : list nat * list nat) (sl : nat * nat) : list nat * list nat :=
  let '(symbol, offs) := ts in
  let '(s, l) := sl in
  if l =? 0 then ts else (<[nth l offs 0 := s]> symbol, alter S l offs).

(** Every index is in range: a length is at most 15, being a symbol below 16
    or three bits, and there are at most 288 lengths for 320 places. *)
Definition Construct (lengths : list nat) : Huffman :=
  let count := count_lengths lengths in
  {| Count := count;
     Symbol := (foldl place (replicate 320 0, offsets count) (zip (seq 0 (length lengths)) lengths)).1 |}.

(** [for Len in ... loop] of [Decode]; the table index is checked. *)
Fixpoint decode_loop (h : Huffman) (lens : list nat) (code first index : Z) : Inf nat :=
  match lens with
  | [] => inf_raise Format_Error
  | len :: lens =>
      b ← Bits 1;
      let code := (code + Z.of_nat b)%Z in
      let cnt := Z.of_nat (nth len (Count h) 0) in
      if (code - cnt <? first)%Z then
        let i := (index + (code - first))%Z in
        if (0 <=? i)%Z && (i <? 320)%Z then mret (nth (Z.to_nat i) (Symbol h) 0)
        else inf_raise Constraint_Error
      else decode_loop h lens (code * 2) ((first + cnt) * 2) (index + cnt)
  end.

Definition Decode (h : Huffman) : Inf nat := decode_loop h (seq 1 15) 0 0 0.

(** *** Blocks *)

(** [for I in 1 .. Len loop Out_V.Append (Out_V.Element (Out_V.Last_Index - Dist + 1))] *)
Fixpoint copy_match (len dist : nat) (out : list Byte.byte) : option (list Byte.byte) :=
  match len with
  | O => Some out
  | S len => b ← out !! (dist - 1); copy_match len dist (b :: out)
  end.

Definition copy_back (len dist : nat) : Inf unit := λ s,
  if length (Out_V s) <? dist then Some (inl Format_Error, s)
  else match copy_match len dist (Out_V s) with
       | Some out => Some (inr (), set_out out s)
       | None => Some (inl Constraint_Error, s)
       end.

(** One round of the loop of [Codes]. *)
Definition codes_step (len_code dist_code : Huffman) : Inf bool :=
  sym ← Decode len_code;
  if sym =? 256 then mret true
  else if sym <? 256 then
    _ ← inf_update (λ s, set_out (byte_of (N.of_nat sym) :: Out_V s) s); mret false
  else
    let sym := sym - 257 in
    _ ← inf_raise_when (28 <? sym) Format_Error;
    e ← Bits (nth sym Len_Extra 0);
    let len := nth sym Len_Base 0 + e in
    sym ← Decode dist_code;
    _ ← inf_raise_when (29 <? sym) Format_Error;
    e ← Bits (nth sym Dist_Extra 0);
    let dist := nth sym Dist_Base 0 + e in
    _ ← copy_back len dist; mret false.

Definition Codes (fuel : nat) (len_code dist_code : Huffman) : Inf unit :=
  inf_loop fuel (codes_step len_code dist_code).

Definition fixed_lengths : list nat :=
  replicate 144 8 ++ replicate 112 9 ++ replicate 24 7 ++ replicate 8 8.
Definition fixed_lit : Huffman := Construct fixed_lengths.
Definition fixed_dist : Huffman := Construct (replicate 30 5).

Definition Fixed_Block (fuel : nat) : Inf unit := Codes fuel fixed_lit fixed_dist.

Definition Order : list nat := [16; 17; 18; 0; 8; 7; 9; 6; 10; 5; 11; 4; 12; 3; 13; 2; 14; 1; 15].

(** [for I in 0 .. HCLEN - 1 loop CL_Lengths (Order (I)) := Bits (3)] *)
Fixpoint code_lengths (order : list nat) (cl : list nat) : Inf (list nat) :=
  match order with
  | [] => mret cl
  | o :: order => v ← Bits 3; code_lengths order (<[o := v]> cl)
  end.

(** The loop that fills [All_Lengths]; [acc] holds its first [Idx] elements,
    the last one first.  A repetition that would pass the end raises. *)
Fixpoint read_lengths (fuel : nat) (cl_huff : Huffman) (total : nat) (acc : list nat) : Inf (list nat) :=
  if total <=? length acc then mret (rev acc)
  else match fuel with
       | O => λ _, None
       | S fuel =>
           sym ← Decode cl_huff;
           if sym <? 16 then read_lengths fuel cl_huff total (sym :: acc)
           else
             _ ← inf_raise_when ((sym =? 16) && (length acc =? 0)) Format_Error;
             rep ← (if sym =? 16 then r ← Bits 2; mret (r + 3)
                    else if sym =? 17 then r ← Bits 3; mret (r + 3)
                    else r ← Bits 7; mret (r + 11));
             let val := if sym =? 16 then hd 0 acc else 0 in
             if total <? length acc + rep then inf_raise Format_Error
             else read_lengths fuel cl_huff total (replicate rep val ++ acc)
       end.

Definition Dynamic_Block (fuel : nat) : Inf unit :=
  hlit ← (b ← Bits 5; mret (b + 257));
  hdist ← (b ← Bits 5; mret (b + 1));
  hclen ← (b ← Bits 4; mret (b + 4));
  cl ← code_lengths (take hclen Order) (replicate 19 0);
  all ← read_lengths (hlit + hdist) (Construct cl) (hlit + hdist) [];
  Codes fuel (Construct (take hlit all)) (Construct (drop hlit all)).

(** [when 0 =>]: the rest of the current byte is dropped, LEN and NLEN are
    skipped, LEN bytes are copied. *)
Definition Stored_Block : Inf unit := λ s,
  match In_Rest s with
  | b0 :: b1 :: _ :: _ :: rest =>
      let len := N.to_nat (Byte.to_N b0) + N.to_nat (Byte.to_N b1) * 256 in
      if length rest <? len then Some (inl Format_Error, s)
      else Some (inr (), {| In_Rest := drop len rest; Bit_Buf := 0; Bit_Cnt := 0;
                            Out_V := rev_append (take len rest) (Out_V s) |})
  | _ => Some (inl Format_Error, s)
  end.

(** One round of the main loop. *)
Definition block_step (fuel : nat) : Inf bool :=
  final ← Bits 1;
  btype ← Bits 2;
  _ ← (match btype with
       | 0 => Stored_Block
       | 1 => Fixed_Block fuel
       | 2 => Dynamic_Block fuel
       | _ => inf_raise Format_Error
       end);
  mret (final =? 1).

Definition inflate_start (data : list Byte.byte) : infl :=
  {| In_Rest := data; Bit_Buf := 0; Bit_Cnt := 0; Out_V := [] |}.

(** Every exception leaves the function as [Format_Error]. *)
Definition inflate_run (fuel : nat) (data : list Byte.byte) : option (exn + list Byte.byte) :=
  match inf_loop fuel (block_step fuel) (inflate_start data) with
  | Some (inr _, s) => Some (inr (rev (Out_V s)))
  | Some (inl _, _) => Some (inl Format_Error)
  | None => None
  end.

(** One round per bit of the input is enough. *)
Definition inflate_fuel (data : list Byte.byte) : nat := S (8 * length data).

Definition Inflate (data : list Byte.byte) : exn + list Byte.byte :=
  match inflate_run (inflate_fuel data) data with Some r => r | None => inl Format_Error end.

(** ** Deflate *)

(** The bit writer: the bytes written, the last one first, and the pending
    bits. *)
Record writer := { W_Out : list Byte.byte; Acc : N; NBits : nat }.

(** [while NBits >= 8 loop] *)
Fixpoint drain (fuel : nat) (w : writer) : writer :=
  match fuel with
  | O => w
  | S fuel =>
      if 8 <=? NBits w then
        drain fuel {| W_Out := byte_of (N.land (Acc w) 0xFF) :: W_Out w; Acc := N.shiftr (Acc w) 8;
                      NBits := NBits w - 8 |}
      else w
  end.

Definition Put_Bits (value count : nat) (w : writer) : writer :=
  drain (NBits w + count)
    {| W_Out := W_Out w; Acc := N.lor (Acc w) (shl32 (N.of_nat value) (NBits w));
       NBits := NBits w + count |}.

Fixpoint reverse_loop (count r v : nat) : nat :=
  match count with
  | O => r
  | S count => reverse_loop count (r * 2 + v `mod` 2) (v / 2)
  end.
Definition Reverse_Bits (value count : nat) : nat := reverse_loop count 0 value.

(** Value and number of bits of a literal/length symbol. *)
Definition litlen_code (sym : nat) : nat * nat :=
  if sym <=? 143 then (0x30 + sym, 8)
  else if sym <=? 255 then (0x190 + (sym - 144), 9)
  else if sym <=? 279 then (sym - 256, 7)
  else (0xC0 + (sym - 280), 8).

Definition Put_LitLen (sym : nat) (w : writer) : writer :=
  let '(code, n) := litlen_code sym in Put_Bits (Reverse_Bits code n) n w.

Definition Emit_Literal (b : Byte.byte) (w : writer) : writer := Put_LitLen (N.to_nat (Byte.to_N b)) w.

(** The first [S] whose range holds [v], or [default]. *)
Definition find_range (bases extras : list nat) (v default : nat) : nat :=
  match list_find (λ be, v ≤ be.1 + (2 ^ be.2 - 1) ∧ be.1 ≤ v) (zip bases extras) with
  | Some (s, _) => s
  | None => default
  end.

Definition Emit_Match (len dist : nat) (w : writer) : writer :=
  let ls := find_range Len_Base Len_Extra len 28 in
  let w := Put_LitLen (257 + ls) w in
  let w := Put_Bits (len - nth ls Len_Base 0) (nth ls Len_Extra 0) w in
  let ds := find_range Dist_Base Dist_Extra dist 29 in
  let w := Put_Bits (Reverse_Bits ds 5) 5 w in
  Put_Bits (dist - nth ds Dist_Base 0) (nth ds Dist_Extra 0) w.

(** *** Matching *)

Definition Hash_Size : N := 2 ^ 15.
Definition Max_Chain : nat := 128.
(** The longest distance. *)
Definition Window : nat := 32768.

(** [Head] and [Prev]: arrays of positions, [-1] where nothing was stored. *)
Record chains := { Head : gmap N Z; Prev : gmap nat Z }.
Definition head_at (c : chains) (h : N) : Z := default (-1)%Z (Head c !! h).
Definition prev_at (c : chains) (p : nat) : Z := default (-1)%Z (Prev c !! p).

(** [Hash3 (P)], for [P + 2 <= Last]. *)
Definition Hash3 (data : list Byte.byte) (p : nat) : N :=
  let d i := Byte.to_N (nth (p + i) data "000"%byte) in
  N.land (N.lxor (N.lxor (shl32 (d 0) 10) (shl32 (d 1) 5)) (d 2)) (Hash_Size - 1).

(** [while L < 258 and then Pos + L <= Last and then Data (Cand + L) = Data (Pos + L)] on
    the data from [Cand] and from [Pos] on. *)
Fixpoint match_len (n : nat) (a b : list Byte.byte) : nat :=
  match n, a, b with
  | S n, x :: a, y :: b => if Byte.eqb x y then S (match_len n a b) else 0
  | _, _, _ => 0
  end.

(** The walk along a chain: [Best_Len], [Best_Dist]. *)
Fixpoint chase (n : nat) (c : chains) (data : list Byte.byte) (pos : nat) (cand : Z) (best : nat * nat) : nat * nat :=
  match n with
  | O => best
  | S n =>
      if (cand <? 0)%Z then best
      else
        let cd := Z.to_nat cand in
        let dist := pos - cd in
        let l := if dist <=? Window then match_len 258 (drop cd data) (drop pos data) else 0 in
        let best := if best.1 <? l then (l, dist) else best in
        chase n c data pos (prev_at c cd) best
  end.

Definition best_match (c : chains) (data : list Byte.byte) (pos : nat) : nat * nat :=
  if pos + 2 <? length data then chase Max_Chain c data pos (head_at c (Hash3 data pos)) (0, 0)
  else (0, 0).

(** [Prev (P) := Head (H); Head (H) := P], for a position with three bytes. *)
Definition insert_hash (data : list Byte.byte) (p : nat) (c : chains) : chains :=
  if p + 2 <? length data then
    let h := Hash3 data p in
    {| Head := <[h := Z.of_nat p]> (Head c); Prev := <[p := head_at c h]> (Prev c) |}
  else c.

(** [while Pos <= Last loop]; every round advances [Pos]. *)
Fixpoint deflate_loop (fuel : nat) (data : list Byte.byte) (pos : nat) (c : chains) (w : writer) : writer :=
  match fuel with
  | O => w
  | S fuel =>
      match data !! pos with
      | None => w
      | Some b =>
          let '(best_len, best_dist) := best_match c data pos in
          if 3 <=? best_len then
            deflate_loop fuel data (pos + best_len)
              (foldl (λ c k, insert_hash data (pos + k) c) c (seq 0 best_len))
              (Emit_Match best_len best_dist w)
          else
            deflate_loop fuel data (pos + 1) (insert_hash data pos c) (Emit_Literal b w)
      end
  end.

Definition Deflate (data : list Byte.byte) : list Byte.byte :=
  let w := Put_Bits 1 1 {| W_Out := []; Acc := 0; NBits := 0 |} in
  let w := Put_Bits 1 2 w in
  let w := deflate_loop (length data) data 0 {| Head := ∅; Prev := ∅ |} w in
  let w := Put_LitLen 256 w in
  rev (if 0 <? NBits w then byte_of (N.land (Acc w) 0xFF) :: W_Out w else W_Out w).
