(* ===== verification/DeflateSpec.v ===== *)
(** DEFLATE: the round trip, and that inflating ends.

    Reader and writer are related to the bit stream they stand for, the first
    bit first: [Put_Bits] appends to the stream of the writer and [Bits] takes
    from the stream of the reader.  On streams, a Huffman table is walked bit by
    bit ([walk]), and what [Deflate] writes is a sequence of tokens that expand
    to its input. *)
From Stdlib Require Import Strings.Byte NArith.
From S2P Require Import Prelude AdaMonad Sha256 Deflate.
Close Scope N_scope.
Open Scope nat_scope.

(** ** Bit streams *)

Definition bits_of (n : nat) (v : N) : list bool := map (λ i, N.testbit v (N.of_nat i)) (seq 0 n).
Fixpoint val_of (bs : list bool) : N :=
  match bs with [] => 0%N | b :: bs => (N.b2n b + 2 * val_of bs)%N end.
Definition byte_bits (b : Byte.byte) : list bool := bits_of 8 (Byte.to_N b).

(** No bit of [v] is beyond the first [n]. *)
Definition fits (n : nat) (v : N) : Prop := ∀ i, n ≤ i → N.testbit v (N.of_nat i) = false.

Lemma bits_of_lookup n v i : i < n → bits_of n v !! i = Some (N.testbit v (N.of_nat i)).
Proof. intros Hi. unfold bits_of. by rewrite list_lookup_fmap, lookup_seq_lt by done. Qed.

Lemma bits_of_length n v : length (bits_of n v) = n.
Proof. unfold bits_of. by rewrite length_map, length_seq. Qed.

(** A stream of bits is given by its length and its bits. *)
Lemma bits_of_eq n v bs : length bs = n → (∀ i, i < n → bs !! i = Some (N.testbit v (N.of_nat i))) → bits_of n v = bs.
Proof.
  intros Hl Hb. apply list_eq_same_length with n; [done|by rewrite bits_of_length|].
  intros i x y Hi. rewrite bits_of_lookup, Hb by done. congruence.
Qed.

Lemma fits_lt n v : (v < 2 ^ N.of_nat n)%N → fits n v.
Proof.
  intros Hv i Hi. destruct (decide (v = 0)%N) as [->|]; [by rewrite N.bits_0|].
  apply N.bits_above_log2. apply N.log2_lt_pow2; [lia|].
  eapply N.lt_le_trans; [exact Hv|]. apply N.pow_le_mono_r; lia.
Qed.

Lemma fits_byte b : fits 8 (Byte.to_N b).
Proof. apply fits_lt. pose proof (Byte.to_N_bounded b). simpl. lia. Qed.

Lemma val_of_testbit bs i : N.testbit (val_of bs) (N.of_nat i) = default false (bs !! i).
Proof.
  revert i; induction bs as [|b bs IH]; intros i; [by rewrite N.bits_0|]. cbn [val_of].
  rewrite N.add_comm. destruct i as [|i]; cbn [lookup list_lookup].
  - change (N.of_nat 0) with 0%N. by rewrite N.testbit_0_r.
  - rewrite Nat2N.inj_succ, N.testbit_succ_r. apply IH.
Qed.

Lemma nat_N_bits_inj a b : (∀ i, N.testbit a (N.of_nat i) = N.testbit b (N.of_nat i)) → a = b.
Proof. intros H. apply N.bits_inj. intros i. specialize (H (N.to_nat i)). by rewrite N2Nat.id in H. Qed.

Lemma val_of_bits n v : fits n v → val_of (bits_of n v) = v.
Proof.
  intros Hv. apply nat_N_bits_inj. intros i. rewrite val_of_testbit. destruct (decide (i < n)).
  - by rewrite bits_of_lookup.
  - rewrite lookup_ge_None_2, Hv by (rewrite ?bits_of_length; lia). done.
Qed.

Lemma bits_of_app n k v : bits_of (n + k) v = bits_of n v ++ bits_of k (N.shiftr v (N.of_nat n)).
Proof.
  apply bits_of_eq; [by rewrite length_app, !bits_of_length|]. intros i Hi. destruct (decide (i < n)).
  - by rewrite lookup_app_l, bits_of_lookup by (rewrite ?bits_of_length; lia).
  - rewrite lookup_app_r, bits_of_length, bits_of_lookup by (rewrite ?bits_of_length; lia).
    rewrite N.shiftr_spec'. do 2 f_equal. lia.
Qed.

Lemma fits_shiftr n k v : fits (n + k) v → fits n (N.shiftr v (N.of_nat k)).
Proof.
  intros Hv i Hi. rewrite N.shiftr_spec'. replace (N.of_nat i + N.of_nat k)%N with (N.of_nat (i + k)) by lia.
  apply Hv. lia.
Qed.

(** ** 32-bit words *)

Lemma shl32_testbit v k n i : fits k v → k + n ≤ 32 →
  N.testbit (shl32 v n) (N.of_nat i) = if decide (n ≤ i) then N.testbit v (N.of_nat (i - n)) else false.
Proof.
  intros Hv Hn. unfold shl32, word. destruct (decide (i < 32)) as [Hi|Hi].
  - rewrite N.mod_pow2_bits_low by lia. case_decide.
    + rewrite N.shiftl_spec_high' by lia. f_equal. lia.
    + apply N.shiftl_spec_low. lia.
  - rewrite N.mod_pow2_bits_high by lia. case_decide; [|done]. rewrite Hv by lia. done.
Qed.

Lemma mask_ones n : n ≤ 24 → sub32 (shl32 1 n) 1 = N.ones (N.of_nat n).
Proof. intros Hn. do 25 (destruct n as [|n]; [reflexivity|]). lia. Qed.

Lemma ones_testbit n i : N.testbit (N.ones (N.of_nat n)) (N.of_nat i) = bool_decide (i < n).
Proof.
  case_bool_decide; [apply N.ones_spec_low|apply N.ones_spec_high]; lia.
Qed.

Lemma byte_of_low v : Byte.to_N (byte_of (N.land v 0xFF)) = N.land v 0xFF.
Proof.
  rewrite to_N_byte_of. change 0xFF%N with (N.ones 8). rewrite N.land_ones. apply N.Div0.mod_mod.
Qed.

(** ** The writer *)

Definition bytes_bits (l : list Byte.byte) : list bool := concat (map byte_bits l).

Lemma bytes_bits_app l k : bytes_bits (l ++ k) = bytes_bits l ++ bytes_bits k.
Proof. unfold bytes_bits. by rewrite map_app, concat_app. Qed.

Lemma bytes_bits_one b : bytes_bits [b] = byte_bits b.
Proof. apply app_nil_r. Qed.

Lemma bytes_bits_length l : length (bytes_bits l) = 8 * length l.
Proof.
  induction l as [|b l IH]; [done|]. unfold bytes_bits in *. cbn [map concat].
  rewrite length_app, IH. unfold byte_bits. rewrite bits_of_length. simpl. lia.
Qed.

Definition wstream (w : writer) : list bool := bytes_bits (rev (W_Out w)) ++ bits_of (NBits w) (Acc w).

(** Between two calls fewer than eight bits are pending. *)
Definition writer_ok (w : writer) : Prop := NBits w < 8 ∧ fits (NBits w) (Acc w).

Lemma bits_of_join n m a v : fits n a → fits m v → n + m ≤ 32 →
  bits_of (n + m) (N.lor a (shl32 v n)) = bits_of n a ++ bits_of m v ∧ fits (n + m) (N.lor a (shl32 v n)).
Proof.
  intros Ha Hv Hnm.
  assert (∀ i, N.testbit (N.lor a (shl32 v n)) (N.of_nat i) =
    if decide (n ≤ i) then N.testbit v (N.of_nat (i - n)) else N.testbit a (N.of_nat i)) as Hbit.
  { intros i. rewrite N.lor_spec, (shl32_testbit v m) by (done || lia). case_decide.
    - by rewrite Ha by lia.
    - apply orb_false_r. }
  split.
  - apply bits_of_eq; [by rewrite length_app, !bits_of_length|]. intros i Hi. rewrite Hbit. case_decide.
    + rewrite lookup_app_r, bits_of_length, bits_of_lookup by (rewrite ?bits_of_length; lia). done.
    + rewrite lookup_app_l, bits_of_lookup by (rewrite ?bits_of_length; lia). done.
  - intros i Hi. rewrite Hbit, decide_True by lia. apply Hv. lia.
Qed.

Lemma bits_of_split n v : 8 ≤ n → fits n v →
  bits_of n v = byte_bits (byte_of (N.land v 0xFF)) ++ bits_of (n - 8) (N.shiftr v 8) ∧ fits (n - 8) (N.shiftr v 8).
Proof.
  intros Hn Hv. replace n with (8 + (n - 8)) at 1 by lia. split.
  - rewrite bits_of_app. f_equal. unfold byte_bits. rewrite byte_of_low. apply bits_of_eq; [by rewrite bits_of_length|].
    intros i Hi. rewrite bits_of_lookup by done. change 0xFF%N with (N.ones (N.of_nat 8)).
    by rewrite N.land_spec, ones_testbit, bool_decide_eq_true_2, andb_true_r.
  - apply (fits_shiftr (n - 8) 8). by replace (n - 8 + 8) with n by lia.
Qed.

Lemma drain_spec fuel w : NBits w ≤ 8 * fuel + 7 → fits (NBits w) (Acc w) →
  writer_ok (drain fuel w) ∧ wstream (drain fuel w) = wstream w.
Proof.
  revert w; induction fuel as [|fuel IH]; intros w Hn Hw; cbn [drain]; [split; [split; [lia|done]|done]|].
  destruct (Nat.leb_spec 8 (NBits w)) as [H8|H8]; [|split; [split; [lia|done]|done]].
  destruct (bits_of_split _ _ H8 Hw) as [Hb Hf].
  destruct (IH {| W_Out := byte_of (N.land (Acc w) 0xFF) :: W_Out w; Acc := N.shiftr (Acc w) 8;
                  NBits := NBits w - 8 |}) as [Hok Hs]; simpl; [lia|done|].
  split; [done|]. rewrite Hs. unfold wstream. cbn [W_Out Acc NBits rev].
  by rewrite bytes_bits_app, Hb, <- app_assoc, bytes_bits_one.
Qed.

(** [w'] is a good writer with [bs] appended to the stream of [w]. *)
Definition writes (w : writer) (bs : list bool) (w' : writer) : Prop :=
  writer_ok w' ∧ wstream w' = wstream w ++ bs.

Lemma writes_app w bs w' cs w'' : writes w bs w' → writes w' cs w'' → writes w (bs ++ cs) w''.
Proof. intros [_ H1] [? H2]. split; [done|]. by rewrite H2, H1, app_assoc. Qed.

Lemma Put_Bits_spec v n w : writer_ok w → n ≤ 24 → v < 2 ^ n →
  writes w (bits_of n (N.of_nat v)) (Put_Bits v n w).
Proof.
  intros [H8 Hw] Hn Hv. unfold Put_Bits.
  assert (fits n (N.of_nat v)) as Hfv.
  { apply fits_lt. change 2%N with (N.of_nat 2). rewrite <- Nat2N.inj_pow. lia. }
  destruct (bits_of_join (NBits w) n (Acc w) (N.of_nat v)) as [Hb Hf]; [done..|lia|].
  destruct (drain_spec (NBits w + n)
    {| W_Out := W_Out w; Acc := N.lor (Acc w) (shl32 (N.of_nat v) (NBits w)); NBits := NBits w + n |})
    as [Hok Hs]; simpl; [lia|done|].
  split; [done|]. rewrite Hs. unfold wstream. cbn [W_Out Acc NBits]. by rewrite Hb, app_assoc.
Qed.

(** ** The reader *)

Definition rstream (s : infl) : list bool := bits_of (Bit_Cnt s) (Bit_Buf s) ++ bytes_bits (In_Rest s).

(** The reader stands before the stream [bs], with output [out]. *)
Definition reads (s : infl) (bs : list bool) (out : list Byte.byte) : Prop :=
  Bit_Cnt s < 8 ∧ fits (Bit_Cnt s) (Bit_Buf s) ∧ rstream s = bs ∧ Out_V s = out.

Lemma fill_spec rest buf cnt need : fits cnt buf → need ≤ 24 → cnt < need + 8 →
  need ≤ cnt + 8 * length rest →
  ∃ rest' buf' cnt', fill rest buf cnt need = Some (rest', buf', cnt') ∧ need ≤ cnt' < need + 8 ∧
    fits cnt' buf' ∧ bits_of cnt' buf' ++ bytes_bits rest' = bits_of cnt buf ++ bytes_bits rest.
Proof.
  intros Hf Hn. revert buf cnt Hf. induction rest as [|b rest IH]; intros buf cnt Hf Hc Hle; cbn [fill].
  - rewrite (proj2 (Nat.leb_le _ _)) by (simpl in Hle; lia). exists [], buf, cnt. split_and!; auto. simpl in Hle. lia.
  - destruct (Nat.leb_spec need cnt) as [Hd|Hd]; [by eexists _, _, _; split_and!; eauto|].
    destruct (bits_of_join cnt 8 buf (Byte.to_N b)) as [Hb Hf']; [done|apply fits_byte|lia|].
    destruct (IH _ _ Hf') as (r & bf & c & E & ? & ? & Hst); [lia|simpl in Hle; lia|].
    exists r, bf, c. split_and!; [done|lia..|done|]. by rewrite Hst, Hb, <- app_assoc.
Qed.

Lemma Bits_reads s c r out need : reads s (c ++ r) out → length c = need → need ≤ 24 →
  ∃ s', Bits need s = Some (inr (N.to_nat (val_of c)), s') ∧ reads s' r out.
Proof.
  intros (Hc & Hf & Hs & Ho) Hlen Hn.
  assert (need ≤ Bit_Cnt s + 8 * length (In_Rest s)) as Hle.
  { rewrite <- bytes_bits_length, <- (bits_of_length (Bit_Cnt s) (Bit_Buf s)), <- length_app.
    change (need ≤ length (rstream s)). rewrite Hs, length_app. lia. }
  destruct (fill_spec (In_Rest s) (Bit_Buf s) (Bit_Cnt s) need) as (rest & buf & cnt & E & Hcnt & Hf' & Hst);
    [done|done|lia|done|].
  unfold Bits. rewrite E. change (bits_of (Bit_Cnt s) (Bit_Buf s) ++ bytes_bits (In_Rest s)) with (rstream s) in Hst.
  rewrite Hs in Hst. replace cnt with (need + (cnt - need)) in Hst by lia.
  rewrite bits_of_app, <- app_assoc in Hst. apply app_inj_1 in Hst as [<- Hr]; [|by rewrite bits_of_length].
  eexists. split.
  - do 4 f_equal. apply nat_N_bits_inj. intros i.
    rewrite mask_ones, N.land_spec, ones_testbit, val_of_testbit by done. case_bool_decide as Hi.
    + by rewrite bits_of_lookup, andb_true_r.
    + rewrite andb_false_r, lookup_ge_None_2 by (rewrite bits_of_length; lia). done.
  - split_and!; simpl; [lia| |done..].
    apply fits_shiftr. by replace (cnt - need + need) with cnt by lia.
Qed.

(** ** Huffman codes on streams *)

Fixpoint walk (h : Huffman) (lens : list nat) (code first index : Z) (bs : list bool) : option (nat * list bool) :=
  match lens, bs with
  | len :: lens, b :: bs =>
      let code := (code + Z.b2z b)%Z in
      let cnt := Z.of_nat (nth len (Count h) 0) in
      if (code - cnt <? first)%Z then
        let i := (index + (code - first))%Z in
        if (0 <=? i)%Z && (i <? 320)%Z then Some (nth (Z.to_nat i) (Symbol h) 0, bs) else None
      else walk h lens (code * 2) ((first + cnt) * 2) (index + cnt) bs
  | _, _ => None
  end.

Lemma walk_app h lens code first index bs r sym bs' :
  walk h lens code first index bs = Some (sym, bs') → walk h lens code first index (bs ++ r) = Some (sym, bs' ++ r).
Proof.
  revert code first index bs. induction lens as [|len lens IH]; intros code first index [|b bs]; simpl; try done.
  repeat case_match; naive_solver.
Qed.

Lemma decode_walk h lens code first index bs sym bs' s out :
  walk h lens code first index bs = Some (sym, bs') → reads s bs out →
  ∃ s', decode_loop h lens code first index s = Some (inr sym, s') ∧ reads s' bs' out.
Proof.
  revert code first index bs s. induction lens as [|len lens IH]; intros code first index [|b bs] s; simpl; try done.
  intros Hw Hs. destruct (Bits_reads s [b] bs out 1 Hs) as (s1 & E & Hs1); [done|lia|].
  unfold mbind, inf_bind. rewrite E. replace (Z.of_nat (N.to_nat (val_of [b]))) with (Z.b2z b) by (by destruct b).
  repeat case_match; simplify_eq; [by eexists|eauto].
Qed.

(** What is written for a symbol of the fixed codes. *)
Definition litlen_bits (sym : nat) : list bool :=
  let '(code, n) := litlen_code sym in bits_of n (N.of_nat (Reverse_Bits code n)).
Definition dist_bits (sym : nat) : list bool := bits_of 5 (N.of_nat (Reverse_Bits sym 5)).

(** Every symbol of the fixed tables is read back from its code. *)
Lemma fixed_lit_walk sym : sym < 288 → walk fixed_lit (seq 1 15) 0 0 0 (litlen_bits sym) = Some (sym, []).
Proof.
  intros Hs. assert (Forall (λ i, walk fixed_lit (seq 1 15) 0 0 0 (litlen_bits i) = Some (i, [])) (seq 0 288)) as H.
  { apply (bool_decide_unpack _). vm_compute. exact I. }
  rewrite Forall_forall in H. apply H, elem_of_seq. lia.
Qed.

Lemma fixed_dist_walk sym : sym < 30 → walk fixed_dist (seq 1 15) 0 0 0 (dist_bits sym) = Some (sym, []).
Proof.
  intros Hs. assert (Forall (λ i, walk fixed_dist (seq 1 15) 0 0 0 (dist_bits i) = Some (i, [])) (seq 0 30)) as H.
  { apply (bool_decide_unpack _). vm_compute. exact I. }
  rewrite Forall_forall in H. apply H, elem_of_seq. lia.
Qed.

Lemma reverse_loop_lt count : ∀ r v k, r < 2 ^ k → reverse_loop count r v < 2 ^ (k + count).
Proof.
  induction count as [|count IH]; intros r v k Hr; cbn [reverse_loop]; [by rewrite Nat.add_0_r|].
  rewrite <- Nat.add_succ_comm. apply IH. rewrite Nat.pow_succ_r'. pose proof (Nat.mod_upper_bound v 2). lia.
Qed.

Lemma Reverse_Bits_lt v n : Reverse_Bits v n < 2 ^ n.
Proof. apply (reverse_loop_lt n 0 v 0). simpl. lia. Qed.

Lemma Put_LitLen_spec sym w : writer_ok w → writes w (litlen_bits sym) (Put_LitLen sym w).
Proof.
  intros Hw. unfold Put_LitLen, litlen_bits. destruct (litlen_code sym) as [code n] eqn:E.
  apply Put_Bits_spec; [done| |apply Reverse_Bits_lt].
  unfold litlen_code in E. repeat case_match; simplify_eq; lia.
Qed.

Lemma Decode_fixed_lit sym s r out : sym < 288 → reads s (litlen_bits sym ++ r) out →
  ∃ s', Decode fixed_lit s = Some (inr sym, s') ∧ reads s' r out.
Proof. intros Hs. apply decode_walk. by apply (walk_app _ _ _ _ _ _ _ _ []), fixed_lit_walk. Qed.

Lemma Decode_fixed_dist sym s r out : sym < 30 → reads s (dist_bits sym ++ r) out →
  ∃ s', Decode fixed_dist s = Some (inr sym, s') ∧ reads s' r out.
Proof. intros Hs. apply decode_walk. by apply (walk_app _ _ _ _ _ _ _ _ []), fixed_dist_walk. Qed.

(** ** Length and distance ranges *)

(** Consecutive ranges from [a] up to [z]. *)
Fixpoint chain (l : list (nat * nat)) (a z : nat) : bool :=
  match l with
  | [] => a =? z
  | (b, e) :: l => (b =? a) && chain l (a + 2 ^ e) z
  end.

Lemma chain_cover l a z v : chain l a z = true → a ≤ v < z → ∃ be, be ∈ l ∧ v ≤ be.1 + (2 ^ be.2 - 1) ∧ be.1 ≤ v.
Proof.
  revert a. induction l as [|[b e] l IH]; intros a; simpl.
  - rewrite Nat.eqb_eq. lia.
  - rewrite andb_true_iff, Nat.eqb_eq. intros [-> Hl] Hv. destruct (decide (v < a + 2 ^ e)).
    + exists (a, e). split; [left|simpl; lia].
    + destruct (IH _ Hl) as (be & ? & ?); [lia|]. exists be. split; [by right|done].
Qed.

Lemma find_range_spec bases extras v d l k a z : zip bases extras = l ++ k → chain l a z = true → a ≤ v < z →
  let s := find_range bases extras v d in
  s < length bases ∧ s < length extras ∧ nth s bases 0 ≤ v < nth s bases 0 + 2 ^ nth s extras 0.
Proof.
  intros Hl Hc Hv. unfold find_range. destruct (chain_cover _ _ _ _ Hc Hv) as (be & Hin & Hbe).
  destruct (list_find _ _) as [[s [b e]]|] eqn:E.
  - apply list_find_Some in E as (Hs & Hr & _). simpl in Hr.
    apply lookup_zip_with_Some in Hs as (b' & e' & [= <- <-] & Eb & Ee). rewrite (nth_lookup_Some _ _ _ _ Eb), (nth_lookup_Some _ _ _ _ Ee).
    pose proof (Nat.pow_nonzero 2 e). apply lookup_lt_Some in Eb, Ee. lia.
  - apply list_find_None in E. rewrite Forall_forall in E. destruct (E be); [|done].
    rewrite Hl. apply elem_of_app. by left.
Qed.

Lemma len_range len : 3 ≤ len ≤ 258 →
  let s := find_range Len_Base Len_Extra len 28 in
  s ≤ 28 ∧ nth s Len_Base 0 ≤ len < nth s Len_Base 0 + 2 ^ nth s Len_Extra 0.
Proof.
  intros Hl s. destruct (find_range_spec Len_Base Len_Extra len 28
    (take 28 (zip Len_Base Len_Extra)) (drop 28 (zip Len_Base Len_Extra)) 3 259) as (Hs & _ & ?);
    [by rewrite take_drop|by vm_compute|lia|]. change (s < 29) in Hs. split; [lia|done].
Qed.

Lemma dist_range dist : 1 ≤ dist ≤ Window →
  let s := find_range Dist_Base Dist_Extra dist 29 in
  s ≤ 29 ∧ nth s Dist_Base 0 ≤ dist < nth s Dist_Base 0 + 2 ^ nth s Dist_Extra 0.
Proof.
  intros Hl s. destruct (find_range_spec Dist_Base Dist_Extra dist 29
    (zip Dist_Base Dist_Extra) [] 1 (S Window)) as (Hs & _ & ?);
    [by rewrite app_nil_r|by vm_compute|lia|]. change (s < 30) in Hs. split; [lia|done].
Qed.

Lemma extra_le s : nth s Len_Extra 0 ≤ 24 ∧ nth s Dist_Extra 0 ≤ 24.
Proof.
  assert (Forall (λ n, n ≤ 24) Len_Extra ∧ Forall (λ n, n ≤ 24) Dist_Extra) as [Hl Hd].
  { split; apply (bool_decide_unpack _); by vm_compute. }
  rewrite !nth_lookup. split.
  - destruct (Len_Extra !! s) eqn:E; simpl; [by eapply Forall_lookup_1 in Hl|lia].
  - destruct (Dist_Extra !! s) eqn:E; simpl; [by eapply Forall_lookup_1 in Hd|lia].
Qed.

(** ** Tokens *)

Inductive token := Lit (b : Byte.byte) | Match (len dist : nat).

Definition token_ok (t : token) : Prop :=
  match t with Lit _ => True | Match len dist => 3 ≤ len ≤ 258 ∧ 1 ≤ dist ≤ Window end.

Definition token_bits (t : token) : list bool :=
  match t with
  | Lit b => litlen_bits (N.to_nat (Byte.to_N b))
  | Match len dist =>
      let ls := find_range Len_Base Len_Extra len 28 in
      let ds := find_range Dist_Base Dist_Extra dist 29 in
      litlen_bits (257 + ls) ++ bits_of (nth ls Len_Extra 0) (N.of_nat (len - nth ls Len_Base 0))
      ++ dist_bits ds ++ bits_of (nth ds Dist_Extra 0) (N.of_nat (dist - nth ds Dist_Base 0))
  end.
Definition tokens_bits (ts : list token) : list bool := concat (map token_bits ts).

Definition emit (t : token) (w : writer) : writer :=
  match t with Lit b => Emit_Literal b w | Match len dist => Emit_Match len dist w end.

Lemma emit_spec t w : token_ok t → writer_ok w → writes w (token_bits t) (emit t w).
Proof.
  intros Ht Hw. destruct t as [b|len dist]; [by apply Put_LitLen_spec|]. destruct Ht as [Hl Hd].
  pose proof (len_range len Hl) as [_ Hls]. pose proof (dist_range dist Hd) as [_ Hds].
  cbn [emit token_bits]. unfold Emit_Match.
  pose proof (Put_LitLen_spec (257 + find_range Len_Base Len_Extra len 28) w Hw) as H1.
  eapply writes_app; [exact H1|]. destruct H1 as [H1 _].
  eapply writes_app; [apply Put_Bits_spec; [done|apply extra_le|lia]|].
  eapply writes_app; [apply Put_Bits_spec; [|lia|apply Reverse_Bits_lt]|].
  { apply Put_Bits_spec; [done|apply extra_le|lia]. }
  apply Put_Bits_spec; [|apply extra_le|lia].
  apply Put_Bits_spec; [|lia|apply Reverse_Bits_lt]. apply Put_Bits_spec; [done|apply extra_le|lia].
Qed.

(** Back references on the output, the last byte first. *)
Definition expand_one (t : token) (out : list Byte.byte) : option (list Byte.byte) :=
  match t with
  | Lit b => Some (b :: out)
  | Match len dist => if length out <? dist then None else copy_match len dist out
  end.

Fixpoint expand (ts : list token) (out : list Byte.byte) : option (list Byte.byte) :=
  match ts with [] => Some out | t :: ts => expand_one t out ≫= expand ts end.

(** ** The decoder reads tokens *)

Lemma inf_bind_some {A B} (m : Inf A) (f : A → Inf B) s a s' : m s = Some (inr a, s') → (m ≫= f) s = f a s'.
Proof. unfold mbind, inf_bind. by intros ->. Qed.

Lemma fits_small k v : v < 2 ^ k → N.to_nat (val_of (bits_of k (N.of_nat v))) = v.
Proof.
  intros Hv. rewrite val_of_bits, Nat2N.id; [done|]. apply fits_lt.
  change 2%N with (N.of_nat 2). rewrite <- Nat2N.inj_pow. lia.
Qed.

Lemma codes_step_token t s r out out' : token_ok t → expand_one t out = Some out' →
  reads s (token_bits t ++ r) out →
  ∃ s', codes_step fixed_lit fixed_dist s = Some (inr false, s') ∧ reads s' r out'.
Proof.
  intros Ht He Hs. unfold codes_step. destruct t as [b|len dist]; cbn [token_bits expand_one token_ok] in *.
  - simplify_eq. pose proof (Byte.to_N_bounded b).
    destruct (Decode_fixed_lit (N.to_nat (Byte.to_N b)) s r out) as (s1 & E & H1); [lia|done|].
    rewrite (inf_bind_some _ _ _ _ _ E). rewrite (proj2 (Nat.eqb_neq _ _)), (proj2 (Nat.ltb_lt _ _)) by lia.
    eexists. split; [reflexivity|]. destruct H1 as (? & ? & ? & ?). split_and!; try done. simpl.
    rewrite N2Nat.id. unfold byte_of. rewrite N.mod_small by lia. rewrite Byte.of_to_N. congruence.
  - destruct Ht as [Hl Hd]. destruct (Nat.ltb_spec (length out) dist) as [|Hlen]; [done|].
    pose proof (len_range len Hl) as [Hls ?]. pose proof (dist_range dist Hd) as [Hds ?].
    set (ls := find_range Len_Base Len_Extra len 28) in *. set (ds := find_range Dist_Base Dist_Extra dist 29) in *.
    rewrite <- !app_assoc in Hs.
    apply Decode_fixed_lit in Hs as (s1 & E1 & H1); [|lia].
    destruct (Bits_reads s1 _ _ _ _ H1 (bits_of_length _ _) (proj1 (extra_le _))) as (s2 & E2 & H2).
    apply Decode_fixed_dist in H2 as (s3 & E3 & H3); [|lia].
    destruct (Bits_reads s3 _ _ _ _ H3 (bits_of_length _ _) (proj2 (extra_le _))) as (s4 & E4 & H4).
    rewrite fits_small in E2, E4 by lia.
    rewrite (inf_bind_some _ _ _ _ _ E1). rewrite (proj2 (Nat.eqb_neq _ _)), (proj2 (Nat.ltb_ge _ _)) by lia.
    replace (257 + ls - 257) with ls by lia. unfold inf_raise_when. rewrite (proj2 (Nat.ltb_ge _ _)) by lia.
    rewrite (inf_bind_some _ _ s1 () s1), (inf_bind_some _ _ _ _ _ E2), (inf_bind_some _ _ _ _ _ E3) by done.
    rewrite (proj2 (Nat.ltb_ge 29 _)) by lia.
    rewrite (inf_bind_some _ _ s3 () s3), (inf_bind_some _ _ _ _ _ E4) by done.
    replace (nth ls Len_Base 0 + (len - nth ls Len_Base 0)) with len by lia.
    replace (nth ds Dist_Base 0 + (dist - nth ds Dist_Base 0)) with dist by lia.
    destruct H4 as (? & ? & ? & Ho). unfold copy_back, mbind, inf_bind. rewrite Ho, (proj2 (Nat.ltb_ge _ _)), He by lia.
    eexists. by split_and!.
Qed.

Lemma codes_step_end s r out : reads s (litlen_bits 256 ++ r) out →
  ∃ s', codes_step fixed_lit fixed_dist s = Some (inr true, s') ∧ reads s' r out.
Proof.
  intros Hs. destruct (Decode_fixed_lit 256 _ _ _ ltac:(lia) Hs) as (s1 & E & H1). exists s1.
  unfold codes_step. by rewrite (inf_bind_some _ _ _ _ _ E).
Qed.

Lemma Codes_tokens ts : ∀ fuel s r out out', Forall token_ok ts → expand ts out = Some out' →
  reads s (tokens_bits ts ++ litlen_bits 256 ++ r) out → length ts < fuel →
  ∃ s', Codes fuel fixed_lit fixed_dist s = Some (inr (), s') ∧ reads s' r out'.
Proof.
  unfold Codes. induction ts as [|t ts IH]; intros [|fuel] s r out out' Hts He Hs Hf; try (simpl in Hf; lia).
  - simplify_eq/=. destruct (codes_step_end _ _ _ Hs) as (s1 & E & H1). exists s1.
    by rewrite (inf_bind_some _ _ _ _ _ E).
  - apply Forall_cons in Hts as [Ht Hts]. cbn [expand] in He. apply bind_Some in He as (out1 & He1 & He).
    unfold tokens_bits in Hs. cbn [map concat] in Hs. rewrite <- app_assoc in Hs.
    destruct (codes_step_token _ _ _ _ _ Ht He1 Hs) as (s1 & E & H1). cbn [inf_loop].
    rewrite (inf_bind_some _ _ _ _ _ E). eapply IH; eauto. simpl in Hf. lia.
Qed.

(** ** The match finder *)

Lemma match_len_spec n a b : let l := match_len n a b in l ≤ n ∧ l ≤ length b ∧ ∀ i, i < l → a !! i = b !! i.
Proof.
  revert a b. induction n as [|n IH]; intros [|x a] [|y b]; simpl; try (split_and!; [lia..|intros; lia]).
  destruct (Byte.eqb x y) eqn:E; [|split_and!; [lia..|intros; lia]].
  apply Byte.byte_dec_bl in E as ->. destruct (IH a b) as (? & ? & Hl). split_and!; [lia..|].
  intros [|i] Hi; [done|]. apply Hl. lia.
Qed.

(** Bytes [pos .. pos + len - 1] repeat those [dist] before. *)
Definition repeats (data : list Byte.byte) (pos len dist : nat) : Prop :=
  len ≤ 258 ∧ pos + len ≤ length data ∧ 1 ≤ dist ≤ Window ∧ dist ≤ pos ∧
  ∀ i, i < len → data !! (pos - dist + i) = data !! (pos + i).

Definition best_ok (data : list Byte.byte) (pos : nat) (best : nat * nat) : Prop :=
  best.1 = 0 ∨ repeats data pos best.1 best.2.

(** Chains lead back to earlier positions only. *)
Definition chains_ok (c : chains) (pos : nat) : Prop :=
  (∀ h, (head_at c h < Z.of_nat pos)%Z) ∧ ∀ p, (prev_at c p < Z.of_nat p)%Z.

Lemma chase_ok n c data pos : (∀ p, (prev_at c p < Z.of_nat p)%Z) → pos ≤ length data → ∀ cand best,
  (cand < Z.of_nat pos)%Z → best_ok data pos best → best_ok data pos (chase n c data pos cand best).
Proof.
  intros Hp Hpos. induction n as [|n IH]; intros cand best Hc Hb; [done|]. cbn [chase].
  destruct (Z.ltb_spec cand 0); [done|]. apply IH.
  - specialize (Hp (Z.to_nat cand)). lia.
  - destruct (Nat.ltb_spec best.1 (if pos - Z.to_nat cand <=? Window
      then match_len 258 (drop (Z.to_nat cand) data) (drop pos data) else 0)) as [Hlt|]; [|done].
    right. cbn [fst snd]. destruct (Nat.leb_spec (pos - Z.to_nat cand) Window); [|lia].
    destruct (match_len_spec 258 (drop (Z.to_nat cand) data) (drop pos data)) as (Hl & Hl' & Heq).
    rewrite length_drop in Hl'. split_and!; [done|lia..|].
    intros i Hi. specialize (Heq i Hi). rewrite !lookup_drop in Heq. rewrite <- Heq. f_equal. lia.
Qed.

Lemma best_match_ok c data pos : chains_ok c pos → best_ok data pos (best_match c data pos).
Proof.
  intros [Hh Hp]. unfold best_match. destruct (Nat.ltb_spec (pos + 2) (length data)); [|by left].
  apply chase_ok; [done|lia|done|by left].
Qed.

Lemma insert_hash_ok data c pos : chains_ok c pos → chains_ok (insert_hash data pos c) (S pos).
Proof.
  intros [Hh Hp]. unfold insert_hash. destruct (_ <? _); [|split; [intros h; specialize (Hh h); lia|done]].
  unfold chains_ok, head_at, prev_at in *. cbn [Head Prev]. split.
  - intros h. rewrite lookup_insert. case_decide; [simpl; lia|specialize (Hh h); lia].
  - intros p. rewrite lookup_insert. case_decide; subst; [apply Hh|apply Hp].
Qed.

Lemma insert_span_ok data c pos n : chains_ok c pos →
  chains_ok (foldl (λ c k, insert_hash data (pos + k) c) c (seq 0 n)) (pos + n).
Proof.
  intros Hc. induction n as [|n IH]; [by rewrite Nat.add_0_r|].
  rewrite seq_S, foldl_app. simpl. rewrite Nat.add_succ_r. by apply insert_hash_ok.
Qed.

(** ** What [Deflate] writes *)

Lemma rev_take_lookup (data : list Byte.byte) pos dist : 1 ≤ dist ≤ pos → pos ≤ length data →
  rev (take pos data) !! (dist - 1) = data !! (pos - dist).
Proof.
  intros Hd Hp. rewrite rev_alt. change (rev_append (take pos data) []) with (reverse (take pos data)).
  rewrite reverse_lookup by (rewrite length_take; lia).
  rewrite lookup_take_lt by (rewrite length_take; lia). f_equal. rewrite length_take. lia.
Qed.

Lemma rev_take_S (data : list Byte.byte) pos b : data !! pos = Some b → rev (take (S pos) data) = b :: rev (take pos data).
Proof. intros Hb. by rewrite (take_S_r _ _ _ Hb), rev_app_distr. Qed.

Lemma copy_repeats data len dist : ∀ pos, repeats data pos len dist →
  copy_match len dist (rev (take pos data)) = Some (rev (take (pos + len) data)).
Proof.
  induction len as [|len IH]; intros pos (Hl & Hp & Hd & Hdp & Heq); cbn [copy_match]; [by rewrite Nat.add_0_r|].
  rewrite rev_take_lookup by lia. specialize (Heq 0) as H0. rewrite !Nat.add_0_r in H0. rewrite H0 by lia.
  destruct (lookup_lt_is_Some_2 data pos) as [b Hb]; [lia|]. rewrite Hb. simpl.
  rewrite <- (rev_take_S _ _ _ Hb), IH; [do 3 f_equal; lia|]. split_and!; [lia..|].
  intros i Hi. specialize (Heq (S i)). replace (S pos - dist + i) with (pos - dist + S i) by lia.
  rewrite Heq by lia. f_equal. lia.
Qed.

(** The token the loop takes at [pos], and how far it advances. *)
Definition next_token (c : chains) (data : list Byte.byte) (pos : nat) (b : Byte.byte) : token * nat :=
  let '(len, dist) := best_match c data pos in if 3 <=? len then (Match len dist, len) else (Lit b, 1).

Lemma next_token_ok c data pos b t n : chains_ok c pos → data !! pos = Some b →
  next_token c data pos b = (t, n) →
  token_ok t ∧ 1 ≤ n ∧ pos + n ≤ length data ∧ expand_one t (rev (take pos data)) = Some (rev (take (pos + n) data)).
Proof.
  intros Hc Hb. unfold next_token. pose proof (best_match_ok c data pos Hc) as Hbest.
  destruct (best_match c data pos) as [len dist]. destruct (Nat.leb_spec 3 len) as [H3|H3].
  - intros [= <- <-]. destruct Hbest as [Hz|Hr]; [simpl in Hz; lia|]. simpl in Hr.
    pose proof (copy_repeats _ _ _ _ Hr) as Hcopy. destruct Hr as (? & ? & ? & ? & _).
    split_and!; [by split|lia..|]. cbn [expand_one]. rewrite (proj2 (Nat.ltb_ge _ _)); [done|].
    rewrite length_rev, length_take. lia.
  - intros [= <- <-]. pose proof (lookup_lt_Some _ _ _ Hb). split_and!; [done|lia..|].
    simpl. by rewrite Nat.add_1_r, (rev_take_S _ _ _ Hb).
Qed.

Lemma tokens_bits_cons t ts : tokens_bits (t :: ts) = token_bits t ++ tokens_bits ts.
Proof. done. Qed.

Lemma deflate_loop_spec fuel data : ∀ pos c w, length data ≤ pos + fuel → pos ≤ length data →
  chains_ok c pos → writer_ok w →
  ∃ ts, Forall token_ok ts ∧ writes w (tokens_bits ts) (deflate_loop fuel data pos c w) ∧
    expand ts (rev (take pos data)) = Some (rev data).
Proof.
  induction fuel as [|fuel IH]; intros pos c w Hf Hp Hc Hw.
  { exists []. split_and!; [done|split; [done|by rewrite app_nil_r]|]. simpl. by rewrite take_ge by lia. }
  cbn [deflate_loop]. destruct (data !! pos) as [b|] eqn:Hb.
  2:{ apply lookup_ge_None in Hb. exists []. split_and!; [done|split; [done|by rewrite app_nil_r]|].
      simpl. by rewrite take_ge by lia. }
  destruct (next_token c data pos b) as [t n] eqn:Et.
  destruct (next_token_ok _ _ _ _ _ _ Hc Hb Et) as (Ht & Hn & Hpn & He).
  pose proof (emit_spec t w Ht Hw) as Hem.
  assert (∃ c', chains_ok c' (pos + n) ∧
    (let '(best_len, best_dist) := best_match c data pos in
     if 3 <=? best_len then
       deflate_loop fuel data (pos + best_len)
         (foldl (λ c k, insert_hash data (pos + k) c) c (seq 0 best_len)) (Emit_Match best_len best_dist w)
     else deflate_loop fuel data (pos + 1) (insert_hash data pos c) (Emit_Literal b w))
    = deflate_loop fuel data (pos + n) c' (emit t w)) as (c' & Hc' & ->).
  { unfold next_token in Et. destruct (best_match c data pos) as [len dist].
    destruct (3 <=? len); simplify_eq; eexists; (split; [|reflexivity]); [by apply insert_span_ok|].
    rewrite Nat.add_1_r. by apply insert_hash_ok. }
  destruct (IH (pos + n) c' (emit t w)) as (ts & Hts & Hws & Hex); [lia..|done|apply Hem|].
  exists (t :: ts). split_and!; [by constructor|rewrite tokens_bits_cons; by eapply writes_app|].
  cbn [expand]. by rewrite He.
Qed.

Lemma litlen_bits_length sym : 1 ≤ length (litlen_bits sym).
Proof.
  unfold litlen_bits. destruct (litlen_code sym) as [code n] eqn:E. rewrite bits_of_length.
  unfold litlen_code in E. repeat case_match; simplify_eq; lia.
Qed.

Lemma tokens_bits_length ts : length ts ≤ length (tokens_bits ts).
Proof.
  induction ts as [|t ts IH]; [done|]. rewrite tokens_bits_cons, length_app. simpl length at 1.
  assert (1 ≤ length (token_bits t)); [|lia]. destruct t as [b|len dist]; cbn [token_bits]; [apply litlen_bits_length|].
  rewrite length_app. pose proof (litlen_bits_length (257 + find_range Len_Base Len_Extra len 28)). lia.
Qed.

(** The last byte is filled up. *)
Definition flush (w : writer) : list Byte.byte :=
  rev (if 0 <? NBits w then byte_of (N.land (Acc w) 0xFF) :: W_Out w else W_Out w).

Lemma flush_stream w : writer_ok w → ∃ pad, bytes_bits (flush w) = wstream w ++ pad.
Proof.
  intros [H8 Hw]. unfold flush, wstream. destruct (Nat.ltb_spec 0 (NBits w)) as [Hn|Hn].
  - cbn [rev]. rewrite bytes_bits_app, bytes_bits_one. unfold byte_bits. rewrite byte_of_low.
    exists (bits_of (8 - NBits w) (N.shiftr (N.land (Acc w) 0xFF) (N.of_nat (NBits w)))).
    rewrite <- app_assoc. f_equal. replace 8 with (NBits w + (8 - NBits w)) at 1 by lia.
    rewrite bits_of_app. f_equal. apply bits_of_eq; [by rewrite bits_of_length|].
    intros i Hi. rewrite bits_of_lookup by done. change 0xFF%N with (N.ones (N.of_nat 8)).
    by rewrite N.land_spec, ones_testbit, bool_decide_eq_true_2, andb_true_r by lia.
  - exists []. replace (NBits w) with 0 by lia. by rewrite !app_nil_r.
Qed.

Lemma Deflate_stream data : ∃ ts pad, Forall token_ok ts ∧ expand ts [] = Some (rev data) ∧
  bytes_bits (Deflate data) = [true; true; false] ++ tokens_bits ts ++ litlen_bits 256 ++ pad.
Proof.
  unfold Deflate. set (w0 := Put_Bits 1 2 _).
  assert (writer_ok w0 ∧ wstream w0 = [true; true; false]) as [Hw0 Hs0].
  { split; [split; [vm_compute; lia|apply fits_lt; by vm_compute]|by vm_compute]. }
  destruct (deflate_loop_spec (length data) data 0 {| Head := ∅; Prev := ∅ |} w0) as (ts & Hts & [Hw1 Hs1] & Hex);
    [lia..| |done|].
  { split; intros; unfold head_at, prev_at; simpl; rewrite lookup_empty; simpl; lia. }
  destruct (Put_LitLen_spec 256 _ Hw1) as [Hw2 Hs2]. destruct (flush_stream _ Hw2) as [pad Hpad].
  exists ts, pad. split_and!; [done..|]. unfold flush in Hpad. rewrite Hpad, Hs2, Hs1, Hs0. by rewrite <- !app_assoc.
Qed.

(** ** The round trip *)

Lemma inflate_start_reads data : reads (inflate_start data) (bytes_bits data) [].
Proof. split_and!; [simpl; lia|intros i _; apply N.bits_0|done|done]. Qed.

(** Whatever the fuel above the number of bits. *)
Lemma inflate_run_deflate fuel data : 8 * length (Deflate data) < fuel →
  inflate_run fuel (Deflate data) = Some (inr data).
Proof.
  intros Hf. destruct (Deflate_stream data) as (ts & pad & Hts & Hex & Hst).
  pose proof (inflate_start_reads (Deflate data)) as H0. unfold inflate_run. rewrite Hst in H0.
  rewrite <- bytes_bits_length, Hst, !length_app in Hf. pose proof (tokens_bits_length ts).
  destruct fuel as [|fuel]; [lia|]. cbn [inf_loop].
  destruct (Bits_reads _ [true] ([true; false] ++ tokens_bits ts ++ litlen_bits 256 ++ pad) [] 1 H0) as (s1 & E1 & H1); [done|lia|].
  destruct (Bits_reads _ [true; false] _ [] 2 H1) as (s2 & E2 & H2); [done|lia|].
  destruct (Codes_tokens ts (S fuel) s2 pad [] (rev data)) as (s3 & E3 & H3); [done..|lia|].
  assert (block_step (S fuel) (inflate_start (Deflate data)) = Some (inr true, s3)) as E.
  { unfold block_step. rewrite (inf_bind_some _ _ _ _ _ E1), (inf_bind_some _ _ _ _ _ E2).
    by rewrite (inf_bind_some (Fixed_Block (S fuel)) _ _ _ _ E3). }
  rewrite (inf_bind_some _ _ _ _ _ E). destruct H3 as (_ & _ & _ & Ho). simpl. by rewrite Ho, rev_involutive.
Qed.

Lemma deflate_inverse data : Inflate (Deflate data) = inr data.
Proof. unfold Inflate. by rewrite inflate_run_deflate by (unfold inflate_fuel; lia). Qed.

(** C15: Inflating what [Deflate] wrote gives back the data, whatever bytes they
    are and with any fuel above the number of bits. *)
Theorem deflate_round_trip data :
  Inflate (Deflate data) = inr data ∧
  ∀ fuel, 8 * length (Deflate data) < fuel → inflate_run fuel (Deflate data) = Some (inr data).
Proof. split; [apply deflate_inverse|]. intros fuel. apply inflate_run_deflate. Qed.

(** ** Inflating ends, with an output in proportion to the input *)

(** [m] ends in [s]; if it returns, [P] holds. *)
Definition runs {A} (m : Inf A) (s : infl) (P : A → infl → Prop) : Prop :=
  match m s with
  | Some (inr a, s') => P a s'
  | Some (inl _, _) => True
  | None => False
  end.

Lemma runs_bind {A B} (m : Inf A) (f : A → Inf B) s P : runs m s (λ a s', runs (f a) s' P) → runs (m ≫= f) s P.
Proof. unfold runs, mbind, inf_bind. by destruct (m s) as [[[e|a] s']|]. Qed.

Lemma runs_ret {A} (a : A) s P : P a s → runs (mret a) s P.
Proof. done. Qed.

Lemma runs_raise {A} e s (P : A → infl → Prop) : runs (inf_raise e) s P.
Proof. done. Qed.

Lemma runs_raise_when c e s P : (c = false → P () s) → runs (inf_raise_when c e) s P.
Proof. destruct c; [done|]. intros H. by apply H. Qed.

Lemma runs_mono {A} (m : Inf A) s (P Q : A → infl → Prop) : runs m s P → (∀ a s', P a s' → Q a s') → runs m s Q.
Proof. unfold runs. destruct (m s) as [[[e|a] s']|]; auto. Qed.

(** The bits still to be read. *)
Definition bits_left (s : infl) : nat := Bit_Cnt s + 8 * length (In_Rest s).

Lemma fill_left rest buf cnt need r b c : fill rest buf cnt need = Some (r, b, c) →
  need ≤ c ∧ c + 8 * length r = cnt + 8 * length rest.
Proof.
  revert buf cnt. induction rest as [|x rest IH]; intros buf cnt; cbn [fill].
  - destruct (Nat.leb_spec need cnt); naive_solver.
  - destruct (Nat.leb_spec need cnt); [naive_solver|]. intros [? ?]%IH. simpl. lia.
Qed.

Lemma runs_Bits need s P : need ≤ 24 →
  (∀ v s', v < 2 ^ need → bits_left s' + need = bits_left s → Out_V s' = Out_V s → P v s') → runs (Bits need) s P.
Proof.
  intros Hn HP. unfold runs, Bits. destruct (fill _ _ _ _) as [[[r b] c]|] eqn:E; [|done].
  apply fill_left in E as [? E]. apply HP; [|unfold bits_left; simpl; lia|done].
  rewrite mask_ones, N.land_ones by done.
  pose proof (N.mod_lt b (2 ^ N.of_nat need)) as Hm.
  assert (N.of_nat (2 ^ need) = 2 ^ N.of_nat need)%N as Hp by by rewrite Nat2N.inj_pow. lia.
Qed.

(** [s'] has read at least [k] bits more than [s] and written nothing. *)
Definition reads_on (k : nat) (s s' : infl) : Prop := bits_left s' + k ≤ bits_left s ∧ Out_V s' = Out_V s.

Lemma runs_decode_loop h lens : ∀ code first index s, runs (decode_loop h lens code first index) s (λ _, reads_on 1 s).
Proof.
  induction lens as [|len lens IH]; intros code first index s; [apply runs_raise|]. cbn [decode_loop].
  apply runs_bind, runs_Bits; [lia|]. intros b s1 _ H1 Ho1. cbv zeta.
  case_match; [case_match; [apply runs_ret; split; [lia|done]|apply runs_raise]|].
  eapply runs_mono; [apply IH|]. intros ? s2 [H2 Ho2]. split; [lia|congruence].
Qed.

Lemma runs_Decode h s P : (∀ sym s', reads_on 1 s s' → P sym s') → runs (Decode h) s P.
Proof. intros HP. eapply runs_mono; [apply runs_decode_loop|]. auto. Qed.

(** Bytes written and still to come: a bit stands for at most 258 bytes. *)
Definition room (s : infl) : nat := 258 * bits_left s + length (Out_V s).

(** [s'] has read at least [k] bits more and kept within its room. *)
Definition advances (k : nat) (s s' : infl) : Prop := bits_left s' + k ≤ bits_left s ∧ room s' ≤ room s.

Lemma reads_on_advances k s s' : reads_on k s s' → advances k s s'.
Proof. intros [Hl Ho]. split; [done|]. unfold room. rewrite Ho. lia. Qed.

Lemma advances_trans j k s s1 s2 : advances j s s1 → advances k s1 s2 → advances (j + k) s s2.
Proof. unfold advances. lia. Qed.

Lemma copy_match_ends len dist out : 1 ≤ dist ≤ length out →
  ∃ out', copy_match len dist out = Some out' ∧ length out' = length out + len.
Proof.
  revert out. induction len as [|len IH]; intros out Hd; cbn [copy_match]; [eexists; split; [done|lia]|].
  destruct (lookup_lt_is_Some_2 out (dist - 1)) as [b Hb]; [lia|]. rewrite Hb. simpl.
  destruct (IH (b :: out)) as (out' & ? & ?); [simpl; lia|]. exists out'. split; [done|simpl in *; lia].
Qed.

Lemma length_bound s e : s ≤ 28 → e < 2 ^ nth s Len_Extra 0 → nth s Len_Base 0 + e ≤ 258.
Proof.
  intros Hs He. assert (Forall (λ i, nth i Len_Base 0 + 2 ^ nth i Len_Extra 0 ≤ 259) (seq 0 29)) as H.
  { apply (bool_decide_unpack _). by vm_compute. }
  rewrite Forall_forall in H. specialize (H s). rewrite elem_of_seq in H. lia.
Qed.

Lemma dist_positive s : s ≤ 29 → 1 ≤ nth s Dist_Base 0.
Proof.
  intros Hs. assert (Forall (λ i, 1 ≤ nth i Dist_Base 0) (seq 0 30)) as H.
  { apply (bool_decide_unpack _). by vm_compute. }
  rewrite Forall_forall in H. specialize (H s). rewrite elem_of_seq in H. lia.
Qed.

Lemma runs_codes_step lc dc s : runs (codes_step lc dc) s (λ _, advances 1 s).
Proof.
  unfold codes_step. apply runs_bind, runs_Decode. intros sym s1 [L1 Ho1].
  destruct (Nat.eqb_spec sym 256); [by apply runs_ret, reads_on_advances|].
  destruct (Nat.ltb_spec sym 256).
  { unfold runs. simpl. split; unfold room, bits_left in *; simpl in *; rewrite ?Ho1; lia. }
  cbv zeta. apply runs_bind, runs_raise_when. intros Hsym%Nat.ltb_ge.
  apply runs_bind, runs_Bits; [apply extra_le|]. intros e s2 He L2 Ho2. pose proof (length_bound _ _ Hsym He).
  apply runs_bind, runs_Decode. intros ds s3 [L3 Ho3].
  apply runs_bind, runs_raise_when. intros Hds%Nat.ltb_ge. pose proof (dist_positive _ Hds).
  apply runs_bind, runs_Bits; [apply extra_le|]. intros e' s4 _ L4 Ho4.
  apply runs_bind. unfold runs, copy_back. destruct (Nat.ltb_spec (length (Out_V s4)) (nth ds Dist_Base 0 + e')); [done|].
  edestruct copy_match_ends as (out' & -> & Hout); [split; [|done]; lia|].
  unfold mret, inf_ret. split; unfold room, bits_left in *; simpl in *; rewrite ?Hout, ?Ho4, ?Ho3, ?Ho2, ?Ho1; lia.
Qed.

Lemma runs_loop (body : Inf bool) n fuel s : (∀ s, bits_left s ≤ n → runs body s (λ _, advances 1 s)) →
  bits_left s ≤ n → bits_left s < fuel → runs (inf_loop fuel body) s (λ _, advances 0 s).
Proof.
  intros Hb. revert s. induction fuel as [|fuel IH]; intros s Hn Hf; [lia|]. cbn [inf_loop].
  apply runs_bind. eapply runs_mono; [by apply Hb|]. intros stop s1 H1.
  destruct stop; [apply runs_ret; unfold advances in *; lia|].
  eapply runs_mono; [apply IH; unfold advances in *; lia|]. intros ? s2 H2. unfold advances in *. lia.
Qed.

Lemma runs_Codes lc dc fuel s : bits_left s < fuel → runs (Codes fuel lc dc) s (λ _, advances 0 s).
Proof. intros Hf. eapply (runs_loop _ (bits_left s)); [|done..]. intros s1 _. apply runs_codes_step. Qed.

Lemma runs_code_lengths order : ∀ cl s, runs (code_lengths order cl) s (λ _, reads_on 0 s).
Proof.
  induction order as [|o order IH]; intros cl s; cbn [code_lengths]; [by apply runs_ret; split; [lia|]|].
  apply runs_bind, runs_Bits; [lia|]. intros v s1 _ L1 Ho1. eapply runs_mono; [apply IH|].
  intros ? s2 [L2 Ho2]. split; [lia|congruence].
Qed.

Lemma runs_read_lengths h total fuel : ∀ acc s, total ≤ length acc + fuel →
  runs (read_lengths fuel h total acc) s (λ _, reads_on 0 s).
Proof.
  induction fuel as [|fuel IH]; intros acc s Hf; cbn [read_lengths];
    (destruct (Nat.leb_spec total (length acc)); [by apply runs_ret; split; [lia|]|]); [lia|].
  apply runs_bind, runs_Decode. intros sym s1 [L1 Ho1]. destruct (sym <? 16).
  { eapply runs_mono; [apply IH; simpl; lia|]. intros ? s2 [L2 Ho2]. split; [lia|congruence]. }
  apply runs_bind, runs_raise_when. intros _. apply runs_bind.
  apply (runs_mono _ _ (λ rep s', 3 ≤ rep ∧ reads_on 0 s1 s')).
  { repeat case_match; apply runs_bind, runs_Bits; try lia; intros v s2 _ L2 Ho2; apply runs_ret;
      (split; [lia|split; [lia|done]]). }
  intros rep s2 [Hr [L2 Ho2]]. cbv zeta. case_match; [apply runs_raise|].
  eapply runs_mono; [apply IH; rewrite length_app, length_replicate; lia|].
  intros ? s3 [L3 Ho3]. split; [lia|congruence].
Qed.

Lemma runs_Dynamic_Block fuel s : bits_left s < fuel → runs (Dynamic_Block fuel) s (λ _, advances 0 s).
Proof.
  intros Hf. unfold Dynamic_Block. do 3 (apply runs_bind, runs_bind, runs_Bits; [lia|]; intros ? ? _ ? ?; apply runs_ret).
  apply runs_bind. eapply runs_mono; [apply runs_code_lengths|]. intros cl s4 [? ?].
  apply runs_bind. eapply runs_mono; [apply runs_read_lengths; simpl; lia|]. intros all s5 [? ?].
  eapply runs_mono; [apply runs_Codes; lia|]. intros ? s6 L6. eapply (advances_trans 0 0); [|exact L6].
  apply reads_on_advances. split; [lia|congruence].
Qed.

Lemma runs_Stored_Block s : runs Stored_Block s (λ _, advances 0 s).
Proof.
  unfold runs, Stored_Block. destruct (In_Rest s) as [|b0 [|b1 [|b2 [|b3 rest]]]] eqn:E; try done. cbv zeta.
  destruct (Nat.ltb_spec (length rest) (N.to_nat (Byte.to_N b0) + N.to_nat (Byte.to_N b1) * 256)); [done|].
  unfold advances, room, bits_left. simpl. rewrite E. simpl.
  rewrite length_drop, rev_append_rev, length_app, length_rev, length_take. lia.
Qed.

Lemma runs_block_step fuel s : bits_left s < fuel → runs (block_step fuel) s (λ _, advances 1 s).
Proof.
  intros Hf. unfold block_step. apply runs_bind, runs_Bits; [lia|]. intros final s1 _ L1 Ho1.
  apply runs_bind, runs_Bits; [lia|]. intros ty s2 _ L2 Ho2. apply runs_bind.
  assert (advances 1 s s2) as H12 by (apply reads_on_advances; split; [lia|congruence]).
  apply (runs_mono _ _ (λ _, advances 0 s2)).
  - destruct ty as [|[|[|ty]]]; [apply runs_Stored_Block|apply runs_Codes; lia|apply runs_Dynamic_Block; lia|apply runs_raise].
  - intros ? s3 L3. apply runs_ret. by apply (advances_trans 1 0 s s2 s3).
Qed.

(** More fuel does not change a result. *)
Definition refines {A} (m m' : Inf A) : Prop := ∀ s r, m s = Some r → m' s = Some r.

Lemma refines_bind {A B} (m m' : Inf A) (f f' : A → Inf B) :
  refines m m' → (∀ a, refines (f a) (f' a)) → refines (m ≫= f) (m' ≫= f').
Proof.
  intros Hm Hf s r. unfold mbind, inf_bind. destruct (m s) as [[[e|a] s']|] eqn:E; [..|done];
    rewrite (Hm _ _ E); [done|apply Hf].
Qed.

Lemma refines_refl {A} (m : Inf A) : refines m m.
Proof. by intros s r. Qed.

Lemma refines_loop fuel fuel' (body body' : Inf bool) : fuel ≤ fuel' → refines body body' →
  refines (inf_loop fuel body) (inf_loop fuel' body').
Proof.
  revert fuel'. induction fuel as [|fuel IH]; intros [|fuel'] Hf Hb; try done; [lia|]. cbn [inf_loop].
  apply refines_bind; [done|]. intros []; [apply refines_refl|]. apply IH; [lia|done].
Qed.

Lemma refines_block_step fuel fuel' : fuel ≤ fuel' → refines (block_step fuel) (block_step fuel').
Proof.
  intros Hf. assert (∀ lc dc, refines (Codes fuel lc dc) (Codes fuel' lc dc)) as Hc.
  { intros lc dc. apply refines_loop; [done|apply refines_refl]. }
  unfold block_step. apply refines_bind; [apply refines_refl|]. intros final.
  apply refines_bind; [apply refines_refl|]. intros ty.
  apply refines_bind; [|intros ?; apply refines_refl].
  destruct ty as [|[|[|?]]]; [apply refines_refl|apply Hc| |apply refines_refl].
  unfold Dynamic_Block. do 5 (apply refines_bind; [apply refines_refl|]; intros ?). apply Hc.
Qed.

(** C26: Inflating ends on every input: one round per bit is enough and more do not
    change the result, which is an output of at most 258 bytes for each bit of
    the input, or [Format_Error]. *)
Theorem inflate_total data fuel : 8 * length data < fuel →
  inflate_run fuel data = Some (Inflate data) ∧
  (Inflate data = inl Format_Error ∨ ∃ out, Inflate data = inr out ∧ length out ≤ 258 * (8 * length data)).
Proof.
  intros Hf. assert (inflate_fuel data ≤ fuel) as Hle by (unfold inflate_fuel; lia).
  assert (runs (inf_loop (inflate_fuel data) (block_step (inflate_fuel data))) (inflate_start data)
    (λ _, advances 0 (inflate_start data))) as Hr.
  { apply (runs_loop _ (8 * length data)); unfold bits_left, inflate_fuel; simpl; [|lia..].
    intros s Hs. apply runs_block_step. unfold bits_left. lia. }
  pose proof (refines_loop _ _ _ _ Hle (refines_block_step _ _ Hle) (inflate_start data)) as Hm.
  unfold runs in Hr. unfold Inflate, inflate_run. destruct (inf_loop (inflate_fuel data) _ _) as [[[e|[]] s]|]; [..|done];
    rewrite (Hm _ eq_refl); (split; [done|]); [by left|]. right. exists (rev (Out_V s)). split; [done|].
  destruct Hr as [_ Hr]. unfold room, bits_left in Hr. simpl in Hr. rewrite length_rev. lia.
Qed.
