(* ===== verification/DeflateHuffman.v ===== *)
(** Huffman codes of dynamic blocks.

    RFC 1951 (3.2.2) assigns codes to symbols from the lengths of the codes
    alone; [rfc_code] writes its three steps down.  [huffman_decodes]: on tables
    that [Construct] builds from any lengths, [Decode] reads every symbol back
    from its code, so [Inflate] understands what other compressors write.
    [stored_block_read]: a stored block is copied, whatever its check word. *)
From Stdlib Require Import Strings.Byte NArith.
From S2P Require Import Prelude AdaMonad Sha256 Deflate DeflateSpec.
Close Scope N_scope.
Open Scope nat_scope.

(** ** The codes of RFC 1951 *)

(** [bl_count]: how many of the lengths are [l]. *)
Fixpoint occ (l : nat) (lengths : list nat) : nat :=
  match lengths with [] => 0 | x :: lengths => (if x =? l then 1 else 0) + occ l lengths end.

(** [next_code]: the smallest code of length [l]. *)
Fixpoint next_code (lengths : list nat) (l : nat) : nat :=
  match l with
  | O => 0
  | S l' => (next_code lengths l' + (if l' =? 0 then 0 else occ l' lengths)) * 2
  end.

(** Codes of one length are consecutive, in the order of the symbols. *)
Definition rfc_code (lengths : list nat) (sym len : nat) : nat :=
  next_code lengths len + occ len (take sym lengths).

(** The last [n] bits of [c], the most significant one first. *)
Fixpoint msb_bits (n c : nat) : list bool :=
  match n with O => [] | S n => Nat.testbit c n :: msb_bits n c end.

(** ** The tables *)

Lemma occ_app l a b : occ l (a ++ b) = occ l a + occ l b.
Proof. induction a as [|x a IH]; simpl; [done|]. rewrite IH. lia. Qed.

Lemma occ_take_lt l lengths sym : lengths !! sym = Some l → occ l (take sym lengths) < occ l lengths.
Proof.
  intros Hs. rewrite <- (take_drop_middle _ _ _ Hs) at 2. rewrite occ_app. simpl.
  rewrite Nat.eqb_refl. lia.
Qed.

Lemma occ_take_S l lengths sym x : lengths !! sym = Some x →
  occ l (take (S sym) lengths) = occ l (take sym lengths) + (if x =? l then 1 else 0).
Proof. intros Hs. rewrite (take_S_r _ _ _ Hs), occ_app. simpl. lia. Qed.

Lemma count_lengths_aux lengths : ∀ c, length c = 16 →
  ∀ l, l < 16 → nth l (foldl (λ c l, alter S l c) c lengths) 0 = nth l c 0 + occ l lengths.
Proof.
  induction lengths as [|x lengths IH]; intros c Hc l Hl; cbn [foldl occ]; [lia|].
  rewrite IH by (done || by rewrite length_alter). rewrite !nth_lookup. destruct (Nat.eqb_spec x l) as [->|Hne].
  - rewrite list_lookup_alter_eq. destruct (lookup_lt_is_Some_2 c l) as [y ->]; [lia|]. simpl. lia.
  - rewrite list_lookup_alter_ne by done. lia.
Qed.

Lemma count_lengths_spec lengths l : l < 16 → nth l (count_lengths lengths) 0 = occ l lengths.
Proof.
  intros Hl. unfold count_lengths. rewrite count_lengths_aux by done. by rewrite nth_lookup, lookup_replicate_2.
Qed.

(** The number of symbols with shorter codes. *)
Fixpoint index_of (lengths : list nat) (l : nat) : nat :=
  match l with
  | O => 0
  | S l' => index_of lengths l' + (if l' =? 0 then 0 else occ l' lengths)
  end.

Lemma offsets_spec lengths l : 1 ≤ l < 16 → nth l (offsets (count_lengths lengths)) 0 = index_of lengths l.
Proof.
  intros Hl. set (c := count_lengths lengths).
  assert (∀ k, k < 16 → occ k lengths = nth k c 0) as Hc by (intros; by rewrite <- count_lengths_spec).
  clearbody c. do 16 (destruct l as [|l]; [try lia; cbn [index_of Nat.eqb]; rewrite ?Hc by lia; by cbn|]). lia.
Qed.

Lemma offsets_length c : length (offsets c) = 16.
Proof.
  unfold offsets. generalize (seq 1 14). intros ls. change 16 with (length (replicate 16 0)) at 2.
  generalize (replicate 16 0). induction ls as [|l ls IH]; intros o; [done|]. cbn [foldl]. by rewrite IH, length_insert.
Qed.

Lemma index_of_cons x lengths l :
  index_of (x :: lengths) l = index_of lengths l + (if (1 <=? x) && (x <? l) then 1 else 0).
Proof.
  induction l as [|l IH]; cbn [index_of occ]; [by rewrite andb_false_r|]. rewrite IH.
  destruct (Nat.eqb_spec l 0), (Nat.eqb_spec x l), (Nat.leb_spec 1 x), (Nat.ltb_spec x l), (Nat.ltb_spec x (S l));
    simpl andb; cbv iota; lia.
Qed.

Lemma index_of_le lengths l : index_of lengths l ≤ length lengths.
Proof.
  induction lengths as [|x lengths IH]; [induction l as [|l IHl]; simpl; [lia|case_match; simpl in *; lia]|].
  rewrite index_of_cons. simpl. case_match; lia.
Qed.

Lemma index_of_S lengths l : l ≠ 0 → index_of lengths (S l) = index_of lengths l + occ l lengths.
Proof. intros Hl. simpl. by rewrite (proj2 (Nat.eqb_neq l 0)). Qed.

Lemma index_of_mono lengths l l' : l ≤ l' → index_of lengths l ≤ index_of lengths l'.
Proof. induction 1 as [|l' _ IH]; [done|]. simpl. lia. Qed.

(** The place of a symbol in the table. *)
Definition slot (lengths : list nat) (sym l : nat) : nat := index_of lengths l + occ l (take sym lengths).

Lemma occ_take_mono l lengths i j : i ≤ j → occ l (take i lengths) ≤ occ l (take j lengths).
Proof.
  intros Hij. replace (take i lengths) with (take i (take j lengths)) by (rewrite take_take; f_equal; lia).
  rewrite <- (take_drop i (take j lengths)) at 2. rewrite occ_app. lia.
Qed.

Lemma slot_inj lengths s l s' l' : lengths !! s = Some l → lengths !! s' = Some l' → l ≠ 0 → l' ≠ 0 → s < s' →
  slot lengths s l ≠ slot lengths s' l'.
Proof.
  unfold slot. intros Hs Hs' Hl Hl' Hlt.
  pose proof (occ_take_lt _ _ _ Hs). pose proof (occ_take_lt _ _ _ Hs').
  destruct (lt_eq_lt_dec l l') as [[Hlt'|<-]|Hgt].
  - pose proof (index_of_mono lengths (S l) l' Hlt') as Hm. rewrite index_of_S in Hm by done. lia.
  - pose proof (occ_take_mono l lengths (S s) s' Hlt) as Hm. rewrite (occ_take_S _ _ _ _ Hs), Nat.eqb_refl in Hm. lia.
  - pose proof (index_of_mono lengths (S l') l Hgt) as Hm. rewrite index_of_S in Hm by done. lia.
Qed.

Lemma slot_lt lengths s l : lengths !! s = Some l → l ≠ 0 → slot lengths s l < length lengths.
Proof.
  intros Hs Hl. unfold slot. pose proof (occ_take_lt _ _ _ Hs). pose proof (index_of_le lengths (S l)) as H1.
  rewrite index_of_S in H1 by done. lia.
Qed.

Lemma zip_seq_take (lengths : list nat) i x : lengths !! i = Some x →
  zip (seq 0 (S i)) (take (S i) lengths) = zip (seq 0 i) (take i lengths) ++ [(i, x)].
Proof.
  intros Hx. pose proof (lookup_lt_Some _ _ _ Hx). rewrite seq_S, (take_S_r _ _ _ Hx).
  by rewrite zip_with_app by (rewrite length_seq, length_take; lia).
Qed.

(** The table while it is filled. *)
Lemma place_spec lengths i : length lengths ≤ 320 → Forall (λ l, l < 16) lengths → i ≤ length lengths →
  let '(symbol, offs) := foldl place (replicate 320 0, offsets (count_lengths lengths))
                           (zip (seq 0 i) (take i lengths)) in
  length symbol = 320 ∧ length offs = 16 ∧
  (∀ l, 1 ≤ l < 16 → nth l offs 0 = slot lengths i l) ∧
  (∀ s l, s < i → lengths !! s = Some l → l ≠ 0 → symbol !! slot lengths s l = Some s).
Proof.
  intros Hlen Hall. induction i as [|i IH]; intros Hi.
  { cbn [seq zip_with foldl]. split_and!; [done|apply offsets_length| |intros; lia].
    intros l Hl. rewrite offsets_spec by done. unfold slot. simpl. lia. }
  destruct (lookup_lt_is_Some_2 lengths i) as [x Hx]; [lia|]. specialize (IH ltac:(lia)).
  rewrite (zip_seq_take _ _ _ Hx), foldl_app.
  destruct (foldl place _ (zip (seq 0 i) (take i lengths))) as [symbol offs]. destruct IH as (Hs & Ho & Hoff & Hsym).
  pose proof (Forall_lookup_1 _ _ _ _ Hall Hx) as Hx16. simpl in Hx16.
  assert (∀ l, slot lengths (S i) l = slot lengths i l + (if x =? l then 1 else 0)) as Hslot.
  { intros l. unfold slot. rewrite (occ_take_S _ _ _ _ Hx). lia. }
  cbn [foldl place]. destruct (Nat.eqb_spec x 0) as [->|Hx0].
  - split_and!; [done..| |].
    + intros l Hl. rewrite Hoff, Hslot by done. destruct l; [lia|]. simpl. lia.
    + intros s l Hlt Hl Hl0. apply Hsym; [|done..]. destruct (decide (s = i)) as [->|]; [congruence|lia].
  - rewrite Hoff by lia. pose proof (slot_lt _ _ _ Hx Hx0). split_and!.
    + by rewrite length_insert.
    + by rewrite length_alter.
    + intros l Hl. rewrite Hslot, <- Hoff, !nth_lookup by done. destruct (Nat.eqb_spec x l) as [->|Hne].
      * rewrite list_lookup_alter_eq. destruct (lookup_lt_is_Some_2 offs l) as [y ->]; [lia|]. simpl. lia.
      * rewrite list_lookup_alter_ne by done. lia.
    + intros s l Hlt Hl Hl0. destruct (decide (s = i)) as [->|Hne].
      * simplify_eq. apply list_lookup_insert_eq. lia.
      * rewrite list_lookup_insert_ne; [apply Hsym; [lia|done..]|].
        intros E. by apply (slot_inj lengths s l i x); [..|lia|].
Qed.

Lemma Construct_symbol lengths sym l : length lengths ≤ 320 → Forall (λ l, l < 16) lengths →
  lengths !! sym = Some l → l ≠ 0 → nth (slot lengths sym l) (Symbol (Construct lengths)) 0 = sym.
Proof.
  intros Hlen Hall Hs Hl. pose proof (place_spec lengths (length lengths) Hlen Hall (le_n _)) as H.
  rewrite firstn_all in H. unfold Construct. cbn [Symbol].
  destruct (foldl place _ _) as [symbol offs]. destruct H as (_ & _ & _ & H). simpl.
  apply nth_lookup_Some, H; [by eapply lookup_lt_Some|done..].
Qed.

(** ** Decoding *)

Lemma next_code_S lengths l : l ≠ 0 → next_code lengths (S l) = (next_code lengths l + occ l lengths) * 2.
Proof. intros Hl. simpl. by rewrite (proj2 (Nat.eqb_neq l 0)). Qed.

(** Longer codes begin after the codes of length [l]. *)
Lemma next_code_prefix lengths l k : l ≠ 0 →
  (next_code lengths l + occ l lengths) * 2 ^ S k ≤ next_code lengths (l + S k).
Proof.
  intros Hl. induction k as [|k IH].
  - rewrite Nat.add_1_r, next_code_S by done. simpl. lia.
  - rewrite (Nat.add_succ_r l (S k)), next_code_S by lia. rewrite Nat.pow_succ_r'. lia.
Qed.

Lemma div_testbit c k : c / 2 ^ k = 2 * (c / 2 ^ S k) + Nat.b2n (Nat.testbit c k).
Proof.
  rewrite Nat.testbit_spec', (Nat.pow_succ_r' 2 k), (Nat.mul_comm 2 (2 ^ k)), <- Nat.Div0.div_div.
  apply Nat.Div0.div_mod.
Qed.

Lemma walk_canonical lengths L j : length lengths ≤ 320 → L < 16 → j < occ L lengths → ∀ k l r, l ≠ 0 → l + k = L →
  let c := next_code lengths L + j in
  walk (Construct lengths) (seq l (16 - l)) (Z.of_nat (2 * (c / 2 ^ S k))) (Z.of_nat (next_code lengths l))
    (Z.of_nat (index_of lengths l)) (msb_bits (S k) c ++ r)
  = Some (nth (index_of lengths L + j) (Symbol (Construct lengths)) 0, r).
Proof.
  intros Hlen HL Hj. induction k as [|k IH]; intros l r Hl Hk c;
    (replace (16 - l) with (S (16 - S l)) by lia); cbn [seq walk msb_bits app]; cbn [Count Construct];
    rewrite count_lengths_spec by lia;
    match goal with |- context [(Z.of_nat (2 * ?x) + Z.b2z ?b)%Z] =>
      replace (Z.of_nat (2 * x) + Z.b2z b)%Z with (Z.of_nat (2 * x + Nat.b2n b)) by (destruct b; simpl; lia) end;
    rewrite <- div_testbit.
  - assert (l = L) as -> by lia. rewrite Nat.pow_0_r, Nat.div_1_r.
    pose proof (index_of_le lengths (S L)) as Hi. rewrite index_of_S in Hi by done.
    rewrite (proj2 (Z.ltb_lt _ _)), (proj2 (Z.leb_le _ _)), (proj2 (Z.ltb_lt _ 320)) by lia. simpl andb. cbv iota.
    do 3 f_equal. lia.
  - assert (next_code lengths l + occ l lengths ≤ c / 2 ^ S k) as Hge.
    { apply Nat.div_le_lower_bound; [apply Nat.pow_nonzero; lia|]. pose proof (next_code_prefix lengths l k Hl) as Hp.
      rewrite Hk in Hp. lia. }
    rewrite (proj2 (Z.ltb_ge _ _)) by lia.
    rewrite <- (IH (S l) r) by lia. fold c. rewrite next_code_S, index_of_S by done.
    replace (16 - S l) with (16 - S l) by done. f_equal; lia.
Qed.

(** C27: On the tables built from any lengths of codes, a symbol with a code is read
    back from it, provided the code fits into its length. *)
Theorem huffman_decodes lengths sym len s r out :
  length lengths ≤ 320 → Forall (λ l, l < 16) lengths → lengths !! sym = Some len → len ≠ 0 →
  rfc_code lengths sym len < 2 ^ len → reads s (msb_bits len (rfc_code lengths sym len) ++ r) out →
  ∃ s', Decode (Construct lengths) s = Some (inr sym, s') ∧ reads s' r out.
Proof.
  intros Hlen Hall Hsym Hl Hfit. pose proof (Forall_lookup_1 _ _ _ _ Hall Hsym) as HL. simpl in HL.
  apply decode_walk. destruct len as [|k]; [done|].
  pose proof (walk_canonical lengths (S k) (occ (S k) (take sym lengths)) Hlen HL (occ_take_lt _ _ _ Hsym) k 1 r
    ltac:(lia) eq_refl) as Hw.
  cbv zeta in Hw. rewrite Nat.div_small in Hw by exact Hfit. pose proof (Construct_symbol _ _ _ Hlen Hall Hsym Hl) as Hn.
  unfold slot in Hn. rewrite Hn in Hw. exact Hw.
Qed.

(** ** Stored blocks *)

(** A final stored block is copied; its check word may be anything. *)
Theorem stored_block_read d n0 n1 rest : length d < 256 * 256 →
  Inflate ("001"%byte :: byte_of (N.of_nat (length d)) :: byte_of (N.of_nat (length d / 256)) :: n0 :: n1 :: d ++ rest)
  = inr d.
Proof.
  intros Hd. unfold Inflate, inflate_run. set (data := _ :: _ :: _ :: _ :: _ :: _).
  assert (block_step (inflate_fuel data) (inflate_start data)
    = Some (inr true, {| In_Rest := rest; Bit_Buf := 0; Bit_Cnt := 0; Out_V := rev_append d [] |})) as E.
  { unfold block_step. set (s2 := {| In_Rest := tail data; Bit_Buf := 0; Bit_Cnt := 5; Out_V := [] |}).
    rewrite (inf_bind_some (Bits 1) _ _ 1 {| In_Rest := tail data; Bit_Buf := 0; Bit_Cnt := 7; Out_V := [] |}) by done.
    rewrite (inf_bind_some (Bits 2) _ _ 0 s2) by done. unfold mbind, inf_bind, Stored_Block, s2.
    cbn [In_Rest Out_V tail data].
    rewrite !to_N_byte_of.
    replace (N.to_nat (N.of_nat (length d) `mod` 256) + N.to_nat (N.of_nat (length d / 256) `mod` 256) * 256)
      with (length d).
    2:{ rewrite (N.mod_small (N.of_nat (length d / 256))) by (rewrite Nat2N.inj_div; apply N.Div0.div_lt_upper_bound; lia).
        rewrite Nat2N.inj_div. pose proof (N.div_mod' (N.of_nat (length d)) 256). lia. }
    rewrite (proj2 (Nat.ltb_ge _ _)) by (rewrite length_app; lia).
    by rewrite drop_app_length, take_app_length. }
  unfold inflate_fuel. cbn [inf_loop]. fold (inflate_fuel data). rewrite (inf_bind_some _ _ _ _ _ E).
  simpl. by rewrite <- rev_alt, rev_involutive.
Qed.
