(* ===== verification/Shards.v ===== *)
(** Blobs on disk (src/storage/src/dezhan-storage-cas.adb, lines 34 to 458): a
    blob of at most 8192 bytes is a directory of [K] data shards and two
    parity shards of 1024 bytes, and an index file with the length, [K], [M]
    and the SHA-256 of every shard.

    [read_shards_tolerates] composes the loops here with the erasure code: as
    long as the index and any [K] shard files are intact, and no other file
    has the digest of the shard it replaces, reading gives the blob back.
    [repair_shards_restores] is the same for scrubbing: all files are written
    again as they were. *)
From Stdlib Require Import Strings.Byte NArith.
From S2P Require Import Prelude AdaMonad Gf256 Erasure Sha256.
Close Scope gf_scope.
Open Scope nat_scope.

Definition EC_M : nat := 2.
Definition EC_SL : nat := 1024.

(** A directory of shards: the index, the numbered shard files, and the tag
    file that manifests have. *)
Record shard_dir := {
  sd_idx : option (list Byte.byte);
  sd_shards : gmap nat (list Byte.byte);
  sd_tag : option (list Byte.byte);
}.

(** [K], the number of data shards of a blob of this length. *)
Definition data_shards (len : nat) : nat := Nat.max 1 ((len + EC_SL - 1) / EC_SL).

(** [DB]: the bytes of the blob in rows of [EC_SL]. *)
Definition blob_block (data : list Byte.byte) : Block :=
  fun r c => if (1 <=? r) && (1 <=? c) && (c <=? EC_SL)
             then nth ((r - 1) * EC_SL + (c - 1)) data "000"%byte else "000"%byte.

(** A row of a block as a shard file. *)
Definition row_bytes (b : Block) (r : nat) : list Byte.byte := map (b r) (seq 1 EC_SL).

(** Shard [s] of the blob: a data row or a parity row. *)
Definition shard_row (k : nat) (db parity : Block) (s : nat) : list Byte.byte :=
  if s <=? k then row_bytes db s else row_bytes parity (s - k).

Definition idx_bytes (len k m : nat) (shards : list (list Byte.byte)) : list Byte.byte :=
  be_bytes 4 (N.of_nat len) ++ [byte_of (N.of_nat k); byte_of (N.of_nat m)] ++ concat (map SHA256 shards).

(** The files [Store_Shards] writes. *)
Definition new_dir (data : list Byte.byte) : shard_dir :=
  let k := data_shards (length data) in
  let db := blob_block data in
  let parity := Encode k EC_M EC_SL db in
  let shards := map (shard_row k db parity) (seq 1 (k + EC_M)) in
  {| sd_idx := Some (idx_bytes (length data) k EC_M shards);
     sd_shards := list_to_map (zip (seq 1 (k + EC_M)) shards);
     sd_tag := None |}.

(** [Store_Shards]: nothing is written where the directory exists. *)
Definition Store_Shards (hex : string) (data : list Byte.byte) (dirs : gmap string shard_dir) : gmap string shard_dir :=
  match dirs !! hex with
  | Some _ => dirs
  | None => <[hex := new_dir data]> dirs
  end.

(** The header of an index file: length, [K] and [M]. *)
Definition parse_idx (idx : list Byte.byte) : exn + (nat * nat * nat) :=
  match idx with
  | a :: b :: c :: d :: k :: m :: _ =>
      let len := N.lor (N.lor (N.lor (N.shiftl (Byte.to_N a) 24) (N.shiftl (Byte.to_N b) 16))
                              (N.shiftl (Byte.to_N c) 8)) (Byte.to_N d) in
      let k := N.to_nat (Byte.to_N k) in
      let m := N.to_nat (Byte.to_N m) in
      if (1 <=? k) && (1 <=? m) && (k <=? Max_Data) && (k + m <=? 16)
      then inr (N.to_nat len, k, m) else inl Constraint_Error
  | _ => inl Constraint_Error
  end.

(** The digest of shard [s] in an index file. *)
Definition idx_digest (idx : list Byte.byte) (s : nat) : list Byte.byte := take 32 (drop (6 + (s - 1) * 32) idx).

(** [Valid]: shard [s] has a file of the right length with the right digest. *)
Definition valid_shard (idx : list Byte.byte) (d : shard_dir) (s : nat) : bool :=
  match sd_shards d !! s with
  | Some f => (length f =? EC_SL) && bool_decide (SHA256 f = idx_digest idx s)
  | None => false
  end.

(** [Shards]: the bytes of the valid shards. *)
Definition shard_block (idx : list Byte.byte) (d : shard_dir) : Block :=
  fun s c => if valid_shard idx d s then nth (c - 1) (default [] (sd_shards d !! s)) "000"%byte else "000"%byte.

(** The index, [K], [M], which shards are present, and [Reconstruct]'s
    results: the common part of [Read_Shards] and [Repair_Shards]. *)
Definition load_shards (d : shard_dir) : exn + (nat * nat * nat * (nat → bool) * Block * bool) :=
  match sd_idx d with
  | None => inl Name_Error
  | Some idx =>
      match parse_idx idx with
      | inl e => inl e
      | inr (len, k, m) =>
          if length idx <? 6 + (k + m) * 32 then inl Constraint_Error
          else
            let present := valid_shard idx d in
            let '(data, ok) := Reconstruct k m EC_SL present (shard_block idx d) in
            inr (len, k, m, present, data, ok)
      end
  end.

Definition block_bytes (data : Block) (len : nat) : list Byte.byte :=
  map (λ i, data (i / EC_SL + 1) (i `mod` EC_SL + 1)) (seq 0 len).

Definition Read_Shards (d : shard_dir) : exn + list Byte.byte :=
  match load_shards d with
  | inl e => inl e
  | inr (len, k, m, _, data, ok) =>
      if negb ok then inl Corruption_Detected
      else if Max_Data * EC_SL <? len then inl Constraint_Error
      else inr (block_bytes data len)
  end.

(** [Repair_Shards]: the directory afterwards, [Repaired] and [Recoverable]. *)
Definition Repair_Shards (d : shard_dir) : exn + (shard_dir * nat * bool) :=
  match load_shards d with
  | inl e => inl e
  | inr (_, k, m, present, data, ok) =>
      if negb ok then inr (d, 0, false)
      else
        let parity := Encode k m EC_SL data in
        let bad := filter (λ s, present s = false) (seq 1 (k + m)) in
        inr ({| sd_idx := sd_idx d;
                sd_shards := foldl (λ files s, <[s := shard_row k data parity s]> files) (sd_shards d) bad;
                sd_tag := sd_tag d |}, length bad, true)
  end.

(** ** What a directory that holds a blob looks like *)

(** The shard [s] that belongs to the blob. *)
Definition orig (data : list Byte.byte) (s : nat) : list Byte.byte :=
  let k := data_shards (length data) in
  shard_row k (blob_block data) (Encode k EC_M EC_SL (blob_block data)) s.

Definition in_shards (data : list Byte.byte) (s : nat) : Prop := 1 ≤ s ≤ data_shards (length data) + EC_M.

(** The directory holds the blob: its index is the one that was written, at
    least [K] of the shard files are intact, and no file passes for the shard
    it stands for without being it. *)
Record holds_blob (d : shard_dir) (data : list Byte.byte) : Prop := {
  hb_idx : sd_idx d = sd_idx (new_dir data);
  hb_enough : data_shards (length data) ≤
    count_present (data_shards (length data)) EC_M (λ s, bool_decide (sd_shards d !! s = Some (orig data s)));
  hb_honest : ∀ s f, in_shards data s → sd_shards d !! s = Some f → length f = EC_SL →
    SHA256 f = SHA256 (orig data s) → f = orig data s;
}.

(** All files are as they were written. *)
Definition full_blob (d : shard_dir) (data : list Byte.byte) : Prop :=
  sd_idx d = sd_idx (new_dir data) ∧
  ∀ s, in_shards data s → sd_shards d !! s = Some (orig data s).

Definition small_blob (data : list Byte.byte) : Prop := length data ≤ Max_Data * EC_SL.

#[local] Opaque Encode Reconstruct SHA256 EC_SL.

Lemma EC_SL_pos : 0 < EC_SL.
Proof. apply Nat.ltb_lt. reflexivity. Qed.

Lemma row_bytes_length b r : length (row_bytes b r) = EC_SL.
Proof. unfold row_bytes. by rewrite length_map, length_seq. Qed.

Lemma orig_length data s : length (orig data s) = EC_SL.
Proof. unfold orig, shard_row. case_match; apply row_bytes_length. Qed.

Lemma nth_row_bytes b r c : 1 ≤ c ≤ EC_SL → nth (c - 1) (row_bytes b r) "000"%byte = b r c.
Proof.
  intros Hc. unfold row_bytes. rewrite (nth_indep _ _ (b r 0)) by (rewrite length_map, length_seq; lia).
  rewrite map_nth, seq_nth by lia. f_equal. lia.
Qed.

Lemma data_shards_range data : small_blob data →
  1 ≤ data_shards (length data) ≤ Max_Data ∧ length data ≤ data_shards (length data) * EC_SL.
Proof.
  unfold small_blob, data_shards, Max_Data. intros Hs. pose proof EC_SL_pos.
  pose proof (Nat.div_mod (length data + EC_SL - 1) EC_SL). pose proof (Nat.mod_upper_bound (length data + EC_SL - 1) EC_SL).
  assert ((length data + EC_SL - 1) / EC_SL < 9) by (apply Nat.Div0.div_lt_upper_bound; nia).
  split; [lia|]. nia.
Qed.

(** ** The index file *)

Lemma be4_value v : (v < 2 ^ 32)%N →
  N.lor (N.lor (N.lor (N.shiftl (Byte.to_N (byte_of (N.shiftr v (8 * N.of_nat 3)))) 24)
                      (N.shiftl (Byte.to_N (byte_of (N.shiftr v (8 * N.of_nat 2)))) 16))
               (N.shiftl (Byte.to_N (byte_of (N.shiftr v (8 * N.of_nat 1)))) 8))
        (Byte.to_N (byte_of (N.shiftr v (8 * N.of_nat 0)))) = v.
Proof.
  intros Hv. rewrite !to_N_byte_of. change 256%N with (2 ^ 8)%N. rewrite <- !N.land_ones.
  apply N.bits_inj. intros i. rewrite !N.lor_spec.
  assert (T : ∀ n, N.testbit (N.land (N.shiftr v n) (N.ones 8)) i = N.testbit v (i + n) && (i <? 8)%N).
  { intros n. rewrite N.land_spec, N.shiftr_spec by lia. f_equal. destruct (N.ltb_spec i 8).
    - by apply N.ones_spec_low. - by apply N.ones_spec_high. }
  assert (S : ∀ n s, N.testbit (N.shiftl (N.land (N.shiftr v n) (N.ones 8)) s) i
    = if (i <? s)%N then false else N.testbit v (i - s + n) && (i - s <? 8)%N).
  { intros n s. destruct (N.ltb_spec i s) as [Hlt|Hge]; [by apply N.shiftl_spec_low|].
    rewrite N.shiftl_spec_high by lia. rewrite N.land_spec, N.shiftr_spec by lia. f_equal.
    destruct (N.ltb_spec (i - s) 8); [by apply N.ones_spec_low|by apply N.ones_spec_high]. }
  rewrite !S, T. change (8 * N.of_nat 3)%N with 24%N. change (8 * N.of_nat 2)%N with 16%N.
  change (8 * N.of_nat 1)%N with 8%N. change (8 * N.of_nat 0)%N with 0%N.
  assert (Hhigh : (32 ≤ i)%N → N.testbit v i = false).
  { intros Hi. apply N.bits_above_log2. destruct (decide (v = 0%N)) as [->|]; [simpl; lia|].
    apply N.log2_lt_pow2; [lia|]. apply N.lt_le_trans with (2 ^ 32)%N; [done|]. apply N.pow_le_mono_r; lia. }
  repeat match goal with |- context [(?a <? ?b)%N] => destruct (N.ltb_spec a b) end; try lia;
    rewrite ?andb_true_r, ?andb_false_r, ?orb_false_r, ?orb_false_l; simpl;
    try (f_equal; lia); try (symmetry; apply Hhigh; lia).
Qed.

Lemma byte_of_small n : n < 256 → N.to_nat (Byte.to_N (byte_of (N.of_nat n))) = n.
Proof. intros Hn. rewrite to_N_byte_of, N.mod_small by lia. lia. Qed.

Lemma parse_idx_bytes len k m shards :
  (N.of_nat len < 2 ^ 32)%N → 1 ≤ k ≤ Max_Data → 1 ≤ m → k + m ≤ 16 →
  parse_idx (idx_bytes len k m shards) = inr (len, k, m).
Proof.
  unfold Max_Data. intros Hl Hk Hm Hkm. unfold idx_bytes. cbn [be_bytes app parse_idx].
  rewrite be4_value by done. rewrite !byte_of_small, Nat2N.id by lia. unfold Max_Data.
  repeat match goal with |- context [?a <=? ?b] => destruct (Nat.leb_spec a b); [|lia] end. done.
Qed.

Lemma idx_digest_bytes len k m shards s :
  1 ≤ s ≤ length shards → idx_digest (idx_bytes len k m shards) s = SHA256 (nth (s - 1) shards []).
Proof.
  intros Hs. unfold idx_digest, idx_bytes. rewrite !app_assoc.
  rewrite drop_app_ge by (rewrite length_app, be_bytes_length; simpl; lia).
  rewrite length_app, be_bytes_length. cbn [length].
  replace (6 + (s - 1) * 32 - (4 + 2)) with ((s - 1) * 32) by lia.
  assert (G : ∀ l i, i < length l → take 32 (drop (i * 32) (concat (map SHA256 l))) = SHA256 (nth i l [])).
  { induction l as [|x l IH]; intros i Hi; simpl in Hi; [lia|].
    change (concat (map SHA256 (x :: l))) with (SHA256 x ++ concat (map SHA256 l)).
    destruct i as [|i].
    - rewrite drop_0, take_app_le by (rewrite SHA256_length; lia). apply take_ge. rewrite SHA256_length. lia.
    - rewrite drop_app_ge by (rewrite SHA256_length; lia). rewrite SHA256_length.
      replace (S i * 32 - 32) with (i * 32) by lia. apply IH. lia. }
  apply G. lia.
Qed.

(** The list of all shards of the blob, as [Store_Shards] builds it. *)
Definition all_shards (data : list Byte.byte) : list (list Byte.byte) :=
  map (orig data) (seq 1 (data_shards (length data) + EC_M)).

Lemma new_dir_idx data :
  sd_idx (new_dir data) = Some (idx_bytes (length data) (data_shards (length data)) EC_M (all_shards data)).
Proof. done. Qed.

Lemma idx_digest_orig data s : in_shards data s →
  idx_digest (idx_bytes (length data) (data_shards (length data)) EC_M (all_shards data)) s = SHA256 (orig data s).
Proof.
  unfold in_shards. intros Hs. unfold all_shards.
  rewrite idx_digest_bytes by (rewrite length_map, length_seq; lia).
  rewrite (nth_indep _ _ (orig data 0)) by (rewrite length_map, length_seq; lia).
  rewrite map_nth, seq_nth by lia. do 2 f_equal. lia.
Qed.

Lemma concat_digest_length l : length (concat (map SHA256 l)) = length l * 32.
Proof.
  induction l as [|x l IH]; [done|].
  change (concat (map SHA256 (x :: l))) with (SHA256 x ++ concat (map SHA256 l)).
  rewrite length_app, SHA256_length, IH. simpl. lia.
Qed.

(** ** Reading *)

(** In a directory that holds the blob, the valid shards are the intact ones. *)
Lemma valid_shard_spec d data idx s : holds_blob d data → sd_idx d = Some idx → in_shards data s →
  valid_shard idx d s = bool_decide (sd_shards d !! s = Some (orig data s)).
Proof.
  intros [Hidx _ Hhon] E Hs. rewrite Hidx, new_dir_idx in E. injection E as <-. unfold valid_shard.
  rewrite idx_digest_orig by done.
  destruct (sd_shards d !! s) as [f|] eqn:Ef; [|by rewrite bool_decide_false].
  destruct (decide (f = orig data s)) as [->|Hne].
  - rewrite (bool_decide_true (Some _ = _)) by done. rewrite bool_decide_true by done.
    by rewrite orig_length, Nat.eqb_refl.
  - rewrite (bool_decide_false (Some _ = _)) by congruence.
    destruct (Nat.eqb_spec (length f) EC_SL); [|done]. rewrite bool_decide_false; [done|].
    intros EH. by apply Hne, (Hhon s f).
Qed.

Lemma shards_of_blob d data idx : holds_blob d data → sd_idx d = Some idx →
  shards_of (data_shards (length data)) EC_M EC_SL (blob_block data) (valid_shard idx d) (shard_block idx d).
Proof.
  intros Hh E i b Hi Hb Hv. unfold shard_block. rewrite Hv.
  rewrite (valid_shard_spec d data) in Hv by done. apply bool_decide_eq_true in Hv. rewrite Hv. simpl.
  unfold orig, shard_row. case_match; by apply nth_row_bytes.
Qed.

Lemma count_present_ext K M p q :
  (∀ s, 1 ≤ s ≤ K + M → p s = q s) → count_present K M p = count_present K M q.
Proof.
  intros E. unfold count_present. f_equal. apply List.filter_ext_in. intros s Hs.
  apply in_seq in Hs. apply E. lia.
Qed.

(** What [Read_Shards] and [Repair_Shards] see of a directory that holds a
    blob. *)
Lemma load_shards_spec d data : small_blob data → holds_blob d data →
  ∃ D present, load_shards d = inr (length data, data_shards (length data), EC_M, present, D, true) ∧
    (∀ s, in_shards data s → present s = bool_decide (sd_shards d !! s = Some (orig data s))) ∧
    ∀ j b, 1 ≤ j ≤ data_shards (length data) → 1 ≤ b ≤ EC_SL → D j b = blob_block data j b.
Proof.
  intros Hsm Hh. destruct (data_shards_range data Hsm) as [HK Hlen].
  pose proof (hb_idx d data Hh) as E. rewrite new_dir_idx in E.
  set (idx := idx_bytes (length data) (data_shards (length data)) EC_M (all_shards data)) in *.
  unfold load_shards. rewrite E.
  assert (Hp : parse_idx idx = inr (length data, data_shards (length data), EC_M)).
  { apply parse_idx_bytes; unfold EC_M, Max_Data in *; try lia.
    assert (length data < 2 ^ 14) as Hl.
    { apply Nat.le_lt_trans with (8 * EC_SL); [exact Hsm|]. apply Nat.ltb_lt. vm_compute. reflexivity. }
    apply N.lt_trans with (2 ^ 14)%N; [|done]. change (2 ^ 14)%N with (N.of_nat (2 ^ 14)). lia. }
  rewrite Hp. cbn [mbind].
  assert (Hl : (length idx <? 6 + (data_shards (length data) + EC_M) * 32) = false).
  { apply Nat.ltb_ge. unfold idx, idx_bytes. rewrite !length_app, be_bytes_length, concat_digest_length.
    unfold all_shards. rewrite length_map, length_seq. simpl. lia. }
  rewrite Hl.
  destruct (Reconstruct_spec (data_shards (length data)) EC_M EC_SL (blob_block data)
    (shard_block idx d) (valid_shard idx d)) as (D & HR & HD).
  - unfold Max_Data in *. lia.
  - unfold EC_M, Max_Parity. lia.
  - by apply shards_of_blob.
  - rewrite (count_present_ext _ _ _ (λ s, bool_decide (sd_shards d !! s = Some (orig data s)))).
    + apply (hb_enough d data Hh).
    + intros s Hs. by apply valid_shard_spec.
  - rewrite HR. exists D, (valid_shard idx d). split_and!; [done| |done].
    intros s Hs. by apply valid_shard_spec.
Qed.

Lemma block_bytes_blob data D : small_blob data →
  (∀ j b, 1 ≤ j ≤ data_shards (length data) → 1 ≤ b ≤ EC_SL → D j b = blob_block data j b) →
  block_bytes D (length data) = data.
Proof.
  intros Hsm HD. destruct (data_shards_range data Hsm) as [HK Hlen]. pose proof EC_SL_pos.
  apply (nth_ext _ _ "000"%byte "000"%byte); unfold block_bytes; [by rewrite length_map, length_seq|].
  intros i Hi. rewrite length_map, length_seq in Hi.
  rewrite (nth_indep _ _ ((λ i, D (i / EC_SL + 1) (i `mod` EC_SL + 1)) 0)) by (by rewrite length_map, length_seq).
  rewrite (map_nth (λ i, D (i / EC_SL + 1) (i `mod` EC_SL + 1))), seq_nth by done. simpl.
  pose proof (Nat.div_mod i EC_SL). pose proof (Nat.mod_upper_bound i EC_SL).
  assert (i / EC_SL < data_shards (length data)) by (apply Nat.Div0.div_lt_upper_bound; lia).
  rewrite HD by lia. unfold blob_block.
  repeat match goal with |- context [?a <=? ?b] => destruct (Nat.leb_spec a b); [|lia] end. simpl.
  f_equal. nia.
Qed.

Lemma Read_Shards_spec d data : small_blob data → holds_blob d data → Read_Shards d = inr data.
Proof.
  intros Hsm Hh. destruct (load_shards_spec d data Hsm Hh) as (D & present & HL & _ & HD).
  unfold Read_Shards. rewrite HL. cbn [negb].
  rewrite (proj2 (Nat.ltb_ge _ _)) by exact Hsm. by rewrite block_bytes_blob.
Qed.

(** ** Writing and repairing *)

Lemma lookup_zip_seq {A} (f : nat → A) n i s : i ≤ s < i + n →
  (list_to_map (zip (seq i n) (map f (seq i n))) : gmap nat A) !! s = Some (f s).
Proof.
  revert i. induction n as [|n IH]; intros i Hs; [lia|]. simpl.
  destruct (decide (s = i)) as [->|]; [by rewrite lookup_insert_eq|].
  rewrite lookup_insert_ne by done. apply IH. lia.
Qed.

Lemma new_dir_full data : full_blob (new_dir data) data.
Proof.
  split; [done|]. intros s Hs. unfold in_shards in Hs.
  change (sd_shards (new_dir data)) with
    (list_to_map (zip (seq 1 (data_shards (length data) + EC_M)) (all_shards data)) : gmap nat _).
  unfold all_shards. apply (lookup_zip_seq (orig data)). lia.
Qed.

Lemma full_holds d data : full_blob d data → holds_blob d data.
Proof.
  intros [Hi Hs]. split; [done| |].
  - rewrite (count_present_ext _ _ _ (λ _, true)).
    + unfold count_present. rewrite List.filter_true, length_seq. lia.
    + intros s Hr. by rewrite bool_decide_true by by apply Hs.
  - intros s f Hr Hf _ _. rewrite (Hs s Hr) in Hf. by injection Hf.
Qed.

Lemma foldl_insert_lookup {A} (g : nat → A) l : ∀ (m : gmap nat A) s,
  foldl (λ files s, <[s := g s]> files) m l !! s = if decide (s ∈ l) then Some (g s) else m !! s.
Proof.
  induction l as [|x l IH]; intros m s.
  { case_decide as Hd; [by apply elem_of_nil in Hd|done]. }
  cbn [foldl]. rewrite IH. destruct (decide (s ∈ l)) as [Hin|Hin].
  - by rewrite decide_True by by right.
  - destruct (decide (s = x)) as [->|Hne].
    + by rewrite lookup_insert_eq, decide_True by left.
    + rewrite lookup_insert_ne by done. rewrite decide_False; [done|]. by rewrite elem_of_cons; intros [|].
Qed.

Lemma Repair_Shards_spec d data : small_blob data → holds_blob d data →
  ∃ d' n, Repair_Shards d = inr (d', n, true) ∧ full_blob d' data ∧ sd_tag d' = sd_tag d ∧
    (full_blob d data → n = 0).
Proof.
  intros Hsm Hh. destruct (load_shards_spec d data Hsm Hh) as (D & present & HL & HP & HD).
  destruct (data_shards_range data Hsm) as [HK _].
  unfold Repair_Shards. rewrite HL. cbn [negb]. eexists _, _. split; [done|].
  set (k := data_shards (length data)) in *.
  assert (HO : ∀ s, in_shards data s → shard_row k D (Encode k EC_M EC_SL D) s = orig data s).
  { intros s Hs. unfold in_shards in Hs. fold k in Hs. unfold orig. fold k. unfold shard_row.
    destruct (Nat.leb_spec s k) as [Hle|Hgt]; unfold row_bytes; apply map_ext_in; intros c [Hc1 Hc2]%in_seq.
    - apply HD; lia.
    - rewrite !Encode_spec by lia. apply dot_ext; [done|]. intros j Hj. apply HD; lia. }
  split_and!.
  - split; [simpl; apply (hb_idx d data Hh)|]. intros s Hs. cbn [sd_shards].
    rewrite (foldl_insert_lookup (λ s, shard_row k D (Encode k EC_M EC_SL D) s)).
    destruct (decide (s ∈ filter (λ s0, present s0 = false) (seq 1 (k + EC_M)))) as [Hin|Hnin].
    + by rewrite HO.
    + rewrite list_elem_of_filter in Hnin. destruct (present s) eqn:Ep.
      * rewrite HP in Ep by done. by apply bool_decide_eq_true in Ep.
      * destruct Hnin. split; [done|]. apply elem_of_seq. unfold in_shards in Hs. fold k in Hs. lia.
  - done.
  - intros [_ Hf]. apply length_zero_iff_nil, elem_of_nil_inv. intros s [Hp Hin]%list_elem_of_filter.
    apply elem_of_seq in Hin. assert (Hs : in_shards data s) by (unfold in_shards; fold k; lia).
    rewrite HP in Hp by done. rewrite bool_decide_true in Hp by by apply Hf. done.
Qed.
