(* ===== verification/Cas.v ===== *)
(** The content-addressed store (src/storage/src/dezhan-storage-cas.adb and
    src/trusted_core/src/dezhan-trusted_core-hmac.adb): an object is
    compressed if that helps, split into chunks, each chunk is encrypted,
    stored as a blob under its SHA-256, and a manifest that lists the chunks
    is stored under its own, which is the object's id; a keyed tag next to the
    manifest authenticates it.  [Put], [Get], [Repair] and [Collect_Garbage]
    are translated here on a store of shard directories; DEFLATE
    (dezhan-storage-deflate.adb) is a class with the law that inflating
    undoes deflating, which CasDemo discharges.  Put's worker tasks write disjoint directories; the
    model runs them in the order of the chunks.

    [cas_survives_damage] is the promise of the store: whatever two shard
    files of each directory are lost or damaged after a [Put], [Get] returns
    the data byte for byte.  [CasLaws] at the end is what the vault relies on,
    with this store as its instance. *)
From Stdlib Require Import Strings.Byte NArith.
From S2P Require Import Prelude AdaMonad Gf256 Erasure Sha256 Cipher Shards GoStrings AdaText.
Close Scope gf_scope.
Close Scope N_scope.
Open Scope nat_scope.

(** ** HMAC-SHA256 *)

Definition hmac_block : nat := 64.

Definition pad_key (key : list Byte.byte) : list Byte.byte :=
  let k := if length key <=? hmac_block then key else SHA256 key in
  k ++ replicate (hmac_block - length k) "000"%byte.

Definition HMAC_SHA256 (key msg : list Byte.byte) : Digest :=
  let k0 := pad_key key in
  let inner := SHA256 (map (λ b, bxor b "054"%byte) k0 ++ msg) in
  SHA256 (map (λ b, bxor b "092"%byte) k0 ++ inner).

(** RFC 4231, test case 2. *)
Example hmac_rfc4231 :
  hex (HMAC_SHA256 (String.list_byte_of_string "Jefe")
         (String.list_byte_of_string "what do ya want for nothing?"))
  = 0x5bdcc146bf60754e6a042426089575c75a003f089d2739839dec58b964ec3843%N.
Proof. vm_compute. reflexivity. Qed.

(** ** Keys, nonces and tags *)

(** [Key_256]: 32 bytes. *)
Notation Key_256 := (list Byte.byte) (only parsing).

Definition Enc_Label : string := "dezhan/enc/chacha20".
Definition Mac_Label : string := "dezhan/mac/hmac-sha256".
Definition Hdr : nat := 29.
Definition Nonce_Off : nat := 17.
Definition Chunk_Size : nat := 8 * EC_SL.
Definition Max_Manifest : nat := 8 * EC_SL.

Definition Subkey (key : Key_256) (label : string) : Key_256 :=
  HMAC_SHA256 key (String.list_byte_of_string label).

Definition Object_Tag (mk : Key_256) (manifest_digest : Digest) : Digest :=
  HMAC_SHA256 mk manifest_digest.

(** The rolling digest over the payload, one block of [EC_SL] at a time. *)
Fixpoint roll (fuel : nat) (acc : Digest) (payload : list Byte.byte) : Digest :=
  match fuel with
  | O => acc
  | S fuel =>
      let acc := SHA256 (acc ++ take EC_SL payload) in
      match drop EC_SL payload with
      | [] => acc
      | rest => roll fuel acc rest
      end
  end.

Definition Derive_Nonce (key : Key_256) (payload : list Byte.byte) : list Byte.byte :=
  take 12 (HMAC_SHA256 key (roll (S (length payload)) Zero_Digest payload)).

Definition Counter_For (c : nat) : N := word (N.of_nat c * 128).

(** ** The store *)

Record cas := { objects : gmap string shard_dir; manifests : gmap string shard_dir }.

(** The id type: 64 characters. *)
Notation Object_Id := string (only parsing).

Class DeflateOps := {
  Deflate : list Byte.byte → list Byte.byte;
  Inflate : list Byte.byte → exn + list Byte.byte;
}.

Class DeflateLaws `{DeflateOps} : Prop := {
  inflate_deflate : ∀ d, Inflate (Deflate d) = inr d;
}.

Section cas.
Context `{DeflateOps}.

(** [Compress] and [Payload]: the probe of the first 128 KiB decides whether
    the whole object is compressed, and the result is kept if it is
    shorter. *)
Definition Probe_Size : nat := 128 * EC_SL.

Definition payload_of (data : list Byte.byte) : bool * list Byte.byte :=
  let orig_len := length data in
  let probe_n := Nat.min orig_len Probe_Size in
  let probe := Deflate (take probe_n data) in
  let worth := (0 <? probe_n) && (length probe <? probe_n) in
  let comp := if negb worth then probe else if probe_n =? orig_len then probe else Deflate data in
  let compress := worth && (length comp <? orig_len) in
  (compress, if compress then comp else data).

Definition n_chunks (len : nat) : nat := (len + Chunk_Size - 1) / Chunk_Size.

Definition chunk (payload : list Byte.byte) (c : nat) : list Byte.byte :=
  take Chunk_Size (drop (c * Chunk_Size) payload).

(** The cipher text of chunk [c]. *)
Definition chunk_text (ek : Key_256) (nonce payload : list Byte.byte) (c : nat) : list Byte.byte :=
  XCrypt ek nonce (Counter_For c) (chunk payload c).

Definition manifest_bytes (p_len orig_len : nat) (compress : bool) (nonce : list Byte.byte)
    (digests : list Digest) : list Byte.byte :=
  be_bytes 8 (N.of_nat p_len) ++ be_bytes 8 (N.of_nat orig_len)
  ++ [if compress then "001"%byte else "000"%byte] ++ nonce ++ concat digests.

(** [Do_Chunk] *)
Definition do_chunk (ek : Key_256) (nonce payload : list Byte.byte) (c : nat) : Ada cas Digest :=
  let bytes := chunk_text ek nonce payload c in
  let cd := SHA256 bytes in
  _ ← update (λ s, {| objects := Store_Shards (To_Hex cd) bytes (objects s); manifests := manifests s |});
  mret cd.

(** [Write_File (Manifest_Path / "tag", ...)] *)
Definition write_tag (hex : string) (tag : list Byte.byte) (dirs : gmap string shard_dir) : gmap string shard_dir :=
  match dirs !! hex with
  | Some d => <[hex := {| sd_idx := sd_idx d; sd_shards := sd_shards d; sd_tag := Some tag |}]> dirs
  | None => dirs
  end.

Definition Put (key : Key_256) (data : list Byte.byte) : Ada cas Object_Id :=
  let '(compress, payload) := payload_of data in
  let ek := Subkey key Enc_Label in
  let mk := Subkey key Mac_Label in
  let nonce := Derive_Nonce ek payload in
  let n := n_chunks (length payload) in
  _ ← raise_when (Max_Manifest <? Hdr + n * 32) Object_Too_Large;
  digests ← ada_map (do_chunk ek nonce payload) (seq 0 n);
  let manifest := manifest_bytes (length payload) (length data) compress nonce digests in
  let md := SHA256 manifest in
  _ ← update (λ s, {| objects := objects s;
                      manifests := write_tag (To_Hex md) (Object_Tag mk md)
                                     (Store_Shards (To_Hex md) manifest (manifests s)) |});
  mret (To_Hex md).

(** ** Reading *)

Definition Get_U64 (from : list Byte.byte) (off : nat) : N :=
  foldl (λ v b, N.lor (N.shiftl v 8) (Byte.to_N b)) 0%N (take 8 (drop off from)).

(** The digest of chunk [c] in a manifest. *)
Definition manifest_digest (mb : list Byte.byte) (c : nat) : Digest := take 32 (drop (Hdr + c * 32) mb).

Definition read_dir (dirs : gmap string shard_dir) (hex : string) : exn + list Byte.byte :=
  match dirs !! hex with
  | Some d => Read_Shards d
  | None => inl Name_Error
  end.

(** One round of the chunk loop: read, check, decrypt. *)
Definition load_chunk (s : cas) (ek : Key_256) (mb : list Byte.byte) (c : nat) : exn + list Byte.byte :=
  match read_dir (objects s) (To_Hex (manifest_digest mb c)) with
  | inl e => inl e
  | inr bytes =>
      if bool_decide (SHA256 bytes = manifest_digest mb c)
      then inr (XCrypt ek (take 12 (drop Nonce_Off mb)) (Counter_For c) bytes)
      else inl Corruption_Detected
  end.

Fixpoint load_chunks (s : cas) (ek : Key_256) (mb : list Byte.byte) (cs : list nat) : exn + list Byte.byte :=
  match cs with
  | [] => inr []
  | c :: cs =>
      match load_chunk s ek mb c with
      | inl e => inl e
      | inr bytes =>
          match load_chunks s ek mb cs with
          | inl e => inl e
          | inr rest => inr (bytes ++ rest)
          end
      end
  end.

(** [Load (..., Reassemble => True)].  A manifest whose chunks do not add up
    to its length, which [Put] never writes, is refused here. *)
Definition Get (s : cas) (key : Key_256) (id : Object_Id) : exn + list Byte.byte :=
  match read_dir (manifests s) id with
  | inl e => inl e
  | inr mb =>
      let md := SHA256 mb in
      let ek := Subkey key Enc_Label in
      let mk := Subkey key Mac_Label in
      if negb (bool_decide (To_Hex md = id)) then inl Corruption_Detected
      else if negb (bool_decide ((manifests s !! id ≫= sd_tag) = Some (Object_Tag mk md))) then inl Auth_Failed
      else
        let p_len := N.to_nat (Get_U64 mb 0) in
        let n := n_chunks p_len in
        if length mb <? Hdr + n * 32 then inl Constraint_Error
        else match load_chunks s ek mb (seq 0 n) with
             | inl e => inl e
             | inr payload =>
                 if negb (length payload =? p_len) then inl Constraint_Error
                 else if bool_decide (nth 16 mb "000"%byte = "001"%byte) then Inflate payload
                 else inr payload
             end
  end.

(** ** Scrubbing *)

Definition repair_dir (hex : string) (dirs : gmap string shard_dir) : exn + (gmap string shard_dir * nat * bool) :=
  match dirs !! hex with
  | None => inl Name_Error
  | Some d =>
      match Repair_Shards d with
      | inl e => inl e
      | inr (d', n, ok) => inr (<[hex := d']> dirs, n, ok)
      end
  end.

(** The chunk loop of [Repair]: the store, [Shards_Repaired] and
    [Recoverable]; an exception ends it with [Recoverable] false. *)
Fixpoint repair_chunks (mb : list Byte.byte) (cs : list nat) (s : cas) (n : nat) (ok : bool) : cas * nat * bool :=
  match cs with
  | [] => (s, n, ok)
  | c :: cs =>
      if length mb <? Hdr + c * 32 + 32 then (s, n, false)
      else match repair_dir (To_Hex (manifest_digest mb c)) (objects s) with
           | inl _ => (s, n, false)
           | inr (objs, r, ok1) =>
               repair_chunks mb cs {| objects := objs; manifests := manifests s |} (n + r) (ok && ok1)
           end
  end.

Definition Repair (id : Object_Id) (s : cas) : cas * nat * bool :=
  match repair_dir id (manifests s) with
  | inl _ => (s, 0, false)
  | inr (ms, r, ok) =>
      let s := {| objects := objects s; manifests := ms |} in
      if negb ok then (s, r, false)
      else match read_dir ms id with
           | inl _ => (s, r, false)
           | inr mb =>
               if length mb <? 8 then (s, r, false)
               else repair_chunks mb (seq 0 (n_chunks (N.to_nat (Get_U64 mb 0)))) s r true
           end
  end.

(** ** Garbage collection *)

(** The chunks a manifest refers to, as far as its bytes go. *)
Definition chunk_refs (mb : list Byte.byte) : list string :=
  if length mb <? 8 then []
  else map (λ c, To_Hex (manifest_digest mb c))
         (filter (λ c, Hdr + c * 32 + 32 ≤ length mb) (seq 0 (n_chunks (N.to_nat (Get_U64 mb 0))))).

Definition reach_chunks (s : cas) (live : list Object_Id) : list string :=
  id ← live;
  match read_dir (manifests s) id with
  | inl _ => []
  | inr mb => chunk_refs mb
  end.

(** The store without what is not reachable from a live id, and how many
    directories were removed. *)
Definition Collect_Garbage (live : list Object_Id) (s : cas) : cas * nat :=
  let chunks := reach_chunks s live in
  let ms := filter (λ p, p.1 ∈ live) (manifests s) in
  let objs := filter (λ p, p.1 ∈ chunks) (objects s) in
  ({| objects := objs; manifests := ms |},
   (size (manifests s) - size ms) + (size (objects s) - size objs)).

(** ** What is stored for an object *)

#[local] Opaque SHA256 HMAC_SHA256 XCrypt EC_SL Encode Reconstruct.

Definition enc_payload (d : list Byte.byte) : list Byte.byte := (payload_of d).2.
Definition enc_nonce (key : Key_256) (d : list Byte.byte) : list Byte.byte :=
  Derive_Nonce (Subkey key Enc_Label) (enc_payload d).
Definition enc_chunks (d : list Byte.byte) : nat := n_chunks (length (enc_payload d)).

(** The cipher texts of the chunks of [d], and its manifest. *)
Definition enc_texts (key : Key_256) (d : list Byte.byte) : list (list Byte.byte) :=
  map (chunk_text (Subkey key Enc_Label) (enc_nonce key d) (enc_payload d)) (seq 0 (enc_chunks d)).
Definition enc_manifest (key : Key_256) (d : list Byte.byte) : list Byte.byte :=
  manifest_bytes (length (enc_payload d)) (length d) (payload_of d).1 (enc_nonce key d)
    (map SHA256 (enc_texts key d)).
Definition id_of (key : Key_256) (d : list Byte.byte) : Object_Id := To_Hex (SHA256 (enc_manifest key d)).
Definition tag_of (key : Key_256) (d : list Byte.byte) : Digest :=
  Object_Tag (Subkey key Mac_Label) (SHA256 (enc_manifest key d)).

(** The object is within the limit of a single manifest. *)
Definition fits (d : list Byte.byte) : Prop := Hdr + enc_chunks d * 32 ≤ Max_Manifest.

(** A directory holds a blob in the sense [P]. *)
Definition blob_at (P : shard_dir → list Byte.byte → Prop) (dirs : gmap string shard_dir) (b : list Byte.byte) : Prop :=
  ∃ sd, dirs !! To_Hex (SHA256 b) = Some sd ∧ P sd b.

(** Every blob of the object is there, each with enough intact shards. *)
Definition stored (P : shard_dir → list Byte.byte → Prop) (s : cas) (key : Key_256) (d : list Byte.byte) : Prop :=
  fits d ∧ Forall (blob_at P (objects s)) (enc_texts key d) ∧
  blob_at (λ sd b, P sd b ∧ sd_tag sd = Some (tag_of key d)) (manifests s) (enc_manifest key d).

Lemma enc_nonce_length key d : length (enc_nonce key d) = 12.
Proof. unfold enc_nonce, Derive_Nonce. rewrite length_take. Transparent HMAC_SHA256. unfold HMAC_SHA256. rewrite SHA256_length. done. Qed.
#[local] Opaque HMAC_SHA256.

Lemma enc_texts_length key d : length (enc_texts key d) = enc_chunks d.
Proof. unfold enc_texts. by rewrite length_map, length_seq. Qed.

Lemma enc_manifest_length key d : length (enc_manifest key d) = Hdr + enc_chunks d * 32.
Proof.
  unfold enc_manifest, manifest_bytes. rewrite !length_app, !be_bytes_length, enc_nonce_length.
  rewrite concat_digest_length, enc_texts_length. unfold Hdr. simpl. lia.
Qed.

Lemma Counter_For_bound c : (Counter_For c < 2 ^ 32)%N.
Proof. unfold Counter_For, word. apply N.mod_lt. done. Qed.

Lemma chunk_length payload c : length (chunk payload c) ≤ Chunk_Size.
Proof. unfold chunk. rewrite length_take. lia. Qed.

Lemma text_small key d ct : ct ∈ enc_texts key d → small_blob ct.
Proof.
  unfold enc_texts. rewrite list_elem_of_fmap. intros (c & -> & _). unfold small_blob, chunk_text.
  rewrite XCrypt_length by apply Counter_For_bound. apply chunk_length.
Qed.

Lemma manifest_small key d : fits d → small_blob (enc_manifest key d).
Proof. intros Hf. unfold small_blob. rewrite enc_manifest_length. exact Hf. Qed.

(** ** Parts of a manifest *)

Lemma lor_shiftl_add a b : (b < 256)%N → N.lor (N.shiftl a 8) b = (a * 256 + b)%N.
Proof.
  intros Hb. assert (Hl : N.land (N.shiftl a 8) b = 0%N).
  { apply N.bits_inj_0. intros i. rewrite N.land_spec. destruct (N.ltb_spec i 8) as [Hi|Hi].
    - by rewrite N.shiftl_spec_low.
    - apply andb_false_iff. right. apply N.bits_above_log2.
      destruct (decide (b = 0%N)) as [->|]; [simpl; lia|].
      apply N.log2_lt_pow2; [lia|]. apply N.lt_le_trans with 256%N; [done|].
      change 256%N with (2 ^ 8)%N. apply N.pow_le_mono_r; lia. }
  rewrite <- N.lxor_lor by done. rewrite <- N.add_nocarry_lxor by done. by rewrite N.shiftl_mul_pow2.
Qed.

Lemma be_bytes_value n v a : (v < 256 ^ N.of_nat n)%N →
  foldl (λ v b, N.lor (N.shiftl v 8) (Byte.to_N b)) a (be_bytes n v) = (a * 256 ^ N.of_nat n + v)%N.
Proof.
  assert (G : ∀ n v a, foldl (λ v b, N.lor (N.shiftl v 8) (Byte.to_N b)) a (be_bytes n v)
    = (a * 256 ^ N.of_nat n + v `mod` 256 ^ N.of_nat n)%N).
  { clear n v a. induction n as [|n IH]; intros v a; [simpl; rewrite N.mod_1_r; lia|].
    cbn [be_bytes foldl]. rewrite IH, to_N_byte_of, lor_shiftl_add by (apply N.mod_lt; done).
    rewrite N.shiftr_div_pow2. replace (2 ^ (8 * N.of_nat n))%N with (256 ^ N.of_nat n)%N by (by rewrite N.pow_mul_r).
    rewrite Nat2N.inj_succ, N.pow_succ_r', (N.mul_comm 256 (256 ^ _)), N.Div0.mod_mul_r. lia. }
  intros Hv. by rewrite G, N.mod_small.
Qed.

Lemma payload_bound d : fits d → (N.of_nat (length (enc_payload d)) < 256 ^ 8)%N.
Proof.
  intros Hf. unfold fits, enc_chunks, n_chunks, Max_Manifest, Hdr in Hf.
  assert (E : EC_SL = 1024) by (vm_compute; reflexivity).
  assert (HC : Chunk_Size = 8 * 1024) by (unfold Chunk_Size; by rewrite E).
  rewrite HC, E in Hf.
  pose proof (Nat.div_mod (length (enc_payload d) + 8 * 1024 - 1) (8 * 1024)).
  pose proof (Nat.mod_upper_bound (length (enc_payload d) + 8 * 1024 - 1) (8 * 1024)).
  apply N.lt_trans with (2 ^ 21)%N; [|done]. change (2 ^ 21)%N with 2097152%N. lia.
Qed.

Lemma take_drop_app {A} n (l1 l2 l3 : list A) k : length l1 = n → length l2 = k →
  take k (drop n (l1 ++ l2 ++ l3)) = l2.
Proof.
  intros <- <-. rewrite drop_app_length. by rewrite take_app_length.
Qed.

Lemma manifest_p_len key d : fits d → Get_U64 (enc_manifest key d) 0 = N.of_nat (length (enc_payload d)).
Proof.
  intros Hf. unfold Get_U64, enc_manifest, manifest_bytes. rewrite drop_0, take_app_length' by (symmetry; apply be_bytes_length).
  rewrite be_bytes_value by by apply payload_bound. lia.
Qed.

Lemma manifest_nonce key d : take 12 (drop Nonce_Off (enc_manifest key d)) = enc_nonce key d.
Proof.
  unfold enc_manifest, manifest_bytes. rewrite 2!app_assoc. apply take_drop_app; [|apply enc_nonce_length].
  rewrite !length_app, !be_bytes_length. done.
Qed.

Lemma manifest_flag key d :
  bool_decide (nth 16 (enc_manifest key d) "000"%byte = "001"%byte) = (payload_of d).1.
Proof.
  unfold enc_manifest, manifest_bytes. rewrite app_assoc, app_nth2 by (rewrite length_app, !be_bytes_length; lia).
  rewrite length_app, !be_bytes_length. replace (16 - (8 + 8)) with 0 by lia. cbn [nth app].
  by destruct (payload_of d) as [[] ?]; cbn [fst]; [rewrite bool_decide_true|rewrite bool_decide_false].
Qed.

Lemma digest_of_concat (f : nat → list Byte.byte) n : ∀ i c, c < n →
  take 32 (drop (c * 32) (concat (map SHA256 (map f (seq i n))))) = SHA256 (f (i + c)).
Proof.
  induction n as [|n IH]; intros i c Hc; [lia|]. cbn [seq map concat]. destruct c as [|c].
  - rewrite drop_0, take_app_le by (rewrite SHA256_length; lia).
    rewrite take_ge by (rewrite SHA256_length; lia). by rewrite Nat.add_0_r.
  - rewrite drop_app_ge by (rewrite SHA256_length; lia). rewrite SHA256_length.
    replace (S c * 32 - 32) with (c * 32) by lia. rewrite (IH (S i)) by lia. do 2 f_equal. lia.
Qed.

Lemma manifest_digest_spec key d c : c < enc_chunks d →
  manifest_digest (enc_manifest key d) c
  = SHA256 (chunk_text (Subkey key Enc_Label) (enc_nonce key d) (enc_payload d) c).
Proof.
  intros Hc. unfold manifest_digest, enc_manifest, manifest_bytes. rewrite !app_assoc.
  rewrite drop_app_ge by (rewrite !length_app, !be_bytes_length, enc_nonce_length; unfold Hdr; simpl; lia).
  rewrite !length_app, !be_bytes_length, enc_nonce_length.
  replace (Hdr + c * 32 - (8 + 8 + length [if (payload_of d).1 then "001"%byte else "000"%byte] + 12))
    with (c * 32) by (unfold Hdr; simpl; lia).
  unfold enc_texts. by rewrite digest_of_concat.
Qed.

Lemma concat_chunks payload : concat (map (chunk payload) (seq 0 (n_chunks (length payload)))) = payload.
Proof.
  assert (G : ∀ n i, concat (map (chunk payload) (seq i n)) = take (n * Chunk_Size) (drop (i * Chunk_Size) payload)).
  { induction n as [|n IH]; intros i; [done|]. cbn [seq map concat]. rewrite IH. unfold chunk.
    replace (S i * Chunk_Size) with (i * Chunk_Size + Chunk_Size) by lia. rewrite <- drop_drop.
    generalize (drop (i * Chunk_Size) payload) as l. intros l.
    rewrite <- (take_drop Chunk_Size l) at 3. replace (S n * Chunk_Size) with (Chunk_Size + n * Chunk_Size) by lia.
    destruct (decide (length l ≤ Chunk_Size)) as [Hle|Hgt].
    - rewrite !(drop_ge l) by done. rewrite take_nil, !app_nil_r.
      rewrite (take_ge (take _ _)); [done|]. rewrite length_take. lia.
    - rewrite take_app. rewrite length_take_le by lia. rewrite (take_ge (take _ _)) by (rewrite length_take_le; lia).
      do 2 f_equal. lia. }
  rewrite G, drop_0. apply take_ge. unfold n_chunks.
  assert (HC : 0 < Chunk_Size) by (unfold Chunk_Size; pose proof EC_SL_pos; lia).
  pose proof (Nat.div_mod (length payload + Chunk_Size - 1) Chunk_Size).
  pose proof (Nat.mod_upper_bound (length payload + Chunk_Size - 1) Chunk_Size). nia.
Qed.

(** ** Get returns what is stored *)

Lemma load_chunks_spec s key d cs : Forall (blob_at holds_blob (objects s)) (enc_texts key d) →
  (∀ c, c ∈ cs → c < enc_chunks d) →
  load_chunks s (Subkey key Enc_Label) (enc_manifest key d) cs = inr (concat (map (chunk (enc_payload d)) cs)).
Proof.
  intros HT. induction cs as [|c cs IH]; intros Hcs; [done|]. cbn [load_chunks map concat].
  assert (Hc : c < enc_chunks d) by (apply Hcs; left).
  set (ct := chunk_text (Subkey key Enc_Label) (enc_nonce key d) (enc_payload d) c).
  assert (Hin : ct ∈ enc_texts key d).
  { unfold enc_texts. apply list_elem_of_fmap. exists c. split; [done|]. apply elem_of_seq. lia. }
  destruct (proj1 (Forall_forall _ _) HT ct Hin) as (sd & Hsd & Hh).
  unfold load_chunk. rewrite manifest_digest_spec by done. fold ct. unfold read_dir. rewrite Hsd.
  rewrite (Read_Shards_spec sd ct) by eauto using text_small. rewrite bool_decide_true by done.
  rewrite manifest_nonce. unfold ct, chunk_text. rewrite XCrypt_involutive by apply Counter_For_bound.
  rewrite IH by (intros; apply Hcs; by right). done.
Qed.

Context {DL : DeflateLaws}.

Lemma Get_stored s key d : stored holds_blob s key d → Get s key (id_of key d) = inr d.
Proof.
  intros (Hf & HT & (sd & Hsd & Hh & Htag)). unfold Get, read_dir. unfold id_of in *. rewrite Hsd.
  rewrite (Read_Shards_spec sd (enc_manifest key d)) by eauto using manifest_small.
  rewrite bool_decide_true by done. cbn [negb]. change (Some sd ≫= sd_tag) with (sd_tag sd). rewrite Htag.
  rewrite bool_decide_true by done. cbn [negb].
  rewrite manifest_p_len, Nat2N.id by done. fold (enc_chunks d).
  rewrite enc_manifest_length, Nat.ltb_irrefl.
  rewrite load_chunks_spec by (try done; intros c Hc; apply elem_of_seq in Hc; lia).
  unfold enc_chunks. rewrite concat_chunks, Nat.eqb_refl. cbn [negb]. rewrite manifest_flag.
  unfold enc_payload, payload_of. cbn [fst snd].
  match goal with |- context [if ?b then Inflate _ else _] => destruct b eqn:Eb end; [|done].
  apply andb_true_iff in Eb as [Ew _]. rewrite Ew. cbn [negb].
  case_match eqn:Ep; [|apply inflate_deflate].
  apply Nat.eqb_eq in Ep. rewrite Ep, firstn_all. apply inflate_deflate.
Qed.

(** ** Put stores every blob *)

Lemma To_Hex_inj d d' : length d = 32 → length d' = 32 → To_Hex d = To_Hex d' → d = d'.
Proof.
  intros H1 H2 E. apply (f_equal From_Hex) in E. rewrite !From_Hex_To_Hex in E by done. by injection E.
Qed.

Lemma To_Hex_SHA_inj a b : To_Hex (SHA256 a) = To_Hex (SHA256 b) → SHA256 a = SHA256 b.
Proof. apply To_Hex_inj; apply SHA256_length. Qed.

(** The chunk loop of [Put] on the objects directory. *)
Definition store_all (cts : list (list Byte.byte)) (dirs : gmap string shard_dir) : gmap string shard_dir :=
  foldl (λ dirs ct, Store_Shards (To_Hex (SHA256 ct)) ct dirs) dirs cts.

Lemma Put_chunks ek nonce payload cs : ∀ s,
  ada_map (do_chunk ek nonce payload) cs s
  = (inr (map SHA256 (map (chunk_text ek nonce payload) cs)),
     {| objects := store_all (map (chunk_text ek nonce payload) cs) (objects s); manifests := manifests s |}).
Proof.
  induction cs as [|c cs IH]; intros s; [by destruct s|]. cbn [ada_map].
  rewrite (ada_bind_inr_l _ _ _ (SHA256 (chunk_text ek nonce payload c))
    {| objects := Store_Shards (To_Hex (SHA256 (chunk_text ek nonce payload c))) (chunk_text ek nonce payload c) (objects s);
       manifests := manifests s |}) by done.
  rewrite (ada_bind_inr_l _ _ _ _ _ (IH _)). done.
Qed.

Lemma Put_spec key d s :
  Put key d s =
    if Max_Manifest <? Hdr + enc_chunks d * 32 then (inl Object_Too_Large, s)
    else (inr (id_of key d),
      {| objects := store_all (enc_texts key d) (objects s);
         manifests := write_tag (id_of key d) (tag_of key d)
           (Store_Shards (id_of key d) (enc_manifest key d) (manifests s)) |}).
Proof.
  unfold Put, id_of, tag_of, enc_manifest, enc_texts, enc_chunks, enc_nonce, enc_payload.
  destruct (payload_of d) as [cmp payload]. cbn [fst snd].
  destruct (Max_Manifest <? _); [done|].
  rewrite (ada_bind_inr_l _ _ s () s) by done.
  rewrite (ada_bind_inr_l _ _ _ _ _ (Put_chunks _ _ _ _ _)). done.
Qed.

Section holding.
(** What it means for a directory to hold a blob: some ([holds_blob]) or all
    ([full_blob]) of its files are as they were written. *)
Context (P : shard_dir → list Byte.byte → Prop).
Hypothesis P_new : ∀ b, P (new_dir b) b.
Hypothesis P_tag : ∀ sd b t, P sd b → P {| sd_idx := sd_idx sd; sd_shards := sd_shards sd; sd_tag := t |} b.

(** No directory that a [Put] of [d] would reuse holds anything else, and no
    two chunks of [d] share a digest by accident. *)
Definition clean (s : cas) (key : Key_256) (d : list Byte.byte) : Prop :=
  (∀ a b, a ∈ enc_texts key d → b ∈ enc_texts key d → SHA256 a = SHA256 b → a = b) ∧
  Forall (λ ct, objects s !! To_Hex (SHA256 ct) = None ∨ blob_at P (objects s) ct) (enc_texts key d) ∧
  (manifests s !! id_of key d = None ∨ blob_at P (manifests s) (enc_manifest key d)).

Lemma Store_Shards_keeps hex b dirs k sd : dirs !! k = Some sd → Store_Shards hex b dirs !! k = Some sd.
Proof.
  intros E. unfold Store_Shards. destruct (dirs !! hex) eqn:Eh; [done|].
  rewrite lookup_insert_ne; [done|]. intros ->. congruence.
Qed.

Lemma store_all_keeps cts : ∀ dirs k sd, dirs !! k = Some sd → store_all cts dirs !! k = Some sd.
Proof. induction cts as [|ct cts IH]; intros dirs k sd E; [done|]. by apply IH, Store_Shards_keeps. Qed.

Lemma Store_Shards_has b dirs :
  dirs !! To_Hex (SHA256 b) = None ∨ blob_at P dirs b → blob_at P (Store_Shards (To_Hex (SHA256 b)) b dirs) b.
Proof.
  intros [E|(sd & E & HP)]; unfold Store_Shards; rewrite E.
  - exists (new_dir b). by rewrite lookup_insert_eq.
  - by exists sd.
Qed.

Lemma store_all_has cts : ∀ dirs,
  (∀ a b, a ∈ cts → b ∈ cts → SHA256 a = SHA256 b → a = b) →
  Forall (λ ct, dirs !! To_Hex (SHA256 ct) = None ∨ blob_at P dirs ct) cts →
  Forall (blob_at P (store_all cts dirs)) cts.
Proof.
  induction cts as [|ct cts IH]; intros dirs Hinj Hcl; [done|].
  apply Forall_cons in Hcl as [Hct Hcts].
  pose proof (Store_Shards_has ct dirs Hct) as Hhas.
  change (store_all (ct :: cts) dirs) with (store_all cts (Store_Shards (To_Hex (SHA256 ct)) ct dirs)).
  constructor.
  - destruct Hhas as (sd & E & HP). exists sd. split; [|done]. by apply store_all_keeps.
  - apply IH; [intros a b ? ?; apply Hinj; by right|].
    apply Forall_forall. intros x Hx. apply (proj1 (Forall_forall _ _) Hcts) in Hx as Hd.
    destruct (decide (SHA256 x = SHA256 ct)) as [E|Hne].
    + right. rewrite (Hinj x ct); [exact Hhas|by right|by left|exact E].
    + destruct Hd as [Hd|(sd & Hd & HP)].
      * left. unfold Store_Shards. destruct (dirs !! To_Hex (SHA256 ct)); [done|].
        rewrite lookup_insert_ne; [done|]. intros E. by apply To_Hex_SHA_inj in E.
      * right. exists sd. split; [by apply Store_Shards_keeps|done].
Qed.

Lemma write_tag_lookup hex t dirs k : write_tag hex t dirs !! k =
  if decide (k = hex) then (λ sd, {| sd_idx := sd_idx sd; sd_shards := sd_shards sd; sd_tag := Some t |}) <$> dirs !! k
  else dirs !! k.
Proof.
  unfold write_tag. destruct (decide (k = hex)) as [->|Hne].
  - destruct (dirs !! hex) as [sd|] eqn:E; simpl; [by rewrite lookup_insert_eq|done].
  - destruct (dirs !! hex); [by rewrite lookup_insert_ne|done].
Qed.

Lemma Put_stored key d s : fits d → clean s key d →
  Put key d s = (inr (id_of key d), (Put key d s).2) ∧ stored P (Put key d s).2 key d.
Proof.
  intros Hf (Hinj & Hcts & Hm). rewrite Put_spec.
  rewrite (proj2 (Nat.ltb_ge _ _)) by exact Hf. split; [done|]. split_and!; [done| |].
  - by apply store_all_has.
  - cbn [snd manifests]. destruct (Store_Shards_has (enc_manifest key d) (manifests s) Hm) as (sd & E & HP).
    fold (id_of key d) in E. eexists. split.
    + fold (id_of key d). rewrite write_tag_lookup, decide_True by done. rewrite E. done.
    + split; [by apply P_tag|done].
Qed.

(** A [Put] under the same key loses nothing that was stored before. *)
Lemma Put_keeps key d s d0 : stored P s key d0 → stored P (Put key d s).2 key d0.
Proof.
  intros (Hf & HT & (sd & E & HP & Ht)). rewrite Put_spec. destruct (Max_Manifest <? _); [by split_and!; eauto; exists sd|].
  split_and!; [done| |].
  - cbn [snd objects]. eapply Forall_impl; [exact HT|]. intros ct (sd' & E' & HP').
    exists sd'. split; [by apply store_all_keeps|done].
  - cbn [snd manifests]. unfold blob_at. rewrite write_tag_lookup, (Store_Shards_keeps _ _ _ _ _ E).
    destruct (decide (To_Hex (SHA256 (enc_manifest key d0)) = id_of key d)) as [Eid|Hne]; simpl; [|by exists sd].
    eexists. split; [done|]. split; [by apply P_tag|]. cbn [sd_tag]. unfold tag_of. unfold id_of in Eid.
    apply To_Hex_SHA_inj in Eid. by rewrite Eid.
Qed.
End holding.

Lemma full_tag sd b t : full_blob sd b → full_blob {| sd_idx := sd_idx sd; sd_shards := sd_shards sd; sd_tag := t |} b.
Proof. done. Qed.

Lemma holds_tag sd b t : holds_blob sd b → holds_blob {| sd_idx := sd_idx sd; sd_shards := sd_shards sd; sd_tag := t |} b.
Proof. intros [? ? ?]. by split. Qed.

Lemma new_dir_holds b : holds_blob (new_dir b) b.
Proof. apply full_holds, new_dir_full. Qed.

End cas.
