(* ===== verification/Keys.v ===== *)
(** The key of the vault (src/auth/src/dezhan-kdf.adb,
    src/auth/src/dezhan-keystore.adb, and [KEK_From], [Write_Keystore] and
    [Load_Or_Init_Key] of src/server/src/dezhan_server.adb).

    Data are encrypted under a random key, which the file vault.key holds
    wrapped under a key derived from the operator's passphrase.  [key_persists]:
    over any number of starts and changes of the passphrase the server gets the
    same key; [wrong_passphrase_exits]: with another passphrase it exits, unless
    the MAC of the wrapped key comes out the same.  /dev/urandom is a parameter. *)
From Stdlib Require Import Strings.Byte NArith.
From S2P Require Import Prelude AdaMonad Gf256 Sha256 Cipher GoStrings AdaText Cas.
Close Scope gf_scope.
Close Scope N_scope.
Open Scope nat_scope.

(** A function that may raise, without a state. *)
#[export] Instance exn_ret : MRet (sum exn) := λ A a, inr a.
#[export] Instance exn_bind : MBind (sum exn) := λ A B f m, match m with inl e => inl e | inr a => f a end.

(** The preconditions of the hash and of the MAC are checked at run time. *)
Definition Max_Key : nat := 256.
Definition checked_SHA256 (msg : list Byte.byte) : exn + Digest :=
  if (N.of_nat (length msg) <=? Max_Message)%N then inr (SHA256 msg) else inl Constraint_Error.
Definition checked_HMAC (key msg : list Byte.byte) : exn + Digest :=
  if (length key <=? Max_Key) && (N.of_nat (length msg) <=? Max_Message - 64)%N
  then inr (HMAC_SHA256 key msg) else inl Constraint_Error.

(** ** PBKDF2 *)

Definition xor_bytes (a b : list Byte.byte) : list Byte.byte := zip_with bxor a b.

(** [for J in 2 .. Iterations loop] *)
Fixpoint pbkdf2_loop (n : nat) (password u t : Digest) : Digest :=
  match n with
  | O => t
  | S n => let u := HMAC_SHA256 password u in pbkdf2_loop n password u (xor_bytes t u)
  end.

Definition PBKDF2_HMAC_SHA256 (password salt : list Byte.byte) (iterations : nat) : Digest :=
  let u := HMAC_SHA256 password (salt ++ ["000"; "000"; "000"; "001"])%byte in
  pbkdf2_loop (iterations - 1) password u u.

Example pbkdf2_vectors :
  hex (PBKDF2_HMAC_SHA256 (String.list_byte_of_string "password") (String.list_byte_of_string "salt") 1)
  = 0x120fb6cffcf8b32c43e7225256c4f837a86548c92ccc35480805987cb70be17b%N ∧
  hex (PBKDF2_HMAC_SHA256 (String.list_byte_of_string "password") (String.list_byte_of_string "salt") 2)
  = 0xae4d0c95af6b46d32d0adff928f06dd02a303f8ef3c251dfd6e2d85a95474c43%N.
Proof. vm_compute. split; reflexivity. Qed.

(** ** Key wrapping *)

Record Wrapped_Key := { Nonce : list Byte.byte; Cipher : list Byte.byte; Tag : Digest }.

Definition Wrap_Enc_Label : string := "dezhan/wrap/enc".
Definition Wrap_Mac_Label : string := "dezhan/wrap/mac".

Definition Wrap_Tag (mk nonce c : list Byte.byte) : Digest := HMAC_SHA256 mk (nonce ++ c).

Definition Wrap (kek nonce dek : list Byte.byte) : Wrapped_Key :=
  let ek := Subkey kek Wrap_Enc_Label in
  let mk := Subkey kek Wrap_Mac_Label in
  let c := XCrypt ek nonce 0 dek in
  {| Nonce := nonce; Cipher := c; Tag := Wrap_Tag mk nonce c |}.

Definition Unwrap (kek : list Byte.byte) (w : Wrapped_Key) : list Byte.byte * bool :=
  let ek := Subkey kek Wrap_Enc_Label in
  let mk := Subkey kek Wrap_Mac_Label in
  let expect := Wrap_Tag mk (Nonce w) (Cipher w) in
  if bool_decide (expect = Tag w) then (XCrypt ek (Nonce w) 0 (Cipher w), true)
  else (replicate 32 "000"%byte, false).

(** ** The key file *)

(** [KEK_From]; the passphrase is hashed first. *)
Definition KEK_From (pass : string) (salt : list Byte.byte) (iters : nat) : exn + list Byte.byte :=
  pw ← checked_SHA256 (String.list_byte_of_string pass);
  inr (PBKDF2_HMAC_SHA256 pw salt iters).

(** The 96 bytes [Write_Keystore] writes. *)
Definition keystore_bytes (salt : list Byte.byte) (iters : nat) (w : Wrapped_Key) : list Byte.byte :=
  salt ++ be_bytes 4 (N.of_nat iters) ++ Nonce w ++ Cipher w ++ Tag w.

Definition Positive_Last : N := 2 ^ 31 - 1.

(** How [Load_Or_Init_Key] ends: with the key, by ending the process, or by an
    exception. *)
Inductive loaded := Loaded (dek : list Byte.byte) | OS_Exit | Raised (e : exn).

(** The [k]-th read of /dev/urandom. *)
Class Urandom := { Random_Bytes : nat → nat → list Byte.byte }.
Class UrandomLaws `{Urandom} : Prop := { random_length : ∀ k n, length (Random_Bytes k n) = n }.

Section keystore.
Context `{Urandom} `{Memory} (KDF_Iters : nat).

(** Wraps [dek] under a fresh salt and nonce: the new content of vault.key. *)
Definition rewrap (k : nat) (pass : string) (dek : list Byte.byte) : exn + list Byte.byte :=
  let salt := Random_Bytes k 16 in
  let nonce := Random_Bytes (k + 1) 12 in
  kek ← KEK_From pass salt KDF_Iters;
  inr (keystore_bytes salt KDF_Iters (Wrap kek nonce dek)).

(** The buffer after reading the file: what a short file leaves is whatever was
    there. *)
Definition key_buffer (file : list Byte.byte) : list Byte.byte :=
  take 96 file ++ map uninitialized (seq (length file) (96 - length file)).

Definition parse_key (file : list Byte.byte) : list Byte.byte * N * Wrapped_Key :=
  let buf := key_buffer file in
  let iters := foldl (λ v b, N.lor (word (N.shiftl v 8)) (Byte.to_N b)) 0%N (take 4 (drop 16 buf)) in
  (take 16 buf, iters,
   {| Nonce := take 12 (drop 20 buf); Cipher := take 32 (drop 32 buf); Tag := take 32 (drop 64 buf) |}).

(** [Load_Or_Init_Key] on the content of vault.key, if there is such a file;
    [new_pass] is the value of DEZHAN_NEW_VAULT_KEY. *)
Definition Load_Or_Init_Key (k : nat) (pass : string) (new_pass : option string)
    (file : option (list Byte.byte)) : loaded * option (list Byte.byte) :=
  match file with
  | Some f =>
      let '(salt, iters, w) := parse_key f in
      if ((1 <=? iters) && (iters <=? Positive_Last))%N then
        match KEK_From pass salt (N.to_nat iters) with
        | inl e => (Raised e, file)
        | inr kek =>
            let '(dek, ok) := Unwrap kek w in
            if negb ok then (OS_Exit, file)
            else match new_pass with
                 | None => (Loaded dek, file)
                 | Some p => match rewrap k p dek with
                             | inl e => (Raised e, file)
                             | inr f' => (Loaded dek, Some f')
                             end
                 end
        end
      else (Raised Constraint_Error, file)
  | None =>
      let dek := Random_Bytes k 32 in
      match rewrap (k + 1) pass dek with
      | inl e => (Raised e, None)
      | inr f' => (Loaded dek, Some f')
      end
  end.

End keystore.

(** ** PBKDF2 is the function of RFC 8018 *)

Definition pbkdf2_U (password salt : list Byte.byte) (j : nat) : Digest :=
  Nat.iter j (HMAC_SHA256 password) (HMAC_SHA256 password (salt ++ ["000"; "000"; "000"; "001"])%byte).

Lemma pbkdf2_loop_spec password salt n : ∀ j t,
  pbkdf2_loop n password (pbkdf2_U password salt j) t
  = foldl xor_bytes t (map (pbkdf2_U password salt) (seq (S j) n)).
Proof.
  induction n as [|n IH]; intros j t; [done|]. cbn [pbkdf2_loop seq map foldl].
  change (HMAC_SHA256 password (pbkdf2_U password salt j)) with (pbkdf2_U password salt (S j)). apply IH.
Qed.

(** The derived key is the exclusive or of the first [iterations] iterates of
    the MAC. *)
Theorem pbkdf2_is_rfc8018 password salt iterations : 1 ≤ iterations →
  PBKDF2_HMAC_SHA256 password salt iterations
  = foldl xor_bytes (pbkdf2_U password salt 0) (map (pbkdf2_U password salt) (seq 1 (iterations - 1))).
Proof. intros Hi. exact (pbkdf2_loop_spec password salt (iterations - 1) 0 _). Qed.

(** ** Wrapping *)

Lemma HMAC_length key msg : length (HMAC_SHA256 key msg) = 32.
Proof. unfold HMAC_SHA256. apply SHA256_length. Qed.

#[local] Opaque SHA256 HMAC_SHA256 XCrypt PBKDF2_HMAC_SHA256.

Lemma Unwrap_Wrap kek nonce dek : Unwrap kek (Wrap kek nonce dek) = (dek, true).
Proof. unfold Unwrap, Wrap. simpl. rewrite bool_decide_true by done. by rewrite XCrypt_involutive. Qed.

(** ** The key file is read back *)

Section keystore_proofs.
Context `{Urandom} {UL : UrandomLaws} `{Memory} (KDF_Iters : nat) (Hiters : (1 <= N.of_nat KDF_Iters <= Positive_Last)%N).

Lemma word_fold l : ∀ a, ((a + 1) * 256 ^ N.of_nat (length l) <= 2 ^ 32)%N →
  foldl (λ v b, N.lor (word (N.shiftl v 8)) (Byte.to_N b)) a l
  = foldl (λ v b, N.lor (N.shiftl v 8) (Byte.to_N b)) a l.
Proof.
  induction l as [|b l IH]; intros a Ha; [done|]. cbn [foldl length] in *.
  rewrite Nat2N.inj_succ, N.pow_succ_r' in Ha. pose proof (Byte.to_N_bounded b).
  assert (0 < 256 ^ N.of_nat (length l))%N by (apply N.neq_0_lt_0, N.pow_nonzero; lia).
  unfold word at 2. rewrite N.mod_small by (rewrite N.shiftl_mul_pow2; change (2 ^ 8)%N with 256%N; nia).
  apply IH. rewrite lor_shiftl_add by lia. nia.
Qed.

Lemma be_bytes_word v : (v < 2 ^ 32)%N →
  foldl (λ v b, N.lor (word (N.shiftl v 8)) (Byte.to_N b)) 0%N (be_bytes 4 v) = v.
Proof. intros Hv. rewrite word_fold by (by rewrite be_bytes_length). by rewrite be_bytes_value. Qed.

(** [file] holds [dek], wrapped under [pass]. *)
Definition holds_key (file : list Byte.byte) (pass : string) (dek : list Byte.byte) : Prop :=
  length dek = 32 ∧ ∃ salt nonce kek, length salt = 16 ∧ length nonce = 12 ∧
    KEK_From pass salt KDF_Iters = inr kek ∧ file = keystore_bytes salt KDF_Iters (Wrap kek nonce dek).

Lemma Wrap_lengths kek nonce dek : length dek = 32 →
  length (Cipher (Wrap kek nonce dek)) = 32 ∧ length (Tag (Wrap kek nonce dek)) = 32.
Proof. intros Hd. simpl. unfold Wrap_Tag. by rewrite XCrypt_length, HMAC_length. Qed.

Lemma parse_keystore salt w : length salt = 16 → length (Nonce w) = 12 → length (Cipher w) = 32 → length (Tag w) = 32 →
  parse_key (keystore_bytes salt KDF_Iters w) = (salt, N.of_nat KDF_Iters, w).
Proof.
  intros Hs Hn Hc Ht. unfold parse_key.
  assert (key_buffer (keystore_bytes salt KDF_Iters w) = keystore_bytes salt KDF_Iters w) as ->.
  { assert (length (keystore_bytes salt KDF_Iters w) = 96) as Hl.
    { unfold keystore_bytes. rewrite !length_app, be_bytes_length. lia. }
    unfold key_buffer. rewrite Hl, take_ge by lia. apply app_nil_r. }
  unfold keystore_bytes.
  assert (∀ (l1 l2 l3 : list Byte.byte) n k, length l1 = n → length l2 = k → take k (drop n (l1 ++ l2 ++ l3)) = l2) as Hcut.
  { intros l1 l2 l3 n k <- <-. by rewrite drop_app_length, take_app_length. }
  pose proof (be_bytes_length 4 (N.of_nat KDF_Iters)) as Hb.
  f_equal; [f_equal|].
  - by rewrite take_app_length'.
  - rewrite (Hcut salt) by done. apply be_bytes_word. unfold Positive_Last in Hiters. lia.
  - destruct w as [nonce c t]. cbn [Nonce Cipher Tag] in *. f_equal.
    + rewrite app_assoc. apply Hcut; [rewrite length_app; lia|done].
    + rewrite !app_assoc, <- (app_assoc _ c t). apply Hcut; [rewrite !length_app; lia|done].
    + pose proof (Hcut (salt ++ be_bytes 4 (N.of_nat KDF_Iters) ++ nonce ++ c) t [] 64 32) as H64.
      rewrite app_nil_r, <- !app_assoc in H64. apply H64; [rewrite !length_app; lia|done].
Qed.

Lemma rewrap_holds k pass dek f : length dek = 32 → rewrap KDF_Iters k pass dek = inr f → holds_key f pass dek.
Proof.
  intros Hd. unfold rewrap, mbind, exn_bind. destruct (KEK_From _ _ _) as [e|kek] eqn:E; [done|]. intros [= <-].
  split; [done|]. eexists _, _, kek. split_and!; [apply random_length..|exact E|done].
Qed.

Lemma holds_load k file pass dek new_pass : holds_key file pass dek →
  Load_Or_Init_Key KDF_Iters k pass new_pass (Some file) =
  match new_pass with
  | None => (Loaded dek, Some file)
  | Some p => match rewrap KDF_Iters k p dek with inl e => (Raised e, Some file) | inr f' => (Loaded dek, Some f') end
  end.
Proof.
  intros (Hd & salt & nonce & kek & Hs & Hn & Hk & ->). unfold Load_Or_Init_Key.
  destruct (Wrap_lengths kek nonce dek Hd) as [Hc Ht]. rewrite parse_keystore by done.
  rewrite !(proj2 (N.leb_le _ _)) by apply Hiters. simpl andb. cbv iota. rewrite Nat2N.id, Hk, Unwrap_Wrap. done.
Qed.

Lemma load_init k pass r f : Load_Or_Init_Key KDF_Iters k pass None None = (Loaded r, Some f) → holds_key f pass r.
Proof.
  unfold Load_Or_Init_Key. destruct (rewrap _ _ _ _) as [e|f'] eqn:E; [done|]. intros [= <- <-].
  eapply rewrap_holds; [apply random_length|exact E].
Qed.

(** Starts one after the other, each with the passphrase that is current and
    perhaps a new one: what [Load_Or_Init_Key] gives each time. *)
Fixpoint restarts (pass : string) (file : option (list Byte.byte)) (l : list (option string)) (k : nat) : list loaded :=
  match l with
  | [] => []
  | new :: l =>
      let '(r, file') := Load_Or_Init_Key KDF_Iters k pass new file in
      r :: restarts (match r with Loaded _ => default pass new | _ => pass end) file' l (k + 3)
  end.

(** A passphrase the hash takes. *)
Definition pass_ok (p : string) : Prop := (N.of_nat (String.length p) <= Max_Message)%N.

Lemma KEK_From_ok pass salt iters : pass_ok pass →
  KEK_From pass salt iters = inr (PBKDF2_HMAC_SHA256 (SHA256 (String.list_byte_of_string pass)) salt iters).
Proof.
  intros Hp. unfold KEK_From, checked_SHA256, mbind, exn_bind. rewrite (proj2 (N.leb_le _ _)); [done|].
  replace (length (String.list_byte_of_string pass)) with (String.length pass); [done|].
  clear. induction pass as [|c p IH]; [done|]. simpl. by rewrite IH.
Qed.

Lemma rewrap_ok k pass dek : pass_ok pass → ∃ f, rewrap KDF_Iters k pass dek = inr f.
Proof. intros Hp. unfold rewrap. rewrite KEK_From_ok by done. by eexists. Qed.

Lemma restarts_keep l : ∀ pass file dek k, holds_key file pass dek → Forall (from_option pass_ok True) l →
  Forall (λ r, r = Loaded dek) (restarts pass (Some file) l k).
Proof.
  induction l as [|new l IH]; intros pass file dek k Hf Hl; [constructor|]. cbn [restarts].
  apply Forall_cons in Hl as [Hp Hl]. rewrite (holds_load _ _ _ _ _ Hf). destruct new as [p|].
  - destruct (rewrap_ok k p dek Hp) as [f' E]. rewrite E. constructor; [done|]. apply IH; [|done].
    eapply rewrap_holds; [apply Hf|exact E].
  - constructor; [done|]. by apply IH.
Qed.

(** C24: The first start draws a key at random and every later one, with the current
    passphrase and whether or not it is changed, gets the same key: data are
    never re-encrypted and never lost to a change of the passphrase. *)
Theorem key_persists (pass : string) (l : list (option string)) (k : nat)
  (Hpass : pass_ok pass) (Hl : Forall (from_option pass_ok True) l) :
  Forall (λ r, r = Loaded (Random_Bytes k 32)) (restarts pass None (None :: l) k).
Proof.
  cbn [restarts]. destruct (rewrap_ok (k + 1) pass (Random_Bytes k 32) Hpass) as [f E].
  assert (Load_Or_Init_Key KDF_Iters k pass None None = (Loaded (Random_Bytes k 32), Some f)) as EL.
  { unfold Load_Or_Init_Key. by rewrite E. }
  rewrite EL. constructor; [done|]. apply restarts_keep; [|done]. by eapply load_init.
Qed.

(** C34: With another passphrase the server exits and leaves the file as it is,
    exactly if the MAC of the wrapped key under the key that passphrase derives
    differs from the stored one: to get past it takes a passphrase that makes
    HMAC-SHA256 collide on the bytes of the file. *)
Theorem wrong_passphrase_exits (k : nat) (pass pass' : string) (new_pass : option string)
  (dek file : list Byte.byte) (Hfile : holds_key file pass dek) (Hpass : pass_ok pass') :
  ∃ salt kek kek' nonce c, KEK_From pass salt KDF_Iters = inr kek ∧ KEK_From pass' salt KDF_Iters = inr kek' ∧
    file = keystore_bytes salt KDF_Iters
             {| Nonce := nonce; Cipher := c; Tag := Wrap_Tag (Subkey kek Wrap_Mac_Label) nonce c |} ∧
    (Load_Or_Init_Key KDF_Iters k pass' new_pass (Some file) = (OS_Exit, Some file) ↔
     Wrap_Tag (Subkey kek' Wrap_Mac_Label) nonce c ≠ Wrap_Tag (Subkey kek Wrap_Mac_Label) nonce c).
Proof.
  destruct Hfile as (Hd & salt & nonce & kek & Hs & Hn & Hk & ->).
  exists salt, kek. eexists _, nonce, (Cipher (Wrap kek nonce dek)).
  split; [done|]. split; [by apply KEK_From_ok|]. split; [done|].
  destruct (Wrap_lengths kek nonce dek Hd) as [Hc Ht]. unfold Load_Or_Init_Key. rewrite parse_keystore by done.
  rewrite !(proj2 (N.leb_le _ _)) by apply Hiters. simpl andb. cbv iota. rewrite Nat2N.id, KEK_From_ok by done.
  unfold Unwrap. cbn [Nonce Cipher Tag Wrap]. case_bool_decide as E; [|done].
  split; [|done]. simpl negb. cbv iota. destruct new_pass as [p|]; [destruct (rewrap _ _ _ _)|]; done.
Qed.
End keystore_proofs.

(** ** A server that is started four times *)

Definition demo_random : Urandom := {| Random_Bytes k n := replicate n (Sha256.byte_of (N.of_nat k)) |}.
Definition demo_memory : Memory := {| uninitialized _ := "000"%byte |}.

Lemma demo_random_laws : @UrandomLaws demo_random.
Proof. split. intros k n. apply length_replicate. Qed.

(** The passphrase is changed at the third start. *)
Lemma key_persists_witness :
  Forall (λ r, r = Loaded (replicate 32 "000"%byte))
    (@restarts demo_random demo_memory 2 "old" None [None; None; Some "new"; None] 0).
Proof.
  apply (@key_persists demo_random demo_random_laws demo_memory 2 ltac:(split; discriminate) "old" [None; Some "new"; None] 0).
  - unfold pass_ok. discriminate.
  - repeat constructor. unfold pass_ok. discriminate.
Defined.

Definition demo_file : list Byte.byte :=
  match @rewrap demo_random 2 1 "old" (replicate 32 "000"%byte) with inr f => f | inl _ => [] end.

Lemma demo_file_holds : @holds_key 2 demo_file "old" (replicate 32 "000"%byte).
Proof.
  apply (@rewrap_holds demo_random demo_random_laws 2 1 "old" (replicate 32 "000"%byte) demo_file); [done|].
  unfold demo_file. destruct (@rewrap_ok demo_random 2 1 "old" (replicate 32 "000"%byte)) as [f ->]; [|done].
  unfold pass_ok. discriminate.
Qed.

Lemma wrong_passphrase_exits_witness :
  ∃ salt kek kek' nonce c, KEK_From "old" salt 2 = inr kek ∧ KEK_From "guess" salt 2 = inr kek' ∧
    demo_file = keystore_bytes salt 2
             {| Nonce := nonce; Cipher := c; Tag := Wrap_Tag (Subkey kek Wrap_Mac_Label) nonce c |} ∧
    (@Load_Or_Init_Key demo_random demo_memory 2 0 "guess" None (Some demo_file) = (OS_Exit, Some demo_file) ↔
     Wrap_Tag (Subkey kek' Wrap_Mac_Label) nonce c ≠ Wrap_Tag (Subkey kek Wrap_Mac_Label) nonce c).
Proof.
  apply (@wrong_passphrase_exits demo_random demo_memory 2 ltac:(split; discriminate) 0 "old" "guess" None
    (replicate 32 "000"%byte) demo_file).
  - exact demo_file_holds.
  - unfold pass_ok. discriminate.
Defined.
