(* ===== verification/Sigv4.v ===== *)
(** AWS Signature Version 4 (src/auth/src/dezhan-sigv4.adb): the canonical
    form of a query, the canonical request and its signature.

    [canonical_query_canonical]: the canonical query does not depend on the
    order of the parameters nor on how they are percent-encoded on the wire, and
    is its own canonical form.  [signature_binds]: two requests with the same
    signature under one key agree in every part that is signed, or SHA-256 or
    HMAC-SHA256 collide on them. *)
From Stdlib Require Import Strings.Byte NArith.
From S2P Require Import Prelude AdaMonad GoStrings GoText ServerText Sha256 AdaText Cas Keys.
Close Scope N_scope.
Open Scope nat_scope.

Definition to_bytes (s : string) : list Byte.byte := String.list_byte_of_string s.
Definition LF : string := String newline "".

Definition Hex_SHA256 (data : string) : exn + string := d ← checked_SHA256 (to_bytes data); inr (To_Hex d).

(** ** The canonical query *)

(** [Add]: the text of one parameter. *)
Definition query_part (token : string) : string :=
  match Index token "=" with
  | None => Uri_Encode (Uri_Decode token) +:+ "="
  | Some eq => Uri_Encode (Uri_Decode (str_take eq token)) +:+ "=" +:+ Uri_Encode (Uri_Decode (str_drop (eq + 1) token))
  end.

(** At most [Max] parameters are taken. *)
Definition Max_Params : nat := 64.
Definition query_tokens (raw : string) : list string :=
  take Max_Params (filter (λ t, t ≠ "") (split_byte "&" raw)).

(** [<] on strings *)
Definition str_ltb (s t : string) : bool := negb (String.leb t s).

(** One round of the sort for the place of [x]: whenever a later part is
    smaller, the two are exchanged. *)
Fixpoint exchange (x : string) (l : list string) : string * list string :=
  match l with
  | [] => (x, [])
  | y :: l => if str_ltb y x then let '(m, l') := exchange y l in (m, x :: l')
              else let '(m, l') := exchange x l in (m, y :: l')
  end.

Fixpoint exchange_sort (n : nat) (l : list string) : list string :=
  match n, l with
  | S n, x :: l => let '(m, l') := exchange x l in m :: exchange_sort n l'
  | _, _ => l
  end.

Definition Canonical_Query (raw : string) : string :=
  let parts := map query_part (query_tokens raw) in
  join_amp (exchange_sort (length parts) parts).

(** ** Signatures *)

(** [K_Signing] *)
Definition Signing_Key (secret date region service : string) : exn + Digest :=
  k_date ← checked_HMAC (to_bytes ("AWS4" +:+ secret)) (to_bytes date);
  k_region ← checked_HMAC k_date (to_bytes region);
  k_service ← checked_HMAC k_region (to_bytes service);
  checked_HMAC k_service (to_bytes "aws4_request").

Definition Signature (secret date region service string_to_sign : string) : exn + string :=
  k_signing ← Signing_Key secret date region service;
  d ← checked_HMAC k_signing (to_bytes string_to_sign);
  inr (To_Hex d).

(** The parts of a request that are signed. *)
Record signed_request := {
  sr_Method : string; sr_URI : string; sr_Query : string; sr_Headers : string;
  sr_Signed_Headers : string; sr_Payload_Hash : string; sr_Amz_Date : string;
}.

Definition Canonical_Request (r : signed_request) : string :=
  sr_Method r +:+ LF +:+ sr_URI r +:+ LF +:+ sr_Query r +:+ LF
  +:+ sr_Headers r +:+ LF +:+ sr_Signed_Headers r +:+ LF +:+ sr_Payload_Hash r.

Definition Scope (date region service : string) : string :=
  date +:+ "/" +:+ region +:+ "/" +:+ service +:+ "/aws4_request".

Definition String_To_Sign (r : signed_request) (scope : string) : exn + string :=
  h ← Hex_SHA256 (Canonical_Request r);
  inr ("AWS4-HMAC-SHA256" +:+ LF +:+ sr_Amz_Date r +:+ LF +:+ scope +:+ LF +:+ h).

Definition Signature_For (secret : string) (r : signed_request) (scope_date region service : string) : exn + string :=
  sts ← String_To_Sign r (Scope scope_date region service);
  Signature secret scope_date region service sts.

(** The examples of the package's tests. *)
Example signature_aws_example :
  Signature "wJalrXUtnFEMI/K7MDENG+bPxRfiCYEXAMPLEKEY" "20150830" "us-east-1" "iam"
    ("AWS4-HMAC-SHA256" +:+ LF +:+ "20150830T123600Z" +:+ LF +:+ "20150830/us-east-1/iam/aws4_request" +:+ LF
     +:+ "f536975d06c0309214f805bb90ccff089219ecd68b2577efef23edd43b7e1a59")
  = inr "5d672d79c15b13162d9279b0855cfba6789a8edb4c82c400e06b5924a6f2b5d7".
Proof. vm_compute. reflexivity. Qed.

Example canonical_query_examples :
  Canonical_Query "uploads" = "uploads=" ∧ Canonical_Query "uploadId=abc-1" = "uploadId=abc-1" ∧
  Canonical_Query "b=2&a=1" = "a=1&b=2" ∧ Canonical_Query "k=a b" = "k=a%20b" ∧
  Canonical_Query "prefix=a%2fb&&list-type=2" = "list-type=2&prefix=a%2Fb".
Proof. vm_compute. done. Qed.

(** ** The sort *)

Lemma str_ltb_le x y : str_ltb y x = false → String.le x y.
Proof. unfold str_ltb, String.le. intros H%negb_false_iff. by apply Is_true_true. Qed.

Lemma str_ltb_lt x y : str_ltb y x = true → String.le y x.
Proof.
  unfold str_ltb, String.le. intros H%negb_true_iff. apply Is_true_true.
  destruct (String.leb_total x y) as [E|E]; [congruence|done].
Qed.

Lemma exchange_spec l : ∀ x m l', exchange x l = (m, l') → m :: l' ≡ₚ x :: l ∧ Forall (String.le m) (x :: l).
Proof.
  induction l as [|y l IH]; intros x m l'; cbn [exchange].
  - intros [= <- <-]. split; [done|]. by repeat constructor.
  - destruct (str_ltb y x) eqn:E.
    + destruct (exchange y l) as [m0 l0] eqn:Ee. intros [= <- <-]. destruct (IH _ _ _ Ee) as [Hp Hf].
      split; [etrans; [apply perm_swap|]; by rewrite Hp|]. apply Forall_cons in Hf as [Hy Hf].
      constructor; [|by constructor]. etrans; [exact Hy|by apply str_ltb_lt].
    + destruct (exchange x l) as [m0 l0] eqn:Ee. intros [= <- <-]. destruct (IH _ _ _ Ee) as [Hp Hf].
      split; [etrans; [apply perm_swap|]; rewrite Hp; apply perm_swap|]. apply Forall_cons in Hf as [Hx Hf].
      constructor; [done|]. constructor; [|done]. etrans; [exact Hx|by apply str_ltb_le].
Qed.

Lemma exchange_sort_spec n : ∀ l, length l ≤ n →
  exchange_sort n l ≡ₚ l ∧ StronglySorted String.le (exchange_sort n l).
Proof.
  induction n as [|n IH]; intros [|x l] Hl; simpl; try (simpl in Hl; lia); try by (split; [done|constructor]).
  destruct (exchange x l) as [m l'] eqn:E. destruct (exchange_spec _ _ _ _ E) as [Hp Hf].
  destruct (IH l') as [Hp' Hs].
  { apply Permutation_length in Hp. simpl in *. lia. }
  split; [by rewrite Hp'|]. constructor; [done|]. rewrite Hp'. rewrite <- Hp in Hf. by apply Forall_cons in Hf as [_ ?].
Qed.

(** ** Parameters *)

(** Name and value of a parameter, decoded. *)
Definition param (token : string) : string * string :=
  match Index token "=" with
  | None => (Uri_Decode token, "")
  | Some eq => (Uri_Decode (str_take eq token), Uri_Decode (str_drop (eq + 1) token))
  end.
Definition params (raw : string) : list (string * string) := map param (query_tokens raw).

Definition param_text (nv : string * string) : string := Uri_Encode nv.1 +:+ "=" +:+ Uri_Encode nv.2.

Lemma query_part_text t : query_part t = param_text (param t).
Proof. unfold query_part, param, param_text. by destruct (Index t "="). Qed.

Lemma param_param_text nv : param (param_text nv) = nv.
Proof.
  destruct nv as [n v]. unfold param, param_text. cbn [fst snd].
  change ("=" +:+ Uri_Encode v) with (String "=" (Uri_Encode v)).
  rewrite Index_byte_app by by apply Uri_Encode_avoids.
  pose proof (str_take_app (Uri_Encode n) (String "=" (Uri_Encode v)) 0) as Ht. rewrite Nat.add_0_r in Ht.
  rewrite Ht. cbn [str_take]. rewrite str_app_nil_r, str_drop_app_ge by lia.
  replace (_ - _) with 1 by lia. cbn [str_drop]. by rewrite !Uri_Decode_Encode.
Qed.

Lemma param_text_ok nv : param_text nv ≠ "" ∧ string_forallb (λ a, bool_decide (a ≠ "&"%char)) (param_text nv) = true.
Proof.
  unfold param_text. split.
  - intros E. apply (f_equal String.length) in E. rewrite !str_app_length in E. simpl in E. lia.
  - rewrite !string_forallb_app, !Uri_Encode_avoids by done. done.
Qed.

Lemma split_join l : l ≠ [] → Forall (λ t, string_forallb (λ a, bool_decide (a ≠ "&"%char)) t = true) l →
  split_byte "&" (join_amp l) = l.
Proof.
  intros Hne Hl. induction Hl as [|x l Hx Hl IH]; [done|]. destruct l as [|y l]; [by apply split_byte_plain|].
  cbn [join_amp] in *. change ("&" +:+ ?t) with (String "&" t). by rewrite split_byte_app, IH.
Qed.

Lemma query_tokens_join (nvs : list (string * string)) l : l ≡ₚ map param_text nvs → length nvs ≤ Max_Params →
  query_tokens (join_amp l) = l.
Proof.
  intros Hp Hl. assert (Forall (λ t, t ≠ "" ∧ string_forallb (λ a, bool_decide (a ≠ "&"%char)) t = true) l) as Hf.
  { rewrite Hp. apply Forall_fmap, Forall_forall. intros nv _. apply param_text_ok. }
  apply Forall_and in Hf as [Hne Hamp]. unfold query_tokens.
  apply Permutation_length in Hp. rewrite length_map in Hp.
  destruct l as [|x l]; [done|]. rewrite split_join by done.
  rewrite take_ge; [|etrans; [apply length_filter|lia]].
  clear -Hne. induction Hne as [|y k Hy _ IH]; [done|]. by rewrite filter_cons_True, IH.
Qed.

Lemma params_length q : length (params q) ≤ Max_Params.
Proof. unfold params, query_tokens. rewrite length_map, length_take. lia. Qed.

Lemma canonical_sorted q : ∃ l, Canonical_Query q = join_amp l ∧ l ≡ₚ map param_text (params q) ∧ StronglySorted String.le l.
Proof.
  unfold Canonical_Query. set (parts := map query_part (query_tokens q)).
  destruct (exchange_sort_spec (length parts) parts (le_n _)) as [Hp Hs].
  eexists. split_and!; [done| |exact Hs]. rewrite Hp. unfold parts, params. rewrite map_map.
  erewrite map_ext; [done|]. intros t. apply query_part_text.
Qed.

Lemma canonical_params q : params (Canonical_Query q) ≡ₚ params q.
Proof.
  destruct (canonical_sorted q) as (l & -> & Hp & _). unfold params at 1.
  rewrite (query_tokens_join _ _ Hp (params_length q)), Hp, map_map.
  erewrite map_ext; [by rewrite map_id|]. intros nv. apply param_param_text.
Qed.

(** The canonical query stands for the decoded parameters, as a multiset: two
    queries have the same one exactly if they have the same parameters, in any
    order and any encoding, and it is its own canonical form.  (Only the first
    64 parameters count.) *)
Theorem canonical_query_canonical (q q' : string) :
  (Canonical_Query q = Canonical_Query q' ↔ params q ≡ₚ params q') ∧
  Canonical_Query (Canonical_Query q) = Canonical_Query q.
Proof.
  assert (∀ q q', params q ≡ₚ params q' → Canonical_Query q = Canonical_Query q') as Hto.
  { intros q1 q2 Hp. destruct (canonical_sorted q1) as (l1 & -> & Hp1 & Hs1).
    destruct (canonical_sorted q2) as (l2 & -> & Hp2 & Hs2). f_equal.
    apply (StronglySorted_unique String.le); [done..|]. by rewrite Hp1, Hp2, Hp. }
  split; [split; [|apply Hto]|apply Hto, canonical_params].
  intros E. by rewrite <- (canonical_params q), E, canonical_params.
Qed.

(** ** What a signature binds *)

Definition no_lf (s : string) : bool := string_forallb (λ a, bool_decide (a ≠ newline)) s.

(** Text up to the first line feed, and after the last one. *)
Lemma lf_first a x a' x' : no_lf a = true → no_lf a' = true → a +:+ LF +:+ x = a' +:+ LF +:+ x' → a = a' ∧ x = x'.
Proof.
  revert a'. induction a as [|c a IH]; intros [|c' a']; unfold no_lf; cbn [string_forallb];
    rewrite ?str_app_nil_l, ?str_app_cons; unfold LF; rewrite ?str_app_cons, ?str_app_nil_l.
  - by intros _ _ [= ->].
  - intros _ H [= <- _]. discriminate H.
  - intros H _ [= -> _]. discriminate H.
  - intros [_ H1]%andb_true_iff [_ H2]%andb_true_iff [= -> E]. destruct (IH a' H1 H2) as [-> ->]; [exact E|done].
Qed.

Lemma lf_last x b x' b' : no_lf b = true → no_lf b' = true → x +:+ LF +:+ b = x' +:+ LF +:+ b' → x = x' ∧ b = b'.
Proof.
  intros Hb Hb'. revert x'. induction x as [|c x IH]; intros [|c' x'];
    unfold LF; rewrite ?str_app_nil_l, ?str_app_cons, ?str_app_nil_l.
  - by intros [= ->].
  - intros [= _ E]. unfold no_lf in Hb. rewrite E, string_forallb_app in Hb. apply andb_true_iff in Hb as [_ Hb].
    discriminate Hb.
  - intros [= _ E]. unfold no_lf in Hb'. rewrite <- E, string_forallb_app in Hb'. apply andb_true_iff in Hb' as [_ Hb'].
    discriminate Hb'.
  - intros [= -> E]. destruct (IH x') as [-> ->]; [exact E|done].
Qed.

(** The parts that a request line or a header holds have no line feed. *)
Definition signed_ok (r : signed_request) : Prop :=
  no_lf (sr_Method r) = true ∧ no_lf (sr_URI r) = true ∧ no_lf (sr_Query r) = true ∧
  no_lf (sr_Signed_Headers r) = true ∧ no_lf (sr_Payload_Hash r) = true ∧ no_lf (sr_Amz_Date r) = true.

Lemma Canonical_Request_inj r r' : signed_ok r → signed_ok r' → Canonical_Request r = Canonical_Request r' →
  sr_Method r = sr_Method r' ∧ sr_URI r = sr_URI r' ∧ sr_Query r = sr_Query r' ∧ sr_Headers r = sr_Headers r' ∧
  sr_Signed_Headers r = sr_Signed_Headers r' ∧ sr_Payload_Hash r = sr_Payload_Hash r'.
Proof.
  intros (Hm & Hu & Hq & Hs & Hp & _) (Hm' & Hu' & Hq' & Hs' & Hp' & _). unfold Canonical_Request.
  intros (-> & E)%lf_first; [|done..]. apply lf_first in E as (-> & E); [|done..].
  apply lf_first in E as (-> & E); [|done..].
  rewrite (str_app_assoc LF (sr_Signed_Headers r)), (str_app_assoc (sr_Headers r)),
    (str_app_assoc LF (sr_Signed_Headers r')), (str_app_assoc (sr_Headers r')) in E.
  apply lf_last in E as (E & ->); [|done..]. by apply lf_last in E as (-> & ->); [|done..].
Qed.

Lemma digest_hex_inj d d' : length d = 32 → length d' = 32 → To_Hex d = To_Hex d' → d = d'.
Proof. intros Hd Hd' E. apply (f_equal From_Hex) in E. rewrite !From_Hex_To_Hex in E by done. congruence. Qed.

Lemma to_bytes_inj s t : to_bytes s = to_bytes t → s = t.
Proof.
  intros E. rewrite <- (String.string_of_list_byte_of_string s), <- (String.string_of_list_byte_of_string t).
  unfold to_bytes in E. by rewrite E.
Qed.

Lemma checked_SHA256_inr m d : checked_SHA256 m = inr d → d = SHA256 m.
Proof. unfold checked_SHA256. case_match; naive_solver. Qed.

Lemma checked_HMAC_inr k m d : checked_HMAC k m = inr d → d = HMAC_SHA256 k m.
Proof. unfold checked_HMAC. case_match; naive_solver. Qed.

(** C25: Two requests, each a sequence of lines as the server builds it, that have the
    same signature under one secret, date, region and service: either they have
    the same method, path, query, signed headers with their values, payload hash
    and date, or their canonical requests are a collision of SHA-256, or their
    strings to sign are one of HMAC-SHA256 under the signing key. *)
Theorem signature_binds (secret date region service sig : string) (r r' : signed_request)
  (Hr : signed_ok r) (Hr' : signed_ok r')
  (Hsig : Signature_For secret r date region service = inr sig)
  (Hsig' : Signature_For secret r' date region service = inr sig) :
  r = r' ∨
  (Canonical_Request r ≠ Canonical_Request r' ∧
   SHA256 (to_bytes (Canonical_Request r)) = SHA256 (to_bytes (Canonical_Request r'))) ∨
  (∃ key sts sts', Signing_Key secret date region service = inr key ∧
     String_To_Sign r (Scope date region service) = inr sts ∧
     String_To_Sign r' (Scope date region service) = inr sts' ∧
     sts ≠ sts' ∧ HMAC_SHA256 key (to_bytes sts) = HMAC_SHA256 key (to_bytes sts')).
Proof.
  unfold Signature_For, mbind, exn_bind in Hsig, Hsig'.
  destruct (String_To_Sign r _) as [?|sts] eqn:Es; [done|]. destruct (String_To_Sign r' _) as [?|sts'] eqn:Es'; [done|].
  unfold Signature, mbind, exn_bind in Hsig, Hsig'.
  destruct (Signing_Key _ _ _ _) as [?|key] eqn:Ek; [done|].
  destruct (checked_HMAC key (to_bytes sts)) as [?|d] eqn:Ed; [done|].
  destruct (checked_HMAC key (to_bytes sts')) as [?|d'] eqn:Ed'; [done|]. simplify_eq.
  apply checked_HMAC_inr in Ed as ->. apply checked_HMAC_inr in Ed' as ->.
  assert (HMAC_SHA256 key (to_bytes sts) = HMAC_SHA256 key (to_bytes sts')) as EH.
  { apply digest_hex_inj; [apply HMAC_length..|congruence]. }
  destruct (decide (sts = sts')) as [<-|Hne]; [|by right; right; eexists _, _, _].
  unfold String_To_Sign, Hex_SHA256, mbind, exn_bind in Es, Es'.
  destruct (checked_SHA256 (to_bytes (Canonical_Request r))) as [?|h] eqn:Eh; [done|].
  destruct (checked_SHA256 (to_bytes (Canonical_Request r'))) as [?|h'] eqn:Eh'; [done|].
  apply checked_SHA256_inr in Eh as ->. apply checked_SHA256_inr in Eh' as ->. injection Es as <-. injection Es' as Es'.
  apply lf_first in Es' as [Edate Es']; [|apply Hr'|apply Hr].
  apply str_app_inj, str_app_inj in Es'. apply digest_hex_inj in Es'; [|apply SHA256_length..].
  destruct (decide (Canonical_Request r = Canonical_Request r')) as [Ec|Hc]; [left|by right; left].
  destruct (Canonical_Request_inj _ _ Hr Hr' Ec) as (?&?&?&?&?&?). destruct r, r'. simpl in *. congruence.
Qed.
