(* ===== verification/ServerAuth.v ===== *)
(** Who may do what (src/server/src/dezhan_server.adb): the credential and token
    files, roles, [Check_Auth], the co-signing quorum for deletions with its
    staged approvals, and the gate at the start of [Handle].

    The configuration, read once from the environment and the two files, is a
    record; the approvals that are pending are the only state. *)
From Stdlib Require Import Strings.Byte NArith.
From S2P Require Import Prelude AdaMonad GoStrings GoText ServerText Sha256 TrustedCore AdaText Cas Keys Sigv4.
Open Scope Z_scope.

(** ** Responses *)

(** [Send], or [Send_Head] if [Head_Length] says how long the body would be. *)
Record response := {
  Status : string; Ctype : string; Extra : string; Payload : list Byte.byte; Head_Length : option Z;
}.

Definition Send (status ctype : string) (payload : list Byte.byte) (extra : string) : response :=
  {| Status := status; Ctype := ctype; Extra := extra; Payload := payload; Head_Length := None |}.
Definition Send_Text_Extra (status text extra : string) : response := Send status "text/plain" (to_bytes text) extra.
Definition Send_Text (status text : string) : response := Send_Text_Extra status text "".
Definition Send_XML (status body : string) : response := Send status "application/xml" (to_bytes body) "".
Definition Send_Head (status : string) (len : Z) (extra ctype : string) : response :=
  {| Status := status; Ctype := ctype; Extra := extra; Payload := []; Head_Length := Some len |}.

(** The bytes on the wire. *)
Definition wire (r : response) : list Byte.byte :=
  let line k v := k +:+ v +:+ crlf in
  let len := match Head_Length r with None => Z.of_nat (length (Payload r)) | Some n => n end in
  let cors := match Head_Length r with
              | None => line "Access-Control-Allow-Origin: *" "" +:+ line "Access-Control-Expose-Headers: *" ""
              | Some _ => ""
              end in
  to_bytes (line "HTTP/1.1 " (Status r) +:+ line "Content-Type: " (Ctype r) +:+ line "Content-Length:" (Image len)
            +:+ cors +:+ Extra r +:+ line "Connection: close" "" +:+ crlf) ++ Payload r.

(** ** Configuration *)

Inductive Auth_Status := Anon | Valid | Invalid | Missing.
Inductive Role := No_Access | Read_Only | Read_Write.

#[export] Instance auth_status_eq_dec : EqDecision Auth_Status.
Proof. solve_decision. Defined.
#[export] Instance role_eq_dec : EqDecision Role.
Proof. solve_decision. Defined.

Record config := {
  Admin_Token : string;
  Require_Auth : bool;
  Credentials : gmap string string;
  Roles : gmap string Role;
  Bucket_Roles : gmap string Role;
  Tokens : gmap string string;
  Delete_Quorum : Z;
  Approvers_Raw : string;
  Approval_TTL : Z;
}.

Definition To_Role (s : string) : Role :=
  if decide (s = "ro") then Read_Only else if decide (s = "none") then No_Access else Read_Write.

Definition with_credential (akid secret : string) (deflt : Role) (rules : gmap string Role) (c : config) : config :=
  {| Admin_Token := Admin_Token c; Require_Auth := Require_Auth c;
     Credentials := <[akid := secret]> (Credentials c); Roles := <[akid := deflt]> (Roles c);
     Bucket_Roles := rules; Tokens := Tokens c; Delete_Quorum := Delete_Quorum c;
     Approvers_Raw := Approvers_Raw c; Approval_TTL := Approval_TTL c |}.

(** The rules of a line: the last word without a colon is the default role, the
    others are roles for one bucket. *)
Fixpoint read_rules (akid : string) (toks : list string) (deflt : Role) (rules : gmap string Role) : Role * gmap string Role :=
  match toks with
  | [] => (deflt, rules)
  | t :: toks =>
      match Index t ":" with
      | None => read_rules akid toks (To_Role t) rules
      | Some colon =>
          read_rules akid toks deflt (<[akid +:+ LF +:+ str_take colon t := To_Role (str_drop (colon + 1) t)]> rules)
      end
  end.

(** A line of the credentials file. *)
Definition load_credential (c : config) (line : string) : config :=
  match take 64 (words line) with
  | akid :: secret :: toks =>
      let '(deflt, rules) := read_rules akid toks Read_Write (Bucket_Roles c) in
      with_credential akid secret deflt rules c
  | _ => c
  end.
Definition Load_Credentials (lines : list string) (c : config) : config := foldl load_credential c lines.

(** A line of the token file. *)
Definition load_token (c : config) (line : string) : config :=
  match Index line " " with
  | None => c
  | Some sp =>
      {| Admin_Token := Admin_Token c; Require_Auth := Require_Auth c; Credentials := Credentials c;
         Roles := Roles c; Bucket_Roles := Bucket_Roles c;
         Tokens := <[Trim (str_take sp line) := Trim (str_drop (sp + 1) line)]> (Tokens c);
         Delete_Quorum := Delete_Quorum c; Approvers_Raw := Approvers_Raw c; Approval_TTL := Approval_TTL c |}
  end.
Definition Load_Tokens (lines : list string) (c : config) : config := foldl load_token c lines.

(** [Bucket_Of] *)
Definition Bucket_Of (p : string) : string :=
  match p with
  | String c (String _ _ as rest) => if decide (c = "/"%char) then until_byte "/" rest else ""
  | _ => ""
  end.

Section config.
Context (cfg : config).

(** The role a principal has by default. *)
Definition default_role (akid : string) : Role := default Read_Write (Roles cfg !! akid).

Definition Effective_Role (akid bucket : string) : Role :=
  match (if decide (bucket = "") then None else Bucket_Roles cfg !! (akid +:+ LF +:+ bucket)) with
  | Some r => r
  | None => default_role akid
  end.

(** ** The quorum *)

(** [Approval_Count]: the loop over the elements of the header, with those
    counted so far. *)
Fixpoint count_approvals (elems : list string) (seen : string) (count : Z) : Z :=
  match elems with
  | [] => count
  | e :: elems =>
      let e := Trim e in
      if bool_decide (e ≠ "") && In_List e (Approvers_Raw cfg) && negb (In_List e seen)
      then count_approvals elems (if decide (seen = "") then e else seen +:+ "," +:+ e) (count + 1)
      else count_approvals elems seen count
  end.
Definition Approval_Count (hdr : string) : Z := count_approvals (split_byte "," hdr) "" 0.

(** [Pending_Approvals] *)
Notation approvals := (gmap string Z).

Definition approvals_Add (resource approver : string) (t : Trusted_Time) (a : approvals) : approvals :=
  <[resource +:+ LF +:+ approver := t]> a.

Definition approvals_Count (resource : string) (now : Trusted_Time) (a : approvals) : Z :=
  Z.of_nat (size (filter (λ kt, HasPrefix kt.1 (resource +:+ LF) = true ∧ now - kt.2 <= Approval_TTL cfg) a)).

Definition approvals_Clear (resource : string) (a : approvals) : approvals :=
  filter (λ kt, HasPrefix kt.1 (resource +:+ LF) = false) a.

(** ** Authentication *)

(** The headers to sign, up to the first empty name: [name:value] lines. *)
Fixpoint signed_lines (head : string) (names : list string) : string :=
  match names with
  | [] => ""
  | n :: names => if decide (n = "") then "" else n +:+ ":" +:+ Header head n +:+ LF +:+ signed_lines head names
  end.

Definition Path_Part (path : string) : string := until_byte "?" path.
Definition Query_Part (path : string) : string := default "" (after path "?").

(** [Verify_Sig]: the principal whose secret gives this signature. *)
Definition Verify_Sig (head method path0 cred sh sig canon_q phash amz_date : string) : exn + option string :=
  let akid := Part cred "/" 1 in
  match Credentials cfg !! akid with
  | None => inr None
  | Some secret =>
      s ← Signature_For secret
            {| sr_Method := method; sr_URI := path0; sr_Query := canon_q;
               sr_Headers := signed_lines head (split_byte ";" sh); sr_Signed_Headers := sh;
               sr_Payload_Hash := phash; sr_Amz_Date := amz_date |}
            (Part cred "/" 2) (Part cred "/" 3) (Part cred "/" 4);
      inr (if decide (s = sig) then Some akid else None)
  end.

(** [Invalid], or [Valid] with the principal. *)
Definition verdict (o : option string) : Auth_Status * string :=
  match o with Some akid => (Valid, akid) | None => (Invalid, "") end.

(** [Check_Auth]: the status and the principal ([Princ_Key]). *)
Definition Check_Auth (head method path payload_hash : string) : exn + (Auth_Status * string) :=
  let a := Header head "Authorization" in
  let path0 := Path_Part path in
  let query := Query_Part path in
  if decide (a ≠ "") then
    if (7 <? String.length a)%nat && HasPrefix a "Bearer " then
      let tok := Trim (str_drop 7 a) in
      inr (verdict (akid ← Tokens cfg !! tok; _ ← Credentials cfg !! akid; Some akid))
    else match Index a "AWS4-HMAC-SHA256" with
         | None => inr (Invalid, "")
         | Some _ =>
             r ← Verify_Sig head method path0 (Field_After a "Credential=") (Field_After a "SignedHeaders=")
                   (Field_After a "Signature=") (Canonical_Query query) payload_hash (Header head "x-amz-date");
             inr (verdict r)
         end
  else match Index query "X-Amz-Signature=" with
       | Some _ =>
           r ← Verify_Sig head method path0 (Uri_Decode (Q_Val query "X-Amz-Credential="))
                 (Uri_Decode (Q_Val query "X-Amz-SignedHeaders=")) (Q_Val query "X-Amz-Signature=")
                 (Canonical_Query (Drop_Param query "X-Amz-Signature")) "UNSIGNED-PAYLOAD" (Q_Val query "X-Amz-Date=");
           inr (verdict r)
       | None => inr (if Require_Auth cfg then Missing else Anon, "")
       end.

(** ** The gate *)

Definition admin_path (path0 : string) : bool := HasPrefix path0 "/admin".

Definition Is_Control (path0 : string) : bool :=
  bool_decide (path0 ∈ ["/"; "/healthz"; "/metrics"; "/version"; "/approve"]) || admin_path path0.

Definition Is_Write (method : string) : bool := bool_decide (method ∈ ["PUT"; "POST"; "DELETE"]).

(** A deletion, which may need a quorum. *)
Definition Is_Destructive (method pquery : string) : bool :=
  bool_decide (method = "DELETE") || (bool_decide (method = "POST") && bool_decide (is_Some (Index pquery "delete"))).

Definition payload_hash (head : string) : exn + string :=
  if decide (Header head "x-amz-content-sha256" ≠ "") then inr (Header head "x-amz-content-sha256") else Hex_SHA256 "".

(** The approvals a deletion has, in its header and staged. *)
Definition approvals_for (head method path0 : string) (now : Trusted_Time) (a : approvals) : Z :=
  Approval_Count (Header head "X-Dezhan-Approvals")
  + (if decide (method = "DELETE") then approvals_Count path0 now a else 0).

Definition quorum_refusal (have : Z) (path0 : string) : response :=
  Send_Text "403 Forbidden"
    ("delete requires" +:+ Image (Delete_Quorum cfg) +:+ " approver co-signatures (have" +:+ Image have
     +:+ "); stage approvals via POST /approve?resource=" +:+ path0).

(** What [Handle] checks before it serves a request: an answer that ends it, and
    the approvals that are left. *)
Definition gate (head method path : string) (now : Trusted_Time) (a : approvals) : exn + (option response * approvals) :=
  let path0 := Path_Part path in
  let pquery := Query_Part path in
  if decide (method = "OPTIONS") then
    inr (Some (Send_Text_Extra "200 OK" ""
      ("Access-Control-Allow-Methods: GET, PUT, POST, DELETE, HEAD" +:+ crlf
       +:+ "Access-Control-Allow-Headers: *" +:+ crlf +:+ "Access-Control-Max-Age: 86400" +:+ crlf)), a)
  else if admin_path path0 && bool_decide (Admin_Token cfg ≠ "")
          && bool_decide (Header head "X-Dezhan-Admin-Token" ≠ Admin_Token cfg) then
    inr (Some (Send_Text "403 Forbidden" "admin token required"), a)
  else if Is_Control path0 then inr (None, a)
  else
    phash ← payload_hash head;
    '(st, princ) ← Check_Auth head method path phash;
    let eff := if decide (st = Valid) then Effective_Role princ (Bucket_Of path0) else Read_Write in
    if decide (st = Missing) then inr (Some (Send_Text "401 Unauthorized" "authentication required"), a)
    else if decide (st = Invalid) then inr (Some (Send_Text "403 Forbidden" "invalid SigV4 signature"), a)
    else if decide (st = Valid ∧ Is_Write method = true ∧ eff ≠ Read_Write) then
      inr (Some (Send_Text "403 Forbidden" "credential not permitted to write this bucket"), a)
    else if decide (st = Valid ∧ Is_Write method = false ∧ eff = No_Access) then
      inr (Some (Send_Text "403 Forbidden" "credential has no access to this bucket"), a)
    else if (0 <? Delete_Quorum cfg) && Is_Destructive method pquery then
      let have := approvals_for head method path0 now a in
      if have <? Delete_Quorum cfg then inr (Some (quorum_refusal have path0), a)
      else inr (None, if decide (method = "DELETE") then approvals_Clear path0 a else a)
    else inr (None, a).

End config.
