(* ===== verification/CasSpec.v ===== *)
(** Theorems about the content-addressed store, and what it promises to the
    vault: the classes [CasOps], [CasView] and [CasLaws], with the store of
    Cas as their instance. *)
From Stdlib Require Import Strings.Byte NArith.
From S2P Require Import Prelude AdaMonad Gf256 Erasure Sha256 Cipher Shards GoStrings AdaText Cas.
Close Scope gf_scope.
Close Scope N_scope.
Open Scope nat_scope.

#[local] Opaque SHA256 HMAC_SHA256 XCrypt EC_SL Encode Reconstruct.

(** ** Damage *)

(** A directory after damage: at most [EC_M] of its shard files were lost or
    changed, and a changed file does not have the digest of the original. *)
Record tolerable_dir (sd sd' : shard_dir) : Prop := {
  td_idx : sd_idx sd' = sd_idx sd;
  td_tag : sd_tag sd' = sd_tag sd;
  td_lost : ∃ lost : list nat, length lost ≤ EC_M ∧
    ∀ s, s ∉ lost → sd_shards sd' !! s = sd_shards sd !! s;
  td_honest : ∀ s f f', sd_shards sd !! s = Some f → sd_shards sd' !! s = Some f' →
    length f' = EC_SL → SHA256 f' = SHA256 f → f' = f;
}.

Definition tolerable_dirs (m m' : gmap string shard_dir) : Prop :=
  ∀ k sd, m !! k = Some sd → ∃ sd', m' !! k = Some sd' ∧ tolerable_dir sd sd'.

(** Every directory of the store may be damaged that much. *)
Definition tolerable (s s' : cas) : Prop :=
  tolerable_dirs (objects s) (objects s') ∧ tolerable_dirs (manifests s) (manifests s').

Lemma filter_lost (p : nat → bool) l (lost : list nat) : NoDup l →
  (∀ x, x ∈ l → p x = false → x ∈ lost) → length l ≤ length (List.filter p l) + length lost.
Proof.
  intros Hnd Hl. rewrite <- (List.filter_length p l). apply Nat.add_le_mono_l.
  apply List.NoDup_incl_length; [apply List.NoDup_filter; by apply NoDup_ListNoDup|].
  intros x Hx. apply List.filter_In in Hx as [Hx Hp]. apply list_elem_of_In. apply Hl; [by apply list_elem_of_In|].
  by apply negb_true_iff.
Qed.

Lemma tolerable_holds sd sd' b : full_blob sd b → tolerable_dir sd sd' → holds_blob sd' b.
Proof.
  intros [Hi Hf] [Ti _ (lost & Hlen & Hsame) Th]. split.
  - by rewrite Ti.
  - unfold count_present.
    assert (G : data_shards (length b) + EC_M ≤
      length (List.filter (λ s, bool_decide (sd_shards sd' !! s = Some (orig b s)))
        (seq 1 (data_shards (length b) + EC_M))) + length lost); [|lia].
    rewrite <- (length_seq (data_shards (length b) + EC_M) 1) at 1. apply filter_lost.
    + apply NoDup_seq.
    + intros x Hx Hp. destruct (decide (x ∈ lost)) as [|Hn]; [done|]. apply bool_decide_eq_false in Hp.
      destruct Hp. rewrite Hsame by done. apply Hf. apply elem_of_seq in Hx. unfold in_shards. lia.
  - intros s f Hs Ef Hl EH. eapply Th; eauto.
Qed.

Lemma tolerable_blob m m' b : tolerable_dirs m m' → blob_at full_blob m b → blob_at holds_blob m' b.
Proof.
  intros HT (sd & E & HF). destruct (HT _ _ E) as (sd' & E' & Htd). exists sd'. eauto using tolerable_holds.
Qed.

Section cas_spec.
Context `{DeflateOps} {DL : DeflateLaws}.

Lemma tolerable_stored s s' key d : tolerable s s' → stored full_blob s key d → stored holds_blob s' key d.
Proof.
  intros [HO HM] (Hf & HT & (sd & E & HP & Ht)). split_and!; [done| |].
  - eapply Forall_impl; [exact HT|]. eauto using tolerable_blob.
  - destruct (HM _ _ E) as (sd' & E' & Htd). exists sd'. split; [done|]. split; [by eapply tolerable_holds|].
    by rewrite (td_tag _ _ Htd).
Qed.

Lemma Put_inr key d s id s' : Put key d s = (inr id, s') → fits d ∧ id = id_of key d ∧ s' = (Put key d s).2.
Proof.
  intros E. rewrite E. rewrite Put_spec in E. destruct (Nat.ltb_spec Max_Manifest (Hdr + enc_chunks d * 32)) as [|Hf]; [done|].
  injection E as <- _. done.
Qed.

(** C7: After a successful [Put] under any key, on a store whose reused
    directories hold what their name says, any two shard files of every
    directory may be deleted or overwritten, as long as no overwritten file
    is a SHA-256 collision of the original: [Get] still returns exactly the
    bytes that were put. *)
Theorem cas_survives_damage (key d : list Byte.byte) (s s1 s2 : cas) (id : string)
  (Hput : Put key d s = (inr id, s1)) (Hclean : clean full_blob s key d) (Hdamage : tolerable s1 s2) :
  Get s2 key id = inr d.
Proof.
  destruct (Put_inr _ _ _ _ _ Hput) as (Hf & -> & ->).
  destruct (Put_stored full_blob new_dir_full full_tag key d s Hf Hclean) as [_ Hst].
  apply Get_stored. by eapply tolerable_stored.
Qed.

(** ** Repair *)

Lemma holds_unique sd a b : small_blob a → small_blob b → holds_blob sd a → holds_blob sd b → a = b.
Proof.
  intros Ha Hb HA HB. apply Read_Shards_spec in HA, HB; [|done..]. congruence.
Qed.

(** Repairing a directory keeps every blob, and makes the one it holds
    whole. *)
Lemma repair_dir_keeps hex dirs dirs' n ok b : repair_dir hex dirs = inr (dirs', n, ok) →
  small_blob b → blob_at holds_blob dirs b → blob_at holds_blob dirs' b.
Proof.
  unfold repair_dir. destruct (dirs !! hex) as [sd|] eqn:E; [|done].
  destruct (Repair_Shards sd) as [|[[sd' n'] ok']] eqn:ER; [done|]. intros [= <- <- <-] Hb (sd0 & E0 & HP).
  destruct (decide (To_Hex (SHA256 b) = hex)) as [<-|Hne].
  - rewrite E in E0. injection E0 as <-.
    destruct (Repair_Shards_spec sd b Hb HP) as (sd1 & n1 & ER1 & Hfull & _). rewrite ER in ER1. injection ER1 as -> _ _.
    exists sd1. rewrite lookup_insert_eq. eauto using full_holds.
  - exists sd0. rewrite lookup_insert_ne by done. done.
Qed.

Lemma repair_dir_full hex dirs dirs' n ok b : repair_dir hex dirs = inr (dirs', n, ok) →
  small_blob b → blob_at full_blob dirs b → blob_at full_blob dirs' b.
Proof.
  unfold repair_dir. destruct (dirs !! hex) as [sd|] eqn:E; [|done].
  destruct (Repair_Shards sd) as [|[[sd' n'] ok']] eqn:ER; [done|]. intros [= <- <- <-] Hb (sd0 & E0 & HP).
  destruct (decide (To_Hex (SHA256 b) = hex)) as [<-|Hne].
  - rewrite E in E0. injection E0 as <-.
    destruct (Repair_Shards_spec sd b Hb (full_holds _ _ HP)) as (sd1 & n1 & ER1 & Hfull & _).
    rewrite ER in ER1. injection ER1 as -> _ _. exists sd1. by rewrite lookup_insert_eq.
  - exists sd0. rewrite lookup_insert_ne by done. done.
Qed.

Lemma repair_dir_heals dirs b : small_blob b → blob_at holds_blob dirs b →
  ∃ dirs' n, repair_dir (To_Hex (SHA256 b)) dirs = inr (dirs', n, true) ∧ blob_at full_blob dirs' b.
Proof.
  intros Hb (sd & E & HP). destruct (Repair_Shards_spec sd b Hb HP) as (sd' & n & ER & HF & _).
  unfold repair_dir. rewrite E, ER. eexists _, _. split; [done|]. exists sd'. by rewrite lookup_insert_eq.
Qed.

Lemma repair_chunks_manifests mb cs : ∀ s n ok, manifests (repair_chunks mb cs s n ok).1.1 = manifests s.
Proof.
  induction cs as [|c cs IH]; intros s n ok; [done|]. cbn [repair_chunks].
  destruct (length mb <? _); [done|]. destruct (repair_dir _ _) as [|[[objs r] ok1]]; [done|]. by rewrite IH.
Qed.

(** On every outcome, the chunk loop of [Repair] keeps every blob. *)
Lemma repair_chunks_keeps mb cs b : small_blob b → ∀ s n ok,
  (blob_at holds_blob (objects s) b → blob_at holds_blob (objects (repair_chunks mb cs s n ok).1.1) b) ∧
  (blob_at full_blob (objects s) b → blob_at full_blob (objects (repair_chunks mb cs s n ok).1.1) b).
Proof.
  intros Hb. induction cs as [|c cs IH]; intros s n ok; [done|]. cbn [repair_chunks].
  destruct (length mb <? _); [done|]. destruct (repair_dir _ _) as [|[[objs r] ok1]] eqn:E; [done|].
  destruct (IH {| objects := objs; manifests := manifests s |} (n + r) (ok && ok1)) as [I1 I2].
  split; intros HB; [apply I1|apply I2]; cbn [objects]; eauto using repair_dir_keeps, repair_dir_full.
Qed.

Lemma repair_chunks_heals key d cs : (∀ c, c ∈ cs → c < enc_chunks d) → ∀ s n,
  Forall (blob_at holds_blob (objects s)) (enc_texts key d) →
  ∃ s' n', repair_chunks (enc_manifest key d) cs s n true = (s', n', true) ∧
    ∀ c, c ∈ cs → blob_at full_blob (objects s')
      (chunk_text (Subkey key Enc_Label) (enc_nonce key d) (enc_payload d) c).
Proof.
  induction cs as [|c cs IH]; intros Hcs s n HT.
  { exists s, n. split; [done|]. by intros c Hc%elem_of_nil. }
  assert (Hc : c < enc_chunks d) by (apply Hcs; left). cbn [repair_chunks].
  rewrite (proj2 (Nat.ltb_ge _ _)) by (rewrite enc_manifest_length; lia).
  rewrite manifest_digest_spec by done.
  set (ct := chunk_text (Subkey key Enc_Label) (enc_nonce key d) (enc_payload d) c).
  assert (Hin : ct ∈ enc_texts key d).
  { unfold enc_texts. apply list_elem_of_fmap. exists c. split; [done|]. apply elem_of_seq. lia. }
  assert (Hsm : small_blob ct) by eauto using text_small.
  destruct (repair_dir_heals (objects s) ct Hsm) as (objs & r & ER & HF); [by eapply Forall_forall in HT|].
  rewrite ER. cbn [andb].
  destruct (IH ltac:(intros; apply Hcs; by right) {| objects := objs; manifests := manifests s |} (n + r))
    as (s' & n' & E' & HF').
  { apply Forall_forall. intros x Hx. eapply repair_dir_keeps; eauto using text_small. by eapply Forall_forall in HT. }
  exists s', n'. split; [done|]. intros c' [->|Hc']%elem_of_cons; [|by apply HF'].
  pose proof (proj2 (repair_chunks_keeps (enc_manifest key d) cs ct Hsm
    {| objects := objs; manifests := manifests s |} (n + r) true) HF) as HK. by rewrite E' in HK.
Qed.

(** [Repair] of any id, on any outcome, loses nothing that is stored. *)
Lemma Repair_keeps id s key d : stored holds_blob s key d → stored holds_blob (Repair id s).1.1 key d.
Proof.
  intros (Hf & HT & HM). unfold Repair.
  destruct (repair_dir id (manifests s)) as [|[[ms r] ok]] eqn:E; [done|].
  assert (HM' : blob_at (λ sd b, holds_blob sd b ∧ sd_tag sd = Some (tag_of key d)) ms (enc_manifest key d)).
  { destruct HM as (sd & Esd & HP & Ht).
    destruct (repair_dir_keeps _ _ _ _ _ (enc_manifest key d) E (manifest_small key d Hf)) as (sd1 & E1 & HP1);
      [by exists sd|]. exists sd1. split; [done|]. split; [done|].
    unfold repair_dir in E. destruct (manifests s !! id) as [sd0|] eqn:E0; [|done].
    destruct (Repair_Shards sd0) as [|[[sd0' n0] ok0]] eqn:ER; [done|]. injection E as <- _ _.
    destruct (decide (To_Hex (SHA256 (enc_manifest key d)) = id)) as [<-|Hne].
    - rewrite lookup_insert_eq in E1. injection E1 as <-. rewrite Esd in E0. injection E0 as <-.
      destruct (Repair_Shards_spec sd (enc_manifest key d) (manifest_small key d Hf) HP) as (? & ? & ER1 & _ & Htag & _).
      rewrite ER in ER1. injection ER1 as -> _ _. congruence.
    - rewrite lookup_insert_ne in E1 by done. congruence. }
  assert (HS : ∀ s', manifests s' = ms → (∀ ct, ct ∈ enc_texts key d → blob_at holds_blob (objects s') ct) →
    stored holds_blob s' key d).
  { intros s' <- HO. split_and!; [done| |done]. by apply Forall_forall. }
  assert (HO : ∀ ct, ct ∈ enc_texts key d → blob_at holds_blob (objects s) ct) by (by apply Forall_forall).
  destruct (negb ok); [by apply HS|]. destruct (read_dir ms id) as [|mb]; [by apply HS|].
  destruct (length mb <? 8); [by apply HS|]. apply HS; [by rewrite repair_chunks_manifests|].
  intros ct Hct. apply repair_chunks_keeps; eauto using text_small.
Qed.

Lemma Repair_heals key d s : stored holds_blob s key d →
  ∃ s' n, Repair (id_of key d) s = (s', n, true) ∧ stored full_blob s' key d.
Proof.
  intros (Hf & HT & HM). unfold Repair.
  destruct HM as (sd & E & HP & Ht).
  destruct (Repair_Shards_spec sd (enc_manifest key d) (manifest_small key d Hf) HP) as (sd' & r & ER & HF & Htag & _).
  unfold repair_dir. fold (id_of key d) in E. rewrite E, ER. cbn [negb].
  unfold read_dir. rewrite lookup_insert_eq, (Read_Shards_spec sd' (enc_manifest key d)) by eauto using manifest_small, full_holds.
  rewrite (proj2 (Nat.ltb_ge (length (enc_manifest key d)) 8)) by (rewrite enc_manifest_length; unfold Hdr; lia).
  rewrite manifest_p_len, Nat2N.id by done. fold (enc_chunks d).
  destruct (repair_chunks_heals key d (seq 0 (enc_chunks d))
    ltac:(intros c Hc; apply elem_of_seq in Hc; lia)
    {| objects := objects s; manifests := <[id_of key d:=sd']> (manifests s) |} r HT) as (s' & n' & E' & HF').
  pose proof (repair_chunks_manifests (enc_manifest key d) (seq 0 (enc_chunks d))
    {| objects := objects s; manifests := <[id_of key d:=sd']> (manifests s) |} r true) as EM.
  rewrite E' in EM |- *. cbn [fst snd manifests] in *. exists s', n'. split; [done|].
  split_and!; [done| |].
  - apply Forall_forall. unfold enc_texts. intros ct (c & -> & Hc)%list_elem_of_fmap. by apply HF'.
  - exists sd'. rewrite EM. fold (id_of key d). rewrite lookup_insert_eq. split; [done|]. split; [done|]. congruence.
Qed.

(** Scrubbing an object that is still readable succeeds and writes every lost
    or damaged shard file again, so that the object is as redundant as when
    it was put; and it loses no other object, under this or another key. *)
Theorem repair_restores (key d : list Byte.byte) (s : cas) (Hst : stored holds_blob s key d) :
  ∃ s' n, Repair (id_of key d) s = (s', n, true) ∧ stored full_blob s' key d ∧
    ∀ key' d', stored holds_blob s key' d' → stored holds_blob s' key' d'.
Proof.
  destruct (Repair_heals key d s Hst) as (s' & n & E & HF). exists s', n. split_and!; [done..|].
  intros key' d' Hst'. pose proof (Repair_keeps (id_of key d) s key' d' Hst') as HK. by rewrite E in HK.
Qed.

(** ** Garbage collection *)

Lemma chunk_refs_spec key d ct : fits d → ct ∈ enc_texts key d →
  To_Hex (SHA256 ct) ∈ chunk_refs (enc_manifest key d).
Proof.
  intros Hf Hct. unfold chunk_refs.
  rewrite (proj2 (Nat.ltb_ge (length (enc_manifest key d)) 8)) by (rewrite enc_manifest_length; unfold Hdr; lia).
  rewrite manifest_p_len, Nat2N.id by done. fold (enc_chunks d).
  unfold enc_texts in Hct. apply list_elem_of_fmap in Hct as (c & -> & Hc). apply elem_of_seq in Hc.
  apply list_elem_of_fmap. exists c. rewrite manifest_digest_spec by lia. split; [done|].
  apply list_elem_of_filter. rewrite enc_manifest_length. split; [lia|]. apply elem_of_seq. lia.
Qed.

Lemma Collect_keeps live s key d : id_of key d ∈ live → stored holds_blob s key d →
  stored holds_blob (Collect_Garbage live s).1 key d.
Proof.
  intros Hlive (Hf & HT & (sd & E & HP & Ht)). fold (id_of key d) in E. split_and!; [done| |].
  - apply Forall_forall. intros ct Hct. destruct (proj1 (Forall_forall _ _) HT ct Hct) as (sd' & E' & HP').
    exists sd'. split; [|done]. cbn [Collect_Garbage fst objects]. apply map_lookup_filter_Some. split; [done|].
    cbn [fst]. unfold reach_chunks. apply list_elem_of_bind. exists (id_of key d). split; [|done].
    unfold read_dir. rewrite E, (Read_Shards_spec sd (enc_manifest key d)) by eauto using manifest_small.
    by apply chunk_refs_spec.
  - exists sd. split; [|done]. fold (id_of key d). cbn [Collect_Garbage fst manifests].
    by apply map_lookup_filter_Some.
Qed.

(** ** Directories that were left incomplete *)

Lemma load_chunks_each s ek mb cs r : load_chunks s ek mb cs = inr r →
  ∀ c, c ∈ cs → ∃ b, load_chunk s ek mb c = inr b.
Proof.
  revert r. induction cs as [|c cs IH]; intros r E c' Hc'; [by apply elem_of_nil in Hc'|].
  cbn [load_chunks] in E. destruct (load_chunk s ek mb c) as [|b] eqn:Ec; [done|].
  destruct (load_chunks s ek mb cs) as [|rest] eqn:El; [done|].
  apply elem_of_cons in Hc' as [->|Hc']; [by exists b|]. by eapply IH.
Qed.

(** A directory is taken for complete as soon as it exists.  If a chunk's
    directory was created but its index never written, as when the machine
    stops inside [Store_Shards], then putting the same object again reports
    success and an id, and that id cannot be read. *)
Theorem put_reuses_incomplete (key d : list Byte.byte) (s : cas) (c : nat) (sd : shard_dir)
  (Hfits : fits d) (Hnew : manifests s !! id_of key d = None) (Hc : c < enc_chunks d)
  (Hdir : objects s !! To_Hex (SHA256 (chunk_text (Subkey key Enc_Label) (enc_nonce key d) (enc_payload d) c)) = Some sd)
  (Hidx : sd_idx sd = None) :
  ∃ s', Put key d s = (inr (id_of key d), s') ∧ ∀ d', Get s' key (id_of key d) ≠ inr d'.
Proof.
  rewrite Put_spec, (proj2 (Nat.ltb_ge _ _)) by exact Hfits.
  set (s' := Build_cas _ _). exists s'. split; [done|]. intros d' EG.
  assert (Em : ∃ sdm, manifests s' !! id_of key d = Some sdm ∧ holds_blob sdm (enc_manifest key d)).
  { cbn [s' manifests]. rewrite write_tag_lookup, decide_True by done. unfold Store_Shards.
    rewrite Hnew, lookup_insert_eq. eexists. split; [done|]. apply holds_tag, new_dir_holds. }
  destruct Em as (sdm & Em & Hm). unfold Get, read_dir in EG. rewrite Em in EG.
  rewrite (Read_Shards_spec sdm (enc_manifest key d)) in EG by eauto using manifest_small.
  do 3 (case_match; [done|]).
  destruct (load_chunks s' (Subkey key Enc_Label) (enc_manifest key d) _) as [|r] eqn:EL; [done|].
  rewrite manifest_p_len, Nat2N.id in EL by done. fold (enc_chunks d) in EL.
  destruct (load_chunks_each _ _ _ _ _ EL c) as [b Eb]; [apply elem_of_seq; lia|].
  unfold load_chunk in Eb. rewrite manifest_digest_spec in Eb by done. unfold read_dir in Eb.
  assert (Eo : objects s' !! To_Hex (SHA256 (chunk_text (Subkey key Enc_Label) (enc_nonce key d) (enc_payload d) c)) = Some sd)
    by (apply (store_all_keeps (enc_texts key d)), Hdir).
  rewrite Eo in Eb. unfold Read_Shards, load_shards in Eb. by rewrite Hidx in Eb.
Qed.

(** ** The interface of the store *)

End cas_spec.

Class CasOps (C : Type) := {
  cas_Put : list Byte.byte → list Byte.byte → Ada C string;
  cas_Get : C → list Byte.byte → string → exn + list Byte.byte;
  cas_Repair : string → C → C * nat * bool;
  cas_Collect : list string → C → C * nat;
}.

(** [cas_stored c key id d]: [id] is readable and is [d]; [cas_clean c key d]:
    a [Put] of [d] reuses nothing that holds something else. *)
Class CasView (C : Type) := {
  cas_stored : C → list Byte.byte → string → list Byte.byte → Prop;
  cas_clean : C → list Byte.byte → list Byte.byte → Prop;
}.

Class CasLaws (C : Type) `{CasOps C, CasView C} : Prop := {
  put_id : ∀ key d c id c', cas_Put key d c = (inr id, c') → is_word id ∧ String.length id = 64%nat;
  put_stored : ∀ key d c id c', cas_Put key d c = (inr id, c') → cas_clean c key d → cas_stored c' key id d;
  put_keeps : ∀ key d c id d', cas_stored c key id d' → cas_stored (cas_Put key d c).2 key id d';
  stored_get : ∀ c key id d, cas_stored c key id d → cas_Get c key id = inr d;
  repair_keeps : ∀ c key id d id', cas_stored c key id d → cas_stored (cas_Repair id' c).1.1 key id d;
  repair_ok : ∀ c key id d, cas_stored c key id d → (cas_Repair id c).2 = true;
  collect_keeps : ∀ c key id d live, cas_stored c key id d → id ∈ live → cas_stored (cas_Collect live c).1 key id d;
}.

#[export] Instance cas_ops `{DeflateOps} : CasOps cas := {|
  cas_Put := Put; cas_Get := Get; cas_Repair := Repair; cas_Collect := Collect_Garbage;
|}.

#[export] Instance cas_view `{DeflateOps} : CasView cas := {|
  cas_stored c key id d := id = id_of key d ∧ stored holds_blob c key d;
  cas_clean := clean holds_blob;
|}.

Lemma id_of_word `{DeflateOps} key d : is_word (id_of key d) ∧ String.length (id_of key d) = 64%nat.
Proof.
  unfold id_of. split.
  - apply To_Hex_word. intros E. pose proof (SHA256_length (enc_manifest key d)) as L. by rewrite E in L.
  - assert (G : ∀ l, String.length (To_Hex l) = (2 * length l)%nat).
    { induction l as [|b l IH]; [done|]. cbn [To_Hex]. rewrite str_app_length, IH. simpl. lia. }
    by rewrite G, SHA256_length.
Qed.

#[export] Instance cas_laws `{DeflateOps} {DL : DeflateLaws} : CasLaws cas.
Proof.
  split; simpl.
  - intros key d c id c' E. destruct (Put_inr _ _ _ _ _ E) as (_ & -> & _). apply id_of_word.
  - intros key d c id c' E Hcl. destruct (Put_inr _ _ _ _ _ E) as (Hf & -> & ->). split; [done|].
    apply (Put_stored holds_blob new_dir_holds holds_tag key d c Hf Hcl).
  - intros key d c id d' [-> Hst]. split; [done|]. by apply (Put_keeps holds_blob holds_tag).
  - intros c key id d [-> Hst]. by apply Get_stored.
  - intros c key id d id' [-> Hst]. split; [done|]. by apply Repair_keeps.
  - intros c key id d [-> Hst]. destruct (Repair_heals key d c Hst) as (s' & n & E & _). by rewrite E.
  - intros c key id d live [-> Hst] Hl. split; [done|]. by apply Collect_keeps.
Qed.
