(* ===== verification/CasDemo.v ===== *)
(** The compressor that the store calls, which meets the law it relies on; and
    the theorems about the store applied to a small object: it is put into an
    empty store, two shard files of every directory are deleted, it is read
    and repaired.  The object is compressed before it is stored. *)
From Stdlib Require Import Strings.Byte NArith.
From S2P Require Import Prelude AdaMonad Deflate DeflateSpec Gf256 Erasure Sha256 Cipher Shards GoStrings AdaText Cas CasSpec.
Close Scope gf_scope.
Close Scope N_scope.
Open Scope nat_scope.

#[export] Instance deflate_ops : DeflateOps := {| Cas.Deflate := Deflate.Deflate; Cas.Inflate := Deflate.Inflate |}.

#[export] Instance deflate_laws : DeflateLaws.
Proof. split. apply deflate_inverse. Qed.

Definition demo_key : list Byte.byte := replicate 32 "007"%byte.
Definition demo_object : list Byte.byte := String.list_byte_of_string "backup backup backup backup".
Definition empty_cas : cas := {| objects := ∅; manifests := ∅ |}.
Definition demo_cas : cas := (Put demo_key demo_object empty_cas).2.

(** The first and the third shard file are lost. *)
Definition lose_dir (d : shard_dir) : shard_dir :=
  {| sd_idx := sd_idx d; sd_shards := delete 1 (delete 3 (sd_shards d)); sd_tag := sd_tag d |}.
Definition demo_damaged : cas :=
  {| objects := lose_dir <$> objects demo_cas; manifests := lose_dir <$> manifests demo_cas |}.

#[local] Opaque SHA256 HMAC_SHA256 XCrypt Encode Reconstruct.

(** Compression helps. *)
Example demo_compressed : (payload_of demo_object).1 = true.
Proof. vm_compute. reflexivity. Qed.

Lemma demo_chunks : enc_chunks demo_object = 1.
Proof. vm_compute. reflexivity. Qed.

Lemma demo_fits : fits demo_object.
Proof. unfold fits. rewrite demo_chunks. apply Nat.leb_le. vm_compute. reflexivity. Qed.

Lemma demo_clean P : clean P empty_cas demo_key demo_object.
Proof.
  split_and!; [|apply Forall_forall; intros; by left|by left].
  intros a b. unfold enc_texts. rewrite demo_chunks. cbn [seq map].
  rewrite !list_elem_of_singleton. by intros -> ->.
Qed.

Lemma demo_put : Put demo_key demo_object empty_cas = (inr (id_of demo_key demo_object), demo_cas).
Proof. unfold demo_cas. rewrite Put_spec, (proj2 (Nat.ltb_ge _ _)); [done|exact demo_fits]. Qed.

Lemma lose_dir_tolerable d : tolerable_dir d (lose_dir d).
Proof.
  split; [done|done| |].
  - exists [1; 3]. split; [done|]. intros s Hs. simpl.
    rewrite !lookup_delete_ne; [done|intros <-; apply Hs; set_solver..].
  - intros s f f' Ef Ef'. simpl in Ef'. apply lookup_delete_Some in Ef' as [_ Ef'].
    apply lookup_delete_Some in Ef' as [_ Ef']. congruence.
Qed.

Lemma demo_tolerable : tolerable demo_cas demo_damaged.
Proof.
  split; intros k d E; exists (lose_dir d); (split; [|apply lose_dir_tolerable]); cbn [demo_damaged objects manifests];
    by rewrite lookup_fmap, E.
Qed.

Lemma demo_damaged_stored : stored holds_blob demo_damaged demo_key demo_object.
Proof.
  apply (tolerable_stored _ _ _ _ demo_tolerable). unfold demo_cas.
  apply (Put_stored full_blob new_dir_full full_tag); [exact demo_fits|apply demo_clean].
Qed.

Lemma cas_survives_damage_witness :
  Get demo_damaged demo_key (id_of demo_key demo_object) = inr demo_object.
Proof.
  apply (cas_survives_damage demo_key demo_object empty_cas demo_cas demo_damaged).
  - exact demo_put.
  - apply demo_clean.
  - exact demo_tolerable.
Defined.

Lemma repair_restores_witness :
  ∃ s' n, Repair (id_of demo_key demo_object) demo_damaged = (s', n, true) ∧
    stored full_blob s' demo_key demo_object.
Proof.
  destruct (repair_restores demo_key demo_object demo_damaged demo_damaged_stored) as (s' & n & E & HF & _).
  exists s', n. exact (conj E HF).
Defined.

(** The directory of the only chunk was created and nothing was written. *)
Definition torn_dir : shard_dir := {| sd_idx := None; sd_shards := ∅; sd_tag := None |}.
Definition torn_cas : cas :=
  {| objects := {[ To_Hex (SHA256 (chunk_text (Subkey demo_key Enc_Label) (enc_nonce demo_key demo_object)
                                    (enc_payload demo_object) 0)) := torn_dir ]};
     manifests := ∅ |}.

Lemma put_reuses_incomplete_witness :
  ∃ s', Put demo_key demo_object torn_cas = (inr (id_of demo_key demo_object), s') ∧
    ∀ d', Get s' demo_key (id_of demo_key demo_object) ≠ inr d'.
Proof.
  apply (put_reuses_incomplete demo_key demo_object torn_cas 0 torn_dir).
  - exact demo_fits.
  - reflexivity.
  - rewrite demo_chunks. apply Nat.lt_0_1.
  - apply lookup_singleton_eq.
  - reflexivity.
Defined.
