(* ===== verification/VaultState.v ===== *)
(** The vault's state and its persistence
    (src/vault/src/dezhan-vault.adb, lines 26 to 514).

    The state is one record, [State].  On disk it is two text files: a
    snapshot, vault.state, rewritten as a whole by [Save], and a journal,
    vault.journal, to which [Commit_Jrnl] appends the records buffered by
    [Append_Jrnl].  [Apply_Line] reads one record of either file, [Load] both
    files, [Open_Vault] a vault or a new one.  Iterations over hashed maps
    follow the order of [map_to_list]; I/O errors are not modelled. *)
From Stdlib Require Import Strings.Byte NArith.
From S2P Require Import Prelude AdaMonad GoStrings GoText GoFloat Sha256 TrustedCore AuditChain AdaText.
Open Scope Z_scope.

(** ** Data *)

Record Meta := {
  m_Id : string;
  m_Lock : Retention.Retention_Lock;
  m_Composite : bool;
  m_Quarantined : bool;
  m_Size : Z;
  m_User_Meta : string;
}.

(** Parts are ordered by their number. *)
Record Upload := {
  u_Name : string;
  u_Mode : Retention.Lock_Mode;
  u_Retain_For : Trusted_Time;
  u_Parts : list (Z * string);
  u_Total : Z;
}.

Record Version_Entry := {
  v_Vid : string;
  v_Id : string;
  v_Size : Z;
  v_Meta : string;
  v_Deleted : bool;
}.

#[export] Existing Instance Retention.lock_mode_eq_dec.
#[export] Existing Instance Retention.retention_lock_eq_dec.
#[export] Instance meta_eq_dec : EqDecision Meta.
Proof. solve_decision. Defined.
#[export] Instance version_entry_eq_dec : EqDecision Version_Entry.
Proof. solve_decision. Defined.

Record State := MkState {
  Key : list Byte.byte;
  Clock : Clock_Guard.Guard_State;
  Started : bool;
  Op_Sealed : bool;
  Last_Boot : string;
  Ingest_Only : bool;
  Sync_Shut : bool;
  Index : gmap string Meta;
  Log : list Audit_Entry;
  Uploads : gmap string Upload;
  Upload_Seq : Z;
  Buckets : gmap string bool;
  Versioned : gmap string bool;
  Versions : gmap string (list Version_Entry);
  Ver_Seq : Z;
  Jrnl_Count : Z;
  Jrnl_Buf : string;
  Jrnl_Pend : Z;
}.

(** [V.Self.F := v] for each component [F]. *)
Definition with_Clock (v : Clock_Guard.Guard_State) (s : State) : State :=
  MkState (Key s) v (Started s) (Op_Sealed s) (Last_Boot s) (Ingest_Only s) (Sync_Shut s) (Index s)
    (Log s) (Uploads s) (Upload_Seq s) (Buckets s) (Versioned s) (Versions s) (Ver_Seq s)
    (Jrnl_Count s) (Jrnl_Buf s) (Jrnl_Pend s).
Definition with_Started (v : bool) (s : State) : State :=
  MkState (Key s) (Clock s) v (Op_Sealed s) (Last_Boot s) (Ingest_Only s) (Sync_Shut s) (Index s) (Log s)
    (Uploads s) (Upload_Seq s) (Buckets s) (Versioned s) (Versions s) (Ver_Seq s) (Jrnl_Count s)
    (Jrnl_Buf s) (Jrnl_Pend s).
Definition with_Op_Sealed (v : bool) (s : State) : State :=
  MkState (Key s) (Clock s) (Started s) v (Last_Boot s) (Ingest_Only s) (Sync_Shut s) (Index s) (Log s)
    (Uploads s) (Upload_Seq s) (Buckets s) (Versioned s) (Versions s) (Ver_Seq s) (Jrnl_Count s)
    (Jrnl_Buf s) (Jrnl_Pend s).
Definition with_Last_Boot (v : string) (s : State) : State :=
  MkState (Key s) (Clock s) (Started s) (Op_Sealed s) v (Ingest_Only s) (Sync_Shut s) (Index s) (Log s)
    (Uploads s) (Upload_Seq s) (Buckets s) (Versioned s) (Versions s) (Ver_Seq s) (Jrnl_Count s)
    (Jrnl_Buf s) (Jrnl_Pend s).
Definition with_Ingest_Only (v : bool) (s : State) : State :=
  MkState (Key s) (Clock s) (Started s) (Op_Sealed s) (Last_Boot s) v (Sync_Shut s) (Index s) (Log s)
    (Uploads s) (Upload_Seq s) (Buckets s) (Versioned s) (Versions s) (Ver_Seq s) (Jrnl_Count s)
    (Jrnl_Buf s) (Jrnl_Pend s).
Definition with_Sync_Shut (v : bool) (s : State) : State :=
  MkState (Key s) (Clock s) (Started s) (Op_Sealed s) (Last_Boot s) (Ingest_Only s) v (Index s) (Log s)
    (Uploads s) (Upload_Seq s) (Buckets s) (Versioned s) (Versions s) (Ver_Seq s) (Jrnl_Count s)
    (Jrnl_Buf s) (Jrnl_Pend s).
Definition with_Index (v : gmap string Meta) (s : State) : State :=
  MkState (Key s) (Clock s) (Started s) (Op_Sealed s) (Last_Boot s) (Ingest_Only s) (Sync_Shut s) v
    (Log s) (Uploads s) (Upload_Seq s) (Buckets s) (Versioned s) (Versions s) (Ver_Seq s)
    (Jrnl_Count s) (Jrnl_Buf s) (Jrnl_Pend s).
Definition with_Log (v : list Audit_Entry) (s : State) : State :=
  MkState (Key s) (Clock s) (Started s) (Op_Sealed s) (Last_Boot s) (Ingest_Only s) (Sync_Shut s)
    (Index s) v (Uploads s) (Upload_Seq s) (Buckets s) (Versioned s) (Versions s) (Ver_Seq s)
    (Jrnl_Count s) (Jrnl_Buf s) (Jrnl_Pend s).
Definition with_Uploads (v : gmap string Upload) (s : State) : State :=
  MkState (Key s) (Clock s) (Started s) (Op_Sealed s) (Last_Boot s) (Ingest_Only s) (Sync_Shut s)
    (Index s) (Log s) v (Upload_Seq s) (Buckets s) (Versioned s) (Versions s) (Ver_Seq s)
    (Jrnl_Count s) (Jrnl_Buf s) (Jrnl_Pend s).
Definition with_Upload_Seq (v : Z) (s : State) : State :=
  MkState (Key s) (Clock s) (Started s) (Op_Sealed s) (Last_Boot s) (Ingest_Only s) (Sync_Shut s)
    (Index s) (Log s) (Uploads s) v (Buckets s) (Versioned s) (Versions s) (Ver_Seq s)
    (Jrnl_Count s) (Jrnl_Buf s) (Jrnl_Pend s).
Definition with_Buckets (v : gmap string bool) (s : State) : State :=
  MkState (Key s) (Clock s) (Started s) (Op_Sealed s) (Last_Boot s) (Ingest_Only s) (Sync_Shut s)
    (Index s) (Log s) (Uploads s) (Upload_Seq s) v (Versioned s) (Versions s) (Ver_Seq s)
    (Jrnl_Count s) (Jrnl_Buf s) (Jrnl_Pend s).
Definition with_Versioned (v : gmap string bool) (s : State) : State :=
  MkState (Key s) (Clock s) (Started s) (Op_Sealed s) (Last_Boot s) (Ingest_Only s) (Sync_Shut s)
    (Index s) (Log s) (Uploads s) (Upload_Seq s) (Buckets s) v (Versions s) (Ver_Seq s)
    (Jrnl_Count s) (Jrnl_Buf s) (Jrnl_Pend s).
Definition with_Versions (v : gmap string (list Version_Entry)) (s : State) : State :=
  MkState (Key s) (Clock s) (Started s) (Op_Sealed s) (Last_Boot s) (Ingest_Only s) (Sync_Shut s)
    (Index s) (Log s) (Uploads s) (Upload_Seq s) (Buckets s) (Versioned s) v (Ver_Seq s)
    (Jrnl_Count s) (Jrnl_Buf s) (Jrnl_Pend s).
Definition with_Ver_Seq (v : Z) (s : State) : State :=
  MkState (Key s) (Clock s) (Started s) (Op_Sealed s) (Last_Boot s) (Ingest_Only s) (Sync_Shut s)
    (Index s) (Log s) (Uploads s) (Upload_Seq s) (Buckets s) (Versioned s) (Versions s) v
    (Jrnl_Count s) (Jrnl_Buf s) (Jrnl_Pend s).
Definition with_Jrnl_Count (v : Z) (s : State) : State :=
  MkState (Key s) (Clock s) (Started s) (Op_Sealed s) (Last_Boot s) (Ingest_Only s) (Sync_Shut s)
    (Index s) (Log s) (Uploads s) (Upload_Seq s) (Buckets s) (Versioned s) (Versions s) (Ver_Seq s)
    v (Jrnl_Buf s) (Jrnl_Pend s).
Definition with_Jrnl_Buf (v : string) (s : State) : State :=
  MkState (Key s) (Clock s) (Started s) (Op_Sealed s) (Last_Boot s) (Ingest_Only s) (Sync_Shut s)
    (Index s) (Log s) (Uploads s) (Upload_Seq s) (Buckets s) (Versioned s) (Versions s) (Ver_Seq s)
    (Jrnl_Count s) v (Jrnl_Pend s).
Definition with_Jrnl_Pend (v : Z) (s : State) : State :=
  MkState (Key s) (Clock s) (Started s) (Op_Sealed s) (Last_Boot s) (Ingest_Only s) (Sync_Shut s)
    (Index s) (Log s) (Uploads s) (Upload_Seq s) (Buckets s) (Versioned s) (Versions s) (Ver_Seq s)
    (Jrnl_Count s) (Jrnl_Buf s) v.

Definition Compact_Limit : Z := 20000.

(** The two files below the vault's root. *)
Record Disk := { d_state : option string; d_journal : option string }.

(** The vault, its files and its store of content. *)
Record world (C : Type) := World { st : State; disk : Disk; store : C }.
Arguments World {C} _ _ _.
Arguments st {C} _.
Arguments disk {C} _.
Arguments store {C} _.

Definition on_state {C} (f : State → State) (w : world C) : world C := World (f (st w)) (disk w) (store w).

(** ** Records *)

Definition flag (b : bool) : string := if b then " 1" else " 0".

(** [Lock_Mode'Pos] and [Lock_Mode'Val] *)
Definition Mode_Pos (m : Retention.Lock_Mode) : Z :=
  match m with Retention.Unlocked => 0 | Retention.Governance => 1 | Retention.Compliance => 2 end.
Definition Mode_Val (z : Z) : option Retention.Lock_Mode :=
  match z with
  | 0 => Some Retention.Unlocked | 1 => Some Retention.Governance | 2 => Some Retention.Compliance
  | _ => None
  end.

Definition Core_Clock (s : State) : string :=
  "CLOCK " +:+ Image (Clock_Guard.Now (Clock s)) +:+ flag (Clock_Guard.Is_Sealed (Clock s)) +:+ flag (Op_Sealed s).
Definition Core_Boot (s : State) : string := "BOOT " +:+ Last_Boot s.
Definition Core_Modes (s : State) : string :=
  "MODES" +:+ flag (Ingest_Only s) +:+ flag (Sync_Shut s).
Definition Core_Vseq (s : State) : string := "VSEQ" +:+ Image (Ver_Seq s).
Definition Bkt_Line (name : string) (lock : bool) : string := "BKT " +:+ Str_To_Hex name +:+ flag lock.
Definition Vsn_Line (name : string) (on : bool) : string := "VSN " +:+ Str_To_Hex name +:+ flag on.
Definition Ver_Line (name : string) (e : Version_Entry) : string :=
  "VER " +:+ Str_To_Hex name +:+ " " +:+ v_Vid e +:+ " " +:+ v_Id e +:+ Image (v_Size e)
  +:+ flag (v_Deleted e) +:+ " " +:+ Str_To_Hex (v_Meta e).
Definition Obj_Line (name : string) (m : Meta) : string :=
  "OBJ " +:+ Str_To_Hex name +:+ " " +:+ m_Id m +:+ Image (Mode_Pos (Retention.Mode (m_Lock m)))
  +:+ Image (Retention.Retain_Until (m_Lock m)) +:+ Image (Retention.Created_At (m_Lock m))
  +:+ flag (m_Composite m) +:+ flag (Retention.Legal_Hold (m_Lock m)) +:+ flag (m_Quarantined m)
  +:+ Image (m_Size m) +:+ " " +:+ Str_To_Hex (m_User_Meta m).
Definition Del_Line (name : string) : string := "DEL " +:+ Str_To_Hex name.
Definition A_Line (e : Audit_Entry) : string :=
  "A" +:+ Image (Seq e) +:+ Image (Time e) +:+ Image (Z.of_N (Event_Pos (Kind e)))
  +:+ " " +:+ To_Hex (Subject e) +:+ Image (Detail e)
  +:+ " " +:+ To_Hex (Prev_Hash e) +:+ " " +:+ To_Hex (Hash e).

(** ** Writing *)

Definition snapshot_lines (s : State) : list string :=
  ["DEZHAN_VAULT 1"; Core_Clock s; Core_Boot s; Core_Modes s]
  ++ map (λ p, Bkt_Line p.1 p.2) (map_to_list (Buckets s))
  ++ map (λ p, Vsn_Line p.1 true) (filter (λ p, p.2 = true) (map_to_list (Versioned s)))
  ++ [Core_Vseq s]
  ++ (p ← map_to_list (Versions s); map (Ver_Line p.1) p.2)
  ++ map (λ p, Obj_Line p.1 p.2) (map_to_list (Index s))
  ++ ["AUDIT" +:+ Image (Z.of_nat (length (Log s)))]
  ++ map A_Line (Log s).

(** [Save]: the new snapshot replaces the old one, then the journal is
    emptied, then the buffer. *)
Definition clear_jrnl (s : State) : State := with_Jrnl_Pend 0 (with_Jrnl_Buf "" (with_Jrnl_Count 0 s)).

Definition Save {C} : Ada (world C) unit := λ w,
  (inr (), World (clear_jrnl (st w))
             {| d_state := Some (unlines (snapshot_lines (st w))); d_journal := Some "" |} (store w)).

Definition append_jrnl (line : string) (s : State) : State :=
  with_Jrnl_Pend (Jrnl_Pend s + 1) (with_Jrnl_Buf (Jrnl_Buf s +:+ line +:+ String LF "") s).

Definition Append_Jrnl {C} (line : string) : Ada (world C) unit := update (on_state (append_jrnl line)).

Definition Commit_Jrnl {C} : Ada (world C) unit := λ w,
  let s := st w in
  if Jrnl_Pend s =? 0 then (inr (), w)
  else if Compact_Limit <=? Jrnl_Count s + Jrnl_Pend s then Save w
  else (inr (), World (with_Jrnl_Pend 0 (with_Jrnl_Buf "" (with_Jrnl_Count (Jrnl_Count s + Jrnl_Pend s) s)))
                  {| d_state := d_state (disk w);
                     d_journal := Some (default "" (d_journal (disk w)) +:+ Jrnl_Buf s) |} (store w)).

Definition J_Obj {C} (name : string) : Ada (world C) unit :=
  s ← gets st;
  match Index s !! name with
  | Some m => Append_Jrnl (Obj_Line name m)
  | None => raise Constraint_Error
  end.
Definition J_Del {C} (name : string) : Ada (world C) unit := Append_Jrnl (Del_Line name).
Definition J_Ver {C} (name : string) (e : Version_Entry) : Ada (world C) unit := Append_Jrnl (Ver_Line name e).
Definition J_Vseq {C} : Ada (world C) unit := s ← gets st; Append_Jrnl (Core_Vseq s).

(** ** Reading *)

(** [Object_Id (S)]: a conversion that checks the length. *)
Definition to_Object_Id (s : string) : option string := if decide (String.length s = 64%nat) then Some s else None.

Definition parse_version (line : string) : option (string * Version_Entry) :=
  name ← Hex_To_Str (Field line 2);
  id ← to_Object_Id (Field line 4);
  size ← Value Natural_Last (Field line 5);
  meta ← Hex_To_Str (Field line 7);
  Some (name, {| v_Vid := Field line 3; v_Id := id; v_Size := size; v_Meta := meta;
                 v_Deleted := bool_decide (Field line 6 = "1") |}).

Definition parse_object (line : string) : option (string * Meta) :=
  name ← Hex_To_Str (Field line 2);
  id ← to_Object_Id (Field line 3);
  pos ← Value Natural_Last (Field line 4);
  mode ← Mode_Val pos;
  until ← Value Time_Last (Field line 5);
  created ← Value Time_Last (Field line 6);
  size ← (if decide (Field line 10 = "") then Some 0 else Value Natural_Last (Field line 10));
  meta ← Hex_To_Str (Field line 11);
  Some (name, {| m_Id := id;
                 m_Lock := {| Retention.Mode := mode; Retention.Retain_Until := until;
                              Retention.Created_At := created;
                              Retention.Legal_Hold := bool_decide (Field line 8 = "1") |};
                 m_Composite := bool_decide (Field line 7 = "1");
                 m_Quarantined := bool_decide (Field line 9 = "1");
                 m_Size := size; m_User_Meta := meta |}).

Definition parse_entry (line : string) (seq : Z) : option Audit_Entry :=
  time ← Value Time_Last (Field line 3);
  pos ← Value Natural_Last (Field line 4);
  kind ← Event_Val pos;
  subject ← From_Hex (Field line 5);
  detail ← Value Time_Last (Field line 6);
  prev ← From_Hex (Field line 7);
  hash ← From_Hex (Field line 8);
  Some {| Seq := seq; Time := time; Kind := kind; Subject := subject; Detail := detail;
          Prev_Hash := prev; Hash := hash |}.

(** A version is added unless one with its id is there. *)
Definition add_version (name : string) (e : Version_Entry) (s : State) : State :=
  let vec := default [] (Versions s !! name) in
  if existsb (λ x, bool_decide (v_Vid x = v_Vid e)) vec then s
  else with_Versions (<[name := vec ++ [e]]> (Versions s)) s.

(** [Apply_Line]; [None] is [Constraint_Error]. *)
Definition Apply_Line (line : string) (s : State) : option State :=
  let tag := Field line 1 in
  if decide (tag = "CLOCK") then
    floor ← Value Time_Last (Field line 2);
    Some (with_Started false (with_Op_Sealed (bool_decide (Field line 4 = "1"))
      (with_Clock {| Clock_Guard.Floor := floor; Clock_Guard.Last_Mono := 0; Clock_Guard.Last_Real := 0;
                     Clock_Guard.Anomaly := Clock_Guard.NoAnomaly;
                     Clock_Guard.Sealed := bool_decide (Field line 3 = "1") |} s)))
  else if decide (tag = "BOOT") then Some (with_Last_Boot (Field line 2) s)
  else if decide (tag = "MODES") then
    Some (with_Sync_Shut (bool_decide (Field line 3 = "1")) (with_Ingest_Only (bool_decide (Field line 2 = "1")) s))
  else if decide (tag = "BKT") then
    name ← Hex_To_Str (Field line 2);
    Some (with_Buckets (<[name := bool_decide (Field line 3 = "1")]> (Buckets s)) s)
  else if decide (tag = "BKD") then
    name ← Hex_To_Str (Field line 2);
    Some (with_Buckets (delete name (Buckets s)) s)
  else if decide (tag = "VSN") then
    name ← Hex_To_Str (Field line 2);
    Some (with_Versioned (<[name := bool_decide (Field line 3 ≠ "0")]> (Versioned s)) s)
  else if decide (tag = "VSEQ") then
    n ← Value Natural_Last (Field line 2);
    Some (with_Ver_Seq n s)
  else if decide (tag = "VER") then
    '(name, e) ← parse_version line;
    Some (add_version name e s)
  else if decide (tag = "OBJ") then
    '(name, m) ← parse_object line;
    Some (with_Index (<[name := m]> (Index s)) s)
  else if decide (tag = "DEL") then
    name ← Hex_To_Str (Field line 2);
    Some (with_Index (delete name (Index s)) s)
  else if decide (tag = "A") then
    seq ← Value Natural_Last (Field line 2);
    if seq =? Z.of_nat (length (Log s)) then
      e ← parse_entry line seq;
      Some (with_Log (Log s ++ [e]) s)
    else Some s
  else Some s.

Fixpoint apply_lines (ls : list string) (s : State) : option State :=
  match ls with
  | [] => Some s
  | l :: ls => s' ← Apply_Line l s; apply_lines ls s'
  end.

(** The components of a [State] that [new State] starts with. *)
Definition zero_clock : Clock_Guard.Guard_State :=
  {| Clock_Guard.Floor := 0; Clock_Guard.Last_Mono := 0; Clock_Guard.Last_Real := 0;
     Clock_Guard.Anomaly := Clock_Guard.NoAnomaly; Clock_Guard.Sealed := false |}.
Definition new_state (key : list Byte.byte) : State :=
  MkState key zero_clock false false "" false false ∅ [] ∅ 0 ∅ ∅ ∅ 0 0 "" 0.

(** [Load]: the snapshot, then the journal, whose records are counted. *)
Definition Load (snapshot : string) (journal : option string) (s : State) : option State :=
  s ← apply_lines (lines_of snapshot) s;
  match journal with
  | None => Some s
  | Some text =>
      s ← apply_lines (lines_of text) s;
      Some (with_Jrnl_Count (Jrnl_Count s + Z.of_nat (length (lines_of text))) s)
  end.

(** [Open]: without a snapshot the vault is new, whatever the journal holds. *)
Definition Open_Vault {C} (key : list Byte.byte) (d : Disk) (c : C) : exn + world C :=
  match d_state d with
  | Some text =>
      match Load text (d_journal d) (new_state key) with
      | Some s => inr (World s d c)
      | None => inl Constraint_Error
      end
  | None => inr (World (with_Log [Genesis_Entry 0] (new_state key)) d c)
  end.
