(* ===== verification/Vault.v ===== *)
(** The vault's operations (src/vault/src/dezhan-vault.adb, lines 109 to 155
    and 516 to 1311): every procedure and function of the package that reads or
    changes the state is one definition, over the store interface of CasSpec.
    An operation that raises keeps what it did before.

    Not here: [Export] (a copy of the directory tree) and the signed
    checkpoints ([Make_Checkpoint], Ed25519), which change no state. *)
From Stdlib Require Import Strings.Byte NArith.
From S2P Require Import Prelude AdaMonad GoStrings GoText Sha256 TrustedCore AuditChain AdaText Cas CasSpec VaultState.
Open Scope Z_scope.

Definition Clock_Tolerance : Trusted_Time := 2.
Definition Part_Size : nat := N.to_nat 900000.
Definition Max_Single : nat := N.to_nat 2000000.

(** Addition that raises [Constraint_Error] above the last value of the
    type. *)
Definition add_upto {W} (hi a b : Z) : Ada W Z := if a + b <=? hi then mret (a + b) else raise Constraint_Error.

(** [Name_Digest]; the precondition of [SHA256] bounds the name. *)
Definition Name_Digest (name : string) : exn + Digest :=
  if (N.of_nat (String.length name) <=? Max_Message)%N
  then inr (SHA256 (String.list_byte_of_string name)) else inl Constraint_Error.

(** The part numbers of an upload, in order: [Parts.Include]. *)
Fixpoint part_include (pn : Z) (pid : string) (parts : list (Z * string)) : list (Z * string) :=
  match parts with
  | [] => [(pn, pid)]
  | (k, v) :: parts' =>
      if pn <? k then (pn, pid) :: parts
      else if pn =? k then (k, pid) :: parts'
      else (k, v) :: part_include pn pid parts'
  end.

(** A list of part ids as the bytes of a composite object, and back. *)
Definition ids_bytes (ids : list string) : list Byte.byte := concat (map String.list_byte_of_string ids).

Fixpoint ids_of (n : nat) (l : list Byte.byte) : list string :=
  match n with
  | O => []
  | S n => String.string_of_list_byte (take 64 l) :: ids_of n (drop 64 l)
  end.

(** [Scrub_Report] *)
Record Scrub_Report := {
  r_Total : Z; r_Intact : Z; r_Repaired : Z; r_Corrupt : Z; r_Shards_Repaired : Z;
}.

Section vault.
Context {C : Type} `{CasOps C} `{Memory}.

Notation Vault := (Ada (world C)).

Definition modify_st (f : State → State) : Vault unit := update (on_state f).

(** A call of the store. *)
Definition on_cas {A} (m : Ada C A) : Vault A := λ w,
  let '(r, c) := m (store w) in (r, World (st w) (disk w) c).

Definition cas_put (data : list Byte.byte) : Vault string :=
  s ← gets st; on_cas (cas_Put (Key s) data).
Definition cas_get (id : string) : Vault (list Byte.byte) := λ w, (cas_Get (store w) (Key (st w)) id, w).
Definition cas_repair (id : string) : Vault (nat * bool) := λ w,
  let '(c, n, ok) := cas_Repair id (store w) in (inr (n, ok), World (st w) (disk w) c).

Definition cas_collect (live : list string) : Vault nat := λ w,
  let '(c, n) := cas_Collect live (store w) in (inr n, World (st w) (disk w) c).

(** ** Guards and the audit chain *)

Definition Read_Only (s : State) : bool := Op_Sealed s.

Definition Check_Ingest : Vault unit :=
  s ← gets st;
  _ ← raise_when (Op_Sealed s) Vault_Sealed;
  raise_when (Sync_Shut s) Sync_Closed.

(** [Append (V.Self.Log.Last_Element, Now, ...)], with the checks that the log
    is not empty and that the number of the last entry has a successor. *)
Definition next_entry (s : State) (kind : Audit_Event) (subject : Digest) (detail : Trusted_Time) : option Audit_Entry :=
  p ← last (Log s);
  if Seq p =? Natural_Last then None
  else Some (Append p (Clock_Guard.Now (Clock s)) kind subject detail).

Definition Add_Audit (kind : Audit_Event) (subject : Digest) (detail : Trusted_Time) : Vault unit :=
  s ← gets st;
  e ← lift (of_option (next_entry s kind subject detail));
  _ ← modify_st (λ s, with_Log (Log s ++ [e]) s);
  Append_Jrnl (A_Line e).

(** ** Objects *)

Definition slice (data : list Byte.byte) (p : nat) : list Byte.byte := take Part_Size (drop (p * Part_Size) data).

Definition Store_Composite (data : list Byte.byte) : Vault string :=
  let n_parts := ((length data + Part_Size - 1) / Part_Size)%nat in
  ids ← ada_map (λ p, cas_put (slice data p)) (seq 0 n_parts);
  cas_put (ids_bytes ids).

(** The id and whether it is a list of parts. *)
Definition store_data (data : list Byte.byte) : Vault (string * bool) :=
  if (length data <=? Max_Single)%nat then
    handle (id ← cas_put data; mret (id, false)) Object_Too_Large
      (id ← Store_Composite data; mret (id, true))
  else id ← Store_Composite data; mret (id, true).

Definition Put_Object (name : string) (data : list Byte.byte) (mode : Retention.Lock_Mode)
    (retain_for : Trusted_Time) (user_meta : string) : Vault unit :=
  _ ← Check_Ingest;
  _ ← raise_when (bool_decide (mode = Retention.Unlocked)) Invalid_Mode;
  s ← gets st;
  let at_time := Clock_Guard.Now (Clock s) in
  until ← add_upto Time_Last at_time retain_for;
  let lock := Retention.Create_Lock mode until at_time in
  '(id, comp) ← store_data data;
  _ ← modify_st (λ s, with_Index (<[name := {| m_Id := id; m_Lock := lock; m_Composite := comp;
        m_Quarantined := false; m_Size := Z.of_nat (length data); m_User_Meta := user_meta |}]> (Index s)) s);
  digest ← lift (Name_Digest name);
  _ ← Add_Audit Lock_Created digest until;
  _ ← J_Obj name;
  Commit_Jrnl.

(** The parts of a composite object, copied one after the other into an array
    of [size] bytes that holds [got]: an assignment beyond its end fails, what
    is short of it stays as it was. *)
Fixpoint copy_parts (size : Z) (ids : list string) (got : list Byte.byte) : Vault (list Byte.byte) :=
  match ids with
  | [] => mret (got ++ map uninitialized (seq (length got) (Z.to_nat size - length got)))
  | id :: ids =>
      part ← cas_get id;
      _ ← raise_when (size <? Z.of_nat (length (got ++ part))) Constraint_Error;
      copy_parts size ids (got ++ part)
  end.

Definition Get_Object (name : string) : Vault (list Byte.byte) :=
  s ← gets st;
  _ ← raise_when (Ingest_Only s) Egress_Denied;
  match Index s !! name with
  | None => raise Not_Found
  | Some m =>
      _ ← raise_when (m_Quarantined m) Object_Quarantined_Error;
      if negb (m_Composite m) then cas_get (m_Id m)
      else
        list ← cas_get (m_Id m);
        copy_parts (m_Size m) (ids_of (length list / 64) list) []
  end.

(** ** Multipart uploads *)

Definition Create_Upload (name : string) (mode : Retention.Lock_Mode) (retain_for : Trusted_Time) : Vault string :=
  _ ← Check_Ingest;
  _ ← raise_when (bool_decide (mode = Retention.Unlocked)) Invalid_Mode;
  s ← gets st;
  seq ← add_upto Natural_Last (Upload_Seq s) 1;
  _ ← modify_st (with_Upload_Seq seq);
  let id := "upload-" +:+ Itoa seq in
  _ ← modify_st (λ s, with_Uploads (<[id := {| u_Name := name; u_Mode := mode; u_Retain_For := retain_for;
        u_Parts := []; u_Total := 0 |}]> (Uploads s)) s);
  mret id.

Definition next_part (u : Upload) (part_number : Z) : Z :=
  if 0 <? part_number then part_number
  else match last (u_Parts u) with None => 1 | Some (k, _) => k + 1 end.

Definition Upload_Part (upload_id : string) (data : list Byte.byte) (part_number : Z) : Vault unit :=
  _ ← Check_Ingest;
  s ← gets st;
  match Uploads s !! upload_id with
  | None => raise No_Such_Upload
  | Some u =>
      pid ← cas_put data;
      let pn := next_part u part_number in
      _ ← raise_when (Natural_Last <? pn) Constraint_Error;
      total ← (if existsb (λ p, p.1 =? pn) (u_Parts u) then mret (u_Total u)
               else add_upto Natural_Last (u_Total u) (Z.of_nat (length data)));
      modify_st (λ s, with_Uploads (<[upload_id := {| u_Name := u_Name u; u_Mode := u_Mode u;
        u_Retain_For := u_Retain_For u; u_Parts := part_include pn pid (u_Parts u); u_Total := total |}]> (Uploads s)) s)
  end.

Definition Complete_Upload (upload_id : string) : Vault unit :=
  _ ← Check_Ingest;
  s ← gets st;
  match Uploads s !! upload_id with
  | None => raise No_Such_Upload
  | Some u =>
      let name := u_Name u in
      let at_time := Clock_Guard.Now (Clock s) in
      list_id ← cas_put (ids_bytes (map snd (u_Parts u)));
      until ← add_upto Time_Last at_time (u_Retain_For u);
      let lock := Retention.Create_Lock (u_Mode u) until at_time in
      _ ← modify_st (λ s, with_Index (<[name := {| m_Id := list_id; m_Lock := lock; m_Composite := true;
            m_Quarantined := false; m_Size := u_Total u; m_User_Meta := "" |}]> (Index s)) s);
      digest ← lift (Name_Digest name);
      _ ← Add_Audit Lock_Created digest until;
      _ ← modify_st (λ s, with_Uploads (delete upload_id (Uploads s)) s);
      _ ← J_Obj name;
      Commit_Jrnl
  end.

Definition Abort_Upload (upload_id : string) : Vault unit :=
  modify_st (λ s, with_Uploads (delete upload_id (Uploads s)) s).

(** ** Queries *)

Definition Contains (s : State) (name : string) : bool := bool_decide (is_Some (Index s !! name)).
Definition Object_Count (s : State) : nat := size (Index s).
Definition Object_Etag (s : State) (name : string) : string := default "" (m_Id <$> Index s !! name).
Definition Object_Size (s : State) (name : string) : Z := default 0 (m_Size <$> Index s !! name).
Definition Object_Meta (s : State) (name : string) : string := default "" (m_User_Meta <$> Index s !! name).
Definition Object_Deletable (s : State) (name : string) : bool :=
  match Index s !! name with
  | Some m => Retention.Can_Delete (m_Lock m) (Clock_Guard.Now (Clock s)) {| Retention.Bypass_Governance := false |}
  | None => false
  end.
Definition Object_Names (s : State) : string := unlines (map fst (map_to_list (Index s))).
Definition Quarantined_Count (s : State) : nat := length (filter (λ p, m_Quarantined p.2 = true) (map_to_list (Index s))).
Definition Has_Legal_Hold (s : State) (name : string) : bool :=
  match Index s !! name with Some m => Retention.Legal_Hold (m_Lock m) | None => false end.
Definition Now (s : State) : Trusted_Time := Clock_Guard.Now (Clock s).
Definition Sealed (s : State) : bool := Op_Sealed s || Clock_Guard.Is_Sealed (Clock s).
Definition Audit_Length (s : State) : nat := length (Log s).
Definition Audit_Verifies (s : State) : bool := Verify_Chain (Log s).

(** ** Buckets and versions *)

Definition Bucket_Exists (s : State) (name : string) : bool := bool_decide (is_Some (Buckets s !! name)).
Definition Bucket_Object_Lock (s : State) (name : string) : bool := default false (Buckets s !! name).
Definition Bucket_Versioned (s : State) (bucket : string) : bool := default false (Versioned s !! bucket).
Definition List_Buckets (s : State) : string := unlines (map fst (map_to_list (Buckets s))).

(** One line per version below the bucket: key, version id, size, id, and
    whether it is a delete marker, separated by tabs. *)
Definition List_Object_Versions (s : State) (bucket : string) : string :=
  let prefix := bucket +:+ "/" in
  let HT := String "009" "" in
  unlines (p ← filter (λ p, HasPrefix p.1 prefix = true) (map_to_list (Versions s));
    map (λ e, str_drop (String.length prefix) p.1 +:+ HT +:+ v_Vid e +:+ HT +:+ Itoa (v_Size e) +:+ HT
              +:+ v_Id e +:+ HT +:+ (if v_Deleted e then "1" else "0")) p.2).

Definition Create_Bucket (name : string) (object_lock : bool) : Vault unit :=
  _ ← Check_Ingest;
  s ← gets st;
  _ ← raise_when (Bucket_Exists s name) Bucket_Exists_Error;
  _ ← modify_st (λ s, with_Buckets (<[name := object_lock]> (Buckets s)) s);
  Save.

Definition Delete_Bucket (name : string) : Vault unit :=
  let prefix := name +:+ "/" in
  _ ← Check_Ingest;
  s ← gets st;
  _ ← raise_when (negb (Bucket_Exists s name)) Not_Found;
  _ ← raise_when (existsb (λ p, HasPrefix p.1 prefix) (map_to_list (Index s))) Bucket_Not_Empty;
  _ ← modify_st (λ s, with_Buckets (delete name (Buckets s)) s);
  Save.

Definition Set_Versioning (bucket : string) (on : bool) : Vault unit :=
  _ ← modify_st (λ s, with_Versioned (<[bucket := on]> (Versioned s)) s);
  Save.

Definition push_version (name : string) (e : Version_Entry) (s : State) : State :=
  with_Versions (<[name := default [] (Versions s !! name) ++ [e]]> (Versions s)) s.

Definition Record_Version (name : string) : Vault string :=
  s ← gets st;
  m ← lift (of_option (Index s !! name));
  n ← add_upto Natural_Last (Ver_Seq s) 1;
  _ ← modify_st (with_Ver_Seq n);
  let vid := Itoa n in
  let e := {| v_Vid := vid; v_Id := m_Id m; v_Size := m_Size m; v_Meta := m_User_Meta m; v_Deleted := false |} in
  _ ← modify_st (push_version name e);
  _ ← J_Vseq;
  _ ← J_Ver name e;
  _ ← Commit_Jrnl;
  mret vid.

Definition Get_Object_Version (name vid : string) : Vault (list Byte.byte) :=
  s ← gets st;
  _ ← raise_when (Ingest_Only s) Egress_Denied;
  match Versions s !! name with
  | None => raise Not_Found
  | Some vec =>
      match List.find (λ e, bool_decide (v_Vid e = vid)) vec with
      | None => raise Not_Found
      | Some e => _ ← raise_when (v_Deleted e) Not_Found; cas_get (v_Id e)
      end
  end.

Definition no_id : string := String.string_of_list_byte (replicate 64 "048"%byte).

Definition Delete_Marker (name : string) : Vault string :=
  s ← gets st;
  n ← add_upto Natural_Last (Ver_Seq s) 1;
  _ ← modify_st (with_Ver_Seq n);
  let vid := Itoa n in
  let e := {| v_Vid := vid; v_Id := no_id; v_Size := 0; v_Meta := ""; v_Deleted := true |} in
  _ ← modify_st (push_version name e);
  _ ← (if Contains s name
       then _ ← modify_st (λ s, with_Index (delete name (Index s)) s); J_Del name
       else mret ());
  digest ← lift (Name_Digest name);
  _ ← Add_Audit Delete_Allowed digest (Clock_Guard.Now (Clock s));
  _ ← J_Vseq;
  _ ← J_Ver name e;
  _ ← Commit_Jrnl;
  mret vid.

(** Position of the last version with this id. *)
Definition find_version (vid : string) (vec : list Version_Entry) : option nat :=
  last (List.filter (λ i, match vec !! i with Some e => bool_decide (v_Vid e = vid) | None => false end) (seq 0 (length vec))).

(** The newest version that is not a delete marker. *)
Definition newest_real (vec : list Version_Entry) : option Version_Entry :=
  List.find (λ e, negb (v_Deleted e)) (rev vec).

Definition Delete_Version (name vid : string) : Vault unit :=
  s ← gets st;
  match Versions s !! name with
  | None => raise Not_Found
  | Some vec0 =>
      match find_version vid vec0 with
      | None => raise Not_Found
      | Some i =>
          let vec := delete i vec0 in
          _ ← modify_st (λ s, with_Index (delete name (Index s)) s);
          _ ← (match newest_real vec with
               | Some e =>
                   modify_st (λ s, with_Index (<[name := {| m_Id := v_Id e;
                     m_Lock := Retention.Create_Lock Retention.Governance 0 0; m_Composite := false;
                     m_Quarantined := false; m_Size := v_Size e; m_User_Meta := v_Meta e |}]> (Index s)) s)
               | None => mret ()
               end);
          _ ← modify_st (λ s, with_Versions
                (if decide (vec = []) then delete name (Versions s) else <[name := vec]> (Versions s)) s);
          Save
      end
  end.

(** ** Scrubbing and collection *)

Definition set_meta (name : string) (m : Meta) : Vault unit :=
  modify_st (λ s, with_Index (<[name := m]> (Index s)) s).

Definition with_Quarantined (q : bool) (m : Meta) : Meta :=
  {| m_Id := m_Id m; m_Lock := m_Lock m; m_Composite := m_Composite m; m_Quarantined := q;
     m_Size := m_Size m; m_User_Meta := m_User_Meta m |}.

Definition scrub_one (r : Scrub_Report) (name : string) (m : Meta) : Vault Scrub_Report :=
  '(n, ok) ← cas_repair (m_Id m);
  let r := {| r_Total := r_Total r + 1; r_Intact := r_Intact r; r_Repaired := r_Repaired r;
              r_Corrupt := r_Corrupt r; r_Shards_Repaired := r_Shards_Repaired r |} in
  if negb ok then
    _ ← (if m_Quarantined m then mret ()
         else
           _ ← set_meta name (with_Quarantined true m);
           s ← gets st;
           digest ← lift (Name_Digest name);
           e ← lift (of_option (next_entry s Object_Quarantined digest 0));
           _ ← modify_st (λ s, with_Log (Log s ++ [e]) s);
           _ ← J_Obj name;
           Append_Jrnl (A_Line e));
    mret {| r_Total := r_Total r; r_Intact := r_Intact r; r_Repaired := r_Repaired r;
            r_Corrupt := r_Corrupt r + 1; r_Shards_Repaired := r_Shards_Repaired r |}
  else
    _ ← (if m_Quarantined m then _ ← set_meta name (with_Quarantined false m); J_Obj name else mret ());
    mret (if (0 <? n)%nat
          then {| r_Total := r_Total r; r_Intact := r_Intact r; r_Repaired := r_Repaired r + 1;
                  r_Corrupt := r_Corrupt r; r_Shards_Repaired := r_Shards_Repaired r + Z.of_nat n |}
          else {| r_Total := r_Total r; r_Intact := r_Intact r + 1; r_Repaired := r_Repaired r;
                  r_Corrupt := r_Corrupt r; r_Shards_Repaired := r_Shards_Repaired r |}).

Fixpoint scrub_loop (r : Scrub_Report) (l : list (string * Meta)) : Vault Scrub_Report :=
  match l with
  | [] => mret r
  | (name, m) :: l => r ← scrub_one r name m; scrub_loop r l
  end.

Definition empty_report : Scrub_Report :=
  {| r_Total := 0; r_Intact := 0; r_Repaired := 0; r_Corrupt := 0; r_Shards_Repaired := 0 |}.

Definition Scrub : Vault Scrub_Report :=
  s ← gets st;
  r ← scrub_loop empty_report (map_to_list (Index s));
  _ ← Commit_Jrnl;
  mret r.

(** The ids one entry of the index keeps alive. *)
Definition live_ids (m : Meta) : Vault (list string) :=
  if m_Composite m then
    list ← cas_get (m_Id m);
    mret (m_Id m :: ids_of (length list / 64) list)
  else mret [m_Id m].

Definition Collect_Garbage : Vault nat :=
  s ← gets st;
  index_ids ← ada_map (λ p, live_ids p.2) (map_to_list (Index s));
  let upload_ids := p ← map_to_list (Uploads s); map snd (u_Parts p.2) in
  let version_ids := p ← map_to_list (Versions s); map v_Id p.2 in
  let live := concat index_ids ++ upload_ids ++ version_ids in
  cas_collect live.

(** ** Deletion, time, holds and modes *)

Definition Delete_Object (name : string) (bypass : bool) : Vault bool :=
  s ← gets st;
  _ ← raise_when (Read_Only s) Vault_Sealed;
  match Index s !! name with
  | None => raise Not_Found
  | Some m =>
      let at_time := Clock_Guard.Now (Clock s) in
      if Retention.Can_Delete (m_Lock m) at_time {| Retention.Bypass_Governance := bypass |} then
        _ ← modify_st (λ s, with_Index (delete name (Index s)) s);
        digest ← lift (Name_Digest name);
        _ ← Add_Audit Delete_Allowed digest at_time;
        _ ← J_Del name;
        _ ← Commit_Jrnl;
        mret true
      else
        digest ← lift (Name_Digest name);
        _ ← Add_Audit Delete_Denied digest at_time;
        _ ← Commit_Jrnl;
        mret false
  end.

Definition Tick_Clock (sample : Clock_Guard.Clock_Sample) : Vault unit :=
  s ← gets st;
  if negb (Started s) then
    _ ← modify_st (with_Clock (Clock_Guard.Init sample));
    modify_st (with_Started true)
  else
    let before := Clock_Guard.Is_Sealed (Clock s) in
    let clock := Clock_Guard.Tick (Clock s) sample Clock_Tolerance in
    _ ← modify_st (with_Clock clock);
    if Clock_Guard.Is_Sealed clock && negb before then
      _ ← Add_Audit Seal_Engaged Zero_Digest (Clock_Guard.Now clock);
      Save
    else mret ().

(** [Tick_From_System], given what the platform reads: the two clocks and the
    boot id. *)
Definition Tick_From_System (mono realtime : Trusted_Time) (boot : string) : Vault unit :=
  s ← gets st;
  let old := Last_Boot s in
  let rebooted := bool_decide (old ≠ "") && bool_decide (old ≠ boot) in
  _ ← modify_st (with_Last_Boot boot);
  _ ← Tick_Clock {| Clock_Guard.Mono := mono; Clock_Guard.Realtime := realtime; Clock_Guard.Boot_Changed := rebooted |};
  if bool_decide (old ≠ boot) then Save else mret ().

Definition change_hold (f : Retention.Retention_Lock → Retention.Retention_Lock) (kind : Audit_Event)
    (name : string) : Vault unit :=
  s ← gets st;
  match Index s !! name with
  | None => raise Not_Found
  | Some m =>
      _ ← set_meta name {| m_Id := m_Id m; m_Lock := f (m_Lock m); m_Composite := m_Composite m;
            m_Quarantined := m_Quarantined m; m_Size := m_Size m; m_User_Meta := m_User_Meta m |};
      digest ← lift (Name_Digest name);
      _ ← Add_Audit kind digest (Clock_Guard.Now (Clock s));
      Save
  end.

Definition Set_Legal_Hold : string → Vault unit := change_hold Retention.Set_Hold Legal_Hold_Set.
Definition Release_Legal_Hold : string → Vault unit := change_hold Retention.Release_Hold Legal_Hold_Released.

Definition Seal : Vault unit :=
  s ← gets st;
  if Op_Sealed s then mret ()
  else
    _ ← modify_st (with_Op_Sealed true);
    _ ← Add_Audit Seal_Engaged Zero_Digest (Clock_Guard.Now (Clock s));
    Save.

Definition Set_One_Way_Ingest (enabled : bool) : Vault unit := _ ← modify_st (with_Ingest_Only enabled); Save.
Definition Open_Sync_Window : Vault unit := _ ← modify_st (with_Sync_Shut false); Save.
Definition Close_Sync_Window : Vault unit := _ ← modify_st (with_Sync_Shut true); Save.
Definition Sync_Window_Open (s : State) : bool := negb (Sync_Shut s).

(** ** All operations that change the state *)

Inductive op :=
  | OpPut (name : string) (data : list Byte.byte) (mode : Retention.Lock_Mode) (retain_for : Trusted_Time) (meta : string)
  | OpCreateUpload (name : string) (mode : Retention.Lock_Mode) (retain_for : Trusted_Time)
  | OpUploadPart (id : string) (data : list Byte.byte) (part_number : Z)
  | OpComplete (id : string)
  | OpAbort (id : string)
  | OpCreateBucket (name : string) (lock : bool)
  | OpDeleteBucket (name : string)
  | OpSetVersioning (bucket : string) (on : bool)
  | OpRecordVersion (name : string)
  | OpDeleteMarker (name : string)
  | OpDeleteVersion (name vid : string)
  | OpScrub
  | OpCollect
  | OpDelete (name : string) (bypass : bool)
  | OpTick (mono realtime : Trusted_Time) (boot : string)
  | OpHold (name : string)
  | OpRelease (name : string)
  | OpSeal
  | OpIngestOnly (on : bool)
  | OpOpenWindow
  | OpCloseWindow.

(** Runs an operation and drops its result. *)
Definition discard {A} (m : Vault A) : Vault unit := _ ← m; mret ().

Definition exec (o : op) : Vault unit :=
  match o with
  | OpPut n d m r u => Put_Object n d m r u
  | OpCreateUpload n m r => discard (Create_Upload n m r)
  | OpUploadPart i d p => Upload_Part i d p
  | OpComplete i => Complete_Upload i
  | OpAbort i => Abort_Upload i
  | OpCreateBucket n l => Create_Bucket n l
  | OpDeleteBucket n => Delete_Bucket n
  | OpSetVersioning b v => Set_Versioning b v
  | OpRecordVersion n => discard (Record_Version n)
  | OpDeleteMarker n => discard (Delete_Marker n)
  | OpDeleteVersion n v => Delete_Version n v
  | OpScrub => discard Scrub
  | OpCollect => discard Collect_Garbage
  | OpDelete n b => discard (Delete_Object n b)
  | OpTick m r b => Tick_From_System m r b
  | OpHold n => Set_Legal_Hold n
  | OpRelease n => Release_Legal_Hold n
  | OpSeal => Seal
  | OpIngestOnly b => Set_One_Way_Ingest b
  | OpOpenWindow => Open_Sync_Window
  | OpCloseWindow => Close_Sync_Window
  end.

End vault.
