(* ===== verification/VaultLines.v ===== *)
(** The records of the vault's files, read back.  For every line the code
    writes, [Apply_Line] of it is the change of the state that the line stands
    for, and a snapshot as a whole rebuilds what is durable of the state it
    was written from ([Load_snapshot]). *)
From Stdlib Require Import Strings.Byte NArith.
From S2P Require Import Prelude AdaMonad GoStrings GoText GoFloat Sha256 TrustedCore AuditChain AdaText VaultState.
Open Scope Z_scope.

(** ** What the Ada types and the writers guarantee *)

(** A name of an object: not empty, and of a length the hash admits. *)
Record name_ok (n : string) : Prop := {
  nok_nonempty : n ≠ "";
  nok_length : (N.of_nat (String.length n) ≤ Max_Message)%N;
}.

Definition id_ok (id : string) : Prop := is_word id ∧ String.length id = 64%nat.

Record lock_ok (l : Retention.Retention_Lock) : Prop := {
  lok_until : in_time (Retention.Retain_Until l);
  lok_created : in_time (Retention.Created_At l);
}.

Record meta_ok (m : Meta) : Prop := {
  mok_id : id_ok (m_Id m);
  mok_lock : lock_ok (m_Lock m);
  mok_size : 0 ≤ m_Size m ≤ Natural_Last;
}.

Record version_ok (e : Version_Entry) : Prop := {
  vok_vid : is_word (v_Vid e);
  vok_id : id_ok (v_Id e);
  vok_size : 0 ≤ v_Size e ≤ Natural_Last;
}.

(** ** The words of a line *)

Definition bit (b : bool) : string := if b then "1" else "0".

Lemma bit_word b : is_word (bit b).
Proof. by destruct b. Qed.

Lemma flag_bit b : flag b = " " +:+ bit b.
Proof. by destruct b. Qed.

Lemma bit_eq b : bool_decide (bit b = "1") = b.
Proof. by destruct b. Qed.

Lemma bit_eq0 b : bool_decide (bit b ≠ "0") = b.
Proof. by destruct b. Qed.

Lemma Mode_Val_Pos m : Mode_Val (Mode_Pos m) = Some m.
Proof. by destruct m. Qed.

Lemma Mode_Pos_range m : 0 ≤ Mode_Pos m ≤ Natural_Last.
Proof. by destruct m. Qed.

Lemma Event_Pos_range k : 0 ≤ Z.of_N (Event_Pos k) ≤ Natural_Last.
Proof. by destruct k. Qed.

Lemma to_Object_Id_ok id : id_ok id → to_Object_Id id = Some id.
Proof. intros [_ Hl]. unfold to_Object_Id. by rewrite decide_True. Qed.

Lemma To_Hex_word32 d : length d = 32%nat → is_word (To_Hex d).
Proof. intros Hl. apply To_Hex_word. by destruct d. Qed.

Lemma id_ok_word id : id_ok id → is_word id.
Proof. by intros [? _]. Qed.

Create HintDb lines.
#[export] Hint Resolve bit_word Itoa_word Str_To_Hex_word To_Hex_word32 Str_To_Hex_chars id_ok_word vok_vid : lines.
#[export] Hint Extern 1 (0 ≤ _) => solve [assumption | lia | apply Mode_Pos_range | apply Event_Pos_range] : lines.

(** Splits a line into its words. *)
Ltac solve_word := solve [eauto with lines | by split].
Ltac split_words := unfold Image; rewrite ?flag_bit, <- ?str_app_assoc;
  repeat first [rewrite words_cons by solve_word | rewrite words_space];
  first [rewrite words_one by solve_word | rewrite words_opt by solve_word | idtac].

Lemma words_Core_Clock s : 0 ≤ Clock_Guard.Floor (Clock s) →
  words (Core_Clock s) = ["CLOCK"; Itoa (Clock_Guard.Now (Clock s));
    bit (Clock_Guard.Is_Sealed (Clock s)); bit (Op_Sealed s)].
Proof.
  intros Hf. unfold Core_Clock. change ("CLOCK " +:+ ?x) with ("CLOCK" +:+ " " +:+ x).
  by split_words.
Qed.

Lemma words_Core_Boot s : string_forallb word_char (Last_Boot s) = true →
  words (Core_Boot s) = "BOOT" :: if decide (Last_Boot s = "") then [] else [Last_Boot s].
Proof.
  intros Hb. unfold Core_Boot. change ("BOOT " +:+ ?x) with ("BOOT" +:+ " " +:+ x). by split_words.
Qed.

Lemma words_Core_Modes s : words (Core_Modes s) = ["MODES"; bit (Ingest_Only s); bit (Sync_Shut s)].
Proof. unfold Core_Modes. by split_words. Qed.

Lemma words_Core_Vseq s : 0 ≤ Ver_Seq s → words (Core_Vseq s) = ["VSEQ"; Itoa (Ver_Seq s)].
Proof. intros Hv. unfold Core_Vseq. by split_words. Qed.

Lemma words_Bkt_Line n b : n ≠ "" → words (Bkt_Line n b) = ["BKT"; Str_To_Hex n; bit b].
Proof. intros Hn. unfold Bkt_Line. change ("BKT " +:+ ?x) with ("BKT" +:+ " " +:+ x). by split_words. Qed.

Lemma words_Vsn_Line n b : n ≠ "" → words (Vsn_Line n b) = ["VSN"; Str_To_Hex n; bit b].
Proof. intros Hn. unfold Vsn_Line. change ("VSN " +:+ ?x) with ("VSN" +:+ " " +:+ x). by split_words. Qed.

Lemma words_Del_Line n : n ≠ "" → words (Del_Line n) = ["DEL"; Str_To_Hex n].
Proof. intros Hn. unfold Del_Line. change ("DEL " +:+ ?x) with ("DEL" +:+ " " +:+ x). by split_words. Qed.

Lemma words_Ver_Line n e : n ≠ "" → version_ok e →
  words (Ver_Line n e) = ["VER"; Str_To_Hex n; v_Vid e; v_Id e; Itoa (v_Size e); bit (v_Deleted e)]
    ++ (if decide (Str_To_Hex (v_Meta e) = "") then [] else [Str_To_Hex (v_Meta e)]).
Proof.
  intros Hn [Hv Hi [Hs _]]. unfold Ver_Line. change ("VER " +:+ ?x) with ("VER" +:+ " " +:+ x).
  by split_words.
Qed.

Lemma words_Obj_Line n m : n ≠ "" → meta_ok m →
  words (Obj_Line n m) = ["OBJ"; Str_To_Hex n; m_Id m; Itoa (Mode_Pos (Retention.Mode (m_Lock m)));
    Itoa (Retention.Retain_Until (m_Lock m)); Itoa (Retention.Created_At (m_Lock m));
    bit (m_Composite m); bit (Retention.Legal_Hold (m_Lock m)); bit (m_Quarantined m); Itoa (m_Size m)]
    ++ (if decide (Str_To_Hex (m_User_Meta m) = "") then [] else [Str_To_Hex (m_User_Meta m)]).
Proof.
  intros Hn [Hi [[Hu _] [Hc _]] [Hs _]]. unfold Obj_Line. change ("OBJ " +:+ ?x) with ("OBJ" +:+ " " +:+ x).
  by split_words.
Qed.

Lemma words_A_Line e : entry_ok e →
  words (A_Line e) = ["A"; Itoa (Seq e); Itoa (Time e); Itoa (Z.of_N (Event_Pos (Kind e)));
    To_Hex (Subject e); Itoa (Detail e); To_Hex (Prev_Hash e); To_Hex (Hash e)].
Proof.
  intros [[Hs _] [Ht _] [Hd _] ? ? ?]. unfold A_Line. by split_words.
Qed.

(** ** Reading a line back *)

(** The fields of a line whose words are known, and the branch of its tag. *)
Ltac read_line W := unfold Apply_Line, parse_version, parse_object, parse_entry, Field; rewrite W;
  cbn [nth app Nat.sub]; repeat rewrite decide_False by done; rewrite decide_True by done;
  rewrite ?Hex_To_Str_To_Hex, ?bit_eq, ?bit_eq0; simpl.

Lemma nth_opt (w : string) : nth 0 (if decide (w = "") then [] else [w]) "" = w.
Proof. by case_decide. Qed.

Lemma apply_Core_Clock s s0 : in_time (Clock_Guard.Floor (Clock s)) →
  Apply_Line (Core_Clock s) s0 =
  Some (with_Started false (with_Op_Sealed (Op_Sealed s)
    (with_Clock {| Clock_Guard.Floor := Clock_Guard.Now (Clock s); Clock_Guard.Last_Mono := 0;
        Clock_Guard.Last_Real := 0; Clock_Guard.Anomaly := Clock_Guard.NoAnomaly;
        Clock_Guard.Sealed := Clock_Guard.Is_Sealed (Clock s) |} s0))).
Proof.
  intros [Hf Hf']. read_line (words_Core_Clock s Hf). by rewrite Value_Itoa.
Qed.

Lemma apply_Core_Boot s s0 : string_forallb word_char (Last_Boot s) = true →
  Apply_Line (Core_Boot s) s0 = Some (with_Last_Boot (Last_Boot s) s0).
Proof. intros Hb. read_line (words_Core_Boot s Hb). by case_decide as E; rewrite ?E. Qed.

Lemma apply_Core_Modes s s0 :
  Apply_Line (Core_Modes s) s0 = Some (with_Sync_Shut (Sync_Shut s) (with_Ingest_Only (Ingest_Only s) s0)).
Proof. by read_line (words_Core_Modes s). Qed.

Lemma apply_Core_Vseq s s0 : 0 ≤ Ver_Seq s ≤ Natural_Last →
  Apply_Line (Core_Vseq s) s0 = Some (with_Ver_Seq (Ver_Seq s) s0).
Proof. intros [Hs Hs']. read_line (words_Core_Vseq s Hs). by rewrite Value_Itoa. Qed.

Lemma apply_Bkt_Line n b s : n ≠ "" →
  Apply_Line (Bkt_Line n b) s = Some (with_Buckets (<[n := b]> (Buckets s)) s).
Proof. intros Hn. by read_line (words_Bkt_Line n b Hn). Qed.

Lemma apply_Vsn_Line n b s : n ≠ "" →
  Apply_Line (Vsn_Line n b) s = Some (with_Versioned (<[n := b]> (Versioned s)) s).
Proof. intros Hn. by read_line (words_Vsn_Line n b Hn). Qed.

Lemma apply_Del_Line n s : n ≠ "" →
  Apply_Line (Del_Line n) s = Some (with_Index (delete n (Index s)) s).
Proof. intros Hn. by read_line (words_Del_Line n Hn). Qed.

Lemma apply_Ver_Line n e s : n ≠ "" → version_ok e →
  Apply_Line (Ver_Line n e) s = Some (add_version n e s).
Proof.
  intros Hn He. read_line (words_Ver_Line n e Hn He). rewrite nth_opt, Hex_To_Str_To_Hex.
  destruct He as [Hv Hi [Hs Hs']]. rewrite to_Object_Id_ok, Value_Itoa by done. by destruct e.
Qed.

Lemma apply_Obj_Line n m s : n ≠ "" → meta_ok m →
  Apply_Line (Obj_Line n m) s = Some (with_Index (<[n := m]> (Index s)) s).
Proof.
  intros Hn Hm. read_line (words_Obj_Line n m Hn Hm). rewrite nth_opt, Hex_To_Str_To_Hex.
  destruct Hm as [Hi [[Hu Hu'] [Hc Hc']] [Hs Hs']].
  rewrite to_Object_Id_ok by done. rewrite (Value_Itoa _ _ (Mode_Pos_range _)). simpl.
  rewrite Mode_Val_Pos. simpl. rewrite !Value_Itoa by done. simpl.
  rewrite decide_False by (by destruct (Itoa_word (m_Size m) Hs)). by destruct m as [? [] ? ? ? ?].
Qed.

Lemma apply_A_Line e s : entry_ok e → Seq e = Z.of_nat (length (Log s)) →
  Apply_Line (A_Line e) s = Some (with_Log (Log s ++ [e]) s).
Proof.
  intros He Hq. read_line (words_A_Line e He).
  destruct He as [Hs [Ht Ht'] [Hd Hd'] Hsub Hp Hh].
  rewrite (Value_Itoa _ _ Hs). simpl. rewrite (proj2 (Z.eqb_eq _ _) Hq).
  rewrite !Value_Itoa by (done || apply Event_Pos_range). simpl. rewrite Event_Val_Pos. simpl.
  rewrite !From_Hex_To_Hex by done. simpl. by destruct e.
Qed.

(** ** Several lines *)

Lemma apply_lines_cons l ls s : apply_lines (l :: ls) s = Apply_Line l s ≫= apply_lines ls.
Proof. done. Qed.

Lemma apply_lines_app l1 l2 s : apply_lines (l1 ++ l2) s = apply_lines l1 s ≫= apply_lines l2.
Proof.
  revert s. induction l1 as [|l l1 IH]; intros s; [done|]. simpl. destruct (Apply_Line l s); simpl; auto.
Qed.

Lemma apply_lines_map {A} (line : string → A → string) (upd : string → A → State → State) l :
  (∀ n a s, (n, a) ∈ l → Apply_Line (line n a) s = Some (upd n a s)) →
  ∀ s, apply_lines (map (λ p, line p.1 p.2) l) s = Some (foldl (λ s p, upd p.1 p.2 s) s l).
Proof.
  induction l as [|[n a] l IH]; intros Hl s; [done|]. simpl.
  rewrite Hl by left. simpl. apply IH. intros. apply Hl. by right.
Qed.

(** Inserting the entries of a map one by one. *)
Definition insert_all {A} (M : gmap string A) (l : list (string * A)) : gmap string A :=
  foldl (λ M p, <[p.1 := p.2]> M) M l.

Lemma insert_all_lookup {A} (l : list (string * A)) : NoDup l.*1 → ∀ M n,
  insert_all M l !! n = match list_to_map (M:=gmap string A) l !! n with Some a => Some a | None => M !! n end.
Proof.
  induction l as [|[k a] l IH]; intros Hnd M n; simpl.
  - by rewrite lookup_empty.
  - apply NoDup_cons in Hnd as [Hk Hnd]. unfold insert_all in *. simpl in *. rewrite (IH Hnd).
    destruct (decide (k = n)) as [->|Hne].
    + by rewrite (not_elem_of_list_to_map_1 l n Hk), !lookup_insert_eq.
    + by rewrite !lookup_insert_ne.
Qed.

Lemma insert_all_map {A} (m : gmap string A) : insert_all ∅ (map_to_list m) = m.
Proof.
  apply map_eq. intros n. rewrite insert_all_lookup by apply NoDup_fst_map_to_list.
  rewrite list_to_map_to_list, lookup_empty. by destruct (m !! n).
Qed.

Lemma fold_Buckets l : ∀ s,
  foldl (λ s p, with_Buckets (<[p.1 := p.2]> (Buckets s)) s) s l = with_Buckets (insert_all (Buckets s) l) s.
Proof. induction l as [|p l IH]; intros s; simpl; [by destruct s|]. by rewrite IH. Qed.

Lemma fold_Versioned l : ∀ s,
  foldl (λ s p, with_Versioned (<[p.1 := true]> (Versioned s)) s) s l
  = with_Versioned (foldl (λ M (p : string * bool), <[p.1 := true]> M) (Versioned s) l) s.
Proof. induction l as [|p l IH]; intros s; simpl; [by destruct s|]. by rewrite IH. Qed.

Lemma fold_Index l : ∀ s,
  foldl (λ s p, with_Index (<[p.1 := p.2]> (Index s)) s) s l = with_Index (insert_all (Index s) l) s.
Proof. induction l as [|p l IH]; intros s; simpl; [by destruct s|]. by rewrite IH. Qed.

Lemma fold_Versions l : ∀ s,
  foldl (λ s p, with_Versions (<[p.1 := p.2]> (Versions s)) s) s l = with_Versions (insert_all (Versions s) l) s.
Proof. induction l as [|p l IH]; intros s; simpl; [by destruct s|]. by rewrite IH. Qed.

(** The buckets whose versioning is on: what a snapshot keeps. *)
Definition versioned_on (s : State) : gmap string bool := filter (λ p, p.2 = true) (Versioned s).

Lemma insert_all_on (M : gmap string bool) :
  foldl (λ M (p : string * bool), <[p.1 := true]> M) ∅ (filter (λ p, p.2 = true) (map_to_list M))
  = filter (λ p, p.2 = true) M.
Proof.
  assert (E : ∀ l (M0 : gmap string bool), foldl (λ M (p : string * bool), <[p.1 := true]> M) M0
      (filter (λ p, p.2 = true) l) = insert_all M0 (filter (λ p, p.2 = true) l)).
  { intros l. induction l as [|[k b] l IH]; intros M0; [done|]. rewrite filter_cons.
    case_decide as Hb; simpl in *; [|done]. subst b. apply IH. }
  rewrite E. apply map_eq. intros n. rewrite insert_all_lookup, <- map_filter_alt, lookup_empty.
  - by destruct (filter _ M !! n).
  - eapply sublist_NoDup; [apply (NoDup_fst_map_to_list M)|]. apply fmap_sublist, sublist_filter.
Qed.

(** The versions of one name. *)
Lemma apply_versions n vec : n ≠ "" → Forall version_ok vec → ∀ s,
  NoDup (v_Vid <$> default [] (Versions s !! n) ++ vec) → vec ≠ [] →
  apply_lines (map (Ver_Line n) vec) s =
  Some (with_Versions (<[n := default [] (Versions s !! n) ++ vec]> (Versions s)) s).
Proof.
  intros Hn. induction 1 as [|e vec He Hvec IH]; intros s Hnd Hne; [done|]. cbn [map apply_lines].
  rewrite apply_Ver_Line by done. cbn [mbind option_bind].
  assert (Ea : add_version n e s = with_Versions (<[n := default [] (Versions s !! n) ++ [e]]> (Versions s)) s).
  { unfold add_version. destruct (existsb _ _) eqn:Ex; [|done]. exfalso.
    apply existsb_exists in Ex as (x & Hx & Ex). apply bool_decide_eq_true in Ex.
    rewrite fmap_app in Hnd. apply NoDup_app in Hnd as (_ & Hd & _). apply (Hd (v_Vid x)).
    - apply list_elem_of_fmap. exists x. split; [done|]. by apply list_elem_of_In.
    - rewrite Ex. simpl. left. }
  rewrite Ea. destruct (decide (vec = [])) as [->|Hv]; [done|].
  rewrite IH; [|simpl; rewrite lookup_insert_eq; simpl; by rewrite <- app_assoc|done].
  simpl. rewrite lookup_insert_eq. simpl. rewrite insert_insert_eq, <- app_assoc. done.
Qed.

Definition versions_ok (M : list (string * list Version_Entry)) : Prop :=
  ∀ n vec, (n, vec) ∈ M → n ≠ "" ∧ vec ≠ [] ∧ Forall version_ok vec ∧ NoDup (v_Vid <$> vec).

Lemma apply_all_versions l : NoDup l.*1 → versions_ok l → ∀ s,
  (∀ n, n ∈ l.*1 → Versions s !! n = None) →
  apply_lines (p ← l; map (Ver_Line p.1) p.2) s = Some (with_Versions (insert_all (Versions s) l) s).
Proof.
  induction l as [|[n vec] l IH]; intros Hnd Hok s Hnew; [by destruct s|].
  apply NoDup_cons in Hnd as [Hn Hnd]. rewrite bind_cons. cbn [fst snd]. rewrite apply_lines_app.
  destruct (Hok n vec) as (Hn0 & Hv0 & Hvo & Hvd); [left|].
  rewrite apply_versions; [|done..| |done].
  2:{ rewrite Hnew by left. done. }
  rewrite Hnew by left. simpl. rewrite IH; [done|done| |].
  - intros n' vec' Hin. apply Hok. by right.
  - intros n' Hin. simpl. rewrite lookup_insert_ne by set_solver. apply Hnew. by right.
Qed.

(** The audit log: entry [i] carries the number [i]. *)
Definition numbered (k : nat) (l : list Audit_Entry) : Prop :=
  ∀ i e, l !! i = Some e → Seq e = Z.of_nat (k + i).

Lemma apply_log l : Forall entry_ok l → ∀ s, numbered (length (Log s)) l →
  apply_lines (map A_Line l) s = Some (with_Log (Log s ++ l) s).
Proof.
  induction 1 as [|e l He _ IH]; intros s Hq; simpl; [rewrite app_nil_r; by destruct s|].
  rewrite apply_A_Line; [|done|specialize (Hq 0%nat e eq_refl); rewrite Hq; lia]. simpl.
  rewrite IH; simpl; [by rewrite <- app_assoc|]. intros i x Hx. rewrite length_app. simpl.
  rewrite (Hq (S i) x Hx). lia.
Qed.

Lemma chained_numbered c e : chained c e → numbered 0 c.
Proof.
  induction 1 as [g Hg|c p e Hc IH Hs HL]; intros i x Hx.
  - destruct i; [|done]. injection Hx as <-. by apply Is_Genesis_spec in Hg as [-> _].
  - apply lookup_app_Some in Hx as [Hx|[Hi Hx]]; [by apply IH|].
    destruct (i - length c)%nat eqn:Ei; [|done]. injection Hx as <-.
    apply Links_To_spec in HL as [-> _]. rewrite (chained_seq _ _ Hc).
    pose proof (chained_pos _ _ Hc). lia.
Qed.

(** ** A snapshot *)

(** A state whose components are in range: names are not empty, ids and
    version ids are words, version ids are numbers up to the last one given
    out and occur once per name, the log is a chain. *)
Record state_ok (s : State) : Prop := {
  sok_index : ∀ n m, Index s !! n = Some m → name_ok n ∧ meta_ok m;
  sok_buckets : ∀ n b, Buckets s !! n = Some b → n ≠ "";
  sok_versioned : ∀ n, Versioned s !! n = Some true → n ≠ "";
  sok_versions : ∀ n vec, Versions s !! n = Some vec →
    name_ok n ∧ vec ≠ [] ∧ Forall version_ok vec ∧ NoDup (v_Vid <$> vec);
  sok_vids : ∀ n vec e, Versions s !! n = Some vec → e ∈ vec → ∃ k, 0 ≤ k ≤ Ver_Seq s ∧ v_Vid e = Itoa k;
  sok_seq : 0 ≤ Ver_Seq s ≤ Natural_Last;
  sok_boot : string_forallb word_char (Last_Boot s) = true;
  sok_clock : in_time (Clock_Guard.Floor (Clock s));
  sok_log : Verify_Chain (Log s) = true;
  sok_entries : Forall entry_ok (Log s);
}.

(** What survives a restart. *)
Record same (s s' : State) : Prop := {
  same_Op_Sealed : Op_Sealed s = Op_Sealed s';
  same_Last_Boot : Last_Boot s = Last_Boot s';
  same_Ingest_Only : Ingest_Only s = Ingest_Only s';
  same_Sync_Shut : Sync_Shut s = Sync_Shut s';
  same_Index : Index s = Index s';
  same_Log : Log s = Log s';
  same_Buckets : Buckets s = Buckets s';
  same_Versioned : versioned_on s = versioned_on s';
  same_Versions : Versions s = Versions s';
  same_Ver_Seq : Ver_Seq s = Ver_Seq s';
}.

#[export] Instance same_equivalence : Equivalence same.
Proof.
  split; [by split| |]; [intros ? ? []|intros ? ? ? [] []]; split; congruence.
Qed.

(** A state read from a snapshot of [s]. *)
Definition restored (key : list Byte.byte) (s : State) : State :=
  MkState key
    {| Clock_Guard.Floor := Clock_Guard.Now (Clock s); Clock_Guard.Last_Mono := 0; Clock_Guard.Last_Real := 0;
       Clock_Guard.Anomaly := Clock_Guard.NoAnomaly; Clock_Guard.Sealed := Clock_Guard.Is_Sealed (Clock s) |}
    false (Op_Sealed s) (Last_Boot s) (Ingest_Only s) (Sync_Shut s) (Index s) (Log s) ∅ 0 (Buckets s)
    (versioned_on s) (Versions s) (Ver_Seq s) 0 "" 0.

Lemma restored_same key s : same (restored key s) s.
Proof.
  split; try done. unfold versioned_on. simpl. apply map_filter_filter_l. by intros.
Qed.

Lemma apply_other line s : (∀ t, t ∈ ["CLOCK"; "BOOT"; "MODES"; "BKT"; "BKD"; "VSN"; "VSEQ"; "VER"; "OBJ"; "DEL"; "A"] →
  Field line 1 ≠ t) → Apply_Line line s = Some s.
Proof. intros Ht. unfold Apply_Line. repeat rewrite decide_False by (apply Ht; set_solver). done. Qed.

Lemma apply_snapshot key s : state_ok s →
  apply_lines (snapshot_lines s) (new_state key) = Some (restored key s).
Proof.
  intros [Hi Hb Hvd Hv _ Hq Hbt Hc Hl He]. unfold snapshot_lines. cbn [app apply_lines].
  rewrite (apply_other "DEZHAN_VAULT 1") by (intros t Ht; set_solver). cbn [mbind option_bind].
  rewrite apply_Core_Clock by done. cbn [mbind option_bind].
  rewrite apply_Core_Boot by done. cbn [mbind option_bind].
  rewrite apply_Core_Modes. cbn [mbind option_bind].
  rewrite !apply_lines_app.
  rewrite (apply_lines_map Bkt_Line (λ n b s, with_Buckets (<[n := b]> (Buckets s)) s)), fold_Buckets.
  2:{ intros n b s' Hin. apply apply_Bkt_Line. eapply Hb. by apply elem_of_map_to_list. }
  cbn [mbind option_bind]. rewrite apply_lines_app.
  rewrite (apply_lines_map (λ n _, Vsn_Line n true) (λ n _ s, with_Versioned (<[n := true]> (Versioned s)) s)), fold_Versioned.
  2:{ intros n b s' Hin. apply apply_Vsn_Line. apply list_elem_of_filter in Hin as [Hb1 Hin]. simpl in Hb1. subst b.
      eapply Hvd. by apply elem_of_map_to_list. }
  cbn [mbind option_bind app apply_lines]. rewrite apply_Core_Vseq by done. cbn [mbind option_bind].
  rewrite apply_lines_app, apply_all_versions; [|apply NoDup_fst_map_to_list| |by intros; apply lookup_empty].
  2:{ intros n vec Hin%elem_of_map_to_list. destruct (Hv n vec Hin) as ([] & ? & ? & ?). done. }
  cbn [mbind option_bind]. rewrite apply_lines_app.
  rewrite (apply_lines_map Obj_Line (λ n m s, with_Index (<[n := m]> (Index s)) s)), fold_Index.
  2:{ intros n m s' Hin. apply elem_of_map_to_list in Hin. destruct (Hi n m Hin) as [[] ?]. by apply apply_Obj_Line. }
  cbn [mbind option_bind app apply_lines].
  rewrite (apply_other ("AUDIT" +:+ _)).
  2:{ intros t Ht. unfold Field. rewrite <- (str_app_nil_r (Image _)), words_cons_Image by (by split). simpl. set_solver. }
  cbn [mbind option_bind]. apply Verify_Chain_chained in Hl as [e Hl].
  rewrite apply_log; [|done|apply (chained_numbered _ _ Hl)]. f_equal. unfold restored. simpl.
  rewrite insert_all_on, !insert_all_map. done.
Qed.

(** ** Lines hold no line feeds *)

Lemma word_no_LF w : is_word w → no_LF w = true.
Proof. intros [_ Hw]. by apply word_chars_no_LF. Qed.

Lemma Image_no_LF z : 0 ≤ z → no_LF (Image z) = true.
Proof. intros Hz. unfold Image. rewrite no_LF_app. by rewrite (word_no_LF (Itoa z)) by by apply Itoa_word. Qed.

Lemma hex_no_LF s : no_LF (Str_To_Hex s) = true.
Proof. apply word_chars_no_LF, Str_To_Hex_chars. Qed.

Lemma flag_no_LF b : no_LF (flag b) = true.
Proof. by destruct b. Qed.

#[export] Hint Resolve word_no_LF Image_no_LF hex_no_LF flag_no_LF word_chars_no_LF : lines.
Ltac solve_LF := rewrite ?no_LF_app, ?andb_true_iff; split_and?; solve [done | eauto with lines].

Lemma Obj_Line_no_LF n m : meta_ok m → no_LF (Obj_Line n m) = true.
Proof. intros [Hi [[Hu _] [Hc _]] [Hs _]]. unfold Obj_Line. solve_LF. Qed.

Lemma Ver_Line_no_LF n e : version_ok e → no_LF (Ver_Line n e) = true.
Proof. intros [Hv Hi [Hs _]]. unfold Ver_Line. solve_LF. Qed.

Lemma A_Line_no_LF e : entry_ok e → no_LF (A_Line e) = true.
Proof. intros [[Hs _] [Ht _] [Hd _] ? ? ?]. unfold A_Line. solve_LF. Qed.

Lemma Del_Line_no_LF n : no_LF (Del_Line n) = true.
Proof. unfold Del_Line. solve_LF. Qed.

Lemma Core_Vseq_no_LF s : 0 ≤ Ver_Seq s → no_LF (Core_Vseq s) = true.
Proof. intros Hs. unfold Core_Vseq. solve_LF. Qed.

#[export] Hint Resolve Obj_Line_no_LF Ver_Line_no_LF A_Line_no_LF Del_Line_no_LF Core_Vseq_no_LF : lines.

Lemma Forall_map_lines {A} (f : A → string) l : (∀ x, x ∈ l → no_LF (f x) = true) →
  Forall (λ s, no_LF s = true) (map f l).
Proof. intros Hf. apply Forall_forall. intros s Hs. apply list_elem_of_fmap in Hs as (x & -> & Hx). auto. Qed.

Lemma snapshot_no_LF s : state_ok s → Forall (λ l, no_LF l = true) (snapshot_lines s).
Proof.
  intros [Hi Hb Hvd Hv _ [Hq _] Hbt [Hc _] _ He]. unfold snapshot_lines. rewrite !Forall_app. split_and!.
  - repeat constructor; unfold Core_Clock, Core_Boot, Core_Modes; solve_LF.
  - apply Forall_map_lines. intros p _. unfold Bkt_Line. solve_LF.
  - apply Forall_map_lines. intros p _. unfold Vsn_Line. solve_LF.
  - repeat constructor. eauto with lines.
  - apply Forall_bind, Forall_forall. intros [n vec] Hin%elem_of_map_to_list.
    destruct (Hv n vec Hin) as (_ & _ & Hf & _). apply Forall_map_lines. intros e He'.
    apply Ver_Line_no_LF. by apply (proj1 (Forall_forall _ _) Hf).
  - apply Forall_map_lines. intros [n m] Hin%elem_of_map_to_list. apply Obj_Line_no_LF. by apply (Hi n m).
  - repeat constructor. assert (0 ≤ Z.of_nat (length (Log s))) by lia. solve_LF.
  - apply Forall_map_lines. intros e He'. apply A_Line_no_LF. by apply (proj1 (Forall_forall _ _) He).
Qed.
