(* ===== verification/VaultSteps.v ===== *)
(** Rules to follow an operation of the vault step by step, on every outcome:
    the goal [P (m w).2] says that [P] holds of the world an operation leaves,
    whether it returned or raised. *)
From Stdlib Require Import Strings.Byte NArith.
From S2P Require Import Prelude AdaMonad GoStrings GoText Sha256 TrustedCore AuditChain AdaText Cas CasSpec VaultState Vault.
Open Scope Z_scope.

Section steps.
Context {C : Type} `{CasOps C} `{Memory}.
Implicit Types (w : world C) (P : world C → Prop).

Lemma step_gets {A B} P (g : world C → A) (f : A → Ada (world C) B) w :
  P (f (g w) w).2 → P ((gets g ≫= f) w).2.
Proof. done. Qed.

Lemma step_update {B} P g (f : unit → Ada (world C) B) w :
  P (f () (g w)).2 → P ((update g ≫= f) w).2.
Proof. done. Qed.

Lemma step_modify {B} P g (f : unit → Ada (world C) B) w :
  P (f () (on_state g w)).2 → P ((modify_st g ≫= f) w).2.
Proof. done. Qed.

Lemma step_raise_when {B} P c e (f : unit → Ada (world C) B) w :
  P w → (c = false → P (f () w).2) → P ((raise_when c e ≫= f) w).2.
Proof. destruct c; simpl; auto. Qed.

Lemma step_lift {A B} P (r : exn + A) (f : A → Ada (world C) B) w :
  P w → (∀ a, r = inr a → P (f a w).2) → P ((lift r ≫= f) w).2.
Proof. intros Hw Hf. destruct r as [e|a]; [done|]. by apply (Hf a). Qed.

Lemma step_add_upto {B} P hi a b (f : Z → Ada (world C) B) w :
  P w → (a + b ≤ hi → P (f (a + b) w).2) → P ((add_upto hi a b ≫= f) w).2.
Proof. unfold add_upto. destruct (Z.leb_spec (a + b) hi); simpl; auto. Qed.

Lemma step_bind_assoc {A B D} P (m : Ada (world C) A) (f : A → Ada (world C) B) (g : B → Ada (world C) D) w :
  P ((a ← m; f a ≫= g) w).2 → P (((m ≫= f) ≫= g) w).2.
Proof. unfold mbind, ada_bind. by destruct (m w) as [[e|a] w1]. Qed.

Lemma step_Check_Ingest {B} P (f : unit → Ada (world C) B) w :
  P w → (Op_Sealed (st w) = false → Sync_Shut (st w) = false → P (f () w).2) →
  P ((Check_Ingest ≫= f) w).2.
Proof.
  intros Hw Hf. unfold Check_Ingest, mbind, ada_bind, gets, raise_when, raise, mret, ada_ret.
  destruct (Op_Sealed (st w)); [done|]. destruct (Sync_Shut (st w)); auto.
Qed.

(** An operation that changes the store alone. *)
Definition store_only {A} (m : Ada (world C) A) : Prop :=
  ∀ w, st (m w).2 = st w ∧ disk (m w).2 = disk w.

Lemma store_only_bind {A B} (m : Ada (world C) A) (f : A → Ada (world C) B) :
  store_only m → (∀ a, store_only (f a)) → store_only (m ≫= f).
Proof.
  intros Hm Hf w. unfold mbind, ada_bind. specialize (Hm w).
  destruct (m w) as [[e|a] w1]; [done|]. simpl in *. destruct (Hf a w1), Hm. split; congruence.
Qed.

Lemma store_only_ret {A} (a : A) : store_only (mret a).
Proof. done. Qed.

Lemma store_only_pure {A} (m : Ada (world C) A) : (∀ w, (m w).2 = w) → store_only m.
Proof. intros Hm w. by rewrite Hm. Qed.

Lemma store_only_on_cas {A} (m : Ada C A) : store_only (on_cas m).
Proof. intros w. unfold on_cas. by destruct (m (store w)). Qed.

Lemma store_only_cas_put d : store_only (cas_put d).
Proof. intros w. apply (store_only_on_cas (cas_Put (Key (st w)) d) w). Qed.

Lemma store_only_map {A B} (f : A → Ada (world C) B) l : (∀ x, store_only (f x)) → store_only (ada_map f l).
Proof.
  intros Hf. induction l as [|x l IH]; [done|]. simpl. apply store_only_bind; [done|]. intros b.
  apply store_only_bind; [done|]. done.
Qed.

Lemma store_only_Composite d : store_only (Store_Composite d).
Proof.
  apply store_only_bind; [|intros; apply store_only_cas_put]. apply store_only_map. intros. apply store_only_cas_put.
Qed.

Lemma store_only_handle {A} (m h : Ada (world C) A) e : store_only m → store_only h → store_only (handle m e h).
Proof.
  intros Hm Hh w. unfold handle. specialize (Hm w). destruct (m w) as [[e'|a] w1]; [|done].
  case_decide; [|done]. simpl in *. destruct (Hh w1), Hm. split; congruence.
Qed.

Lemma store_only_data d : store_only (store_data d).
Proof.
  assert (Hc : store_only (id ← Store_Composite d; mret (id, true))).
  { apply store_only_bind; [apply store_only_Composite|done]. }
  unfold store_data. destruct (length d <=? Max_Single)%nat; [|done].
  apply store_only_handle; [|done]. apply store_only_bind; [apply store_only_cas_put|done].
Qed.

Lemma store_only_repair id : store_only (cas_repair id).
Proof. intros w. unfold cas_repair. by destruct (cas_Repair id (store w)) as [[c n] ok]. Qed.

Lemma store_only_collect live : store_only (cas_collect live).
Proof. intros w. unfold cas_collect. by destruct (cas_Collect live (store w)). Qed.

Lemma store_only_live_ids m : store_only (live_ids m).
Proof. unfold live_ids. destruct (m_Composite m); [|done]. by apply store_only_bind. Qed.

Lemma store_only_Collect : store_only Collect_Garbage.
Proof.
  unfold Collect_Garbage. apply store_only_bind; [done|]. intros s. apply store_only_bind.
  - apply store_only_map. intros. apply store_only_live_ids.
  - intros. apply store_only_collect.
Qed.

(** The rule for such an operation when [P] speaks about state and files. *)
Lemma step_store {A B} (P : State → Disk → Prop) (m : Ada (world C) A) (f : A → Ada (world C) B) w :
  store_only m → P (st w) (disk w) →
  (∀ a w1, m w = (inr a, w1) → st w1 = st w → disk w1 = disk w →
     P (st (f a w1).2) (disk (f a w1).2)) →
  P (st ((m ≫= f) w).2) (disk ((m ≫= f) w).2).
Proof.
  intros Hm Hw Hf. unfold mbind, ada_bind. specialize (Hm w).
  destruct (m w) as [[e|a] w1]; simpl in *; destruct Hm as [-> ->] || destruct Hm as [E1 E2]; eauto.
Qed.
End steps.
