(* ===== verification/VaultDurable.v ===== *)
(** Durability: what the vault's files give back.

    [durable T s d] says that opening the vault on the files [d] succeeds and
    gives a state that agrees with [s] on everything that is meant to survive
    a restart, with a trusted time of at most [T]; [exec_durable] proves it
    for every operation, on every outcome. *)
From Stdlib Require Import Strings.Byte NArith.
From S2P Require Import Prelude AdaMonad GoStrings GoText GoFloat Sha256 TrustedCore AuditChain AdaText Cas CasSpec.
From S2P Require Import VaultState Vault VaultLines VaultSteps.
Open Scope Z_scope.

(** ** Reading a line respects [same] *)

Lemma versioned_on_insert (n : string) (b : bool) s : versioned_on (with_Versioned (<[n := b]> (Versioned s)) s)
  = if b then <[n := true]> (versioned_on s) else delete n (versioned_on s).
Proof.
  unfold versioned_on. simpl. destruct b.
  - by rewrite map_filter_insert_True.
  - by rewrite map_filter_insert_False, map_filter_delete.
Qed.

Lemma Apply_Line_same l s s' s1 : same s s' → Apply_Line l s = Some s1 →
  ∃ s1', Apply_Line l s' = Some s1' ∧ same s1 s1'.
Proof.
  intros [Eo Eb Ei Esh Ex El Ebk Evd Ev Eq] Ha. unfold Apply_Line in *.
  repeat (case_decide; [try (apply bind_Some in Ha as (x & Hx & Ha); rewrite Hx; clear Hx; cbn [mbind option_bind])|]).
  all: try (injection Ha as <-; eexists; split; [reflexivity|]; split; simpl; try exact Evd; congruence).
  all: try (injection Ha as <-; eexists; split; [done|]; split; try done;
    rewrite !versioned_on_insert; simpl; by rewrite Evd).
  - destruct x as [n e]. injection Ha as <-. eexists. split; [done|]. unfold add_version. rewrite Ev.
    destruct (existsb _ _); split; simpl; try exact Evd; congruence.
  - destruct x as [n m]. injection Ha as <-. eexists. split; [done|]. split; simpl; try exact Evd; congruence.
  - rewrite El in Ha. destruct (_ =? _).
    + apply bind_Some in Ha as (y & Hy & Ha). rewrite Hy. injection Ha as <-. eexists. split; [done|].
      split; simpl; try exact Evd; congruence.
    + injection Ha as <-. eexists. split; [done|]. by split.
Qed.

Lemma apply_lines_same ls : ∀ s s' s1, same s s' → apply_lines ls s = Some s1 →
  ∃ s1', apply_lines ls s' = Some s1' ∧ same s1 s1'.
Proof.
  induction ls as [|l ls IH]; simpl; intros s s' s1 Hs.
  - intros [= <-]. eauto.
  - intros (s2 & Hl & Hls)%bind_Some. destruct (Apply_Line_same l s s' s2 Hs Hl) as (s2' & E & Hs2).
    rewrite E. simpl. eauto.
Qed.

(** What reading a line leaves alone. *)
Record frame (s s' : State) : Prop := {
  fr_Key : Key s' = Key s;
  fr_Uploads : Uploads s' = Uploads s;
  fr_Upload_Seq : Upload_Seq s' = Upload_Seq s;
  fr_Count : Jrnl_Count s' = Jrnl_Count s;
  fr_Buf : Jrnl_Buf s' = Jrnl_Buf s;
  fr_Pend : Jrnl_Pend s' = Jrnl_Pend s;
}.

Lemma frame_trans s1 s2 s3 : frame s1 s2 → frame s2 s3 → frame s1 s3.
Proof. intros [] []. split; congruence. Qed.

Lemma Apply_Line_frame l s s' : Apply_Line l s = Some s' → frame s s'.
Proof.
  unfold Apply_Line. intros Ha.
  repeat (case_decide; [try (apply bind_Some in Ha as (x & Hx & Ha); clear Hx)|]); try (by injection Ha as <-).
  - destruct x as [n e]. injection Ha as <-. unfold add_version. by destruct (existsb _ _).
  - destruct x. by injection Ha as <-.
  - destruct (_ =? _); [|by injection Ha as <-]. apply bind_Some in Ha as (y & _ & Ha). by injection Ha as <-.
Qed.

Lemma apply_lines_frame ls : ∀ s s', apply_lines ls s = Some s' → frame s s'.
Proof.
  induction ls as [|l ls IH]; simpl; intros s s'; [by intros [= <-]|].
  intros (s1 & Hl & Hls)%bind_Some. eauto using frame_trans, Apply_Line_frame.
Qed.

(** ** The files of a vault *)

(** A line of the journal. *)
Record jline (l : string) : Prop := {
  jl_LF : no_LF l = true;
  jl_tag : Field l 1 ≠ "CLOCK";
}.

Lemma Apply_Line_clock l s s' : Field l 1 ≠ "CLOCK" → Apply_Line l s = Some s' → Clock s' = Clock s.
Proof.
  unfold Apply_Line. intros Ht Ha. rewrite decide_False in Ha by done.
  repeat (case_decide; [try (apply bind_Some in Ha as (x & Hx & Ha); clear Hx)|]); try (by injection Ha as <-).
  - destruct x as [n e]. injection Ha as <-. unfold add_version. by destruct (existsb _ _).
  - destruct x. by injection Ha as <-.
  - destruct (_ =? _); [|by injection Ha as <-]. apply bind_Some in Ha as (y & _ & Ha). by injection Ha as <-.
Qed.

Lemma apply_lines_clock ls : Forall jline ls → ∀ s s', apply_lines ls s = Some s' → Clock s' = Clock s.
Proof.
  induction 1 as [|l ls Hl _ IH]; simpl; intros s s'; [by intros [= <-]|].
  intros (s1 & H1 & H2)%bind_Some. rewrite (IH _ _ H2). by apply (Apply_Line_clock l), H1; destruct Hl.
Qed.

Lemma jline_words l t ws : words l = t :: ws → t ≠ "CLOCK" → no_LF l = true → jline l.
Proof. intros E Ht Hl. split; [done|]. unfold Field. by rewrite E. Qed.

Lemma jline_Obj n m : n ≠ "" → meta_ok m → jline (Obj_Line n m).
Proof. intros. eapply jline_words; [by apply words_Obj_Line|done|]. by apply Obj_Line_no_LF. Qed.
Lemma jline_Del n : n ≠ "" → jline (Del_Line n).
Proof. intros. eapply jline_words; [by apply words_Del_Line|done|]. apply Del_Line_no_LF. Qed.
Lemma jline_Ver n e : n ≠ "" → version_ok e → jline (Ver_Line n e).
Proof. intros. eapply jline_words; [by apply words_Ver_Line|done|]. by apply Ver_Line_no_LF. Qed.
Lemma jline_A e : entry_ok e → jline (A_Line e).
Proof. intros. eapply jline_words; [by apply words_A_Line|done|]. by apply A_Line_no_LF. Qed.
Lemma jline_Vseq s : 0 ≤ Ver_Seq s → jline (Core_Vseq s).
Proof. intros. eapply jline_words; [by apply words_Core_Vseq|done|]. by apply Core_Vseq_no_LF. Qed.

#[export] Hint Resolve jline_Obj jline_Del jline_Ver jline_A jline_Vseq : lines.

(** The files [d] give back [s], and a trusted time of at most [T]. *)
Definition recovers (T : Trusted_Time) (d : Disk) (s : State) : Prop :=
  ∃ snap js s0, d_state d = Some snap ∧ default "" (d_journal d) = unlines js ∧ Forall jline js ∧
    apply_lines (lines_of snap ++ js) (new_state (Key s)) = Some s0 ∧ same s0 s ∧
    in_time (Clock_Guard.Floor (Clock s0)) ∧ Clock_Guard.Floor (Clock s0) ≤ T.

(** Uploads in progress are in range; they do not survive a restart. *)
Definition upload_ok (u : Upload) : Prop :=
  name_ok (u_Name u) ∧ in_time (u_Retain_For u) ∧ 0 ≤ u_Total u ≤ Natural_Last ∧ Forall id_ok (u_Parts u).*2.
Definition uploads_ok (s : State) : Prop := ∀ id u, Uploads s !! id = Some u → upload_ok u.

Record durable (T : Trusted_Time) (s : State) (d : Disk) : Prop := {
  du_ok : state_ok s;
  du_now : Now s ≤ T;
  du_buf : Jrnl_Buf s = "";
  du_pend : Jrnl_Pend s = 0;
  du_files : recovers T d s;
  du_uploads : uploads_ok s;
}.

Lemma state_ok_same s s' : same s s' → in_time (Clock_Guard.Floor (Clock s')) → state_ok s → state_ok s'.
Proof.
  intros [E1 E2 E3 E4 E5 E6 E7 E8 E9 E10] Hc [Hi Hb Hvd Hv Hvi Hq Hbt _ Hl He].
  split; rewrite <- ?E1, <- ?E2, <- ?E5, <- ?E6, <- ?E7, <- ?E9, <- ?E10; try done.
  intros n Hn. apply Hvd. assert (Hf : versioned_on s' !! n = Some true) by (by apply map_lookup_filter_Some).
  rewrite <- E8 in Hf. by apply map_lookup_filter_Some in Hf as [? _].
Qed.

Lemma jlines_no_LF js : Forall jline js → Forall (λ l, no_LF l = true) js.
Proof. intros Hj. eapply Forall_impl; [done|]. by intros ? []. Qed.

Lemma recovers_Load T d s : recovers T d s → ∃ snap s1, d_state d = Some snap ∧
  Load snap (d_journal d) (new_state (Key s)) = Some s1 ∧ same s1 s ∧
  in_time (Clock_Guard.Floor (Clock s1)) ∧ Clock_Guard.Floor (Clock s1) ≤ T ∧
  Key s1 = Key s ∧ Jrnl_Buf s1 = "" ∧ Jrnl_Pend s1 = 0 ∧ Uploads s1 = ∅.
Proof.
  intros (snap & js & s0 & Es & Ej & Hj & Ha & Hs & Ht & HT). exists snap.
  pose proof (apply_lines_frame _ _ _ Ha) as [Fk Fu _ _ Fb Fp]. simpl in *.
  rewrite apply_lines_app in Ha. apply bind_Some in Ha as (s1 & H1 & H2).
  unfold Load. rewrite H1. simpl. destruct (d_journal d) as [text|]; simpl in Ej.
  - subst text. rewrite (lines_of_unlines _ (jlines_no_LF _ Hj)), H2. simpl.
    eexists. split_and!; try done. by destruct Hs.
  - destruct js as [|j js]; [|by destruct j]. injection H2 as ->. eauto 10.
Qed.

(** A durable vault can be opened, and is what it was. *)
Lemma durable_Open {C} T s d (c : C) : durable T s d → ∃ s1,
  Open_Vault (Key s) d c = inr (World s1 d c) ∧ same s1 s ∧ Key s1 = Key s ∧ durable T s1 d.
Proof.
  intros [Hok HT Hb Hp Hr _]. destruct (recovers_Load _ _ _ Hr) as (snap & s1 & Es & HL & Hs & Ht & HF & Ek & Eb & Ep & Eu).
  exists s1. unfold Open_Vault. rewrite Es, HL. split_and!; try done. split; try done.
  - by apply (state_ok_same s); [symmetry|..].
  - destruct Hr as (snap' & js & s0 & ? & ? & ? & ? & ? & ? & ?). exists snap', js, s0. rewrite Ek.
    split_and!; try done. by etransitivity; [|symmetry].
  - intros id u Hu. by rewrite Eu in Hu.
Qed.

(** ** Writing *)

Lemma unlines_snoc ls l : unlines (ls ++ [l]) = unlines ls +:+ l +:+ String LF "".
Proof. rewrite unlines_app. simpl. by rewrite str_app_nil_r. Qed.

Lemma state_ok_clear s : state_ok s → state_ok (clear_jrnl s).
Proof. by intros []. Qed.

Lemma save_durable {C} T s d (c : C) : state_ok s → Now s ≤ T → uploads_ok s →
  durable T (st (Save (World s d c)).2) (disk (Save (World s d c)).2).
Proof.
  intros Hok HT Hu. simpl. split; try done; [by apply state_ok_clear|].
  exists (unlines (snapshot_lines s)), [], (restored (Key s) s). split_and!; try done.
  - rewrite app_nil_r, lines_of_unlines by by apply snapshot_no_LF. by apply apply_snapshot.
  - pose proof (restored_same (Key s) s) as []. by split.
  - by destruct Hok.
Qed.

(** The buffered lines [ls] stand for the step from [s] to [s']. *)
Record buffered (s : State) (ls : list string) (s' : State) : Prop := {
  bf_Key : Key s' = Key s;
  bf_Buf : Jrnl_Buf s' = unlines ls;
  bf_Pend : Jrnl_Pend s' = Z.of_nat (length ls);
  bf_jline : Forall jline ls;
  bf_apply : ∃ s'', apply_lines ls s = Some s'' ∧ same s'' s';
}.

Lemma commit_durable {C} T s d ls s' (c : C) : durable T s d → buffered s ls s' → state_ok s' → Now s' ≤ T → uploads_ok s' →
  durable T (st (Commit_Jrnl (World s' d c)).2) (disk (Commit_Jrnl (World s' d c)).2).
Proof.
  intros [Hok HT Hb Hp Hr Hu] [Fk Fb Fp Fj (s'' & Ha & Hs)] Hok' HT' Hu'. unfold Commit_Jrnl. cbn [st disk].
  assert (Hrec : ∀ d' s1, d_state d' = d_state d → default "" (d_journal d') = default "" (d_journal d) +:+ unlines ls →
    same s1 s' → Key s1 = Key s' → recovers T d' s1).
  { intros d' s1 E1 E2 Hs1 Ek1. destruct Hr as (snap & js & s0 & Es & Ej & Hj & H0 & Hs0 & Ht & HF).
    destruct (apply_lines_same ls s s0 s'' (symmetry Hs0) Ha) as (s3 & H3 & Hs3).
    exists snap, (js ++ ls), s3. rewrite E1, E2, Ej, unlines_app, Ek1, Fk, app_assoc, apply_lines_app, H0.
    rewrite (apply_lines_clock ls Fj _ _ H3), Forall_app. split_and!; try done.
    etransitivity; [symmetry; apply Hs3|]. etransitivity; [apply Hs|]. by symmetry. }
  destruct (Z.eqb_spec (Jrnl_Pend s') 0) as [E0|N0].
  - rewrite Fp in E0. destruct ls; [|simpl in *; lia]. split; try done.
    apply Hrec; try done. by rewrite str_app_nil_r.
  - destruct (Compact_Limit <=? _); [by apply save_durable|]. split; try done.
    + by destruct Hok'.
    + apply Hrec; simpl; try done. by rewrite Fb.
Qed.

(** Adding one line. *)
Lemma buffered_snoc s ls s' l s1 : buffered s ls s' → jline l → (∃ s2, Apply_Line l s' = Some s2 ∧ same s2 s1) →
  Key s1 = Key s' → buffered s (ls ++ [l]) (with_Jrnl_Pend (Jrnl_Pend s' + 1) (with_Jrnl_Buf (Jrnl_Buf s' +:+ l +:+ String LF "") s1)).
Proof.
  intros [Fk Fb Fp Fj (s'' & Ha & Hs)] Hl (s2 & E2 & Hs2) Ek. split; simpl.
  - congruence.
  - by rewrite Fb, unlines_snoc.
  - rewrite Fp, length_app. simpl. lia.
  - apply Forall_app. eauto.
  - destruct (Apply_Line_same l s' s'' s2 (symmetry Hs) E2) as (s3 & E3 & Hs3).
    exists s3. rewrite apply_lines_app, Ha. simpl. rewrite E3. split; [done|].
    etransitivity; [symmetry; apply Hs3|]. destruct Hs2. by split.
Qed.

Lemma buffered_nil T s d : durable T s d → buffered s [] s.
Proof. intros []. split; try done. exists s. by split. Qed.

(** ** Changes that keep a state in range *)

Lemma ok_insert n m s : state_ok s → name_ok n → meta_ok m → state_ok (with_Index (<[n := m]> (Index s)) s).
Proof.
  intros [Hi ? ? ? ? ? ? ? ? ?] Hn Hm. split; try done. intros n' m' Hl. simpl in Hl.
  apply lookup_insert_Some in Hl as [[<- <-]|[_ Hl]]; eauto.
Qed.

Lemma ok_delete n s : state_ok s → state_ok (with_Index (delete n (Index s)) s).
Proof.
  intros [Hi ? ? ? ? ? ? ? ? ?]. split; try done. intros n' m' Hl. simpl in Hl.
  apply lookup_delete_Some in Hl as [_ Hl]; eauto.
Qed.

Lemma ok_next_entry s k d t : state_ok s → Z.of_nat (length (Log s)) ≤ Natural_Last → in_time t → length d = 32%nat →
  ∃ e, next_entry s k d t = Some e ∧ entry_ok e ∧ Seq e = Z.of_nat (length (Log s)) ∧
       state_ok (with_Log (Log s ++ [e]) s).
Proof.
  intros [Hi Hb Hvd Hv Hvi Hq Hbt Hc Hl He] Hr Ht Hd.
  apply Verify_Chain_chained in Hl as [p Hp]. unfold next_entry. rewrite (chained_last _ _ Hp). simpl.
  pose proof (chained_seq _ _ Hp) as Eq. rewrite (proj2 (Z.eqb_neq _ _)) by (rewrite Eq; lia).
  set (e := Append p _ k d t). exists e. split; [done|].
  assert (Hs : Seq p ≠ Natural_Last) by lia.
  assert (Hok : entry_ok e).
  { apply Append_ok; try done. apply (proj1 (Forall_forall _ _) He), (chained_in _ _ Hp). }
  split; [done|]. split; [simpl; lia|]. split; try done; simpl.
  - apply Verify_Chain_chained. exists e. by apply Append_chained.
  - apply Forall_app. by rewrite Forall_singleton.
Qed.
