(* ===== verification/VaultOps.v ===== *)
(** Every operation of the vault keeps it durable: whatever the operation and
    however it ends, opening the vault on its files afterwards gives the state
    it is in ([exec_durable]). *)
From Stdlib Require Import Strings.Byte NArith.
From S2P Require Import Prelude AdaMonad GoStrings GoText GoFloat Sha256 TrustedCore AuditChain AdaText Cas CasSpec.
From S2P Require Import VaultState Vault VaultLines VaultSteps VaultDurable.
Open Scope Z_scope.

Lemma Name_Digest_ok n : name_ok n → Name_Digest n = inr (SHA256 (String.list_byte_of_string n)).
Proof. intros [_ Hl]. unfold Name_Digest. by rewrite (proj2 (N.leb_le _ _) Hl). Qed.

(** The parameters of an operation are in range. *)
Definition op_ok (o : op) : Prop :=
  match o with
  | OpPut n d _ r _ => name_ok n ∧ in_time r ∧ Z.of_nat (length d) ≤ Natural_Last
  | OpCreateUpload n _ r => name_ok n ∧ in_time r
  | OpCreateBucket n _ => n ≠ ""
  | OpSetVersioning n _ => n ≠ ""
  | OpDeleteMarker n => name_ok n
  | OpTick mono realtime boot => in_time mono ∧ in_time realtime ∧ string_forallb word_char boot = true
  | _ => True
  end.

(** There is room in the audit log for one more entry, and for one per object
    (a scrub may need as many). *)
Definition room (s : State) : Prop := Z.of_nat (length (Log s) + size (Index s)) < Natural_Last.

(** All lines are lines of the journal. *)
Ltac solve_jlines := repeat first [apply Forall_nil_2 | apply Forall_cons_2]; eauto with lines.

Section ops.
Context {C : Type} {CO : CasOps C} {CV : CasView C} {CL : CasLaws C} {Mem : Memory}.
Implicit Types (w : world C).

Definition dur (T : Trusted_Time) w : Prop := durable T (st w) (disk w).

(** ** Rules for the pieces that end an operation *)

Lemma step_digest {B} (P : world C → Prop) n (f : Digest → Ada (world C) B) w :
  name_ok n → P (f (SHA256 (String.list_byte_of_string n)) w).2 → P ((lift (Name_Digest n) ≫= f) w).2.
Proof. intros Hn HP. by rewrite Name_Digest_ok. Qed.

Lemma Add_Audit_eq k d t e w : next_entry (st w) k d t = Some e →
  Add_Audit k d t w = (inr (), on_state (append_jrnl (A_Line e)) (on_state (λ s, with_Log (Log s ++ [e]) s) w)).
Proof. intros He. unfold Add_Audit, mbind, ada_bind, gets, lift, of_option. by rewrite He. Qed.

Lemma J_Obj_eq w n m : Index (st w) !! n = Some m → J_Obj n w = (inr (), on_state (append_jrnl (Obj_Line n m)) w).
Proof. intros E. unfold J_Obj, mbind, ada_bind, gets. by rewrite E. Qed.

Lemma step_Add_Audit {B} (P : world C → Prop) k d t e (f : unit → Ada (world C) B) w :
  next_entry (st w) k d t = Some e →
  P (f () (on_state (append_jrnl (A_Line e)) (on_state (λ s, with_Log (Log s ++ [e]) s) w))).2 →
  P ((Add_Audit k d t ≫= f) w).2.
Proof. intros He HP. by rewrite (ada_bind_inr_l _ _ _ _ _ (Add_Audit_eq _ _ _ _ _ He)). Qed.

Lemma step_J_Obj {B} (P : world C → Prop) n m (f : unit → Ada (world C) B) w :
  Index (st w) !! n = Some m → P (f () (on_state (append_jrnl (Obj_Line n m)) w)).2 → P ((J_Obj n ≫= f) w).2.
Proof. intros Hn HP. by rewrite (ada_bind_inr_l _ _ _ _ _ (J_Obj_eq _ _ _ Hn)). Qed.

Lemma step_ret {A B} (P : world C → Prop) (m : Ada (world C) A) (g : A → B) w :
  P (m w).2 → P ((a ← m; mret (g a)) w).2.
Proof. unfold mbind, ada_bind. by destruct (m w) as [[e|a] w1]. Qed.

(** Lines that were buffered from a durable state, given how each of them
    reads back. *)
Lemma buffered_from T s d ls s' s'' : durable T s d → Forall jline ls → Key s' = Key s →
  Jrnl_Buf s' = foldl (λ b l, b +:+ l +:+ String LF "") (Jrnl_Buf s) ls →
  Jrnl_Pend s' = foldl (λ n _, n + 1) (Jrnl_Pend s) ls →
  apply_lines ls s = Some s'' → same s'' s' → buffered s ls s'.
Proof.
  intros [_ _ Hb Hp _ _] Hj Hk EB EP Ha Hs. split; try done; [| |by eauto].
  - assert (E : ∀ b, foldl (λ b l, b +:+ l +:+ String LF "") b ls = b +:+ unlines ls).
    { clear. induction ls as [|l ls IH]; intros b; simpl; [by rewrite str_app_nil_r|].
      by rewrite IH, <- !str_app_assoc. }
    by rewrite EB, Hb, E.
  - assert (E : ∀ z, foldl (λ n _, n + 1) z ls = z + Z.of_nat (length ls)).
    { clear. induction ls as [|l ls IH]; intros z; simpl; [lia|]. rewrite IH. lia. }
    by rewrite EP, Hp, E.
Qed.

Lemma dur_store T s d (c c' : C) : dur T (World s d c) → dur T (World s d c').
Proof. done. Qed.

Lemma cas_put_id d w id w' : cas_put d w = (inr id, w') → id_ok id.
Proof.
  unfold cas_put, on_cas, mbind, ada_bind, gets. destruct (cas_Put _ d (store w)) as [[e|i] c] eqn:E; [done|].
  intros [= <- _]. by apply put_id in E.
Qed.

Lemma store_data_id d w id comp w' : store_data d w = (inr (id, comp), w') → id_ok id.
Proof.
  assert (Hc : ∀ w, (id ← Store_Composite d; mret (id, true)) w = (inr (id, comp), w') → id_ok id).
  { intros w1 (id1 & w2 & H1 & H2)%ada_bind_inr. injection H2 as <- _ _.
    apply ada_bind_inr in H1 as (ids & w3 & _ & H3). by eapply cas_put_id. }
  unfold store_data. destruct (length d <=? Max_Single)%nat; [|by apply Hc]. unfold handle.
  destruct ((id0 ← cas_put d; mret (id0, false)) w) as [[e|[id1 c1]] w1] eqn:E.
  - case_decide; [by apply Hc|done].
  - intros [= -> -> ->]. apply ada_bind_inr in E as (id1 & w2 & H1 & H2). injection H2 as <- _ _.
    by eapply cas_put_id.
Qed.

Lemma du_entry T s d k dg t : durable T s d → room s → in_time t → length dg = 32%nat →
  ∃ e, next_entry s k dg t = Some e ∧ entry_ok e ∧ Seq e = Z.of_nat (length (Log s)) ∧
       state_ok (with_Log (Log s ++ [e]) s).
Proof. intros [Hok ? ? ? ? ?] Hr Ht Hd. apply ok_next_entry; try done. unfold room in Hr. lia. Qed.

(** The commit of lines that were buffered from a durable state. *)
Lemma commit_from T s d (c : C) ls s' s'' : durable T s d → Forall jline ls → Key s' = Key s →
  Jrnl_Buf s' = foldl (λ b l, b +:+ l +:+ String LF "") (Jrnl_Buf s) ls →
  Jrnl_Pend s' = foldl (λ n _, n + 1) (Jrnl_Pend s) ls → Clock s' = Clock s → uploads_ok s' →
  apply_lines ls s = Some s'' → same s'' s' → state_ok s'' → dur T (Commit_Jrnl (World s' d c)).2.
Proof.
  intros Hd Hj Hk EB EP EC Hu Ha Hs Hok. apply (commit_durable T s d ls); try done.
  - by eapply buffered_from.
  - apply (state_ok_same s''); [done| |done]. rewrite EC. by apply sok_clock, (du_ok _ _ _ Hd).
  - unfold Now. rewrite EC. by destruct Hd.
Qed.

(** A lock is created: an entry of the log and one of the index. *)
Lemma lock_commit T s d (c : C) n m e s' : durable T s d → name_ok n → meta_ok m →
  entry_ok e → Seq e = Z.of_nat (length (Log s)) → state_ok (with_Log (Log s ++ [e]) s) → Key s' = Key s →
  Jrnl_Buf s' = (Jrnl_Buf s +:+ A_Line e +:+ String LF "") +:+ Obj_Line n m +:+ String LF "" →
  Jrnl_Pend s' = Jrnl_Pend s + 1 + 1 → Clock s' = Clock s → uploads_ok s' →
  same (with_Log (Log s ++ [e]) (with_Index (<[n := m]> (Index s)) s)) s' →
  dur T (Commit_Jrnl (World s' d c)).2.
Proof.
  intros Hd Hn Hm He Hq Hs Hk EB EP EC Hu Hsame. pose proof (nok_nonempty _ Hn) as Hn0.
  eapply (commit_from T s d _ [A_Line e; Obj_Line n m]); [done|solve_jlines|done..| |exact Hsame|].
  - cbn [apply_lines]. rewrite apply_A_Line by done. cbn [mbind option_bind]. by rewrite apply_Obj_Line by done.
  - exact (ok_insert n m _ Hs Hn Hm).
Qed.

Lemma Put_Object_dur T w n data mode r u : dur T w → room (st w) → op_ok (OpPut n data mode r u) →
  dur T (Put_Object n data mode r u w).2.
Proof.
  intros Hd Hr (Hn & Hrt & Hl). pose proof (sok_clock _ (du_ok _ _ _ Hd)) as Hc. unfold Put_Object.
  apply step_Check_Ingest; [done|intros _ _]. apply step_raise_when; [done|intros _].
  apply step_gets, step_add_upto; [done|intros Hu]. fold (Now (st w)) in *.
  assert (Ht : in_time (Now (st w) + r)) by (unfold in_time, Now, Clock_Guard.Now in *; lia).
  apply (step_store (durable T)); [apply store_only_data|done|]. intros [id comp] w1 Hp Es Ed.
  apply store_data_id in Hp. destruct w1 as [s1 d1 c1]. simpl in Es, Ed. subst s1 d1.
  match goal with |- context [with_Index (<[n := ?x]> _) _] => set (m := x) end.
  assert (Hm : meta_ok m) by (split; [done|by split|simpl; lia]).
  apply (step_modify (dur T)), step_digest; [done|].
  destruct (du_entry T (st w) (disk w) Lock_Created (SHA256 (String.list_byte_of_string n)) _ Hd Hr Ht (SHA256_length _))
    as (e & He & Hok & Hq & Hs).
  eapply step_Add_Audit; [exact He|]. eapply step_J_Obj; [apply lookup_insert_eq|].
  eapply lock_commit; [exact Hd|exact Hn|exact Hm|exact Hok|exact Hq|exact Hs|done..|apply Hd|by split].
Qed.

(** ** Uploads *)

Lemma durable_frame T s d s' : durable T s d → same s s' → Key s' = Key s → Clock s' = Clock s →
  Jrnl_Buf s' = Jrnl_Buf s → Jrnl_Pend s' = Jrnl_Pend s → uploads_ok s' → durable T s' d.
Proof.
  intros [Hok HT Hb Hp Hr Hu] Hs EK EC EB EP Hu'. split; try congruence; try done.
  - apply (state_ok_same s); [done| |done]. rewrite EC. apply (sok_clock _ Hok).
  - unfold Now in *. by rewrite EC.
  - destruct Hr as (snap & js & s0 & ? & ? & ? & ? & ? & ? & ?). exists snap, js, s0. rewrite EK.
    split_and!; try done. by etransitivity.
Qed.

Lemma uploads_insert s id u : uploads_ok s → upload_ok u → uploads_ok (with_Uploads (<[id := u]> (Uploads s)) s).
Proof. intros Hs Hu id' u' Hl. simpl in Hl. apply lookup_insert_Some in Hl as [[_ <-]|[_ Hl]]; eauto. Qed.

Lemma uploads_delete s id : uploads_ok s → uploads_ok (with_Uploads (delete id (Uploads s)) s).
Proof. intros Hs id' u' Hl. simpl in Hl. apply lookup_delete_Some in Hl as [_ Hl]; eauto. Qed.

Lemma Create_Upload_dur T w n mode r : dur T w → op_ok (OpCreateUpload n mode r) →
  dur T (Create_Upload n mode r w).2.
Proof.
  intros Hd (Hn & Hr). unfold Create_Upload. apply step_Check_Ingest; [done|intros _ _].
  apply step_raise_when; [done|intros _]. apply step_gets, step_add_upto; [done|intros Hq].
  apply (step_modify (dur T)), (step_modify (dur T)). eapply durable_frame; [exact Hd|by split|done..|].
  apply uploads_insert; [apply Hd|]. by split_and!.
Qed.

Lemma part_include_ok pn pid parts : id_ok pid → Forall id_ok parts.*2 → Forall id_ok (part_include pn pid parts).*2.
Proof.
  intros Hp. induction parts as [|[k v] parts IH]; simpl; [by rewrite Forall_singleton|].
  intros [Hv Hps]%Forall_cons. destruct (pn <? k); [|destruct (pn =? k)]; simpl; rewrite !Forall_cons; auto.
Qed.

Lemma Upload_Part_dur T w id data pn : dur T w → dur T (Upload_Part id data pn w).2.
Proof.
  intros Hd. unfold Upload_Part. apply step_Check_Ingest; [done|intros _ _]. apply step_gets.
  destruct (Uploads (st w) !! id) as [u|] eqn:Eu; [|done].
  destruct (du_uploads _ _ _ Hd id u Eu) as (Hn & Hr & Ht & Hps).
  apply (step_store (durable T)); [apply store_only_cas_put|done|]. intros pid w1 Hp Es Ed.
  apply cas_put_id in Hp. destruct w1 as [s1 d1 c1]. simpl in Es, Ed. subst s1 d1.
  apply (step_raise_when (dur T)); [done|intros _].
  assert (Hf : ∀ t, 0 ≤ t ≤ Natural_Last → dur T (modify_st (λ s, with_Uploads (<[id := {| u_Name := u_Name u;
      u_Mode := u_Mode u; u_Retain_For := u_Retain_For u; u_Parts := part_include (next_part u pn) pid (u_Parts u);
      u_Total := t |}]> (Uploads s)) s) (World (st w) (disk w) c1)).2).
  { intros t Htt. eapply durable_frame; [exact Hd|by split|done..|]. apply uploads_insert; [apply Hd|].
    split_and!; try done; simpl; try lia. by apply part_include_ok. }
  destruct (existsb _ _); [by apply Hf|]. apply step_add_upto; [done|]. intros Hle. apply Hf. lia.
Qed.

Lemma Complete_Upload_dur T w id : dur T w → room (st w) → dur T (Complete_Upload id w).2.
Proof.
  intros Hd Hr. pose proof (sok_clock _ (du_ok _ _ _ Hd)) as Hc. unfold Complete_Upload.
  apply step_Check_Ingest; [done|intros _ _]. apply step_gets.
  destruct (Uploads (st w) !! id) as [u|] eqn:Eu; [|done].
  destruct (du_uploads _ _ _ Hd id u Eu) as (Hn & Hrt & Htot & Hps).
  apply (step_store (durable T)); [apply store_only_cas_put|done|]. intros lid w1 Hp Es Ed.
  apply cas_put_id in Hp. destruct w1 as [s1 d1 c1]. simpl in Es, Ed. subst s1 d1.
  apply step_add_upto; [done|intros Hu]. fold (Now (st w)) in *.
  assert (Ht : in_time (Now (st w) + u_Retain_For u)) by (unfold in_time, Now, Clock_Guard.Now in *; lia).
  match goal with |- context [with_Index (<[_ := ?x]> _) _] => set (m := x) end.
  assert (Hm : meta_ok m) by (split; [done|by split|done]).
  apply (step_modify (dur T)), step_digest; [done|].
  destruct (du_entry T (st w) (disk w) Lock_Created (SHA256 (String.list_byte_of_string (u_Name u))) _ Hd Hr Ht (SHA256_length _))
    as (e & He & Hok & Hq & Hs).
  eapply step_Add_Audit; [exact He|]. apply step_modify. eapply step_J_Obj; [apply lookup_insert_eq|].
  eapply lock_commit; [exact Hd|exact Hn|exact Hm|exact Hok|exact Hq|exact Hs|done..| |by split]. intros id' u' Hl. simpl in Hl.
  apply lookup_delete_Some in Hl as [_ Hl]. eapply (du_uploads _ _ _ Hd); eauto.
Qed.

Lemma Abort_Upload_dur T w id : dur T w → dur T (Abort_Upload id w).2.
Proof. intros Hd. eapply durable_frame; [exact Hd|by split|done..|]. apply uploads_delete, Hd. Qed.

(** ** Changes that are saved at once *)

Lemma saved_dur T w : state_ok (st w) → Now (st w) ≤ T → uploads_ok (st w) → dur T (Save w).2.
Proof. destruct w as [s d c]. apply save_durable. Qed.

Lemma Create_Bucket_dur T w n lock : dur T w → n ≠ "" → dur T (Create_Bucket n lock w).2.
Proof.
  intros Hd Hn. unfold Create_Bucket. apply step_Check_Ingest; [done|intros _ _].
  apply step_gets, step_raise_when; [done|intros _]. apply step_modify. destruct Hd as [[] ? ? ? ? ?].
  apply saved_dur; try done. split; try done. intros n' b Hl. simpl in Hl.
  apply lookup_insert_Some in Hl as [[<- _]|[_ Hl]]; eauto.
Qed.

Lemma Delete_Bucket_dur T w n : dur T w → dur T (Delete_Bucket n w).2.
Proof.
  intros Hd. unfold Delete_Bucket. apply step_Check_Ingest; [done|intros _ _].
  apply step_gets, step_raise_when; [done|intros _]. apply step_raise_when; [done|intros _].
  apply step_modify. destruct Hd as [[] ? ? ? ? ?].
  apply saved_dur; try done. split; try done. intros n' b Hl. simpl in Hl.
  apply lookup_delete_Some in Hl as [_ Hl]; eauto.
Qed.

Lemma Set_Versioning_dur T w n on : dur T w → n ≠ "" → dur T (Set_Versioning n on w).2.
Proof.
  intros Hd Hn. unfold Set_Versioning. apply step_modify. destruct Hd as [[] ? ? ? ? ?].
  apply saved_dur; try done. split; try done. intros n' Hl. simpl in Hl.
  apply lookup_insert_Some in Hl as [[<- _]|[_ Hl]]; eauto.
Qed.

(** A flag is set and saved. *)
Lemma set_flag_dur T w (g : State → State) : dur T w → state_ok (g (st w)) → Clock (g (st w)) = Clock (st w) →
  Uploads (g (st w)) = Uploads (st w) → dur T ((_ ← modify_st g; Save) w).2.
Proof.
  intros [Hok HT Hb Hp Hr Hu] Hok' EC EU. apply step_modify, saved_dur; [done|..].
  - unfold Now in *. simpl. by rewrite EC.
  - intros id u Hl. simpl in Hl. rewrite EU in Hl. eauto.
Qed.

(** ** Versions *)

Lemma Itoa_inj a b : 0 ≤ a → 0 ≤ b → Itoa a = Itoa b → a = b.
Proof.
  intros Ha Hb E. assert (V : Value (Z.max a b) (Itoa a) = Some a) by (apply Value_Itoa; lia).
  rewrite E, Value_Itoa in V by lia. by injection V.
Qed.

Lemma new_vid_fresh s n e : state_ok s → v_Vid e = Itoa (Ver_Seq s + 1) →
  v_Vid e ∉ v_Vid <$> default [] (Versions s !! n).
Proof.
  intros Hok Ev Hin. apply list_elem_of_fmap in Hin as (x & Ex & Hx).
  destruct (Versions s !! n) as [vec|] eqn:EV; [|by apply elem_of_nil in Hx].
  destruct (sok_vids _ Hok n vec x EV Hx) as (k & Hk & Ek). rewrite Ev, Ek in Ex.
  pose proof (sok_seq _ Hok). apply Itoa_inj in Ex; lia.
Qed.

Lemma add_version_new s n e : v_Vid e ∉ v_Vid <$> default [] (Versions s !! n) →
  add_version n e s = push_version n e s.
Proof.
  intros Hf. unfold add_version. destruct (existsb _ _) eqn:Ex; [|done].
  apply existsb_exists in Ex as (x & Hx & E). apply bool_decide_eq_true in E.
  exfalso. apply Hf. rewrite <- E. apply list_elem_of_fmap. exists x. split; [done|]. by apply list_elem_of_In.
Qed.

Lemma ok_push s n e : state_ok s → Ver_Seq s + 1 ≤ Natural_Last → name_ok n → version_ok e →
  v_Vid e = Itoa (Ver_Seq s + 1) → state_ok (push_version n e (with_Ver_Seq (Ver_Seq s + 1) s)).
Proof.
  intros Hok Hq Hn He Ev. pose proof (new_vid_fresh s n e Hok Ev) as Hf.
  destruct Hok as [Hi Hb Hvd Hv Hvi Hsq Hbt Hc Hl Hen]. split; try done; simpl; [| |lia].
  - intros n' vec Hl'. apply lookup_insert_Some in Hl' as [[<- <-]|[_ Hl']]; [|by eauto].
    split; [done|]. split; [by destruct (default [] _)|].
    rewrite fmap_app, Forall_app, NoDup_app. simpl.
    assert (Hold : Forall version_ok (default [] (Versions s !! n)) ∧ NoDup (v_Vid <$> default [] (Versions s !! n))).
    { destruct (Versions s !! n) as [vec|] eqn:EV; simpl; [|by split; constructor]. by destruct (Hv n vec EV) as (_ & _ & ? & ?). }
    destruct Hold. rewrite Forall_singleton. split_and!; try done.
    + intros x Hx. rewrite list_elem_of_singleton. by intros ->.
    + apply NoDup_singleton.
  - intros n' vec x Hl' Hx. apply lookup_insert_Some in Hl' as [[<- <-]|[_ Hl']].
    + apply elem_of_app in Hx as [Hx|Hx].
      * destruct (Versions s !! n) as [vec|] eqn:EV; [|by apply elem_of_nil in Hx].
        destruct (Hvi n vec x EV Hx) as (k & Hk & Ek). exists k. split; [lia|done].
      * apply list_elem_of_singleton in Hx as ->. exists (Ver_Seq s + 1). split; [lia|done].
    + destruct (Hvi n' vec x Hl' Hx) as (k & Hk & Ek). exists k. split; [lia|done].
Qed.

Lemma Record_Version_dur T w n : dur T w → dur T (Record_Version n w).2.
Proof.
  intros Hd. unfold Record_Version. apply step_gets, step_lift; [done|]. intros m Em.
  destruct (Index (st w) !! n) as [m'|] eqn:EI; [|done]. injection Em as ->.
  pose proof (du_ok _ _ _ Hd) as Hok. destruct (sok_index _ Hok n m EI) as [Hn [Hid Hlk Hsz]].
  pose proof (sok_seq _ Hok) as Hsq.
  apply step_add_upto; [done|intros Hq]. apply (step_modify (dur T)), (step_modify (dur T)).
  match goal with |- context [push_version n ?x] => set (e := x) end.
  assert (He : version_ok e) by (split; [apply Itoa_word; lia|done..]).
  unfold J_Vseq, J_Ver, Append_Jrnl. apply step_bind_assoc, step_gets, step_update, step_update, step_ret.
  pose proof (nok_nonempty _ Hn) as Hn0.
  eapply (commit_from T (st w) (disk w) _ [Core_Vseq (with_Ver_Seq (Ver_Seq (st w) + 1) (st w)); Ver_Line n e]);
    [done| |done..|apply Hd| | |].
  - solve_jlines. apply jline_Vseq. simpl. lia.
  - cbn [apply_lines]. rewrite apply_Core_Vseq by (simpl; lia). cbn [mbind option_bind].
    rewrite apply_Ver_Line by done. cbn [mbind option_bind].
    by rewrite add_version_new by exact (new_vid_fresh (st w) n e Hok eq_refl).
  - by split.
  - by apply ok_push.
Qed.
End ops.
