(* ===== verification/VaultExec.v ===== *)
(** The rest of the operations, and all of them: [exec_durable]. *)
From Stdlib Require Import Strings.Byte NArith.
From S2P Require Import Prelude AdaMonad GoStrings GoText GoFloat Sha256 TrustedCore AuditChain AdaText Cas CasSpec.
From S2P Require Import VaultState Vault VaultLines VaultSteps VaultDurable VaultOps.
Open Scope Z_scope.

(** How far an operation may move trusted time: a clock reading by the
    forward step of the monotonic clock since the reading before. *)
Definition tick_sample (s : State) (mono realtime : Trusted_Time) (boot : string) : Clock_Guard.Clock_Sample :=
  {| Clock_Guard.Mono := mono; Clock_Guard.Realtime := realtime;
     Clock_Guard.Boot_Changed := bool_decide (Last_Boot s ≠ "") && bool_decide (Last_Boot s ≠ boot) |}.
Definition tick_delta (s : State) (o : op) : Z :=
  match o with
  | OpTick mono realtime boot =>
      if Started s then Clock_Guard.Mono_Delta (Clock s) (tick_sample s mono realtime boot) else 0
  | _ => 0
  end.

Lemma tick_delta_nonneg s o : 0 ≤ tick_delta s o.
Proof. destruct o; simpl; try lia. destruct (Started s); [apply Clock_Guard.Mono_Delta_nonneg|lia]. Qed.

Section exec.
Context {C : Type} {CO : CasOps C} {CV : CasView C} {CL : CasLaws C} {Mem : Memory}.
Implicit Types (w : world C).

(** ** Deletion *)

Lemma no_id_ok : id_ok no_id.
Proof. by vm_compute. Qed.

(** The lines that record a new version, after an entry of the log. *)
Lemma version_lines s s1 n ve e : state_ok s → Log s1 = Log s → Versions s1 = Versions s →
  v_Vid ve = Itoa (Ver_Seq s + 1) → Ver_Seq s + 1 ≤ Natural_Last → n ≠ "" → version_ok ve →
  entry_ok e → Seq e = Z.of_nat (length (Log s)) →
  apply_lines [A_Line e; Core_Vseq (with_Ver_Seq (Ver_Seq s + 1) s); Ver_Line n ve] s1 =
  Some (push_version n ve (with_Ver_Seq (Ver_Seq s + 1) (with_Log (Log s1 ++ [e]) s1))).
Proof.
  intros Hok EL EV Ev Hq Hn Hve He Hseq. pose proof (sok_seq _ Hok). cbn [apply_lines].
  rewrite apply_A_Line by (done || congruence). cbn [mbind option_bind].
  rewrite apply_Core_Vseq by (simpl; lia). cbn [mbind option_bind].
  rewrite apply_Ver_Line by done. cbn [mbind option_bind].
  rewrite add_version_new; [done|]. simpl. rewrite EV. exact (new_vid_fresh s n ve Hok Ev).
Qed.

Lemma Delete_Marker_dur T w n : dur T w → room (st w) → name_ok n → dur T (Delete_Marker n w).2.
Proof.
  intros Hd Hr Hn. pose proof (du_ok _ _ _ Hd) as Hok. pose proof (sok_seq _ Hok) as Hsq.
  pose proof (nok_nonempty _ Hn) as Hn0. unfold Delete_Marker.
  apply step_gets, step_add_upto; [done|intros Hq]. apply (step_modify (dur T)), (step_modify (dur T)).
  match goal with |- context [push_version n ?x] => set (ve := x) end.
  assert (Hve : version_ok ve) by (split; [apply Itoa_word; simpl; lia|apply no_id_ok|simpl; unfold Natural_Last; lia]).
  destruct (du_entry T (st w) (disk w) Delete_Allowed (SHA256 (String.list_byte_of_string n))
    (Clock_Guard.Now (Clock (st w))) Hd Hr (sok_clock _ Hok) (SHA256_length _)) as (e & He & Hoke & Hseq & Hs).
  assert (jline (Core_Vseq (with_Ver_Seq (Ver_Seq (st w) + 1) (st w)))) by (apply jline_Vseq; simpl; lia).
  pose proof (ok_push (with_Log (Log (st w) ++ [e]) (st w)) n ve Hs Hq Hn Hve eq_refl) as Hlog.
  destruct (Contains (st w) n).
  - apply step_bind_assoc, (step_modify (dur T)). unfold J_Del, Append_Jrnl at 1. apply step_update.
    apply step_digest; [done|]. eapply step_Add_Audit; [exact He|].
    unfold J_Vseq, J_Ver, Append_Jrnl. apply step_bind_assoc, step_gets, step_update, step_update, step_ret.
    eapply (commit_from T (st w) (disk w) _ [Del_Line n; A_Line e; Core_Vseq (with_Ver_Seq (Ver_Seq (st w) + 1) (st w)); Ver_Line n ve]);
      [done|solve_jlines|done..|apply Hd| | |].
    + rewrite apply_lines_cons, apply_Del_Line by done. cbn [mbind option_bind]. by rewrite (version_lines (st w)).
    + by split.
    + exact (ok_delete n _ Hlog).
  - rewrite (ada_bind_inr_l (mret ()) _ _ () _ eq_refl).
    apply step_digest; [done|]. eapply step_Add_Audit; [exact He|].
    unfold J_Vseq, J_Ver, Append_Jrnl. apply step_bind_assoc, step_gets, step_update, step_update, step_ret.
    eapply (commit_from T (st w) (disk w) _ [A_Line e; Core_Vseq (with_Ver_Seq (Ver_Seq (st w) + 1) (st w)); Ver_Line n ve]);
      [done|solve_jlines|done..|apply Hd|by rewrite (version_lines (st w))|by split|exact Hlog].
Qed.

Lemma find_version_lookup vid vec i : find_version vid vec = Some i → ∃ e, vec !! i = Some e ∧ v_Vid e = vid.
Proof.
  unfold find_version. intros Hl%last_Some_elem_of. apply list_elem_of_In, filter_In in Hl as [_ Hl].
  destruct (vec !! i) as [e|]; [|done]. exists e. split; [done|]. by apply bool_decide_eq_true in Hl.
Qed.

Lemma newest_real_in vec e : newest_real vec = Some e → e ∈ vec ∧ v_Deleted e = false.
Proof.
  unfold newest_real. intros [Hin Hd]%find_some. split.
  - by apply list_elem_of_In, in_rev.
  - by apply negb_true_iff.
Qed.

Lemma Delete_Version_dur T w n vid : dur T w → dur T (Delete_Version n vid w).2.
Proof.
  intros Hd. unfold Delete_Version. apply step_gets. destruct (Versions (st w) !! n) as [vec0|] eqn:EV; [|done].
  destruct (find_version vid vec0) as [i|] eqn:Ei; [|done]. set (vec := delete i vec0).
  destruct Hd as [Hok HT Hb Hp Hr Hu]. destruct (sok_versions _ Hok n vec0 EV) as (Hn & _ & Hvo & Hvd).
  assert (Hsub : vec `sublist_of` vec0) by apply sublist_delete.
  assert (Hin : ∀ e, e ∈ vec → version_ok e).
  { intros e He. apply (proj1 (Forall_forall _ _) Hvo). by eapply elem_of_sublist. }
  assert (Hok1 : state_ok (with_Versions (if decide (vec = []) then delete n (Versions (st w))
      else <[n := vec]> (Versions (st w))) (st w))).
  { destruct Hok as [? ? ? Hv Hvi ? ? ? ? ?]. split; try done; simpl.
    - intros n' v' Hl. case_decide; [apply lookup_delete_Some in Hl as [_ Hl]; by eauto|].
      apply lookup_insert_Some in Hl as [[<- <-]|[_ Hl]]; [|by eauto]. split_and!; try done.
      + by apply Forall_forall.
      + eapply sublist_NoDup; [exact Hvd|]. by apply fmap_sublist.
    - intros n' v' e Hl He. case_decide; [apply lookup_delete_Some in Hl as [_ Hl]; by eauto|].
      apply lookup_insert_Some in Hl as [[<- <-]|[_ Hl]]; [|by eauto].
      apply (Hvi n vec0); [done|]. by eapply elem_of_sublist. }
  apply (step_modify (dur T)). apply (ok_delete n) in Hok1.
  destruct (newest_real vec) as [e|] eqn:En.
  - apply (step_modify (dur T)), (step_modify (dur T)), saved_dur; try done.
    apply newest_real_in in En as [He _]. destruct (Hin e He).
    refine (ok_insert n _ _ Hok1 Hn _). split; [done| |done]. by split.
  - rewrite (ada_bind_inr_l (mret ()) _ _ () _ eq_refl). by apply (step_modify (dur T)), saved_dur.
Qed.

Lemma Delete_Object_dur T w n b : dur T w → room (st w) → dur T (Delete_Object n b w).2.
Proof.
  intros Hd Hr. unfold Delete_Object. apply step_gets, step_raise_when; [done|intros _].
  destruct (Index (st w) !! n) as [m|] eqn:EI; [|done].
  pose proof (du_ok _ _ _ Hd) as Hok. destruct (sok_index _ Hok n m EI) as [Hn Hm].
  pose proof (nok_nonempty _ Hn) as Hn0.
  assert (Hent : ∀ k, ∃ e, next_entry (st w) k (SHA256 (String.list_byte_of_string n)) (Clock_Guard.Now (Clock (st w))) = Some e ∧
    entry_ok e ∧ Seq e = Z.of_nat (length (Log (st w))) ∧ state_ok (with_Log (Log (st w) ++ [e]) (st w))).
  { intros k. apply (du_entry T (st w) (disk w)); try done; [apply (sok_clock _ Hok)|apply SHA256_length]. }
  destruct (Retention.Can_Delete _ _ _).
  - destruct (Hent Delete_Allowed) as (e & He & Hoke & Hseq & Hs).
    apply (step_modify (dur T)), step_digest; [done|]. eapply step_Add_Audit; [exact He|].
    unfold J_Del, Append_Jrnl. apply step_update, step_ret.
    eapply (commit_from T (st w) (disk w) _ [A_Line e; Del_Line n]);
      [done|solve_jlines|done..|apply Hd| | |].
    + cbn [apply_lines]. rewrite apply_A_Line by done. cbn [mbind option_bind]. by rewrite apply_Del_Line by done.
    + by split.
    + exact (ok_delete n _ Hs).
  - destruct (Hent Delete_Denied) as (e & He & Hoke & Hseq & Hs).
    apply step_digest; [done|]. eapply step_Add_Audit; [exact He|]. apply step_ret.
    eapply (commit_from T (st w) (disk w) _ [A_Line e]);
      [done|solve_jlines|done..|apply Hd|cbn [apply_lines]; by rewrite apply_A_Line by done|by split|exact Hs].
Qed.

(** ** Holds, seal, time *)

(** An entry of the log is added and the state is saved. *)
Lemma audit_save_dur T T' s d (w : world C) k dg t : durable T s d → room s → in_time t → length dg = 32%nat →
  (∀ e, state_ok (with_Log (Log s ++ [e]) s) → state_ok (with_Log (Log (st w) ++ [e]) (st w))) →
  Clock (st w) = Clock s → Log (st w) = Log s → Now s ≤ T' → uploads_ok (st w) →
  dur T' ((_ ← Add_Audit k dg t; Save) w).2.
Proof.
  intros Hd Hr Ht Hl Hok EC EL HT Hu.
  destruct (du_entry T s d k dg t Hd Hr Ht Hl) as (e & He & Hoke & Hseq & Hs).
  eapply step_Add_Audit; [unfold next_entry; rewrite EL, EC; exact He|].
  apply saved_dur; simpl; [|unfold Now in *; simpl; by rewrite EC|done].
  specialize (Hok e Hs). refine (state_ok_same _ _ _ _ Hok); [by split|apply (sok_clock _ Hok)].
Qed.

Lemma change_hold_dur T w f k n : dur T w → room (st w) →
  (∀ l, lock_ok l → lock_ok (f l)) → dur T (change_hold f k n w).2.
Proof.
  intros Hd Hr Hf. unfold change_hold. apply step_gets. destruct (Index (st w) !! n) as [m|] eqn:EI; [|done].
  pose proof (du_ok _ _ _ Hd) as Hok. destruct (sok_index _ Hok n m EI) as [Hn [Hid Hlk Hsz]].
  unfold set_meta. apply step_modify, step_digest; [done|].
  eapply audit_save_dur; [exact Hd|done|apply (sok_clock _ Hok)|apply SHA256_length| |done|done|apply Hd|apply Hd].
  intros e He. refine (ok_insert n _ _ He Hn _). split; try done. by apply Hf.
Qed.

Lemma Seal_dur T w : dur T w → room (st w) → dur T (Seal w).2.
Proof.
  intros Hd Hr. unfold Seal. apply step_gets. destruct (Op_Sealed (st w)); [done|].
  apply step_modify. eapply audit_save_dur; [exact Hd|done|apply (sok_clock _ (du_ok _ _ _ Hd))|done| |done|done|apply Hd|apply Hd].
  intros e [? ? ? ? ? ? ? ? ? ?]. by split.
Qed.

(** A new clock. *)
Lemma durable_clock T T' s d ck : durable T s d → in_time (Clock_Guard.Floor ck) → Clock_Guard.Floor ck ≤ T' → T ≤ T' →
  durable T' (with_Clock ck s) d.
Proof.
  intros [Hok HT Hb Hp Hr Hu] Hi HF HTT. split; try done.
  - apply (state_ok_same s); [by split|exact Hi|exact Hok].
  - destruct Hr as (snap & js & s0 & ? & ? & ? & ? & Hs & ? & ?). exists snap, js, s0.
    split_and!; try done; [|lia]. destruct Hs. by split.
Qed.

Lemma ok_clock s ck st0 : state_ok s → in_time (Clock_Guard.Floor ck) → state_ok (with_Started st0 (with_Clock ck s)).
Proof. intros Hok Hi. apply (state_ok_same s); [by split|exact Hi|exact Hok]. Qed.

(** [Tick_Clock] returns, keeps the state in range and moves trusted time by
    at most the step of the monotonic clock. *)
Lemma Tick_Clock_spec T (w : world C) sample : state_ok (st w) → uploads_ok (st w) → Now (st w) ≤ T →
  Z.of_nat (length (Log (st w))) ≤ Natural_Last →
  let T' := T + (if Started (st w) then Clock_Guard.Mono_Delta (Clock (st w)) sample else 0) in
  ∃ w', Tick_Clock sample w = (inr (), w') ∧ state_ok (st w') ∧ uploads_ok (st w') ∧ Now (st w') ≤ T' ∧
    Last_Boot (st w') = Last_Boot (st w) ∧ (dur T w → dur T' w').
Proof.
  intros Hok Hu HT Hroom. destruct w as [s d c]. simpl in *. pose proof (sok_clock _ Hok) as [Hf0 Hf1].
  pose proof (Clock_Guard.Mono_Delta_nonneg (Clock s) sample) as Hnn.
  unfold Tick_Clock. rewrite (ada_bind_inr_l (gets st) _ _ _ _ eq_refl). cbn [st].
  destruct (Started s); cbn [negb].
  - destruct (Clock_Guard.sat_add_bounds (Clock_Guard.Floor (Clock s)) _ (sok_clock _ Hok) Hnn) as [Hin Hb].
    set (ck := Clock_Guard.Tick _ _ _). assert (Hi : in_time (Clock_Guard.Floor ck)) by apply Hin.
    assert (Hle : Clock_Guard.Floor ck ≤ T + Clock_Guard.Mono_Delta (Clock s) sample)
      by (unfold Now, Clock_Guard.Now in HT; simpl; lia).
    assert (Hok1 : state_ok (with_Clock ck s)) by (apply (state_ok_same s); [by split|exact Hi|exact Hok]).
    rewrite (ada_bind_inr_l (modify_st _) _ _ () _ eq_refl).
    destruct (Clock_Guard.Is_Sealed ck && _).
    + destruct (ok_next_entry (with_Clock ck s) Seal_Engaged Zero_Digest (Clock_Guard.Now ck) Hok1 Hroom Hi eq_refl)
        as (e & He & Hoke & Hseq & Hs).
      assert (Hd : dur (T + Clock_Guard.Mono_Delta (Clock s) sample) (Save (on_state (append_jrnl (A_Line e))
          (World (with_Log (Log s ++ [e]) (with_Clock ck s)) d c))).2).
      { apply saved_dur; try done.
        apply (state_ok_same (with_Log (Log s ++ [e]) (with_Clock ck s))); [by split|exact Hi|exact Hs]. }
      eexists. split; [by rewrite (ada_bind_inr_l _ _ _ _ _ (Add_Audit_eq _ _ _ _ (on_state (with_Clock ck) (World s d c)) He))|].
      split_and!; try apply Hd; [done|intros _; exact Hd].
    + eexists. split; [reflexivity|]. split_and!; try done. intros Hd.
      eapply durable_clock; [exact Hd|exact Hi|exact Hle|lia].
  - eexists. split; [reflexivity|].
    assert (Hi : in_time (Clock_Guard.Floor (Clock_Guard.Init sample))) by done.
    split_and!; try done; simpl; try lia; [by apply ok_clock|unfold Now, Clock_Guard.Now in *; simpl; lia|].
    intros Hd. assert (Hd1 : durable T (with_Clock (Clock_Guard.Init sample) s) d)
      by (eapply durable_clock; [exact Hd|done|unfold Now, Clock_Guard.Now in HT; simpl; lia|lia]).
    rewrite Z.add_0_r. eapply durable_frame; [exact Hd1|by split|done..].
Qed.

Lemma Tick_From_System_dur T w mono realtime boot : dur T w → room (st w) →
  op_ok (OpTick mono realtime boot) →
  dur (T + tick_delta (st w) (OpTick mono realtime boot)) (Tick_From_System mono realtime boot w).2.
Proof.
  intros Hd Hr (Hmono & Hreal & Hboot). pose proof (du_ok _ _ _ Hd) as Hok.
  unfold Tick_From_System. apply step_gets. fold (tick_sample (st w) mono realtime boot).
  apply step_modify. set (w1 := on_state _ w).
  assert (Hok1 : state_ok (st w1)) by (destruct Hok; by split).
  destruct (Tick_Clock_spec T w1 (tick_sample (st w) mono realtime boot) Hok1 (du_uploads _ _ _ Hd) (du_now _ _ _ Hd))
    as (w2 & E & Hok2 & Hu2 & HT2 & EB & Hd2); [unfold room in Hr; simpl; lia|].
  rewrite (ada_bind_inr_l _ _ _ _ _ E). destruct (bool_decide (Last_Boot (st w) ≠ boot)) eqn:Eb.
  - by apply saved_dur.
  - apply Hd2. apply bool_decide_eq_false in Eb. destruct (decide (Last_Boot (st w) = boot)) as [Eq|]; [|done].
    eapply durable_frame; [exact Hd|by split|done..|apply Hd].
Qed.

(** ** Scrubbing *)

(** In the middle of a pass: lines are buffered. *)
Record scrubbing (T : Trusted_Time) (s : State) (d : Disk) (w : world C) : Prop := {
  sc_disk : disk w = d;
  sc_ok : state_ok (st w);
  sc_clock : Clock (st w) = Clock s;
  sc_uploads : uploads_ok (st w);
  sc_lines : ∃ ls, buffered s ls (st w);
}.

Lemma scrubbing_obj T s d w n m : scrubbing T s d w → name_ok n → meta_ok m →
  scrubbing T s d (on_state (append_jrnl (Obj_Line n m)) (on_state (λ s, with_Index (<[n := m]> (Index s)) s) w)).
Proof.
  intros [Ed Hok EC Hu [ls Hls]] Hn Hm. pose proof (nok_nonempty _ Hn) as Hn0. split; try done.
  - apply (state_ok_same (with_Index (<[n := m]> (Index (st w))) (st w)));
      [by split|apply (sok_clock _ Hok)|by apply ok_insert].
  - exists (ls ++ [Obj_Line n m]).
    refine (buffered_snoc s ls (st w) _ (with_Index (<[n := m]> (Index (st w))) (st w)) Hls _ _ eq_refl).
    + by apply jline_Obj.
    + eexists. split; [by apply apply_Obj_Line|done].
Qed.

Lemma scrubbing_entry T s d w e : scrubbing T s d w → entry_ok e → Seq e = Z.of_nat (length (Log (st w))) →
  state_ok (with_Log (Log (st w) ++ [e]) (st w)) →
  scrubbing T s d (on_state (append_jrnl (A_Line e)) (on_state (λ s, with_Log (Log s ++ [e]) s) w)).
Proof.
  intros [Ed Hok EC Hu [ls Hls]] He Hq Hok'. split; try done.
  - apply (state_ok_same (with_Log (Log (st w) ++ [e]) (st w))); [by split|apply (sok_clock _ Hok)|done].
  - exists (ls ++ [A_Line e]).
    refine (buffered_snoc s ls (st w) _ (with_Log (Log (st w) ++ [e]) (st w)) Hls _ _ eq_refl).
    + by apply jline_A.
    + eexists. split; [by apply apply_A_Line|done].
Qed.

Lemma with_Quarantined_ok q m : meta_ok m → meta_ok (with_Quarantined q m).
Proof. by intros []. Qed.

Lemma scrub_one_spec T s d w r n m : scrubbing T s d w → name_ok n → meta_ok m →
  Z.of_nat (length (Log (st w))) ≤ Natural_Last →
  ∃ r' w', scrub_one r n m w = (inr r', w') ∧ scrubbing T s d w' ∧ (length (Log (st w')) ≤ S (length (Log (st w))))%nat.
Proof.
  intros Hsc Hn Hm Hroom. unfold scrub_one.
  destruct (cas_repair (m_Id m) w) as [[ex|[k ok]] w1] eqn:Er;
    [unfold cas_repair in Er; by destruct (cas_Repair (m_Id m) (store w)) as [[? ?] ?]|].
  assert (Hsc1 : scrubbing T s d w1 ∧ st w1 = st w).
  { pose proof (store_only_repair (m_Id m) w) as [E1 E2]. rewrite Er in E1, E2. simpl in E1, E2.
    destruct Hsc as [? ? ? ? ?]. split; [split; congruence || by rewrite E1|done]. }
  destruct Hsc1 as [Hsc1 E1]. rewrite (ada_bind_inr_l _ _ _ _ _ Er), <- E1 in *. clear Hsc Er E1 w.
  destruct ok; cbn [negb].
  - destruct (m_Quarantined m).
    + unfold set_meta, mbind, ada_bind at 1. eexists _, _. split.
      { unfold modify_st, update, mbind, ada_bind. rewrite (J_Obj_eq _ n (with_Quarantined false m)) by apply lookup_insert_eq. done. }
      split; [by apply scrubbing_obj; [..|apply with_Quarantined_ok]|simpl; lia].
    + eexists _, _. split; [reflexivity|]. split; [done|lia].
  - destruct (m_Quarantined m).
    + eexists _, _. split; [reflexivity|]. split; [done|lia].
    + pose proof (scrubbing_obj T s d w1 n _ Hsc1 Hn (with_Quarantined_ok true m Hm)) as Hsc2.
      set (w2 := on_state (append_jrnl _) _) in Hsc2.
      destruct (ok_next_entry (st w2) Object_Quarantined (SHA256 (String.list_byte_of_string n)) 0 (sc_ok _ _ _ _ Hsc2) Hroom)
        as (e & He & Hoke & Hseq & Hs); [done|apply SHA256_length|].
      pose proof (scrubbing_entry T s d w2 e Hsc2 Hoke Hseq Hs) as Hsc3.
      eexists _, _. split.
      { unfold set_meta, modify_st, update, mbind, ada_bind, gets, lift. rewrite (Name_Digest_ok n Hn).
        change (next_entry (st (on_state _ w1)) _ _ 0) with (next_entry (st w2) Object_Quarantined (SHA256 (String.list_byte_of_string n)) 0).
        rewrite He. cbn [of_option]. rewrite (J_Obj_eq _ n (with_Quarantined true m)) by apply lookup_insert_eq. reflexivity. }
      split; [exact Hsc3|]. simpl. rewrite length_app. simpl. lia.
Qed.

Lemma scrub_loop_spec T s d l : (∀ n m, (n, m) ∈ l → name_ok n ∧ meta_ok m) → ∀ r w, scrubbing T s d w →
  Z.of_nat (length (Log (st w)) + length l) ≤ Natural_Last →
  ∃ r' w', scrub_loop r l w = (inr r', w') ∧ scrubbing T s d w'.
Proof.
  induction l as [|[n m] l IH]; intros Hl r w Hsc Hroom; [by eauto|]. simpl in Hroom.
  destruct (Hl n m) as [Hn Hm]; [left|].
  destruct (scrub_one_spec T s d w r n m Hsc Hn Hm) as (r1 & w1 & E & Hsc1 & Hlen); [lia|].
  cbn [scrub_loop]. rewrite (ada_bind_inr_l _ _ _ _ _ E). apply IH; [|done|lia].
  intros. apply Hl. by right.
Qed.

Lemma Scrub_dur T w : dur T w → room (st w) → dur T (Scrub w).2.
Proof.
  intros Hd Hr. pose proof (du_ok _ _ _ Hd) as Hok. unfold Scrub. apply step_gets.
  destruct (scrub_loop_spec T (st w) (disk w) (map_to_list (Index (st w)))) with (r := empty_report) (w := w)
    as (r' & w' & E & Hsc).
  - intros n m Hin%elem_of_map_to_list. by apply (sok_index _ Hok).
  - split; try done; [apply Hd|]. exists []. eapply buffered_nil. exact Hd.
  - rewrite length_map_to_list. unfold room in Hr. lia.
  - rewrite (ada_bind_inr_l _ _ _ _ _ E). apply step_ret. destruct Hsc as [Ed Hok' EC Hu [ls Hls]].
    destruct w' as [s' d' c']. simpl in *. subst d'.
    eapply commit_durable; [exact Hd|exact Hls|done| |done]. unfold Now. rewrite EC. apply Hd.
Qed.

(** ** All operations *)

Lemma dur_le T T' w : dur T w → T ≤ T' → dur T' w.
Proof.
  intros [Hok HT Hb Hp Hr Hu] HTT. split; try done; [lia|].
  destruct Hr as (snap & js & s0 & ? & ? & ? & ? & ? & ? & ?). exists snap, js, s0. split_and!; try done. lia.
Qed.

Lemma discard_eq {A} (m : Ada (world C) A) w : (discard m w).2 = (m w).2.
Proof. unfold discard, mbind, ada_bind. by destruct (m w) as [[e|a] w1]. Qed.

Lemma exec_dur T w o : dur T w → room (st w) → op_ok o → dur (T + tick_delta (st w) o) (exec o w).2.
Proof.
  intros Hd Hr Ho. pose proof (du_ok _ _ _ Hd) as Hok.
  destruct o; cbn [exec tick_delta]; rewrite ?discard_eq, ?Z.add_0_r.
  - by apply Put_Object_dur.
  - by apply Create_Upload_dur.
  - by apply Upload_Part_dur.
  - by apply Complete_Upload_dur.
  - by apply Abort_Upload_dur.
  - by apply Create_Bucket_dur.
  - by apply Delete_Bucket_dur.
  - by apply Set_Versioning_dur.
  - by apply Record_Version_dur.
  - by apply Delete_Marker_dur.
  - by apply Delete_Version_dur.
  - by apply Scrub_dur.
  - destruct (store_only_Collect w) as [E1 E2]. unfold dur. by rewrite E1, E2.
  - by apply Delete_Object_dur.
  - by apply Tick_From_System_dur.
  - apply change_hold_dur; [done..|]. by intros l [].
  - apply change_hold_dur; [done..|]. by intros l [].
  - by apply Seal_dur.
  - apply set_flag_dur; try done. destruct Hok. by split.
  - apply set_flag_dur; try done. destruct Hok. by split.
  - apply set_flag_dur; try done. destruct Hok. by split.
Qed.
End exec.
