(* ===== verification/VaultWorm.v ===== *)
(** Write once, read many: what the vault does to an object that is locked.

    [holding] says that an object is in the index, with the same content id,
    size and metadata and a lock that is at least as strong, not quarantined,
    and that its bytes are in the store.  [exec_holding] proves that every
    operation keeps it, apart from those that replace the object's entry
    ([spares] names them), as long as the lock bars deletion. *)
From Stdlib Require Import Strings.Byte NArith.
From S2P Require Import Prelude AdaMonad GoStrings GoText GoFloat Sha256 TrustedCore AuditChain AdaText Cas CasSpec.
From S2P Require Import VaultState Vault VaultLines VaultSteps VaultDurable VaultOps VaultExec.
Open Scope Z_scope.

(** ** Locks *)

(** A lock bars deletion at [t]: by its hold, if nobody releases it, or by its
    mode and expiry, if nobody bypasses governance. *)
Definition bars (release bypass : bool) (l : Retention.Retention_Lock) (t : Trusted_Time) : Prop :=
  (release = false ∧ Retention.Legal_Hold l = true) ∨
  (t < Retention.Retain_Until l ∧
   (Retention.Mode l = Retention.Compliance ∨ (Retention.Mode l = Retention.Governance ∧ bypass = false))).

(** Operations that leave the entry [n] of the index in place; the two flags
    say whether holds may be released and governance bypassed. *)
Definition spares (n : string) (release bypass : bool) (s : State) (o : op) : Prop :=
  match o with
  | OpPut n' _ _ _ _ => n' ≠ n
  | OpComplete i => ∀ u, Uploads s !! i = Some u → u_Name u ≠ n
  | OpDeleteMarker n' => n' ≠ n
  | OpDeleteVersion n' _ => n' ≠ n
  | OpDelete n' b => n' = n → b = true → bypass = true
  | OpRelease n' => n' = n → release = true
  | _ => True
  end.

(** The entry [m'] is what has become of [m]. *)
Record keeps (release : bool) (m m' : Meta) : Prop := {
  kp_id : m_Id m' = m_Id m;
  kp_composite : m_Composite m' = m_Composite m;
  kp_size : m_Size m' = m_Size m;
  kp_meta : m_User_Meta m' = m_User_Meta m;
  kp_mode : Retention.Mode (m_Lock m') = Retention.Mode (m_Lock m);
  kp_until : Retention.Retain_Until (m_Lock m') = Retention.Retain_Until (m_Lock m);
  kp_created : Retention.Created_At (m_Lock m') = Retention.Created_At (m_Lock m);
  kp_hold : release = false → Retention.Legal_Hold (m_Lock m) = true → Retention.Legal_Hold (m_Lock m') = true;
}.

Lemma bars_keeps release bypass m m' t b : keeps release m m' → bars release bypass (m_Lock m) t →
  (b = true → bypass = true) →
  Retention.Can_Delete (m_Lock m') t {| Retention.Bypass_Governance := b |} = false.
Proof.
  intros [_ _ _ _ EM EU _ EH] Hb Hby. unfold Retention.Can_Delete. rewrite EM, EU.
  destruct (Retention.Legal_Hold (m_Lock m')) eqn:Eh; [done|].
  destruct Hb as [[Er Hh]|[Ht [->|[-> Hg]]]].
  - by specialize (EH Er Hh).
  - by apply Z.leb_gt.
  - rewrite (proj2 (Z.leb_gt _ _) Ht). destruct b; [|done]. by rewrite Hby in Hg.
Qed.

Section worm.
Context {C : Type} {CO : CasOps C} {CV : CasView C} {CL : CasLaws C} {Mem : Memory}.
Implicit Types (w : world C).

(** ** Content *)

Definition content (c : C) (key : list Byte.byte) (m : Meta) (d : list Byte.byte) : Prop :=
  if m_Composite m then
    ∃ ids parts, cas_stored c key (m_Id m) (ids_bytes ids) ∧ Forall id_ok ids ∧
      Forall2 (λ id p, cas_stored c key id p) ids parts ∧ concat parts = d ∧ m_Size m = Z.of_nat (length d)
  else cas_stored c key (m_Id m) d.

Lemma content_mono c c' key m d :
  (∀ id p, cas_stored c key id p → cas_stored c' key id p) → content c key m d → content c' key m d.
Proof.
  intros Hm. unfold content. destruct (m_Composite m); [|by apply Hm].
  intros (ids & parts & Hl & Hok & Hp & Hd & Hs). exists ids, parts. split_and!; auto.
  eapply Forall2_impl; [exact Hp|]. auto.
Qed.

Lemma id_bytes_length id : id_ok id → length (String.list_byte_of_string id) = 64%nat.
Proof.
  intros [_ Hl]. rewrite <- Hl. clear Hl. induction id as [|a id IH]; [done|].
  unfold String.list_byte_of_string in *. simpl. rewrite length_map in *. lia.
Qed.

Lemma ids_of_bytes ids : Forall id_ok ids → ids_of (length (ids_bytes ids) / 64) (ids_bytes ids) = ids.
Proof.
  intros Hok. assert (El : length (ids_bytes ids) = (length ids * 64)%nat).
  { clear -Hok. induction Hok as [|id ids Hid _ IH]; [done|]. unfold ids_bytes in *. simpl.
    rewrite length_app, id_bytes_length, IH by done. lia. }
  rewrite El, Nat.div_mul by done. clear El.
  induction Hok as [|id ids Hid _ IH]; [done|]. cbn [length ids_of]. unfold ids_bytes in *. cbn [map concat].
  pose proof (id_bytes_length id Hid) as Hl.
  rewrite take_app_length' by done. rewrite drop_app_length' by done. f_equal; [|done].
  apply String.string_of_list_byte_of_string.
Qed.

Lemma cas_get_stored w id d : cas_stored (store w) (Key (st w)) id d → cas_get id w = (inr d, w).
Proof. intros Hs. unfold cas_get. by rewrite (stored_get _ _ _ _ Hs). Qed.

Lemma copy_parts_all w size ids parts : Forall2 (λ id p, cas_stored (store w) (Key (st w)) id p) ids parts →
  ∀ got, size = Z.of_nat (length (got ++ concat parts)) →
  copy_parts size ids got w = (inr (got ++ concat parts), w).
Proof.
  induction 1 as [|id p ids parts Hs _ IH]; intros got Hsz; cbn [copy_parts concat].
  - simpl in *. rewrite app_nil_r in *. subst size. rewrite Nat2Z.id, Nat.sub_diag. simpl. by rewrite app_nil_r.
  - rewrite (ada_bind_inr_l _ _ _ _ _ (cas_get_stored _ _ _ Hs)).
    cbn [concat] in Hsz. rewrite app_assoc in *.
    rewrite (proj2 (Z.ltb_ge _ _)) by (rewrite Hsz, (length_app _ (concat parts)); lia). by apply IH.
Qed.

(** An object whose content is in the store is read back in full. *)
Lemma Get_content w n m d : Index (st w) !! n = Some m → m_Quarantined m = false → Ingest_Only (st w) = false →
  content (store w) (Key (st w)) m d → Get_Object n w = (inr d, w).
Proof.
  intros EI EQ Eo Hc. unfold Get_Object. rewrite (ada_bind_inr_l (gets st) _ _ _ _ eq_refl), Eo.
  rewrite (ada_bind_inr_l (raise_when false _) _ _ () _ eq_refl), EI, EQ.
  rewrite (ada_bind_inr_l (raise_when false _) _ _ () _ eq_refl).
  unfold content in Hc. destruct (m_Composite m); cbn [negb].
  - destruct Hc as (ids & parts & Hl & Hok & Hp & <- & Hs).
    rewrite (ada_bind_inr_l _ _ _ _ _ (cas_get_stored _ _ _ Hl)), ids_of_bytes by done.
    by apply (copy_parts_all w (m_Size m) ids parts Hp []).
  - by apply cas_get_stored.
Qed.

(** ** Holding an object *)

Section holding.
Context (n : string) (release bypass : bool) (m0 : Meta) (d0 : list Byte.byte).

Definition holding w : Prop := ∃ m, Index (st w) !! n = Some m ∧ keeps release m0 m ∧
  m_Quarantined m = false ∧ content (store w) (Key (st w)) m d0.

(** An operation that keeps it, on every outcome. *)
Notation safe := (preserves holding).

Lemma safe_modify g : (∀ s, Key (g s) = Key s) → (∀ s, Index (g s) !! n = Index s !! n) → safe (modify_st g).
Proof. intros Hk Hi w (m & EI & Hm). exists m. simpl. by rewrite Hk, Hi. Qed.

Lemma safe_update_jrnl l : safe (Append_Jrnl l).
Proof. intros w (m & EI & Hm). by exists m. Qed.

Lemma safe_Save : safe Save.
Proof. intros w (m & EI & Hm). by exists m. Qed.

Lemma safe_Commit : safe Commit_Jrnl.
Proof.
  intros w Hw. unfold Commit_Jrnl. destruct (_ =? 0); [done|]. destruct (_ <=? _); [by apply safe_Save|].
  destruct Hw as (m & EI & Hm). by exists m.
Qed.

Lemma safe_cas_put d : safe (cas_put d).
Proof.
  intros w (m & EI & Hk & Hq & Hc). unfold cas_put, on_cas, mbind, ada_bind, gets.
  destruct (cas_Put (Key (st w)) d (store w)) as [r c'] eqn:E. exists m. simpl. split_and!; try done.
  eapply content_mono; [|exact Hc]. intros id p Hs. apply (put_keeps (Key (st w)) d) in Hs. by rewrite E in Hs.
Qed.

Lemma safe_cas_get id : safe (cas_get id).
Proof. by apply preserves_pure. Qed.

Lemma safe_cas_repair id : safe (cas_repair id).
Proof.
  intros w (m & EI & Hk & Hq & Hc). unfold cas_repair.
  destruct (cas_Repair id (store w)) as [[c' k] ok] eqn:E. exists m. simpl. split_and!; try done.
  eapply content_mono; [|exact Hc]. intros id' p Hs. apply (repair_keeps _ _ _ _ id) in Hs. by rewrite E in Hs.
Qed.

Lemma safe_insert n' m : n' ≠ n → safe (modify_st (λ s, with_Index (<[n' := m]> (Index s)) s)).
Proof. intros Hn. apply safe_modify; [done|]. intros s. simpl. by rewrite lookup_insert_ne. Qed.

Lemma safe_remove n' : n' ≠ n → safe (modify_st (λ s, with_Index (delete n' (Index s)) s)).
Proof. intros Hn. apply safe_modify; [done|]. intros s. simpl. by rewrite lookup_delete_ne. Qed.

Lemma safe_J_Obj n' : safe (J_Obj n').
Proof.
  intros w Hw. unfold J_Obj. apply step_gets. destruct (Index (st w) !! n'); [|done]. by apply safe_update_jrnl.
Qed.
End holding.

(** The steps of the operations. *)
Ltac safe_step :=
  first
    [ apply safe_update_jrnl | apply safe_Save | apply safe_Commit | apply safe_cas_put | apply safe_cas_get
    | apply safe_cas_repair | apply safe_J_Obj | apply safe_insert; done | apply safe_remove; done
    | apply safe_modify; done ].
Ltac solve_safe := solve_preserves safe_step.

Section ops.
Context (n : string) (release bypass : bool) (m0 : Meta) (d0 : list Byte.byte).
Notation holding := (holding n release m0 d0).
Notation safe := (preserves holding).

Lemma safe_Check_Ingest : safe Check_Ingest.
Proof. unfold Check_Ingest, raise_when. solve_safe. Qed.

Lemma safe_Add_Audit k dg t : safe (Add_Audit k dg t).
Proof. unfold Add_Audit. solve_safe. Qed.

Lemma safe_store_data d : safe (store_data d).
Proof. unfold store_data, Store_Composite. solve_safe. Qed.

Lemma safe_Put n' d mode r u : n' ≠ n → safe (Put_Object n' d mode r u).
Proof.
  intros Hn. pose proof safe_Check_Ingest. pose proof safe_Add_Audit. pose proof safe_store_data.
  unfold Put_Object, add_upto, raise_when. solve_safe.
Qed.

Lemma safe_Create_Upload n' mode r : safe (Create_Upload n' mode r).
Proof.
  pose proof safe_Check_Ingest. unfold Create_Upload, add_upto, raise_when. solve_safe.
Qed.

Lemma safe_Upload_Part i d pn : safe (Upload_Part i d pn).
Proof. pose proof safe_Check_Ingest. unfold Upload_Part, add_upto, raise_when. solve_safe. Qed.

Lemma holding_Complete i w : holding w → (∀ u, Uploads (st w) !! i = Some u → u_Name u ≠ n) →
  holding (Complete_Upload i w).2.
Proof.
  intros Hw Hsp. unfold Complete_Upload. apply step_Check_Ingest; [done|intros _ _]. apply step_gets.
  destruct (Uploads (st w) !! i) as [u|] eqn:Eu; [|done]. specialize (Hsp u eq_refl).
  match goal with |- holding (?p w).2 => assert (Hs : safe p); [|by apply Hs] end.
  unfold add_upto. pose proof safe_Add_Audit. solve_safe.
Qed.

Lemma safe_Abort i : safe (Abort_Upload i).
Proof. unfold Abort_Upload. solve_safe. Qed.

Lemma safe_Create_Bucket b l : safe (Create_Bucket b l).
Proof. pose proof safe_Check_Ingest. unfold Create_Bucket, raise_when. solve_safe. Qed.

Lemma safe_Delete_Bucket b : safe (Delete_Bucket b).
Proof. pose proof safe_Check_Ingest. unfold Delete_Bucket, raise_when. solve_safe. Qed.

Lemma safe_Set_Versioning b on : safe (Set_Versioning b on).
Proof. unfold Set_Versioning. solve_safe. Qed.

Lemma safe_Record_Version n' : safe (Record_Version n').
Proof. unfold Record_Version, add_upto, J_Vseq, J_Ver. solve_safe. Qed.

Lemma safe_Delete_Marker n' : n' ≠ n → safe (Delete_Marker n').
Proof.
  intros Hn. pose proof safe_Add_Audit. unfold Delete_Marker, add_upto, J_Vseq, J_Ver, J_Del. solve_safe.
Qed.

Lemma safe_Delete_Version n' v : n' ≠ n → safe (Delete_Version n' v).
Proof. intros Hn. unfold Delete_Version. solve_safe. Qed.

Lemma holding_Delete n' b w : holding w → bars release bypass (m_Lock m0) (Now (st w)) →
  (n' = n → b = true → bypass = true) → holding (Delete_Object n' b w).2.
Proof.
  intros Hw Hb Hsp. pose proof safe_Add_Audit. destruct (decide (n' = n)) as [->|Hn].
  - pose proof Hw as (m & EI & Hk & Hrest).
    unfold Delete_Object. apply step_gets, step_raise_when; [done|intros _]. rewrite EI.
    rewrite (bars_keeps release bypass m0 m) by auto.
    match goal with |- holding (?p w).2 => assert (Hs : safe p); [|by apply Hs] end. solve_safe.
  - unfold Delete_Object, raise_when, J_Del. match goal with |- holding (?p w).2 => assert (Hs : safe p); [|by apply Hs] end.
    solve_safe.
Qed.

Lemma holding_hold f k n' w : holding w → (∀ l, Retention.Mode (f l) = Retention.Mode l ∧
    Retention.Retain_Until (f l) = Retention.Retain_Until l ∧ Retention.Created_At (f l) = Retention.Created_At l) →
  (n' = n → release = false → ∀ l, Retention.Legal_Hold l = true → Retention.Legal_Hold (f l) = true) →
  holding (change_hold f k n' w).2.
Proof.
  intros Hw Hf Hh. pose proof safe_Add_Audit. unfold change_hold, set_meta. apply step_gets.
  destruct (Index (st w) !! n') as [m|] eqn:EI; [|done]. apply step_modify.
  match goal with |- holding (?p ?w).2 => assert (Hs : safe p); [solve_safe|apply Hs; clear Hs] end.
  destruct (decide (n' = n)) as [->|Hn].
  - destruct Hw as (m' & EI' & [? ? ? ? Em Eu Ec Eh] & Hq & Hc). rewrite EI in EI'. injection EI' as <-.
    eexists. simpl. split; [apply lookup_insert_eq|]. split; [|by split].
    destruct (Hf (m_Lock m)) as (E1 & E2 & E3). split; simpl; try congruence. auto.
  - destruct Hw as (m' & EI' & Hrest). exists m'. simpl. by rewrite lookup_insert_ne.
Qed.

Lemma safe_Seal : safe Seal.
Proof. pose proof safe_Add_Audit. unfold Seal. solve_safe. Qed.

Lemma safe_Tick mono realtime boot : safe (Tick_From_System mono realtime boot).
Proof. pose proof safe_Add_Audit. unfold Tick_From_System, Tick_Clock. solve_safe. Qed.

Lemma content_stored c key m d : content c key m d → ∃ d', cas_stored c key (m_Id m) d'.
Proof. unfold content. destruct (m_Composite m); [intros (? & ? & ? & _)|]; eauto. Qed.

Lemma holding_scrub_one r n' m w : holding w → (n' = n → m_Quarantined m = false ∧ m_Id m = m_Id m0) →
  holding (scrub_one r n' m w).2.
Proof.
  intros Hw Hm. destruct (decide (n' = n)) as [->|Hn].
  - destruct (Hm eq_refl) as [Hq Hid]. pose proof Hw as (m' & EI & Hk & _ & Hc).
    destruct (content_stored _ _ _ _ Hc) as [d' Hs]. rewrite (kp_id _ _ _ Hk), <- Hid in Hs.
    apply repair_ok in Hs. pose proof (safe_cas_repair n release m0 d0 (m_Id m) w Hw) as Hw1.
    unfold scrub_one, cas_repair, mbind, ada_bind in *.
    destruct (cas_Repair (m_Id m) (store w)) as [[c k] ok]. simpl in *. subst ok. simpl. by rewrite Hq.
  - unfold scrub_one, set_meta. match goal with |- holding (?p w).2 => assert (Hs : safe p); [|by apply Hs] end.
    solve_safe.
Qed.

Lemma holding_scrub_loop l : (∀ x, (n, x) ∈ l → m_Quarantined x = false ∧ m_Id x = m_Id m0) →
  ∀ r w, holding w → holding (scrub_loop r l w).2.
Proof.
  induction l as [|[n' m] l IH]; intros Hl r w Hw; [done|]. cbn [scrub_loop].
  assert (Hw1 : holding (scrub_one r n' m w).2).
  { apply holding_scrub_one; [done|]. intros ->. apply Hl. left. }
  apply ada_bind_preserves; [done|]. intros r1 w1 E. rewrite E in Hw1. apply IH; [|done].
  intros x Hx. apply Hl. by right.
Qed.

Lemma holding_Scrub w : holding w → holding (Scrub w).2.
Proof.
  intros Hw. pose proof Hw as (m & EI & Hk & Hq & _). unfold Scrub. apply step_gets.
  assert (Hw1 : holding (scrub_loop empty_report (map_to_list (Index (st w))) w).2).
  { apply holding_scrub_loop; [|done]. intros x Hx%elem_of_map_to_list. rewrite EI in Hx.
    injection Hx as <-. by destruct Hk. }
  apply ada_bind_preserves; [done|]. intros r w1 E. rewrite E in Hw1. apply step_ret. by apply safe_Commit.
Qed.

(** The results of a loop that reads only. *)
Lemma ada_map_reads {A B} (f : A → Ada (world C) B) l w bs w' : (∀ x w, (f x w).2 = w) →
  ada_map f l w = (inr bs, w') → w' = w ∧ ∀ x, x ∈ l → ∃ b, f x w = (inr b, w) ∧ b ∈ bs.
Proof.
  intros Hf. revert bs w'. induction l as [|x l IH]; intros bs w'; simpl.
  - intros [= <- <-]. split; [done|]. by intros x ?%elem_of_nil.
  - intros (b & w1 & E1 & (bs1 & w2 & E2 & E3)%ada_bind_inr)%ada_bind_inr. injection E3 as <- <-.
    pose proof (Hf x w) as Hw. rewrite E1 in Hw. simpl in Hw. subst w1. destruct (IH _ _ E2) as [-> Hl].
    split; [done|]. intros y [->|Hy]%elem_of_cons.
    + exists b. split; [done|left].
    + destruct (Hl y Hy) as (b' & ? & ?). exists b'. split; [done|by right].
Qed.

Lemma live_ids_reads m w : (live_ids m w).2 = w.
Proof. unfold live_ids. destruct (m_Composite m); [|done]. unfold mbind, ada_bind, cas_get. by destruct (cas_Get _ _ _). Qed.

(** A collection keeps what the index needs. *)
Lemma content_collect c key m d live : content c key m d → m_Id m ∈ live →
  (∀ ids, m_Composite m = true → cas_stored c key (m_Id m) (ids_bytes ids) → Forall id_ok ids → ∀ id, id ∈ ids → id ∈ live) →
  content (cas_Collect live c).1 key m d.
Proof.
  unfold content. intros Hc Hin Hp. destruct (m_Composite m); [|by apply collect_keeps].
  destruct Hc as (ids & parts & Hl & Hok & Hps & Hd & Hs). exists ids, parts.
  split_and!; try done; [by apply collect_keeps|]. specialize (Hp ids eq_refl Hl Hok). clear Hok Hl Hd.
  induction Hps as [|id p ids parts H1 _ IH]; constructor.
  - apply collect_keeps; [done|]. apply Hp. left.
  - apply IH. intros. apply Hp. by right.
Qed.

Lemma holding_Collect w : holding w → holding (Collect_Garbage w).2.
Proof.
  intros Hw. pose proof Hw as (m & EI & Hk & Hq & Hc). unfold Collect_Garbage. apply step_gets.
  destruct (ada_map (λ p, live_ids p.2) (map_to_list (Index (st w))) w) as [[e|bs] w1] eqn:E.
  - rewrite (ada_bind_inl_l _ _ _ _ _ E). simpl.
    assert (Hso : safe (ada_map (λ p, live_ids p.2) (map_to_list (Index (st w))))).
    { apply preserves_map. intros x. apply preserves_pure. intros. apply live_ids_reads. }
    specialize (Hso w Hw). by rewrite E in Hso.
  - rewrite (ada_bind_inr_l _ _ _ _ _ E). apply ada_map_reads in E as [-> Hb]; [|intros; apply live_ids_reads].
    destruct (Hb (n, m)) as (b & Eb & Hin); [by apply elem_of_map_to_list|]. cbn [snd] in Eb.
    match goal with |- holding (cas_collect ?l w).2 => set (live := l) end.
    assert (Hsub : ∀ id, id ∈ b → id ∈ live).
    { intros id Hid. apply elem_of_app. left. apply list_elem_of_In, in_concat.
      exists b. split; by apply list_elem_of_In. }
    unfold cas_collect. pose proof (content_collect (store w) (Key (st w)) m d0 live Hc) as HC.
    destruct (cas_Collect live (store w)) as [c' k]. exists m. simpl in *. split_and!; try done.
    unfold live_ids in Eb. destruct (m_Composite m) eqn:Ecm.
    + unfold content in Hc. rewrite Ecm in Hc. destruct Hc as (ids & parts & Hl & Hok & _).
      rewrite (ada_bind_inr_l _ _ _ _ _ (cas_get_stored _ _ _ Hl)) in Eb. injection Eb as <-.
      apply HC; [apply Hsub; left|]. intros ids' _ Hl' Hok' id Hid. apply Hsub. right.
      pose proof (stored_get _ _ _ _ Hl) as E1. pose proof (stored_get _ _ _ _ Hl') as E2.
      rewrite E1 in E2. injection E2 as E2. rewrite E2. rewrite <- (ids_of_bytes ids' Hok') in Hid. exact Hid.
    + injection Eb as <-. apply HC; [apply Hsub; left|done].
Qed.

(** ** All operations *)

Lemma exec_holding o w : holding w → spares n release bypass (st w) o →
  bars release bypass (m_Lock m0) (Now (st w)) → holding (exec o w).2.
Proof.
  intros Hw Hsp Hb. destruct o; cbn [exec spares] in *; rewrite ?discard_eq.
  - by apply safe_Put.
  - by apply safe_Create_Upload.
  - by apply safe_Upload_Part.
  - by apply holding_Complete.
  - by apply safe_Abort.
  - by apply safe_Create_Bucket.
  - by apply safe_Delete_Bucket.
  - by apply safe_Set_Versioning.
  - by apply safe_Record_Version.
  - by apply safe_Delete_Marker.
  - by apply safe_Delete_Version.
  - by apply holding_Scrub.
  - by apply holding_Collect.
  - by apply holding_Delete.
  - by apply safe_Tick.
  - by apply holding_hold.
  - apply holding_hold; [done..|]. intros -> Hr. rewrite Hsp in Hr; done.
  - by apply safe_Seal.
  - unfold Set_One_Way_Ingest. by apply safe_Save, safe_modify.
  - unfold Open_Sync_Window. by apply safe_Save, safe_modify.
  - unfold Close_Sync_Window. by apply safe_Save, safe_modify.
Qed.
End ops.
End worm.
