(* ===== verification/VaultTheorems.v ===== *)
(** What the vault promises over its whole life: histories of operations and
    restarts, from the first reading of the clock on. *)
From Stdlib Require Import Strings.Byte NArith.
From S2P Require Import Prelude AdaMonad GoStrings GoText GoFloat Sha256 TrustedCore AuditChain AdaText Cas CasSpec.
From S2P Require Import VaultState Vault VaultLines VaultSteps VaultDurable VaultOps VaultExec VaultWorm.
Open Scope Z_scope.

Section theorems.
Context {C : Type} {CO : CasOps C} {CV : CasView C} {CL : CasLaws C} {Mem : Memory}.
Implicit Types (w : world C).

(** A history: operations, however they end, that [allowed] admits, and
    restarts, which open the vault on the files it left; [D] is the sum of the
    forward steps of the monotonic clock. *)
Inductive history (allowed : State → op → Prop) : world C → Z → world C → Prop :=
  | history_start w : history allowed w 0 w
  | history_op w D w1 o : history allowed w D w1 → op_ok o → room (st w1) → allowed (st w1) o →
      history allowed w (D + tick_delta (st w1) o) (exec o w1).2
  | history_restart w D w1 w2 : history allowed w D w1 →
      Open_Vault (Key (st w1)) (disk w1) (store w1) = inr w2 → history allowed w D w2.

Lemma history_dur allowed w D w' T : history allowed w D w' → dur T w → dur (T + D) w'.
Proof.
  induction 1 as [w|w D w1 o _ IH Ho Hr Ha|w D w1 w2 _ IH Hop]; intros Hd.
  - by rewrite Z.add_0_r.
  - rewrite Z.add_assoc. apply exec_dur; auto.
  - destruct w1 as [s1 d1 c1]. destruct (durable_Open (T + D) s1 d1 c1 (IH Hd)) as (s2 & E & _ & _ & Hd2).
    simpl in Hop. rewrite E in Hop. by injection Hop as <-.
Qed.

Lemma history_D allowed w D w' : history allowed w D w' → 0 ≤ D.
Proof. induction 1 as [|? ? w1 o|]; [lia| |done]. pose proof (tick_delta_nonneg (st w1) o). lia. Qed.

(** ** The first reading of the clock *)

(** A new vault: no files but perhaps a journal, and an empty index. *)
Definition new_world (key : list Byte.byte) (c : C) : world C :=
  World (with_Log [Genesis_Entry 0] (new_state key)) {| d_state := None; d_journal := None |} c.

Lemma new_world_Open key (c : C) : Open_Vault key {| d_state := None; d_journal := None |} c = inr (new_world key c).
Proof. done. Qed.

Definition first_tick (key : list Byte.byte) (c : C) (mono realtime : Trusted_Time) (boot : string) : world C :=
  (exec (OpTick mono realtime boot) (new_world key c)).2.

Lemma new_state_ok key : state_ok (with_Log [Genesis_Entry 0] (new_state key)).
Proof.
  pose proof (Genesis_chained 0) as Hg. pose proof (Genesis_ok 0 (ltac:(done))) as Hok.
  revert Hg Hok. generalize (Genesis_Entry 0). intros g Hg Hok.
  split; simpl; try done; try (by rewrite Forall_singleton); try by (intros; exfalso; eapply lookup_empty_Some; eauto).
  exact (chained_verify [g] g Hg).
Qed.

Lemma first_tick_dur key c mono realtime boot : boot ≠ "" → op_ok (OpTick mono realtime boot) →
  dur 0 (first_tick key c mono realtime boot).
Proof.
  intros Hb (Hm & Hr & Hw). unfold first_tick. cbn [exec]. unfold Tick_From_System. apply step_gets, step_modify.
  set (w1 := on_state _ _). pose proof (new_state_ok key) as Hok.
  assert (Hok1 : state_ok (st w1)) by (destruct Hok; by split).
  destruct (Tick_Clock_spec 0 w1 {| Clock_Guard.Mono := mono; Clock_Guard.Realtime := realtime;
     Clock_Guard.Boot_Changed := false |} Hok1) as (w2 & E & Hok2 & Hu2 & HT2 & _ & _); try done.
  cbn [Last_Boot st new_world] in *. rewrite (ada_bind_inr_l _ _ _ _ _ E).
  rewrite bool_decide_true by done. by apply saved_dur.
Qed.

(** ** Durability *)


(** ** Write once, read many *)

Lemma bars_earlier release bypass l t t' : bars release bypass l t → t' ≤ t → bars release bypass l t'.
Proof. intros [?|[? ?]] Ht; [by left|right]. split; [lia|done]. Qed.

Lemma history_holding n release bypass m d T w D w' : history (spares n release bypass) w D w' →
  dur T w → holding n release m d w → bars release bypass (m_Lock m) (T + D) → holding n release m d w'.
Proof.
  intros Hh Hd Hw. induction Hh as [w|w D w1 o Hh IH Ho Hr Ha|w D w1 w2 Hh IH Hop]; intros Hb; [done|..].
  - pose proof (tick_delta_nonneg (st w1) o). apply (exec_holding n release bypass); [|done|].
    + apply IH; [done..|]. eapply bars_earlier; [exact Hb|lia].
    + eapply bars_earlier; [exact Hb|]. pose proof (du_now _ _ _ (history_dur _ _ _ _ T Hh Hd)). lia.
  - specialize (IH Hd Hw Hb). pose proof (history_dur _ _ _ _ T Hh Hd) as Hd1.
    destruct w1 as [s1 d1 c1]. destruct (durable_Open (T + D) s1 d1 c1 Hd1) as (s2 & E & Hs & Hk & _).
    simpl in Hop. rewrite E in Hop. injection Hop as <-. destruct IH as (m' & EI & Hrest).
    exists m'. cbn [st store] in *. by rewrite (same_Index _ _ Hs), Hk.
Qed.

(** C1: An object in a vault whose files recover it, with trusted time at most
    [T], in memory and on disk.  In any history in which nobody replaces the
    entry (a put or a completed upload under its name, a delete marker or the
    deletion of a version of that name), with requests for its deletion,
    garbage collections, scrubs, clock readings of any kind and restarts, the
    object stays in the index with its content and its expiry and reads back
    byte for byte: for as long as its legal hold is not released, or, if it is
    locked until a time that [T] plus the progress of the monotonic clock does
    not reach, in compliance mode whatever is tried, in governance mode unless
    governance is bypassed. *)
Theorem locked_object_survives (T : Trusted_Time) (w w' : world C) (n : string) (m : Meta)
  (d : list Byte.byte) (release bypass : bool) (D : Z)
  (Hdur : dur T w) (Hindex : Index (st w) !! n = Some m) (Hq : m_Quarantined m = false)
  (Hcontent : content (store w) (Key (st w)) m d)
  (Hhist : history (spares n release bypass) w D w')
  (Hbars : bars release bypass (m_Lock m) (T + D)) :
  ∃ m', Index (st w') !! n = Some m' ∧ keeps release m m' ∧ m_Quarantined m' = false ∧
    (Ingest_Only (st w') = false → Get_Object n w' = (inr d, w')) ∧
    (∀ b, (b = true → bypass = true) → Op_Sealed (st w') = false → room (st w') →
       (Delete_Object n b w').1 = inr false).
Proof.
  assert (Hw : holding n release m d w) by (exists m; split_and!; [done|by split|done|done]).
  pose proof (history_holding n release bypass m d T w D w' Hhist Hdur Hw Hbars) as (m' & EI & Hk & Hq' & Hc).
  pose proof (history_dur _ _ _ _ T Hhist Hdur) as Hd. pose proof (du_ok _ _ _ Hd) as Hok.
  exists m'. split_and!; [done..| |].
  - intros Ho. by apply (Get_content w' n m' d).
  - intros b Hb Ho Hr. unfold Delete_Object. rewrite (ada_bind_inr_l (gets st) _ _ _ _ eq_refl). unfold Read_Only.
    rewrite Ho, (ada_bind_inr_l (raise_when false _) _ _ () _ eq_refl), EI.
    rewrite (bars_keeps release bypass m m'); [|done| |done].
    2:{ eapply bars_earlier; [exact Hbars|]. apply (du_now _ _ _ Hd). }
    destruct (sok_index _ Hok n m' EI) as [Hn _]. rewrite Name_Digest_ok by done.
    destruct (du_entry _ _ _ Delete_Denied (SHA256 (String.list_byte_of_string n)) (Clock_Guard.Now (Clock (st w')))
      Hd Hr (sok_clock _ Hok) (SHA256_length _)) as (e & He & _).
    rewrite (ada_bind_inr_l (lift (inr _)) _ _ _ _ eq_refl).
    rewrite (ada_bind_inr_l _ _ _ _ _ (Add_Audit_eq _ _ _ _ w' He)).
    unfold mbind, ada_bind, Commit_Jrnl. destruct (_ =? 0); [done|]. by destruct (_ <=? _).
Qed.

(** ** The operator's seal *)

Notation sealed := (λ w, Op_Sealed (st w) = true).

Lemma seal_modify (g : State → State) : (∀ s, Op_Sealed s = true → Op_Sealed (g s) = true) → preserves sealed (modify_st g).
Proof. intros Hg w Hw. by apply Hg. Qed.

Lemma seal_store {A} (p : Ada (world C) A) : store_only p → preserves sealed p.
Proof. intros Hp w Hw. by rewrite (proj1 (Hp w)). Qed.

Lemma seal_Append l : preserves sealed (Append_Jrnl l).
Proof. by intros w Hw. Qed.

Lemma seal_Save : preserves sealed Save.
Proof. by intros w Hw. Qed.

Lemma seal_Commit : preserves sealed Commit_Jrnl.
Proof. intros w Hw. unfold Commit_Jrnl. destruct (_ =? 0); [done|]. by destruct (_ <=? _). Qed.

Ltac seal_step :=
  first [ apply seal_Append | apply seal_Save | apply seal_Commit
        | apply seal_store; first [apply store_only_cas_put | apply store_only_data | apply store_only_repair | apply store_only_Collect | done]
        | apply seal_modify; done ].
Ltac solve_seal := solve_preserves seal_step.

Lemma seal_Add_Audit k d t : preserves sealed (Add_Audit k d t).
Proof. unfold Add_Audit. solve_seal. Qed.

Lemma seal_J_Obj n : preserves sealed (J_Obj n).
Proof. unfold J_Obj. solve_seal. Qed.

Lemma seal_scrub_loop l : ∀ r, preserves sealed (scrub_loop r l).
Proof.
  pose proof seal_J_Obj. induction l as [|[n m] l IH]; cbn [scrub_loop]; unfold scrub_one, set_meta; solve_seal.
Qed.

Lemma exec_sealed o : preserves sealed (exec o).
Proof.
  pose proof seal_Add_Audit. pose proof seal_J_Obj. pose proof seal_scrub_loop.
  destruct o; cbn [exec]; unfold discard, Put_Object, Create_Upload, Upload_Part, Complete_Upload, Abort_Upload,
    Create_Bucket, Delete_Bucket, Set_Versioning, Record_Version, Delete_Marker, Delete_Version, Scrub, Delete_Object,
    Tick_From_System, Tick_Clock, Set_Legal_Hold, Release_Legal_Hold, change_hold, set_meta, Seal, Set_One_Way_Ingest,
    Open_Sync_Window, Close_Sync_Window, Check_Ingest, raise_when, add_upto, J_Vseq, J_Ver, J_Del; solve_seal.
Qed.

(** The operations that store, create or delete objects and buckets. *)
Definition writes (o : op) : Prop :=
  match o with
  | OpPut _ _ _ _ _ | OpCreateUpload _ _ _ | OpUploadPart _ _ _ | OpComplete _ | OpCreateBucket _ _
  | OpDeleteBucket _ | OpDelete _ _ => True
  | _ => False
  end.

Lemma sealed_rejects w o : Op_Sealed (st w) = true → writes o → exec o w = (inl Vault_Sealed, w).
Proof.
  intros Hs Hw. assert (Hc : Check_Ingest w = (inl Vault_Sealed, w)).
  { unfold Check_Ingest. rewrite (ada_bind_inr_l (gets st) _ _ _ _ eq_refl). by rewrite Hs. }
  destruct o; try done; cbn [exec]; unfold discard, Put_Object, Create_Upload, Upload_Part, Complete_Upload, Create_Bucket, Delete_Bucket.
  1-6: repeat (erewrite ada_bind_inl_l; [reflexivity|]); exact Hc.
  erewrite ada_bind_inl_l; [reflexivity|]. unfold Delete_Object.
  rewrite (ada_bind_inr_l (gets st) _ _ _ _ eq_refl). unfold Read_Only. by rewrite Hs.
Qed.

End theorems.
