(* ===== verification/VaultData.v ===== *)
(** Objects written and read: what [Put_Object] and a multipart upload store
    is what [Get_Object] returns. *)
From Stdlib Require Import Strings.Byte NArith Sorting.Sorted.
From S2P Require Import Prelude AdaMonad GoStrings GoText GoFloat Sha256 TrustedCore AuditChain AdaText Cas CasSpec.
From S2P Require Import VaultState Vault VaultLines VaultSteps VaultDurable VaultOps VaultExec VaultWorm.
Open Scope Z_scope.

(** ** Cutting an object into parts *)

Lemma Part_Size_pos : Part_Size ≠ 0%nat.
Proof. unfold Part_Size. lia. Qed.

#[local] Opaque Part_Size Max_Single.

Lemma concat_slices d k : concat (map (slice d) (seq 0 k)) = take (k * Part_Size) d.
Proof.
  induction k as [|k IH]; [by rewrite take_0|].
  rewrite seq_S, map_app, concat_app, IH. cbn [map concat]. rewrite app_nil_r. simpl (0 + k)%nat. unfold slice.
  replace (S k * Part_Size)%nat with (k * Part_Size + Part_Size)%nat by lia.
  by rewrite take_take_drop.
Qed.

Lemma parts_cover (d : list Byte.byte) k : (k = (length d + Part_Size - 1) / Part_Size)%nat → (length d ≤ k * Part_Size)%nat.
Proof.
  intros ->. pose proof Part_Size_pos as Hp.
  pose proof (Nat.div_mod (length d + Part_Size - 1) Part_Size Hp).
  pose proof (Nat.mod_upper_bound (length d + Part_Size - 1) Part_Size Hp). lia.
Qed.

Section data.
Context {C : Type} {CO : CasOps C} {CV : CasView C} {CL : CasLaws C} {Mem : Memory}.
Implicit Types (w : world C) (c : C).

(** Nothing in the store is in the way of these writes, one after the other. *)
Fixpoint clean_puts (key : list Byte.byte) c (ds : list (list Byte.byte)) : Prop :=
  match ds with
  | [] => True
  | d :: ds => cas_clean c key d ∧ clean_puts key (cas_Put key d c).2 ds
  end.

(** ... nor of those of a composite object. *)
Definition clean_composite w (data : list Byte.byte) : Prop :=
  let n_parts := ((length data + Part_Size - 1) / Part_Size)%nat in
  clean_puts (Key (st w)) (store w) (map (slice data) (seq 0 n_parts)) ∧
  ∀ ids w', ada_map (λ p, cas_put (slice data p)) (seq 0 n_parts) w = (inr ids, w') →
    cas_clean (store w') (Key (st w)) (ids_bytes ids).

Definition clean_object w (data : list Byte.byte) : Prop :=
  if (length data <=? Max_Single)%nat
  then cas_clean (store w) (Key (st w)) data ∧
       (∀ w', cas_put data w = (inl Object_Too_Large, w') → clean_composite w' data)
  else clean_composite w data.

Lemma cas_put_inr d w id w' : cas_put d w = (inr id, w') →
  ∃ c', cas_Put (Key (st w)) d (store w) = (inr id, c') ∧ w' = World (st w) (disk w) c'.
Proof.
  unfold cas_put, on_cas, mbind, ada_bind, gets. destruct (cas_Put _ d (store w)) as [[e|i] c']; [done|].
  intros [= <- <-]. eauto.
Qed.

Lemma cas_put_stored d w id w' : cas_put d w = (inr id, w') → cas_clean (store w) (Key (st w)) d →
  cas_stored (store w') (Key (st w')) id d.
Proof. intros (c' & E & ->)%cas_put_inr Hc. simpl. by eapply put_stored. Qed.

Lemma cas_put_keeps d w r w' id p : cas_put d w = (r, w') → cas_stored (store w) (Key (st w)) id p →
  cas_stored (store w') (Key (st w')) id p.
Proof.
  intros E Hs. apply (put_keeps (Key (st w)) d) in Hs. unfold cas_put, on_cas, mbind, ada_bind, gets in E.
  destruct (cas_Put _ d (store w)) as [r' c']. by injection E as _ <-.
Qed.

(** The parts of a composite object, all stored. *)
Lemma put_parts_stored {A} (f : A → list Byte.byte) l : ∀ w ids w',
  ada_map (λ x, cas_put (f x)) l w = (inr ids, w') → clean_puts (Key (st w)) (store w) (map f l) →
  st w' = st w ∧ Forall id_ok ids ∧
  (∀ id p, cas_stored (store w) (Key (st w)) id p → cas_stored (store w') (Key (st w)) id p) ∧
  Forall2 (λ id p, cas_stored (store w') (Key (st w)) id p) ids (map f l).
Proof.
  induction l as [|x l IH]; intros w ids w'; cbn [ada_map map clean_puts].
  - intros [= <- <-] _. split_and!; try done; by constructor.
  - intros (id & w1 & E1 & (ids1 & w2 & E2 & E3)%ada_bind_inr)%ada_bind_inr [Hc Hcs]. injection E3 as <- <-.
    pose proof (cas_put_stored _ _ _ _ E1 Hc) as Hst. pose proof (cas_put_id _ _ _ _ E1) as Hid.
    assert (Hk1 : ∀ id p, cas_stored (store w) (Key (st w)) id p → cas_stored (store w1) (Key (st w1)) id p)
      by (intros; by eapply cas_put_keeps).
    apply cas_put_inr in E1 as (c1 & E1 & ->). rewrite E1 in Hcs. simpl in *.
    destruct (IH (World (st w) (disk w) c1) ids1 w2 E2 Hcs) as (Es & Hids & Hk2 & Hf). simpl in *.
    split_and!; [done|by constructor|by auto|]. constructor; auto.
Qed.

Lemma Store_Composite_content data w id w' m : Store_Composite data w = (inr id, w') → clean_composite w data →
  m_Id m = id → m_Composite m = true → m_Size m = Z.of_nat (length data) →
  st w' = st w ∧ content (store w') (Key (st w)) m data.
Proof.
  intros (ids & w1 & E1 & E2)%ada_bind_inr [Hcs Hcl] Ei Ec Es.
  destruct (put_parts_stored _ _ _ _ _ E1 Hcs) as (Es1 & Hids & Hk & Hf). specialize (Hcl ids w1 E1).
  rewrite <- Es1 in Hcl. pose proof (cas_put_stored _ _ _ _ E2 Hcl) as Hst.
  assert (Hk2 : ∀ id p, cas_stored (store w1) (Key (st w1)) id p → cas_stored (store w') (Key (st w')) id p)
    by (intros; by eapply cas_put_keeps).
  apply cas_put_inr in E2 as (c2 & E2 & ->). simpl in *. rewrite Es1 in *. split; [done|].
  unfold content. rewrite Ec, Ei. eexists ids, _. split_and!; [done|done| | |done].
  - eapply Forall2_impl; [exact Hf|]. intros. by apply Hk2.
  - rewrite concat_slices. apply take_ge, parts_cover. done.
Qed.

Lemma store_data_content data w id comp w' m : store_data data w = (inr (id, comp), w') → clean_object w data →
  m_Id m = id → m_Composite m = comp → m_Size m = Z.of_nat (length data) →
  st w' = st w ∧ content (store w') (Key (st w)) m data.
Proof.
  intros E Hcl Ei Ec Es. unfold store_data, clean_object in *. destruct (length data <=? Max_Single)%nat.
  - destruct Hcl as [Hc Hcc]. unfold handle in E.
    destruct (cas_put data w) as [[e|i] w1] eqn:E1.
    + rewrite (ada_bind_inl_l _ _ _ _ _ E1) in E. case_decide as He; [|done]. subst e.
      apply ada_bind_inr in E as (id' & w2 & E2 & E3). injection E3 as <- <- <-.
      assert (Es1 : st w1 = st w) by (pose proof (store_only_cas_put data w) as [H1 _]; by rewrite E1 in H1).
      destruct (Store_Composite_content data w1 id' w2 m E2 (Hcc w1 eq_refl) Ei Ec Es) as [E3 H3].
      rewrite Es1 in *. done.
    + rewrite (ada_bind_inr_l _ _ _ _ _ E1) in E. injection E as <- <- <-.
      pose proof (cas_put_stored _ _ _ _ E1 Hc) as Hst. apply cas_put_inr in E1 as (c1 & _ & ->). simpl in *.
      split; [done|]. unfold content. by rewrite Ec, Ei.
  - apply ada_bind_inr in E as (id' & w2 & E2 & E3). injection E3 as <- <- <-.
    by apply (Store_Composite_content data w id' w2 m).
Qed.

(** ** The pieces of an operation that returned *)

Lemma Check_Ingest_inr w w' : Check_Ingest w = (inr (), w') →
  w' = w ∧ Op_Sealed (st w) = false ∧ Sync_Shut (st w) = false.
Proof.
  unfold Check_Ingest, mbind, ada_bind, gets, raise_when, raise, mret, ada_ret.
  destruct (Op_Sealed (st w)), (Sync_Shut (st w)); try done. by intros [= <-].
Qed.

Lemma raise_when_inr b e (w w' : world C) : raise_when b e w = (inr (), w') → w' = w ∧ b = false.
Proof. destruct b; [done|]. by intros [= <-]. Qed.

Lemma add_upto_inr hi a b z (w w' : world C) : add_upto hi a b w = (inr z, w') → w' = w ∧ z = a + b ∧ a + b ≤ hi.
Proof. unfold add_upto. destruct (Z.leb_spec (a + b) hi); [|done]. by intros [= <- <-]. Qed.

Lemma Add_Audit_inr k dg t w w' : Add_Audit k dg t w = (inr (), w') → ∃ e, next_entry (st w) k dg t = Some e ∧
  w' = on_state (append_jrnl (A_Line e)) (on_state (λ s, with_Log (Log s ++ [e]) s) w).
Proof.
  destruct (next_entry (st w) k dg t) as [e|] eqn:En.
  - rewrite (Add_Audit_eq _ _ _ _ _ En). intros [= <-]. eauto.
  - unfold Add_Audit, mbind, ada_bind, gets, lift. by rewrite En.
Qed.

Lemma next_entry_kind s k dg t e : next_entry s k dg t = Some e → Kind e = k ∧ Subject e = dg ∧ Detail e = t ∧ Time e = Now s.
Proof.
  unfold next_entry. destruct (last (Log s)) as [p|]; [|done]. simpl. destruct (_ =? _); [done|].
  by intros [= <-].
Qed.

(** What a commit leaves alone. *)
Record committed w w' : Prop := {
  cm_store : store w' = store w;
  cm_Key : Key (st w') = Key (st w);
  cm_Index : Index (st w') = Index (st w);
  cm_Log : Log (st w') = Log (st w);
  cm_Ingest : Ingest_Only (st w') = Ingest_Only (st w);
  cm_Uploads : Uploads (st w') = Uploads (st w);
  cm_Clock : Clock (st w') = Clock (st w);
  cm_Sealed : Op_Sealed (st w') = Op_Sealed (st w);
}.

Lemma Commit_inr w r w' : Commit_Jrnl w = (r, w') → committed w w'.
Proof.
  unfold Commit_Jrnl. destruct (_ =? 0); [by intros [= _ <-]|]. destruct (_ <=? _); by intros [= _ <-].
Qed.

Lemma Commit_returns w : ∃ w', Commit_Jrnl w = (inr (), w') ∧ committed w w'.
Proof.
  unfold Commit_Jrnl. destruct (_ =? 0); [by eexists|]. destruct (_ <=? _); by eexists.
Qed.

Lemma Commit_appends w r w' : Commit_Jrnl w = (r, w') → 0 < Jrnl_Pend (st w) →
  Jrnl_Count (st w) + Jrnl_Pend (st w) < Compact_Limit →
  disk w' = {| d_state := d_state (disk w); d_journal := Some (default "" (d_journal (disk w)) +:+ Jrnl_Buf (st w)) |}.
Proof.
  unfold Commit_Jrnl. intros E Hp Hl. rewrite (proj2 (Z.eqb_neq _ _)), (proj2 (Z.leb_gt _ _)) in E by lia.
  by injection E as _ <-.
Qed.

Lemma J_Obj_inr n w w' : J_Obj n w = (inr (), w') → ∃ l, w' = on_state (append_jrnl l) w.
Proof. unfold J_Obj, mbind, ada_bind, gets. destruct (Index (st w) !! n); [|done]. intros [= <-]. eauto. Qed.

Lemma content_same c key m m' d : m_Id m' = m_Id m → m_Composite m' = m_Composite m → m_Size m' = m_Size m →
  content c key m d → content c key m' d.
Proof. unfold content. by intros -> -> ->. Qed.

(** ** Put, then get *)

Lemma Put_Object_inr (w w' : world C) n data mode retain_for meta :
  Put_Object n data mode retain_for meta w = (inr (), w') → ∃ w1 id comp m e dg,
    store_data data w = (inr (id, comp), w1) ∧ st w1 = st w ∧ store w' = store w1 ∧
    m = {| m_Id := id; m_Lock := Retention.Create_Lock mode (Now (st w) + retain_for) (Now (st w)); m_Composite := comp;
           m_Quarantined := false; m_Size := Z.of_nat (length data); m_User_Meta := meta |} ∧
    Index (st w') = <[n := m]> (Index (st w)) ∧ Name_Digest n = inr dg ∧
    next_entry (st w) Lock_Created dg (Now (st w) + retain_for) = Some e ∧ Log (st w') = Log (st w) ++ [e] ∧
    Key (st w') = Key (st w) ∧ Ingest_Only (st w') = Ingest_Only (st w) ∧ Clock (st w') = Clock (st w) ∧
    Op_Sealed (st w) = false ∧ Op_Sealed (st w') = false ∧
    (Jrnl_Buf (st w) = "" → Jrnl_Pend (st w) = 0 → Jrnl_Count (st w) + 2 < Compact_Limit →
     disk w' = {| d_state := d_state (disk w);
                  d_journal := Some (default "" (d_journal (disk w)) +:+ unlines [A_Line e; Obj_Line n m]) |}).
Proof.
  unfold Put_Object. intros Hput.
  apply ada_bind_inr in Hput as ([] & w1 & (-> & Hs & _)%Check_Ingest_inr & Hput).
  apply ada_bind_inr in Hput as ([] & w1 & [-> _]%raise_when_inr & Hput).
  rewrite (ada_bind_inr_l (gets st) _ _ _ _ eq_refl) in Hput.
  apply ada_bind_inr in Hput as (t & w1 & (-> & -> & Ht)%add_upto_inr & Hput).
  apply ada_bind_inr in Hput as ([id comp] & w1 & Hst & Hput).
  assert (Es : st w1 = st w ∧ disk w1 = disk w) by (pose proof (store_only_data data w) as E; by rewrite Hst in E).
  destruct Es as [Es Ed]. rewrite (ada_bind_inr_l (modify_st _) _ _ () _ eq_refl) in Hput.
  apply ada_bind_inr in Hput as (dg & w2 & Hdg & Hput). injection Hdg as Hdg <-.
  apply ada_bind_inr in Hput as ([] & w2 & (e & He & ->)%Add_Audit_inr & Hput).
  erewrite ada_bind_inr_l in Hput; [|apply J_Obj_eq, lookup_insert_eq].
  pose proof (Commit_appends _ _ _ Hput) as Hdisk. apply Commit_inr in Hput as [E1 E2 E3 E4 E5 _ E6 E7].
  cbn [on_state st disk store append_jrnl with_Log with_Index with_Jrnl_Pend with_Jrnl_Buf Jrnl_Pend Jrnl_Buf Jrnl_Count
       Key Index Log Ingest_Only Clock Op_Sealed] in *.
  rewrite Es in *. rewrite Ed in Hdisk.
  eexists w1, id, comp, _, e, dg. split_and!; try reflexivity; try assumption; try congruence.
  intros EB EP Hlim. rewrite EB, EP in Hdisk. rewrite Hdisk by lia.
  cbn [unlines]. by rewrite str_app_nil_l, str_app_nil_r, <- !str_app_assoc.
Qed.

(** C11: A put that returned, with nothing in the way in the store: the index has
    one entry under the name, locked in the given mode until the trusted time
    of the put plus the retention period, with the size and the metadata; the
    audit log has one more entry, which records this lock; the other entries
    are as they were; and reading the object gives the bytes that were put,
    also when they were stored in parts. *)
Theorem put_then_get (w w' : world C) (n : string) (data : list Byte.byte) (mode : Retention.Lock_Mode)
  (retain_for : Trusted_Time) (meta : string)
  (Hput : Put_Object n data mode retain_for meta w = (inr (), w')) (Hclean : clean_object w data) :
  (∃ m, Index (st w') = <[n := m]> (Index (st w)) ∧
     m_Lock m = Retention.Create_Lock mode (Now (st w) + retain_for) (Now (st w)) ∧
     m_Size m = Z.of_nat (length data) ∧ m_User_Meta m = meta) ∧
  (∃ e, Log (st w') = Log (st w) ++ [e] ∧ Kind e = Lock_Created ∧ Detail e = Now (st w) + retain_for ∧
     Name_Digest n = inr (Subject e)) ∧
  (Ingest_Only (st w) = false → Get_Object n w' = (inr data, w')).
Proof.
  destruct (Put_Object_inr _ _ _ _ _ _ _ Hput)
    as (w1 & id & comp & m & e & dg & Hst & Es & E1 & Em & EI & Edg & He & EL & EK & EO & _ & _ & _ & _).
  destruct (store_data_content data w id comp w1 m Hst Hclean) as [_ Hc]; [by subst m..|].
  apply next_entry_kind in He as (Ek & Esub & Ed & _).
  split_and!.
  - exists m. by subst m.
  - exists e. split_and!; try done. by rewrite Esub.
  - intros Ho. apply (Get_content w' n m data); [by rewrite EI, lookup_insert_eq|by subst m|congruence|].
    by rewrite E1, EK.
Qed.

(** ** Multipart uploads *)

Notation part := (Z * list Byte.byte)%type.

(** The stored parts [ps] hold the data of [l], part by part. *)
Definition parts_hold c (key : list Byte.byte) (ps : list (Z * string)) (l : list part) : Prop :=
  Forall2 (λ a b, a.1 = b.1 ∧ id_ok a.2 ∧ cas_stored c key a.2 b.2) ps l.

Lemma parts_hold_mono c c' key ps l : (∀ id p, cas_stored c key id p → cas_stored c' key id p) →
  parts_hold c key ps l → parts_hold c' key ps l.
Proof. intros Hm Hl. eapply Forall2_impl; [exact Hl|]. intros a b (? & ? & ?). auto. Qed.

Lemma parts_hold_keys c key ps l : parts_hold c key ps l → ps.*1 = l.*1.
Proof. induction 1 as [|a b ps l (E & _) _ IH]; [done|]. by rewrite !fmap_cons, E, IH. Qed.

Lemma part_include_hold c key pn pid d ps l : parts_hold c key ps l → StronglySorted Z.lt l.*1 → pn ∉ l.*1 →
  id_ok pid → cas_stored c key pid d →
  ∃ l', parts_hold c key (part_include pn pid ps) l' ∧ l' ≡ₚ (pn, d) :: l ∧ StronglySorted Z.lt l'.*1.
Proof.
  intros Hl Hs Hn Hid Hd. induction Hl as [|[k v] [k' dv] ps l (E & Hk & Hv) Hl IH]; simpl in *.
  - exists [(pn, d)]. split_and!; [by constructor|done|].
    simpl. constructor; constructor.
  - subst k'. apply StronglySorted_inv in Hs as [Hs Hall].
    destruct (Z.ltb_spec pn k) as [Hlt|Hge].
    + exists ((pn, d) :: (k, dv) :: l). split_and!; [constructor; [done|by constructor]|done|]. simpl.
      constructor; [by constructor|]. constructor; [done|]. eapply Forall_impl; [exact Hall|]. simpl. lia.
    + destruct (Z.eqb_spec pn k) as [->|Hne]; [set_solver|].
      destruct IH as (l' & Hl' & Hp & Hs'); [done|set_solver|]. exists ((k, dv) :: l'). split_and!.
      * by constructor.
      * rewrite Hp. apply Permutation_swap.
      * simpl. constructor; [done|]. rewrite Hp. simpl. constructor; [lia|done].
Qed.

Lemma length_concat_perm (l l' : list part) : l ≡ₚ l' → length (concat l.*2) = length (concat l'.*2).
Proof.
  induction 1 as [|[] l l' _ IH|[] [] l|? ? ? _ IH1 _ IH2]; rewrite ?fmap_cons; cbn [concat snd];
    rewrite ?length_app; lia.
Qed.

(** An upload in progress: [l] in the order of the part numbers is what was
    uploaded so far. *)
Definition uploading (i : string) (u0 : Upload) (l : list part) w : Prop :=
  ∃ u, Uploads (st w) !! i = Some u ∧ u_Name u = u_Name u0 ∧ u_Mode u = u_Mode u0 ∧ u_Retain_For u = u_Retain_For u0 ∧
    parts_hold (store w) (Key (st w)) (u_Parts u) l ∧ StronglySorted Z.lt l.*1 ∧
    u_Total u = Z.of_nat (length (concat l.*2)).

Lemma Upload_Part_uploading i u0 l w w' pn d : uploading i u0 l w → Upload_Part i d pn w = (inr (), w') →
  0 < pn → pn ∉ l.*1 → cas_clean (store w) (Key (st w)) d →
  (∃ l', uploading i u0 l' w' ∧ l' ≡ₚ (pn, d) :: l) ∧ Key (st w') = Key (st w) ∧
  Index (st w') = Index (st w) ∧ Clock (st w') = Clock (st w) ∧ Ingest_Only (st w') = Ingest_Only (st w) ∧
  store w' = (cas_Put (Key (st w)) d (store w)).2.
Proof.
  intros (u & Eu & En & Em & Er & Hps & Hs & Htot) E Hpn Hnew Hcl. unfold Upload_Part in E.
  apply ada_bind_inr in E as ([] & w1 & (-> & _ & _)%Check_Ingest_inr & E).
  rewrite (ada_bind_inr_l (gets st) _ _ _ _ eq_refl), Eu in E.
  apply ada_bind_inr in E as (pid & w1 & Hp & E).
  pose proof (cas_put_stored _ _ _ _ Hp Hcl) as Hst. pose proof (cas_put_id _ _ _ _ Hp) as Hid.
  assert (Hk : ∀ id p, cas_stored (store w) (Key (st w)) id p → cas_stored (store w1) (Key (st w1)) id p)
    by (intros; by eapply cas_put_keeps).
  apply cas_put_inr in Hp as (c1 & Hp & ->). simpl in Hst, Hk.
  assert (Epn : next_part u pn = pn) by (unfold next_part; by rewrite (proj2 (Z.ltb_lt _ _) Hpn)).
  rewrite Epn in E. apply ada_bind_inr in E as ([] & w1 & [-> _]%raise_when_inr & E).
  assert (Ex : existsb (λ p, p.1 =? pn) (u_Parts u) = false).
  { apply not_true_iff_false. intros (x & Hx & Hx1)%existsb_exists. apply Z.eqb_eq in Hx1. apply Hnew.
    rewrite <- (parts_hold_keys _ _ _ _ Hps), <- Hx1. apply list_elem_of_fmap. exists x. split; [done|].
    by apply list_elem_of_In. }
  rewrite Ex in E. apply ada_bind_inr in E as (t & w1 & (-> & -> & Ht)%add_upto_inr & E). injection E as <-.
  destruct (part_include_hold c1 (Key (st w)) pn pid d (u_Parts u) l) as (l' & Hl' & Hperm & Hs'); try done.
  { by apply (parts_hold_mono (store w)). }
  split_and!; try done; [|simpl; by rewrite Hp]. exists l'. split; [|done]. eexists. cbn [on_state st store Uploads].
  split_and!; [apply lookup_insert_eq|done..|]. simpl.
  rewrite (length_concat_perm _ _ Hperm), fmap_cons. cbn [concat snd]. rewrite length_app, Htot. lia.
Qed.

Definition upload_all (i : string) (parts : list part) : Ada (world C) unit :=
  ada_iter (λ p, Upload_Part i p.2 p.1) parts.

Lemma upload_all_uploading i u0 parts : ∀ l w w', uploading i u0 l w → upload_all i parts w = (inr (), w') →
  Forall (λ p : part, 0 < p.1) parts → NoDup (parts.*1 ++ l.*1) → clean_puts (Key (st w)) (store w) parts.*2 →
  (∃ l', uploading i u0 l' w' ∧ l' ≡ₚ parts ++ l) ∧ Key (st w') = Key (st w) ∧
  Index (st w') = Index (st w) ∧ Clock (st w') = Clock (st w) ∧ Ingest_Only (st w') = Ingest_Only (st w).
Proof.
  induction parts as [|[pn d] parts IH]; intros l w w' Hu E Hpos Hnd Hcl.
  - injection E as <-. split_and!; try done. by exists l.
  - apply ada_bind_inr in E as ([] & w1 & E1 & E2). apply Forall_cons in Hpos as [Hp Hpos].
    simpl in *. apply NoDup_cons in Hnd as [Hn Hnd]. destruct Hcl as [Hc Hcs].
    destruct (Upload_Part_uploading i u0 l w w1 pn d Hu E1 Hp) as ((l1 & Hu1 & Hp1) & Ek & Ei & Ec & Eo & Est);
      [set_solver|done|].
    destruct (IH l1 w1 w' Hu1 E2 Hpos) as ((l2 & Hu2 & Hp2) & ? & ? & ? & ?).
    + rewrite Hp1. simpl. rewrite <- Permutation_middle. by apply NoDup_cons.
    + by rewrite Ek, Est.
    + split_and!; try congruence. exists l2. split; [done|]. rewrite Hp2, Hp1. by rewrite <- Permutation_middle.
Qed.

Lemma Create_Upload_uploading n mode r w i w' : Create_Upload n mode r w = (inr i, w') →
  ∃ u0, u_Name u0 = n ∧ u_Mode u0 = mode ∧ u_Retain_For u0 = r ∧ uploading i u0 [] w' ∧ mode ≠ Retention.Unlocked ∧
    store w' = store w ∧ Key (st w') = Key (st w) ∧ Index (st w') = Index (st w) ∧ Clock (st w') = Clock (st w) ∧
    Ingest_Only (st w') = Ingest_Only (st w).
Proof.
  unfold Create_Upload. intros ([] & w1 & (-> & _ & _)%Check_Ingest_inr & E)%ada_bind_inr.
  apply ada_bind_inr in E as ([] & w1 & [-> Hm]%raise_when_inr & E). apply bool_decide_eq_false in Hm.
  rewrite (ada_bind_inr_l (gets st) _ _ _ _ eq_refl) in E.
  apply ada_bind_inr in E as (q & w1 & (-> & -> & _)%add_upto_inr & E). injection E as <- <-.
  eexists {| u_Name := n; u_Mode := mode; u_Retain_For := r; u_Parts := []; u_Total := 0 |}.
  split_and!; try done. eexists. split_and!; [apply lookup_insert_eq|done..|constructor|constructor|done].
Qed.

Lemma Complete_Upload_inr i u w w' : Complete_Upload i w = (inr (), w') → Uploads (st w) !! i = Some u →
  cas_clean (store w) (Key (st w)) (ids_bytes (u_Parts u).*2) →
  ∃ m, Index (st w') = <[u_Name u := m]> (Index (st w)) ∧
    m_Lock m = Retention.Create_Lock (u_Mode u) (Now (st w) + u_Retain_For u) (Now (st w)) ∧
    m_Quarantined m = false ∧ m_Composite m = true ∧ m_Size m = u_Total u ∧
    cas_stored (store w') (Key (st w')) (m_Id m) (ids_bytes (u_Parts u).*2) ∧
    (∀ id p, cas_stored (store w) (Key (st w)) id p → cas_stored (store w') (Key (st w')) id p) ∧
    Ingest_Only (st w') = Ingest_Only (st w).
Proof.
  unfold Complete_Upload. intros E Eu Hcl.
  apply ada_bind_inr in E as ([] & w1 & (-> & _ & _)%Check_Ingest_inr & E).
  rewrite (ada_bind_inr_l (gets st) _ _ _ _ eq_refl), Eu in E.
  apply ada_bind_inr in E as (lid & w1 & Hp & E).
  pose proof (cas_put_stored _ _ _ _ Hp Hcl) as Hst.
  assert (Hk : ∀ id p, cas_stored (store w) (Key (st w)) id p → cas_stored (store w1) (Key (st w1)) id p)
    by (intros; by eapply cas_put_keeps).
  apply cas_put_inr in Hp as (c1 & _ & ->). simpl in Hst, Hk.
  apply ada_bind_inr in E as (t & w1 & (-> & -> & _)%add_upto_inr & E).
  match type of E with context [with_Index (<[_ := ?x]> _) _] => set (m := x) in E end.
  rewrite (ada_bind_inr_l (modify_st _) _ _ () _ eq_refl) in E.
  apply ada_bind_inr in E as (dg & w2 & Hdg & E). injection Hdg as _ <-.
  apply ada_bind_inr in E as ([] & w2 & (e & He & ->)%Add_Audit_inr & E).
  rewrite (ada_bind_inr_l (modify_st _) _ _ () _ eq_refl) in E.
  apply ada_bind_inr in E as ([] & w2 & [x ->]%J_Obj_inr & E).
  apply Commit_inr in E as [E1 E2 E3 E4 E5 E6 _ _]. simpl in *.
  exists m. rewrite E1, E2, E3, E5. by split_and!.
Qed.

(** The entry a completed upload leaves in the index, and its content. *)
Lemma Complete_Upload_content i u0 l w w' : uploading i u0 l w → Complete_Upload i w = (inr (), w') →
  (∀ u, Uploads (st w) !! i = Some u → cas_clean (store w) (Key (st w)) (ids_bytes (u_Parts u).*2)) →
  ∃ m, Index (st w') = <[u_Name u0 := m]> (Index (st w)) ∧
    m_Lock m = Retention.Create_Lock (u_Mode u0) (Now (st w) + u_Retain_For u0) (Now (st w)) ∧
    m_Quarantined m = false ∧ content (store w') (Key (st w')) m (concat l.*2) ∧
    Ingest_Only (st w') = Ingest_Only (st w).
Proof.
  intros (u & Eu & En & Em & Er & Hps & Hs & Htot) E Hcl.
  destruct (Complete_Upload_inr i u w w' E Eu (Hcl u Eu)) as (m & EI & EL & EQ & EC & ES & Hst & Hk & Eo).
  exists m. rewrite EI, EL, En, Em, Er. split_and!; try done. unfold content. rewrite EC.
  exists (u_Parts u).*2, l.*2. split_and!; try done; [| |congruence].
  - clear -Hps. induction Hps as [|a b ps l (_ & Hid & _) _ IH]; [constructor|]. rewrite fmap_cons. by constructor.
  - clear -Hps Hk. induction Hps as [|a b ps l (_ & _ & Hc) _ IH]; [constructor|]. rewrite !fmap_cons. constructor; auto.
Qed.

(** C12: A multipart upload that was created, whose parts were uploaded in any
    order under distinct positive numbers, and that was completed: the object
    reads back as the parts in increasing order of their numbers, one after
    the other, and is locked in the mode and for the period the upload was
    created with, counted from its completion. *)
Theorem multipart_assembles (w w1 w2 w3 : world C) (n i : string) (mode : Retention.Lock_Mode)
  (retain_for : Trusted_Time) (parts : list (Z * list Byte.byte))
  (Hcreate : Create_Upload n mode retain_for w = (inr i, w1))
  (Hupload : upload_all i parts w1 = (inr (), w2))
  (Hcomplete : Complete_Upload i w2 = (inr (), w3))
  (Hpos : Forall (λ p : Z * list Byte.byte, 0 < p.1) parts) (Hdistinct : NoDup parts.*1)
  (Hclean : clean_puts (Key (st w)) (store w) parts.*2)
  (Hclean' : ∀ u, Uploads (st w2) !! i = Some u → cas_clean (store w2) (Key (st w2)) (ids_bytes (u_Parts u).*2))
  (Hegress : Ingest_Only (st w) = false) :
  ∃ sorted m, sorted ≡ₚ parts ∧ StronglySorted Z.lt sorted.*1 ∧
    Get_Object n w3 = (inr (concat sorted.*2), w3) ∧ Index (st w3) = <[n := m]> (Index (st w)) ∧
    m_Lock m = Retention.Create_Lock mode (Now (st w) + retain_for) (Now (st w)).
Proof.
  destruct (Create_Upload_uploading _ _ _ _ _ _ Hcreate) as (u0 & <- & <- & <- & Hu & _ & Es & Ek & Ei & Ec & Eo).
  rewrite <- Es, <- Ek in Hclean.
  destruct (upload_all_uploading i u0 parts [] w1 w2 Hu Hupload Hpos) as ((l & Hl & Hp) & Ek2 & Ei2 & Ec2 & Eo2).
  { by rewrite app_nil_r. } { done. }
  destruct (Complete_Upload_content i u0 l w2 w3 Hl Hcomplete Hclean') as (m & EI & EL & EQ & Hc & Eo3).
  rewrite app_nil_r in Hp. exists l, m. unfold Now in *. split_and!; [done| | |congruence|congruence].
  - by destruct Hl as (u & _ & _ & _ & _ & _ & Hs & _).
  - apply (Get_content w3 (u_Name u0) m); [by rewrite EI, lookup_insert_eq|done|congruence|done].
Qed.
End data.
