(* ===== verification/VaultFindings.v ===== *)
(** Behaviours of the vault that its documentation does not describe, proved of
    the model: what a restart does to trusted time, what a put does to a
    locked object, what a crash between the two steps of a compaction does to
    a legal hold, and what a part that is uploaded twice does to the object. *)
From Stdlib Require Import Strings.Byte NArith.
From S2P Require Import Prelude AdaMonad GoStrings GoText GoFloat Sha256 TrustedCore AuditChain AdaText Cas CasSpec.
From S2P Require Import VaultState Vault VaultLines VaultSteps VaultDurable VaultOps VaultExec VaultWorm VaultData.
Open Scope Z_scope.

(** ** A restart *)

Lemma Apply_Line_Started l s s' : Apply_Line l s = Some s' → Started s = false → Started s' = false.
Proof.
  unfold Apply_Line. intros Ha Hs.
  repeat (case_decide; [try (apply bind_Some in Ha as (x & Hx & Ha); clear Hx)|]); try (by injection Ha as <-).
  - destruct x as [n e]. injection Ha as <-. unfold add_version. by destruct (existsb _ _).
  - destruct x. by injection Ha as <-.
  - destruct (_ =? _); [|by injection Ha as <-]. apply bind_Some in Ha as (y & _ & Ha). by injection Ha as <-.
Qed.

Lemma apply_lines_Started ls : ∀ s s', apply_lines ls s = Some s' → Started s = false → Started s' = false.
Proof.
  induction ls as [|l ls IH]; simpl; intros s s'; [by intros [= <-]|].
  intros (s1 & H1 & H2)%bind_Some Hs. eauto using Apply_Line_Started.
Qed.

Lemma Open_Started {C} key d (c : C) w : Open_Vault key d c = inr w → Started (st w) = false.
Proof.
  unfold Open_Vault. destruct (d_state d) as [text|]; [|by intros [= <-]].
  destruct (Load _ _ _) as [s|] eqn:E; [|done]. intros [= <-]. unfold Load in E.
  apply bind_Some in E as (s1 & E1 & E). apply apply_lines_Started in E1; [|done].
  destruct (d_journal d); [|by injection E as <-]. apply bind_Some in E as (s2 & E2 & E). injection E as <-.
  by apply apply_lines_Started in E2.
Qed.

Section findings.
Context {C : Type} {CO : CasOps C} {CV : CasView C} {CL : CasLaws C} {Mem : Memory}.
Implicit Types (w : world C).

(** The first reading of the clock after the vault was opened, whatever its
    files say and whatever the reading is: trusted time is 0 and the seal that
    a clock anomaly set is gone, so an object that is locked in compliance
    mode until any time after 0 is not deletable, also if it was before the
    restart. *)
Theorem restart_resets_time (key : list Byte.byte) (d : Disk) (c : C) (w : world C)
  (mono realtime : Trusted_Time) (boot n : string) (m : Meta)
  (Hopen : Open_Vault key d c = inr w)
  (Hindex : Index (st w) !! n = Some m)
  (Hlock : Retention.Mode (m_Lock m) = Retention.Compliance) (Huntil : 0 < Retention.Retain_Until (m_Lock m)) :
  let s := st (Tick_From_System mono realtime boot w).2 in
  Now s = 0 ∧ Clock_Guard.Is_Sealed (Clock s) = false ∧ Index s !! n = Some m ∧ Object_Deletable s n = false.
Proof.
  apply Open_Started in Hopen. cbv zeta.
  assert (E : ∃ w', Tick_From_System mono realtime boot w = (inr (), w') ∧ Index (st w') = Index (st w) ∧
    Clock_Guard.Floor (Clock (st w')) = 0 ∧ Clock_Guard.Sealed (Clock (st w')) = false).
  { unfold Tick_From_System, Tick_Clock, mbind, ada_bind, gets, modify_st, update. simpl. rewrite Hopen. simpl.
    destruct (bool_decide _); eexists; by split_and!. }
  destruct E as (w' & -> & EI & EF & ES). simpl. unfold Now, Object_Deletable, Clock_Guard.Now, Clock_Guard.Is_Sealed.
  rewrite EI, EF, ES, Hindex. split_and!; try done. unfold Retention.Can_Delete. rewrite Hlock.
  destruct (Retention.Legal_Hold (m_Lock m)); [done|]. by apply Z.leb_gt.
Qed.

(** ** A put over a locked object *)

(** Deletion of an object whose lock admits it. *)
Lemma Delete_allowed T w n m : dur T w → room (st w) → Op_Sealed (st w) = false → Index (st w) !! n = Some m →
  Object_Deletable (st w) n = true →
  ∃ w', Delete_Object n false w = (inr true, w') ∧ Index (st w') = delete n (Index (st w)).
Proof.
  intros Hd Hr Ho EI Hdel. pose proof (du_ok _ _ _ Hd) as Hok. destruct (sok_index _ Hok n m EI) as [Hn _].
  unfold Object_Deletable in Hdel. rewrite EI in Hdel.
  unfold Delete_Object. rewrite (ada_bind_inr_l (gets st) _ _ _ _ eq_refl). unfold Read_Only.
  rewrite Ho, (ada_bind_inr_l (raise_when false _) _ _ () _ eq_refl), EI, Hdel.
  rewrite (ada_bind_inr_l (modify_st _) _ _ () _ eq_refl), Name_Digest_ok by done.
  rewrite (ada_bind_inr_l (lift (inr _)) _ _ _ _ eq_refl).
  destruct (du_entry _ _ _ Delete_Allowed (SHA256 (String.list_byte_of_string n)) (Clock_Guard.Now (Clock (st w)))
    Hd Hr (sok_clock _ Hok) (SHA256_length _)) as (e & He & _).
  rewrite (ada_bind_inr_l _ _ _ _ _ (Add_Audit_eq _ _ _ _ (on_state (λ s, with_Index (delete n (Index s)) s) w) He)).
  unfold J_Del, Append_Jrnl. rewrite (ada_bind_inr_l (update _) _ _ () _ eq_refl).
  unfold mbind, ada_bind, Commit_Jrnl. destruct (_ =? 0); [eexists; by split|].
  destruct (_ <=? _); eexists; by split.
Qed.

(** An object that the vault refuses to delete is replaced by a put under its
    name, and the replacement, locked for no time, is deleted by the next
    request: [Put_Object] does not look at the lock of what it replaces. *)
Theorem put_defeats_lock (T : Trusted_Time) (w w1 : world C) (n : string) (data : list Byte.byte)
  (Hdur : dur T w) (Hroom : room (st w)) (Hroom1 : room (st w1))
  (Hlocked : Contains (st w) n = true ∧ Object_Deletable (st w) n = false)
  (Hok : op_ok (OpPut n data Retention.Governance 0 ""))
  (Hput : Put_Object n data Retention.Governance 0 "" w = (inr (), w1)) :
  Object_Deletable (st w1) n = true ∧
  ∃ w2, Delete_Object n false w1 = (inr true, w2) ∧ Contains (st w2) n = false.
Proof.
  destruct (Put_Object_inr _ _ _ _ _ _ _ Hput)
    as (? & id & comp & m & e & dg & _ & _ & _ & Em & EI & _ & _ & _ & _ & _ & EN & _ & EO & _).
  assert (Hdel : Object_Deletable (st w1) n = true).
  { unfold Object_Deletable. rewrite EI, lookup_insert_eq, Em. unfold Retention.Can_Delete. simpl.
    unfold Now in *. rewrite EN, Z.add_0_r, orb_false_r. apply Z.leb_refl. }
  split; [done|]. pose proof (Put_Object_dur T w n data _ 0 "" Hdur Hroom Hok) as Hd1. rewrite Hput in Hd1.
  destruct (Delete_allowed T w1 n m Hd1 Hroom1 EO) as (w2 & E & EI2); [by rewrite EI, lookup_insert_eq|done|].
  exists w2. split; [done|]. unfold Contains. rewrite EI2, lookup_delete_eq. by apply bool_decide_eq_false.
Qed.

(** ** A delete marker over a locked object *)

(** A delete marker takes the object out of the index whatever its lock says,
    a legal hold included, and also when the operator has sealed the vault:
    [Delete_Marker] looks at neither. *)
Theorem marker_defeats_lock (T : Trusted_Time) (w : world C) (n : string)
  (Hdur : dur T w) (Hroom : room (st w)) (Hname : name_ok n) (Hseq : Ver_Seq (st w) < Natural_Last)
  (Hheld : Has_Legal_Hold (st w) n = true) (Hsealed : Op_Sealed (st w) = true) :
  (∀ b, Delete_Object n b w = (inl Vault_Sealed, w)) ∧
  ∃ vid w', Delete_Marker n w = (inr vid, w') ∧ Contains (st w') n = false.
Proof.
  pose proof (du_ok _ _ _ Hdur) as Hok. split.
  - intros b. unfold Delete_Object. rewrite (ada_bind_inr_l (gets st) _ _ _ _ eq_refl). unfold Read_Only. by rewrite Hsealed.
  - assert (Hc : Contains (st w) n = true).
    { unfold Has_Legal_Hold in Hheld. unfold Contains. apply bool_decide_eq_true.
      destruct (Index (st w) !! n); [eauto|done]. }
    unfold Delete_Marker. rewrite (ada_bind_inr_l (gets st) _ _ _ _ eq_refl).
    unfold add_upto. rewrite (proj2 (Z.leb_le _ _)) by lia. rewrite (ada_bind_inr_l (mret _) _ _ _ _ eq_refl).
    rewrite !(ada_bind_inr_l (modify_st _) _ _ () _ eq_refl), Hc.
    unfold J_Del, Append_Jrnl. erewrite (ada_bind_inr_l (modify_st _ ≫= _)); [|reflexivity].
    rewrite Name_Digest_ok by done. rewrite (ada_bind_inr_l (lift (inr _)) _ _ _ _ eq_refl).
    destruct (du_entry _ _ _ Delete_Allowed (SHA256 (String.list_byte_of_string n)) (Clock_Guard.Now (Clock (st w)))
      Hdur Hroom (sok_clock _ Hok) (SHA256_length _)) as (e & He & _).
    erewrite ada_bind_inr_l; [|apply Add_Audit_eq; exact He].
    unfold J_Vseq, J_Ver, Append_Jrnl. erewrite (ada_bind_inr_l (gets st ≫= _)); [|reflexivity].
    rewrite (ada_bind_inr_l (update _) _ _ () _ eq_refl).
    match goal with |- context [(Commit_Jrnl ≫= _) ?x] => destruct (Commit_returns x) as (w2 & E & [_ _ EI _ _ _ _ _]) end.
    rewrite (ada_bind_inr_l _ _ _ _ _ E). eexists _, w2. split; [reflexivity|].
    unfold Contains. rewrite EI. apply bool_decide_eq_false.
    cbn [on_state st append_jrnl with_Jrnl_Pend with_Jrnl_Buf with_Log with_Index Index].
    rewrite lookup_delete_eq. by intros [? ?].
Qed.

(** ** A crash in the middle of a compaction *)

Lemma apply_A_Line_old e s : entry_ok e → Seq e ≠ Z.of_nat (length (Log s)) → Apply_Line (A_Line e) s = Some s.
Proof.
  intros He Hq. read_line (words_A_Line e He). rewrite (Value_Itoa _ _ (ok_Seq _ He)). simpl.
  by rewrite (proj2 (Z.eqb_neq _ _) Hq).
Qed.

Lemma Set_Legal_Hold_inr n w w' : Set_Legal_Hold n w = (inr (), w') → ∃ m e,
  Index (st w) !! n = Some m ∧
  w' = (Save (World (append_jrnl (A_Line e) (with_Log (Log (st w) ++ [e]) (with_Index (<[n :=
    {| m_Id := m_Id m; m_Lock := Retention.Set_Hold (m_Lock m); m_Composite := m_Composite m;
       m_Quarantined := m_Quarantined m; m_Size := m_Size m; m_User_Meta := m_User_Meta m |}]> (Index (st w))) (st w))))
    (disk w) (store w))).2.
Proof.
  unfold Set_Legal_Hold, change_hold. rewrite (ada_bind_inr_l (gets st) _ _ _ _ eq_refl).
  destruct (Index (st w) !! n) as [m|]; [|done]. unfold set_meta.
  rewrite (ada_bind_inr_l (modify_st _) _ _ () _ eq_refl). intros (dg & w1 & Hdg & E)%ada_bind_inr. injection Hdg as _ <-.
  apply ada_bind_inr in E as ([] & w1 & (e & _ & ->)%Add_Audit_inr & E). injection E as <-. by exists m, e.
Qed.

(** C39: An object is put, a legal hold is set on it, and the process dies while
    the hold is being saved, after the new snapshot has replaced the old one
    and before the journal has been emptied: opening the vault replays the
    record of the put over the snapshot, and the hold, which was in force and
    on disk, is gone. *)
Theorem crash_drops_hold (T : Trusted_Time) (w w1 w2 : world C) (n : string) (data : list Byte.byte)
  (mode : Retention.Lock_Mode) (retain_for : Trusted_Time) (meta : string)
  (Hdur : dur T w) (Hroom : room (st w)) (Hroom1 : room (st w1))
  (Hjournal : d_journal (disk w) = Some "") (Hcount : Jrnl_Count (st w) + 2 < Compact_Limit)
  (Hok : op_ok (OpPut n data mode retain_for meta))
  (Hput : Put_Object n data mode retain_for meta w = (inr (), w1))
  (Hhold : Set_Legal_Hold n w1 = (inr (), w2)) :
  let crashed := {| d_state := d_state (disk w2); d_journal := d_journal (disk w1) |} in
  Has_Legal_Hold (st w2) n = true ∧
  (∃ w3, Open_Vault (Key (st w2)) (disk w2) (store w2) = inr w3 ∧ Has_Legal_Hold (st w3) n = true) ∧
  (∃ w3, Open_Vault (Key (st w2)) crashed (store w2) = inr w3 ∧
     Contains (st w3) n = true ∧ Has_Legal_Hold (st w3) n = false).
Proof.
  pose proof (Put_Object_dur T w n data mode retain_for meta Hdur Hroom Hok) as Hd1. rewrite Hput in Hd1. simpl in Hd1.
  assert (Hd2 : dur T w2).
  { assert (H2 : dur T (Set_Legal_Hold n w1).2) by (apply change_hold_dur; [done..|]; by intros l []).
    by rewrite Hhold in H2. }
  destruct (Put_Object_inr _ _ _ _ _ _ _ Hput)
    as (wx & id & comp & m & e & dg & _ & _ & _ & Em & EI & Edg & He & EL & _ & _ & _ & _ & _ & Hdisk).
  specialize (Hdisk (du_buf _ _ _ Hdur) (du_pend _ _ _ Hdur) Hcount).
  rewrite Hjournal in Hdisk. cbn [default] in Hdisk. rewrite str_app_nil_l in Hdisk.
  assert (Ee : entry_ok e ∧ Seq e = Z.of_nat (length (Log (st w)))).
  { assert (He' : e ∈ Log (st w1)) by (rewrite EL; apply elem_of_app; right; by apply list_elem_of_singleton).
    split; [by apply (proj1 (Forall_forall _ _) (sok_entries _ (du_ok _ _ _ Hd1)))|].
    pose proof (sok_log _ (du_ok _ _ _ Hd1)) as [p Hp]%Verify_Chain_chained. 
    apply (chained_numbered _ _ Hp (length (Log (st w)))). rewrite EL. by apply list_lookup_middle. }
  destruct Ee as [Hoke Hseq].
  assert (Hm1 : Index (st w1) !! n = Some m) by (by rewrite EI, lookup_insert_eq).
  destruct (sok_index _ (du_ok _ _ _ Hd1) n m Hm1) as [Hn Hmok].
  destruct (Set_Legal_Hold_inr _ _ _ Hhold) as (m' & e2 & Em' & Ew2). rewrite Hm1 in Em'. injection Em' as <-.
  assert (Hheld : Has_Legal_Hold (st w2) n = true) by (subst w2; unfold Has_Legal_Hold; simpl; by rewrite lookup_insert_eq).
  split_and!; [done| |].
  - destruct w2 as [s2 d2 c2]. destruct (durable_Open T s2 d2 c2 Hd2) as (s3 & E & Hs & _).
    exists (World s3 d2 c2). split; [done|]. unfold Has_Legal_Hold. cbn [st] in *. by rewrite (same_Index _ _ Hs).
  - exists (World (with_Jrnl_Count 2 (with_Index (<[n := m]> (Index (st w2))) (restored (Key (st w2)) (st w2))))
             {| d_state := d_state (disk w2); d_journal := d_journal (disk w1) |} (store w2)).
    split.
    + assert (Esnap : d_state (disk w2) = Some (unlines (snapshot_lines (st w2)))) by (by subst w2).
      assert (Elog : length (Log (st w2)) = S (length (Log (st w1)))) by (subst w2; simpl; rewrite length_app; simpl; lia).
      rewrite EL, length_app in Elog. simpl in Elog.
      unfold Open_Vault. cbn [d_state d_journal]. rewrite Esnap, Hdisk. cbn [d_journal]. unfold Load.
      rewrite (lines_of_unlines (snapshot_lines (st w2))) by (apply snapshot_no_LF, (du_ok _ _ _ Hd2)).
      rewrite apply_snapshot by apply (du_ok _ _ _ Hd2). cbn [mbind option_bind].
      pose proof (nok_nonempty _ Hn). 
      rewrite lines_of_unlines by (repeat apply Forall_cons_2; eauto using Forall_nil_2 with lines).
      cbn [apply_lines]. rewrite apply_A_Line_old; [|done|simpl; lia]. cbn [mbind option_bind].
      rewrite apply_Obj_Line by done. done.
    + unfold Contains, Has_Legal_Hold. cbn [st with_Jrnl_Count with_Index VaultState.Index].
      rewrite lookup_insert_eq, Em. split; [by apply bool_decide_eq_true|done].
Qed.

(** ** A part uploaded twice *)

(** The second upload of a part replaces its content, but not its share of the
    total. *)
Lemma Upload_Part_again i u0 pn d1 d2 w w' : uploading i u0 [(pn, d1)] w → Upload_Part i d2 pn w = (inr (), w') →
  0 < pn → cas_clean (store w) (Key (st w)) d2 →
  ∃ u pid, Uploads (st w') !! i = Some u ∧ u_Name u = u_Name u0 ∧ u_Parts u = [(pn, pid)] ∧ id_ok pid ∧
    u_Total u = Z.of_nat (length d1) ∧ cas_stored (store w') (Key (st w')) pid d2 ∧
    Ingest_Only (st w') = Ingest_Only (st w).
Proof.
  intros (u & Eu & En & _ & _ & Hps & _ & Htot) E Hpn Hcl.
  inversion Hps as [|[k v] b ps l (Ek & _) Hl Eps]; subst. inversion Hl; subst. simpl in Ek. subst k.
  unfold Upload_Part in E. apply ada_bind_inr in E as ([] & w1 & (-> & _ & _)%Check_Ingest_inr & E).
  rewrite (ada_bind_inr_l (gets st) _ _ _ _ eq_refl), Eu in E. apply ada_bind_inr in E as (pid & w1 & Hp & E).
  pose proof (cas_put_stored _ _ _ _ Hp Hcl) as Hst. pose proof (cas_put_id _ _ _ _ Hp) as Hid.
  apply cas_put_inr in Hp as (c1 & _ & ->). simpl in Hst.
  assert (Epn : next_part u pn = pn) by (unfold next_part; by rewrite (proj2 (Z.ltb_lt _ _) Hpn)).
  rewrite Epn in E. apply ada_bind_inr in E as ([] & w1 & [-> _]%raise_when_inr & E).
  rewrite <- Eps in E. cbn [existsb fst part_include] in E. rewrite Z.eqb_refl, Z.ltb_irrefl in E. cbn [orb] in E.
  rewrite (ada_bind_inr_l (mret _) _ _ _ _ eq_refl) in E. injection E as <-.
  eexists _, pid. cbn [on_state st store Uploads with_Uploads]. split; [apply lookup_insert_eq|].
  split_and!; try done. cbn [u_Total]. rewrite Htot. simpl. by rewrite app_nil_r.
Qed.

(** A part that is uploaded, and uploaded again with other data under the same
    number: the completed object has the size of the first data, so reading it
    raises [Constraint_Error] when the second data are longer, and otherwise
    returns the second data followed by bytes that were never written. *)
Theorem reupload_misreads (w w1 w2 w3 w4 : world C) (n i : string) (mode : Retention.Lock_Mode)
  (retain_for : Trusted_Time) (pn : Z) (d1 d2 : list Byte.byte)
  (Hcreate : Create_Upload n mode retain_for w = (inr i, w1))
  (Hfirst : Upload_Part i d1 pn w1 = (inr (), w2)) (Hagain : Upload_Part i d2 pn w2 = (inr (), w3))
  (Hcomplete : Complete_Upload i w3 = (inr (), w4)) (Hpn : 0 < pn) (Hegress : Ingest_Only (st w) = false)
  (Hclean1 : cas_clean (store w1) (Key (st w1)) d1) (Hclean2 : cas_clean (store w2) (Key (st w2)) d2)
  (Hclean3 : ∀ u, Uploads (st w3) !! i = Some u → cas_clean (store w3) (Key (st w3)) (ids_bytes (u_Parts u).*2)) :
  Get_Object n w4 =
  (if (length d1 <? length d2)%nat then inl Constraint_Error
   else inr (d2 ++ map uninitialized (seq (length d2) (length d1 - length d2))), w4).
Proof.
  destruct (Create_Upload_uploading _ _ _ _ _ _ Hcreate) as (u0 & <- & _ & _ & Hu & _ & _ & _ & _ & _ & Eo).
  destruct (Upload_Part_uploading i u0 [] w1 w2 pn d1 Hu Hfirst Hpn) as ((l & Hu2 & Hp) & _ & _ & _ & Eo2 & _);
    [set_solver|done|]. apply Permutation_singleton_r in Hp as ->.
  destruct (Upload_Part_again i u0 pn d1 d2 w2 w3 Hu2 Hagain Hpn Hclean2)
    as (u & pid & Eu & En & Ep & Hid & Htot & Hst & Eo3).
  destruct (Complete_Upload_inr i u w3 w4 Hcomplete Eu (Hclean3 u Eu)) as (m & EI & _ & EQ & EC & ES & Hl & Hk & Eo4).
  rewrite Ep in Hl. cbn [fmap list_fmap snd] in Hl. apply Hk in Hst.
  unfold Get_Object. rewrite (ada_bind_inr_l (gets st) _ _ _ _ eq_refl).
  replace (Ingest_Only (st w4)) with false by congruence.
  rewrite (ada_bind_inr_l (raise_when false _) _ _ () _ eq_refl), EI, En, lookup_insert_eq, EQ.
  rewrite (ada_bind_inr_l (raise_when false _) _ _ () _ eq_refl), EC. cbn [negb].
  rewrite (ada_bind_inr_l _ _ _ _ _ (cas_get_stored _ _ _ Hl)), ids_of_bytes by (by rewrite Forall_singleton).
  cbn [copy_parts]. rewrite (ada_bind_inr_l _ _ _ _ _ (cas_get_stored _ _ _ Hst)), ES, Htot, app_nil_l.
  destruct (Nat.ltb_spec (length d1) (length d2)).
  - rewrite (proj2 (Z.ltb_lt _ _)) by lia. done.
  - rewrite (proj2 (Z.ltb_ge _ _)) by lia. rewrite (ada_bind_inr_l (raise_when false _) _ _ () _ eq_refl).
    by rewrite Nat2Z.id.
Qed.
End findings.
