(* ===== verification/VaultDemo.v ===== *)
(** The theorems about the vault applied to a small vault over a store that is
    a map from ids to content, another implementation of the store's
    interface. *)
From Stdlib Require Import Strings.Byte NArith Sorting.Sorted.
From S2P Require Import Prelude AdaMonad GoStrings GoText GoFloat Sha256 TrustedCore AuditChain AdaText Cas CasSpec.
From S2P Require Import VaultState Vault VaultLines VaultSteps VaultDurable VaultOps VaultExec VaultWorm VaultTheorems VaultData VaultFindings.
Open Scope Z_scope.

(** ** A store in memory *)

Notation mem_cas := (gmap string (list Byte.byte)).
Definition mem_id (d : list Byte.byte) : string := To_Hex (SHA256 d).

#[export] Instance mem_cas_ops : CasOps mem_cas := {|
  cas_Put _ d c := (inr (mem_id d), if decide (is_Some (c !! mem_id d)) then c else <[mem_id d := d]> c);
  cas_Get c _ id := match c !! id with Some d => inr d | None => inl Corruption_Detected end;
  cas_Repair id c := (c, 0%nat, bool_decide (is_Some (c !! id)));
  cas_Collect live c := (filter (λ p, p.1 ∈ live) c, size (filter (λ p, p.1 ∉ live) c));
|}.

#[export] Instance mem_cas_view : CasView mem_cas := {|
  cas_stored c _ id d := c !! id = Some d;
  cas_clean c _ d := c !! mem_id d = None ∨ c !! mem_id d = Some d;
|}.

Lemma mem_id_ok d : id_ok (mem_id d).
Proof.
  unfold mem_id. pose proof (SHA256_length d) as L. split; [by apply To_Hex_word32|].
  assert (G : ∀ l, String.length (To_Hex l) = (2 * length l)%nat).
  { induction l as [|b l IH]; [done|]. cbn [To_Hex]. rewrite str_app_length, IH. simpl. lia. }
  by rewrite G, L.
Qed.

#[export] Instance mem_cas_laws : CasLaws mem_cas.
Proof.
  split; simpl.
  - intros key d c id c' [= <- _]. apply mem_id_ok.
  - intros key d c id c' [= <- <-] [Hn|Hs].
    + rewrite decide_False; [apply lookup_insert_eq|]. rewrite Hn. by intros [? ?].
    + rewrite decide_True; [done|]. rewrite Hs. eauto.
  - intros key d c id d' Hs. case_decide as Hd; [done|]. rewrite lookup_insert_ne; [done|].
    intros <-. apply Hd. eauto.
  - by intros c key id d ->.
  - done.
  - intros c key id d Hs. apply bool_decide_eq_true. eauto.
  - intros c key id d live Hs Hin. by apply map_lookup_filter_Some.
Qed.

#[export] Instance zero_memory : Memory := {| uninitialized _ := "000"%byte |}.

(** ** A vault with one locked object *)

Definition demo_vkey : list Byte.byte := replicate 32 "007"%byte.
Definition demo_name : string := "records/ledger".
Definition demo_data : list Byte.byte := String.list_byte_of_string "2024-Q1".
Definition w_new : world mem_cas := first_tick demo_vkey ∅ 1000 5000 "boot-1".
Definition op_put : op := OpPut demo_name demo_data Retention.Compliance 100 "text/plain".
Definition w_put : world mem_cas :=
  (Put_Object demo_name demo_data Retention.Compliance 100 "text/plain" w_new).2.
Definition op_del : op := OpDelete demo_name true.
Definition w_del : world mem_cas := (exec op_del w_put).2.

Lemma demo_name_ok : name_ok demo_name.
Proof. split; [done|]. vm_compute. done. Qed.

Lemma demo_tick_ok : op_ok (OpTick 1000 5000 "boot-1").
Proof. by split_and!. Qed.

Lemma op_put_ok : op_ok op_put.
Proof. split; [apply demo_name_ok|]. by split. Qed.

Lemma w_new_dur : dur 0 w_new.
Proof. apply first_tick_dur; [done|apply demo_tick_ok]. Qed.

Lemma room_small s l i : length (Log s) = l → size (Index s) = i → (l + i < 1000)%nat → room s.
Proof. intros El Ei Hlt. unfold room. rewrite El, Ei. unfold Natural_Last. lia. Qed.

Lemma w_new_room : room (st w_new).
Proof. by apply (room_small _ 1 0); [vm_compute..|lia]. Qed.

Lemma w_put_room : room (st w_put).
Proof. by apply (room_small _ 2 1); [vm_compute..|lia]. Qed.

Lemma w_put_def : w_put = (exec op_put w_new).2.
Proof. unfold w_put, op_put. cbn [exec]. reflexivity. Qed.

Lemma dur_then T (w w' : world mem_cas) o : dur T w → room (st w) → op_ok o → tick_delta (st w) o = 0 →
  w' = (exec o w).2 → dur T w'.
Proof. intros Hd Hr Ho Ht ->. replace T with (T + tick_delta (st w) o) by lia. by apply exec_dur. Qed.

Lemma w_put_dur : dur 0 w_put.
Proof. exact (dur_then 0 w_new w_put op_put w_new_dur w_new_room op_put_ok eq_refl w_put_def). Qed.

Lemma w_del_room : room (st w_del).
Proof. by apply (room_small _ 3 1); [vm_compute..|lia]. Qed.

(** An operation is evaluated as far as its result. *)
Lemma run_eq {A} (p : Ada (world mem_cas) A) w a w' : w' = (p w).2 → (p w).1 = inr a → p w = (inr a, w').
Proof. intros ->. destruct (p w) as [r w']. simpl. by intros ->. Qed.

Ltac run_to w := apply run_eq; [unfold w; reflexivity | vm_compute; reflexivity].

Lemma w_put_eq : Put_Object demo_name demo_data Retention.Compliance 100 "text/plain" w_new = (inr (), w_put).
Proof. run_to w_put. Qed.

(** ** Durability *)

(** A step of a history that does not read the clock. *)
Lemma history_then allowed (w w1 w2 : world mem_cas) D o : history allowed w D w1 → op_ok o → room (st w1) →
  allowed (st w1) o → tick_delta (st w1) o = 0 → w2 = (exec o w1).2 → history allowed w D w2.
Proof.
  intros Hh Ho Hr Ha Ht ->. replace D with (D + tick_delta (st w1) o) by lia. by apply history_op.
Qed.

Lemma w_del_def : w_del = (exec op_del w_put).2.
Proof. unfold w_del. reflexivity. Qed.


(** ** The locked object: a deletion that is tried, then a restart *)

Definition demo_meta : Meta :=
  {| m_Id := mem_id demo_data; m_Lock := Retention.Create_Lock Retention.Compliance 100 0; m_Composite := false;
     m_Quarantined := false; m_Size := 7; m_User_Meta := "text/plain" |}.

Definition opened (r : exn + world mem_cas) (w : world mem_cas) : world mem_cas :=
  match r with inr w => w | inl _ => w end.
Definition w_restart : world mem_cas := opened (Open_Vault (Key (st w_del)) (disk w_del) (store w_del)) w_del.

Lemma opened_eq r w w' : w' = opened r w → (match r with inr _ => true | inl _ => false end) = true → r = inr w'.
Proof. intros ->. by destruct r. Qed.

Lemma w_restart_eq : Open_Vault (Key (st w_del)) (disk w_del) (store w_del) = inr w_restart.
Proof. apply (opened_eq _ w_del); [unfold w_restart; reflexivity|vm_compute; reflexivity]. Qed.

Lemma w_put_index : Index (st w_put) !! demo_name = Some demo_meta.
Proof. vm_compute. reflexivity. Qed.

Lemma w_put_content : content (store w_put) (Key (st w_put)) demo_meta demo_data.
Proof. vm_compute. reflexivity. Qed.

Lemma locked_object_survives_witness :
  ∃ m', Index (st w_restart) !! demo_name = Some m' ∧
    (Ingest_Only (st w_restart) = false → Get_Object demo_name w_restart = (inr demo_data, w_restart)).
Proof.
  assert (Hd : dur 0 w_put) by exact w_put_dur.
  assert (Hh : history (spares demo_name false true) w_put 0 w_restart).
  { apply (history_restart _ _ _ w_del); [|exact w_restart_eq].
    exact (history_then (spares demo_name false true) w_put w_put w_del 0 op_del (history_start _ _) I w_put_room (λ _ _, eq_refl) eq_refl w_del_def). }
  assert (Hb : bars false true (m_Lock demo_meta) (0 + 0)).
  { right. split; [reflexivity|left; reflexivity]. }
  destruct (locked_object_survives 0 w_put w_restart demo_name demo_meta demo_data false true 0 Hd w_put_index eq_refl
    w_put_content Hh Hb) as (m' & EI & _ & _ & Hget & _).
  exists m'. exact (conj EI Hget).
Defined.

(** ** A sealed vault *)

Definition w_sealed : world mem_cas := (exec OpSeal w_put).2.

Lemma w_sealed_dur : dur 0 w_sealed.
Proof. apply (dur_then 0 w_put _ OpSeal w_put_dur w_put_room I eq_refl). unfold w_sealed. reflexivity. Qed.

Lemma w_sealed_room : room (st w_sealed).
Proof. by apply (room_small _ 3 1); [vm_compute..|lia]. Qed.

Definition w_sealed_tick : world mem_cas := (exec (OpTick 1100 5100 "boot-1") w_sealed).2.


(** ** Reading what was written *)

Lemma demo_single : (length demo_data <=? Max_Single)%nat = true.
Proof. vm_compute. reflexivity. Qed.

Lemma demo_clean_object : clean_object w_new demo_data.
Proof.
  unfold clean_object. rewrite demo_single. split; [left; vm_compute; reflexivity|].
  intros w' E. unfold cas_put, on_cas, mbind, ada_bind, gets in E. simpl in E. discriminate.
Qed.

Lemma put_then_get_witness : Get_Object demo_name w_put = (inr demo_data, w_put).
Proof.
  apply (put_then_get w_new w_put demo_name demo_data Retention.Compliance 100 "text/plain").
  - exact w_put_eq.
  - exact demo_clean_object.
  - vm_compute. reflexivity.
Defined.

Definition demo_parts : list (Z * list Byte.byte) :=
  [(2, String.list_byte_of_string "world"); (1, String.list_byte_of_string "hello ")].
Definition w_created : world mem_cas := (Create_Upload "b/big" Retention.Governance 50 w_new).2.
Definition w_uploaded : world mem_cas := (upload_all "upload-1" demo_parts w_created).2.
Definition w_completed : world mem_cas := (Complete_Upload "upload-1" w_uploaded).2.

Definition the_upload (w : world mem_cas) : Upload :=
  default {| u_Name := ""; u_Mode := Retention.Unlocked; u_Retain_For := 0; u_Parts := []; u_Total := 0 |}
    (Uploads (st w) !! "upload-1").

Lemma the_upload_eq w : bool_decide (is_Some (Uploads (st w) !! "upload-1")) = true →
  Uploads (st w) !! "upload-1" = Some (the_upload w).
Proof. intros [u E]%bool_decide_eq_true. unfold the_upload. by rewrite E. Qed.

Lemma u_uploaded_eq : Uploads (st w_uploaded) !! "upload-1" = Some (the_upload w_uploaded).
Proof. apply the_upload_eq. vm_compute. reflexivity. Qed.

Lemma multipart_assembles_witness :
  ∃ sorted, sorted ≡ₚ demo_parts ∧ StronglySorted Z.lt sorted.*1 ∧
    Get_Object "b/big" w_completed = (inr (concat sorted.*2), w_completed).
Proof.
  destruct (multipart_assembles w_new w_created w_uploaded w_completed "b/big" "upload-1" Retention.Governance 50 demo_parts)
    as (sorted & m & Hp & Hs & Hg & _).
  - run_to w_created.
  - run_to w_uploaded.
  - run_to w_completed.
  - repeat constructor.
  - apply (bool_decide_unpack _). vm_compute. exact I.
  - vm_compute. split; [left; reflexivity|split; [left; reflexivity|exact I]].
  - intros u Hu. rewrite u_uploaded_eq in Hu. injection Hu as <-. left. vm_compute. reflexivity.
  - vm_compute. reflexivity.
  - exists sorted. exact (conj Hp (conj Hs Hg)).
Defined.

(** ** The findings *)

Lemma restart_resets_time_witness :
  Now (st (Tick_From_System 2000 6000 "boot-1" w_restart).2) = 0.
Proof.
  apply (restart_resets_time (Key (st w_del)) (disk w_del) (store w_del) w_restart 2000 6000 "boot-1" demo_name
    (with_Quarantined false demo_meta)).
  - exact w_restart_eq.
  - vm_compute. reflexivity.
  - reflexivity.
  - reflexivity.
Defined.

Definition w_over : world mem_cas := (Put_Object demo_name [] Retention.Governance 0 "" w_put).2.

Lemma put_defeats_lock_witness :
  Object_Deletable (st w_put) demo_name = false ∧
  ∃ w2, Delete_Object demo_name false w_over = (inr true, w2) ∧ Contains (st w2) demo_name = false.
Proof.
  assert (Hl : Contains (st w_put) demo_name = true ∧ Object_Deletable (st w_put) demo_name = false)
    by (vm_compute; split; reflexivity).
  split; [apply Hl|].
  apply (put_defeats_lock 0 w_put w_over demo_name []).
  - exact w_put_dur.
  - exact w_put_room.
  - apply (room_small _ 3 1); [vm_compute; reflexivity|vm_compute; reflexivity|lia].
  - exact Hl.
  - split; [apply demo_name_ok|]. by split.
  - run_to w_over.
Defined.

Definition w_held_sealed : world mem_cas := (exec (OpHold demo_name) w_sealed).2.

Lemma marker_defeats_lock_witness :
  (∀ b, Delete_Object demo_name b w_held_sealed = (inl Vault_Sealed, w_held_sealed)) ∧
  ∃ vid w', Delete_Marker demo_name w_held_sealed = (inr vid, w') ∧ Contains (st w') demo_name = false.
Proof.
  apply (marker_defeats_lock 0 w_held_sealed demo_name).
  - apply (dur_then 0 w_sealed _ (OpHold demo_name) w_sealed_dur w_sealed_room I eq_refl). unfold w_held_sealed. reflexivity.
  - apply (room_small _ 4 1); [vm_compute; reflexivity|vm_compute; reflexivity|lia].
  - exact demo_name_ok.
  - vm_compute. reflexivity.
  - vm_compute. reflexivity.
  - vm_compute. reflexivity.
Defined.

Definition w_held : world mem_cas := (Set_Legal_Hold demo_name w_put).2.

Lemma crash_drops_hold_witness :
  Has_Legal_Hold (st w_held) demo_name = true ∧
  ∃ w3, Open_Vault (Key (st w_held)) {| d_state := d_state (disk w_held); d_journal := d_journal (disk w_put) |}
      (store w_held) = inr w3 ∧ Has_Legal_Hold (st w3) demo_name = false.
Proof.
  destruct (crash_drops_hold 0 w_new w_put w_held demo_name demo_data Retention.Compliance 100 "text/plain")
    as (Hh & _ & w3 & E & _ & Hn).
  - exact w_new_dur.
  - exact w_new_room.
  - exact w_put_room.
  - vm_compute. reflexivity.
  - vm_compute. reflexivity.
  - exact op_put_ok.
  - exact w_put_eq.
  - run_to w_held.
  - split; [exact Hh|]. exists w3. exact (conj E Hn).
Defined.

Definition demo_d1 : list Byte.byte := String.list_byte_of_string "first".
Definition demo_d2 : list Byte.byte := String.list_byte_of_string "2nd".
Definition w_part1 : world mem_cas := (Upload_Part "upload-1" demo_d1 1 w_created).2.
Definition w_part2 : world mem_cas := (Upload_Part "upload-1" demo_d2 1 w_part1).2.
Definition w_twice : world mem_cas := (Complete_Upload "upload-1" w_part2).2.

Lemma u_part2_eq : Uploads (st w_part2) !! "upload-1" = Some (the_upload w_part2).
Proof. apply the_upload_eq. vm_compute. reflexivity. Qed.

Lemma reupload_misreads_witness :
  Get_Object "b/big" w_twice = (inr (demo_d2 ++ ["000"; "000"]%byte), w_twice).
Proof.
  rewrite (reupload_misreads w_new w_created w_part1 w_part2 w_twice "b/big" "upload-1" Retention.Governance 50 1 demo_d1 demo_d2).
  - reflexivity.
  - run_to w_created.
  - run_to w_part1.
  - run_to w_part2.
  - run_to w_twice.
  - lia.
  - vm_compute. reflexivity.
  - left. vm_compute. reflexivity.
  - left. vm_compute. reflexivity.
  - intros u Hu. rewrite u_part2_eq in Hu. injection Hu as <-. left. vm_compute. reflexivity.
Defined.
