(* ===== verification/Server.v ===== *)
(** The HTTP server (src/server/src/dezhan_server.adb): [Handle_S3] and
    [Handle], that is every route, over the vault; [Serve] on the bytes of a
    connection; and the background jobs.

    A request is handled under a lock, so requests and jobs come one after the
    other ([server_step]).  What a request answers is a [response], or an
    exception that closes the connection without an answer.  [Export] and the
    signed checkpoints, which read the vault and write files outside of it, and
    the size of the directory are parameters. *)
From Stdlib Require Import Strings.Byte NArith.
From S2P Require Import Prelude AdaMonad GoStrings GoText ServerText Interop Sha256 TrustedCore AuditChain AdaText Cas CasSpec.
From S2P Require Import VaultState Vault Keys Sigv4 ServerAuth.
Open Scope Z_scope.

Definition bytes_string (l : list Byte.byte) : string := String.string_of_list_byte l.
Definition dq : string := String quote_char "".
Definition HT : string := String "009" "".

(** Text in XML *)
Fixpoint Xml_Escape (s : string) : string :=
  match s with
  | "" => ""
  | String c s =>
      (if decide (c = "&"%char) then "&amp;" else if decide (c = "<"%char) then "&lt;"
       else if decide (c = ">"%char) then "&gt;" else String c "") +:+ Xml_Escape s
  end.

(** [Pct_Encode]: as [Uri_Encode], with the slash kept. *)
Fixpoint Pct_Encode (s : string) : string :=
  match s with
  | "" => ""
  | String c s => (if unreserved c || bool_decide (c = "/"%char) then String c "" else pct c) +:+ Pct_Encode s
  end.

Definition xml_decl : string :=
  "<?xml version=" +:+ dq +:+ "1.0" +:+ dq +:+ " encoding=" +:+ dq +:+ "UTF-8" +:+ dq +:+ "?>".
Definition xmlns : string := " xmlns=" +:+ dq +:+ "http://s3.amazonaws.com/doc/2006-03-01/" +:+ dq.
Definition tag (name body : string) : string := "<" +:+ name +:+ ">" +:+ body +:+ "</" +:+ name +:+ ">".

Definition S3_Error (status code resource : string) : response :=
  Send_XML status (xml_decl +:+ tag "Error"
    (tag "Code" code +:+ tag "Message" code +:+ tag "Resource" (Xml_Escape resource))).

Definition Epoch_Date : string := "1970-01-01T00:00:00.000Z".
Definition etag_header (id : string) : string := "ETag: " +:+ dq +:+ id +:+ dq +:+ crlf.
Definition etag_xml (id : string) : string := tag "ETag" ("&quot;" +:+ id +:+ "&quot;").

(** ** Ranges *)

(** [Parse_Range]: the first and the last byte, if the range makes sense. *)
Definition Parse_Range (value : string) (total : Z) : option (Z * Z) :=
  let spec := default "" (after value "=") in
  if decide (spec = "" ∨ total = 0) then None
  else
    dash ← GoText.Index spec "-";
    '(first, last) ←
      (if (dash =? 0)%nat then
         n ← Int_Value Natural_Last (str_drop 1 spec);
         if n =? 0 then None else Some (if total <=? n then 0 else total - n, total - 1)
       else
         f ← Int_Value Natural_Last (str_take dash spec);
         l ← (if decide (str_drop (dash + 1) spec = "") then Some (total - 1)
              else Int_Value Natural_Last (str_drop (dash + 1) spec));
         Some (f, if total - 1 <? l then total - 1 else l));
    if (first <=? last) && (first <? total) then Some (first, last) else None.

(** [Full (First .. Last)] *)
Definition byte_range (full : list Byte.byte) (first last : Z) : list Byte.byte :=
  take (Z.to_nat (last - first + 1)) (drop (Z.to_nat first) full).

(** The answer to a read, whole or in part. *)
Definition send_object (head ctype extra : string) (full : list Byte.byte) : response :=
  let rng := Header head "Range" in
  let total := Z.of_nat (length full) in
  if decide (rng = "") then Send "200 OK" ctype full extra
  else match Parse_Range rng total with
       | None => Send_Text_Extra "416 Range Not Satisfiable" "" ("Content-Range: bytes */" +:+ Itoa total +:+ crlf)
       | Some (first, last) =>
           Send "206 Partial Content" ctype (byte_range full first last)
             (extra +:+ "Content-Range: bytes " +:+ Itoa first +:+ "-" +:+ Itoa last +:+ "/" +:+ Itoa total +:+ crlf)
       end.

(** ** Listings *)

(** What a page of [List_Objects_V2] has collected. *)
Record page := { Body_S : string; Commons : string; Listed : list string; Count : Z; Truncated : bool; Last_Key : string }.
Definition empty_page : page :=
  {| Body_S := ""; Commons := ""; Listed := []; Count := 0; Truncated := false; Last_Key := "" |}.
Definition set_truncated (p : page) : page :=
  {| Body_S := Body_S p; Commons := Commons p; Listed := Listed p; Count := Count p; Truncated := true; Last_Key := Last_Key p |}.

(** The parameters of a listing. *)
Record list_query := { q_Prefix : string; q_Delim : string; q_Token : string; q_Max : Z; q_Url : bool }.

Definition Enc (q : list_query) (s : string) : string := if q_Url q then Pct_Encode s else s.

Definition contents_xml (s : State) (q : list_query) (nm k : string) : string :=
  tag "Contents" (tag "Key" (Xml_Escape (Enc q k)) +:+ tag "LastModified" Epoch_Date +:+ etag_xml (Object_Etag s nm)
    +:+ tag "Size" (Itoa (Object_Size s nm)) +:+ tag "StorageClass" "STANDARD").

(** One key: rolled up into a common prefix, or listed.  [Listed] are those listed
    so far, for the statements below; the page text does not depend on them. *)
Definition list_key (s : State) (q : list_query) (nm k : string) (p : page) : page :=
  if bool_decide (q_Prefix q = "" ∨ HasPrefix k (q_Prefix q) = true)
     && bool_decide (q_Token q = "" ∨ str_ltb (q_Token q) k = true) then
    let np := String.length (q_Prefix q) in
    match (if decide (q_Delim q = "") then None else GoText.Index (str_drop np k) (q_Delim q)) with
    | Some i =>
        let cp := str_take (np + i + String.length (q_Delim q)) k in
        if bool_decide (is_Some (GoText.Index (Commons p) (tag "Prefix" (Xml_Escape cp)))) then p
        else if q_Max q <=? Count p then set_truncated p
        else {| Body_S := Body_S p;
                Commons := Commons p +:+ tag "CommonPrefixes" (tag "Prefix" (Xml_Escape (Enc q cp)));
                Listed := Listed p; Count := Count p + 1; Truncated := Truncated p; Last_Key := k |}
    | None =>
        if q_Max q <=? Count p then set_truncated p
        else {| Body_S := Body_S p +:+ contents_xml s q nm k; Commons := Commons p; Listed := Listed p ++ [k];
                Count := Count p + 1; Truncated := Truncated p; Last_Key := k |}
    end
  else p.

(** The keys of a bucket, in the order of the index. *)
Definition list_names (s : State) (bucket : string) (q : list_query) (names : list string) (p : page) : page :=
  let bprefix := bucket +:+ "/" in
  foldl (λ p nm,
    if (String.length bprefix <? String.length nm)%nat && HasPrefix nm bprefix
    then list_key s q nm (str_drop (String.length bprefix) nm) p else p) p names.

Definition list_page (s : State) (bucket : string) (q : list_query) : page :=
  list_names s bucket q (lines_of (Object_Names s)) empty_page.

Definition list_xml (bucket : string) (q : list_query) (p : page) : string :=
  xml_decl +:+ "<ListBucketResult" +:+ xmlns +:+ ">" +:+ tag "Name" (Xml_Escape bucket)
  +:+ tag "Prefix" (Xml_Escape (Enc q (q_Prefix q))) +:+ tag "KeyCount" (Itoa (Count p))
  +:+ tag "MaxKeys" (Itoa (q_Max q))
  +:+ (if decide (q_Delim q = "") then "" else tag "Delimiter" (Xml_Escape (Enc q (q_Delim q))))
  +:+ tag "IsTruncated" (if Truncated p then "true" else "false")
  +:+ (if Truncated p then tag "NextContinuationToken" (Xml_Escape (Enc q (Last_Key p))) else "")
  +:+ Body_S p +:+ Commons p +:+ "</ListBucketResult>".

(** The parameters in the query; a bad max-keys raises. *)
Definition list_query_of (query : string) : option list_query :=
  let max_s := Q_Val query "max-keys=" in
  max ← (if decide (max_s = "") then Some 1000 else Int_Value Natural_Last max_s);
  Some {| q_Prefix := Uri_Decode (Q_Val query "prefix="); q_Delim := Uri_Decode (Q_Val query "delimiter=");
          q_Token := Uri_Decode (Q_Val query "continuation-token="); q_Max := max;
          q_Url := bool_decide (Q_Val query "encoding-type=" = "url") |}.

Definition List_Objects_V2 (s : State) (bucket query : string) : option response :=
  q ← list_query_of query; Some (Send_XML "200 OK" (list_xml bucket q (list_page s bucket q))).

Definition List_All_Buckets (s : State) : response :=
  Send_XML "200 OK" (xml_decl +:+ "<ListAllMyBucketsResult" +:+ xmlns +:+ ">"
    +:+ tag "Owner" (tag "ID" "dezhan" +:+ tag "DisplayName" "dezhan")
    +:+ tag "Buckets" (String.concat "" (map (λ n, tag "Bucket" (tag "Name" (Xml_Escape n) +:+ tag "CreationDate" Epoch_Date))
                        (filter (λ n, n ≠ "") (lines_of (List_Buckets s)))))
    +:+ "</ListAllMyBucketsResult>").

(** One line of [List_Object_Versions]; a line with fewer than four tabs is
    passed over. *)
Definition version_xml (ln : string) : string :=
  match split_byte "009" ln with
  | k :: vid :: sz :: et :: (_ :: _ as rest) =>
      let del := String.concat HT rest in
      let common := tag "Key" (Xml_Escape k) +:+ tag "VersionId" vid +:+ tag "IsLatest" "false"
                    +:+ tag "LastModified" Epoch_Date in
      if decide (del = "1") then tag "DeleteMarker" common
      else tag "Version" (common +:+ etag_xml et +:+ tag "Size" sz +:+ tag "StorageClass" "STANDARD")
  | _ => ""
  end.

Definition List_Versions (s : State) (bucket : string) : response :=
  Send_XML "200 OK" (xml_decl +:+ "<ListVersionsResult" +:+ xmlns +:+ ">" +:+ tag "Name" (Xml_Escape bucket)
    +:+ tag "IsTruncated" "false" +:+ String.concat "" (map version_xml (lines_of (List_Object_Versions s bucket)))
    +:+ "</ListVersionsResult>").

(** ** Metadata *)

(** The lines that end in a line feed, without it and a carriage return. *)
Definition header_lines (head : string) : list string :=
  map dropCR (removelast (split_byte newline head)).

Definition Collect_Meta (head : string) : string :=
  Header head "content-type" +:+ LF
  +:+ String.concat "" (map (λ l, l +:+ crlf)
        (filter (λ l, (11 <=? String.length l)%nat = true ∧ string_map lower_char (str_take 11 l) = "x-amz-meta-")
           (header_lines head))).

(** The keys between [<Key>] and [</Key>] in the body of a batch deletion. *)
Fixpoint delete_keys (fuel : nat) (body : string) : list string :=
  match fuel with
  | O => []
  | S fuel =>
      match after body "<Key>" with
      | None => []
      | Some rest =>
          match GoText.Index rest "</Key>" with
          | None => []
          | Some e => str_take e rest :: delete_keys fuel (str_drop (e + 6) rest)
          end
      end
  end.

(** ** State *)

(** What the server calls of the vault that is not modelled, and the bytes below
    its root directory. *)
Class Outside (C : Type) := {
  Export : string → world C → exn + unit;
  Make_Checkpoint : world C → exn + unit;
  Checkpoint_Public_Key : State → string;
  Root_Bytes : world C → Z;
}.

Record server (C : Type) := MkServer {
  V : world C; Pending : gmap string Z; Last_Scrub : Scrub_Report; Scrub_Runs : Z; Denied_Deletes : Z;
}.
Arguments MkServer {C}. Arguments V {C}. Arguments Pending {C}. Arguments Last_Scrub {C}.
Arguments Scrub_Runs {C}. Arguments Denied_Deletes {C}.

Definition handle_any {W A} (m : Ada W A) (h : Ada W A) : Ada W A := λ w,
  match m w with (inl _, w') => h w' | r => r end.

(** The page the browser gets. *)
Definition Index_Html : string :=
  "<!doctype html><html><head><meta charset=utf-8><title>dezhan</title>" +:+ LF
  +:+ "<style>body{font-family:system-ui,sans-serif;max-width:760px;margin:2rem auto;color:#222}"
  +:+ "section{border:1px solid #ddd;border-radius:8px;padding:1rem;margin:1rem 0}"
  +:+ "input,textarea,select{margin:.2rem 0}pre{background:#f6f6f6;padding:.6rem;white-space:pre-wrap}"
  +:+ "h1{font-size:1.4rem}button{cursor:pointer}</style></head><body>" +:+ LF
  +:+ "<h1>dezhan vault</h1>" +:+ LF
  +:+ "<section><h3>Store object</h3>"
  +:+ "name <input id=n value=backup1><br>data <br><textarea id=d rows=3 cols=50>hello dezhan</textarea><br>"
  +:+ "mode <select id=m><option>compliance</option><option>governance</option></select> "
  +:+ "retain(s) <input id=r value=3600 size=6> "
  +:+ "<button onclick=store()>Store</button></section>" +:+ LF
  +:+ "<section><h3>Fetch / Delete</h3>"
  +:+ "name <input id=gn value=backup1> <button onclick=getObj()>Get</button> "
  +:+ "<label><input type=checkbox id=bp> bypass</label> <button onclick=del()>Delete</button>"
  +:+ "<pre id=out></pre></section>" +:+ LF
  +:+ "<section><h3>Objects</h3><button onclick=load()>Refresh</button>"
  +:+ "<pre id=objs></pre></section>" +:+ LF
  +:+ "<section><h3>Metrics</h3><pre id=metrics>loading...</pre></section>" +:+ LF
  +:+ "<script>" +:+ LF
  +:+ "async function store(){const r=await fetch('/v/'+n.value,{method:'PUT',"
  +:+ "headers:{'X-Dezhan-Mode':m.value,'X-Dezhan-Retain':r0()},body:d.value});"
  +:+ "out.textContent=r.status+' '+await r.text();load()}" +:+ LF
  +:+ "function r0(){return document.getElementById('r').value}" +:+ LF
  +:+ "async function getObj(){const r=await fetch('/v/'+gn.value);"
  +:+ "out.textContent=r.status+' '+await r.text()}" +:+ LF
  +:+ "async function del(){const r=await fetch('/v/'+gn.value,{method:'DELETE',"
  +:+ "headers:{'X-Dezhan-Bypass':bp.checked}});out.textContent=r.status+' '+await r.text();load()}" +:+ LF
  +:+ "async function load(){metrics.textContent=await (await fetch('/metrics')).text();"
  +:+ "objs.textContent=(await (await fetch('/v/')).text())||'(none)'}load()" +:+ LF
  +:+ "</script></body></html>" +:+ LF.

Section server.
Context {C : Type} `{CasOps C} `{Memory} `{Outside C} (cfg : config).

Notation Srv := (Ada (server C)).

Definition with_V (w : world C) (s : server C) : server C :=
  MkServer w (Pending s) (Last_Scrub s) (Scrub_Runs s) (Denied_Deletes s).
Definition with_Pending (a : gmap string Z) (s : server C) : server C :=
  MkServer (V s) a (Last_Scrub s) (Scrub_Runs s) (Denied_Deletes s).

(** A call of the vault, and a look at it. *)
Definition vault {A} (m : Ada (world C) A) : Srv A := λ s, let '(r, w) := m (V s) in (r, with_V w s).
Definition look {A} (f : State → A) : Srv A := gets (λ s, f (st (V s))).

(** ['Value] of a header, with a default for an absent one. *)
Definition header_value (head name : string) (hi deflt : Z) : Srv Z :=
  if decide (Header head name = "") then mret deflt else lift (of_option (Int_Value hi (Header head name))).

(** [Denied_Deletes := Denied_Deletes + 1] *)
Definition count_denied : Srv unit :=
  n ← gets Denied_Deletes;
  n ← add_upto Natural_Last n 1;
  update (λ s, MkServer (V s) (Pending s) (Last_Scrub s) (Scrub_Runs s) n).

(** [Last_Scrub := Scrub (V); Scrub_Runs := Scrub_Runs + 1] *)
Definition run_scrub : Srv Scrub_Report :=
  r ← vault Scrub;
  _ ← update (λ s, MkServer (V s) (Pending s) r (Scrub_Runs s) (Denied_Deletes s));
  n ← gets Scrub_Runs;
  n ← add_upto Natural_Last n 1;
  _ ← update (λ s, MkServer (V s) (Pending s) (Last_Scrub s) n (Denied_Deletes s));
  mret r.

(** ** The S3 API *)

(** Is [s] somewhere in [q]? *)
Definition has (q s : string) : bool := bool_decide (is_Some (GoText.Index q s)).

(** One key of a batch deletion; no exception escapes. *)
Definition batch_delete_one (bucket k : string) : Srv string :=
  let iname := bucket +:+ "/" +:+ k in
  done ← handle_any
    (c ← look (λ s, Contains s iname);
     if (c : bool) then vault (Delete_Object iname false) else mret true)
    (mret false);
  mret (if (done : bool) then tag "Deleted" (tag "Key" (Xml_Escape k))
        else tag "Error" (tag "Key" (Xml_Escape k) +:+ tag "Code" "AccessDenied")).

Definition reserved_bucket (bucket : string) : bool :=
  bool_decide (bucket ∈ ["v"; "ui"; "admin"; "metrics"; "healthz"]).

Definition empty_tags : response := Send_XML "200 OK" (xml_decl +:+ "<Tagging><TagSet/></Tagging>").

(** Operations on a bucket. *)
Definition s3_bucket (method path0 bucket query head : string) (data : list Byte.byte) (locked : bool) : Srv response :=
  if bool_decide (method = "GET") && has query "location" then
    mret (Send_XML "200 OK" (xml_decl +:+ "<LocationConstraint" +:+ xmlns +:+ "/>"))
  else if has query "object-lock" then
    mret (if decide (method = "GET") then
            if locked then Send_XML "200 OK" (xml_decl +:+ tag "ObjectLockConfiguration" (tag "ObjectLockEnabled" "Enabled"))
            else S3_Error "404 Not Found" "ObjectLockConfigurationNotFoundError" path0
          else Send_Text "200 OK" "")
  else if has query "versioning" then
    if decide (method = "PUT") then
      _ ← vault (Set_Versioning bucket (has (bytes_string data) (tag "Status" "Enabled")));
      mret (Send_Text "200 OK" "")
    else
      v ← look (λ s, Bucket_Versioned s bucket);
      mret (Send_XML "200 OK" (xml_decl +:+ "<VersioningConfiguration" +:+ xmlns +:+ ">"
              +:+ (if (v : bool) then tag "Status" "Enabled" else "") +:+ "</VersioningConfiguration>"))
  else if bool_decide (method = "GET") && has query "versions" then look (λ s, List_Versions s bucket)
  else if has query "tagging" then
    mret (if decide (method = "GET") then empty_tags else Send_Text "204 No Content" "")
  else if bool_decide (method = "POST") && has query "delete" then
    let body := bytes_string data in
    res ← ada_map (batch_delete_one bucket) (delete_keys (String.length body) body);
    mret (Send_XML "200 OK" (xml_decl +:+ tag "DeleteResult" (String.concat "" res)))
  else if decide (method = "PUT") then
    exists_ ← look (λ s, Bucket_Exists s bucket);
    if reserved_bucket bucket then mret (S3_Error "400 Bad Request" "InvalidBucketName" path0)
    else if (exists_ : bool) then mret (S3_Error "409 Conflict" "BucketAlreadyOwnedByYou" path0)
    else
      _ ← vault (Create_Bucket bucket
                   (bool_decide (string_map lower_char (Header head "x-amz-bucket-object-lock-enabled") = "true")));
      mret (Send_Text "200 OK" "")
  else if decide (method = "HEAD") then
    exists_ ← look (λ s, Bucket_Exists s bucket);
    mret (Send_Text (if (exists_ : bool) then "200 OK" else "404 Not Found") "")
  else if decide (method = "DELETE") then
    _ ← vault (Delete_Bucket bucket);
    mret (Send_Text "204 No Content" "")
  else if decide (method = "GET") then
    exists_ ← look (λ s, Bucket_Exists s bucket);
    if (exists_ : bool) then
      s ← gets (st ∘ V);
      lift (of_option (List_Objects_V2 s bucket query))
    else mret (S3_Error "404 Not Found" "NoSuchBucket" path0)
  else mret (S3_Error "405 Method Not Allowed" "MethodNotAllowed" path0).

(** Multipart uploads. *)
Definition s3_upload (method path0 bucket key query : string) (data : list Byte.byte) (uid : string) : Srv response :=
  if decide (method = "PUT") then
    let pn_s := Q_Val query "partNumber=" in
    pn ← (if decide (pn_s = "") then mret 0 else lift (of_option (Int_Value Natural_Last pn_s)));
    _ ← vault (Upload_Part uid data pn);
    mret (Send_Text_Extra "200 OK" "" ("ETag: " +:+ dq +:+ uid +:+ "-" +:+ Itoa pn +:+ dq +:+ crlf))
  else if decide (method = "POST") then
    _ ← vault (Complete_Upload uid);
    id ← look (λ s, Object_Etag s (bucket +:+ "/" +:+ key));
    mret (Send_XML "200 OK" (xml_decl +:+ tag "CompleteMultipartUploadResult"
            (tag "Location" ("/" +:+ Xml_Escape bucket +:+ "/" +:+ Xml_Escape key) +:+ tag "Bucket" (Xml_Escape bucket)
             +:+ tag "Key" (Xml_Escape key) +:+ etag_xml id)))
  else if decide (method = "DELETE") then
    _ ← vault (Abort_Upload uid);
    mret (Send_Text "204 No Content" "")
  else mret (S3_Error "405 Method Not Allowed" "MethodNotAllowed" path0).

Definition s3_put (path0 bucket name head : string) (data : list Byte.byte) (locked : bool)
    (mode : Retention.Lock_Mode) (retain : Trusted_Time) : Srv response :=
  let src := Header head "x-amz-copy-source" in
  s ← gets (st ∘ V);
  if bool_decide (Header head "If-None-Match" = "*") && Contains s name then
    mret (S3_Error "412 Precondition Failed" "PreconditionFailed" path0)
  else if locked && Bucket_Exists s bucket && Contains s name && negb (Object_Deletable s name) then
    mret (S3_Error "403 Forbidden" "AccessDenied" path0)
  else if decide (src ≠ "") then
    bytes ← vault (Get_Object (copy_source_name src));
    _ ← vault (Put_Object name bytes mode retain (Collect_Meta head));
    id ← look (λ s, Object_Etag s name);
    mret (Send_XML "200 OK" (xml_decl +:+ tag "CopyObjectResult" (tag "LastModified" Epoch_Date +:+ etag_xml id)))
  else
    _ ← vault (Put_Object name data mode retain (Collect_Meta head));
    versioned ← look (λ s, Bucket_Versioned s bucket);
    vh ← (if (versioned : bool) then vid ← vault (Record_Version name); mret ("x-amz-version-id: " +:+ vid +:+ crlf)
          else mret "");
    id ← look (λ s, Object_Etag s name);
    mret (Send_Text_Extra "200 OK" "" (etag_header id +:+ vh)).

(** Content type and metadata lines of a stored blob. *)
Definition meta_parts (blob : string) : string * string :=
  match GoText.Index blob LF with
  | None => ("", "")
  | Some i => (str_take i blob, str_drop (i + 1) blob)
  end.

Definition s3_get (method path0 name head : string) (locked : bool) : Srv response :=
  s ← gets (st ∘ V);
  let inm := Header head "If-None-Match" in
  let im := Header head "If-Match" in
  let id := Object_Etag s name in
  if negb (Contains s name) then
    mret (if decide (method = "HEAD") then Send_Text "404 Not Found" "" else S3_Error "404 Not Found" "NoSuchKey" path0)
  else if bool_decide (inm ≠ "") && (bool_decide (inm = "*") || has inm id) then
    mret (Send_Text_Extra "304 Not Modified" "" (etag_header id))
  else if bool_decide (im ≠ "") && negb (bool_decide (im = "*") || has im id) then
    mret (S3_Error "412 Precondition Failed" "PreconditionFailed" path0)
  else
    let '(raw_ct, meta_x) := meta_parts (Object_Meta s name) in
    let ctype := if decide (raw_ct = "") then "application/octet-stream" else raw_ct in
    let extra := etag_header id +:+ "Accept-Ranges: bytes" +:+ crlf
                 +:+ (if locked then "x-amz-object-lock-mode: COMPLIANCE" +:+ crlf else "") +:+ meta_x in
    if decide (method = "HEAD") then mret (Send_Head "200 OK" (Object_Size s name) extra ctype)
    else
      full ← vault (Get_Object name);
      mret (send_object head ctype extra full).

Definition s3_delete (path0 bucket name query head : string) : Srv response :=
  let vid := Q_Val query "versionId=" in
  s ← gets (st ∘ V);
  if decide (vid ≠ "") then
    _ ← vault (Delete_Version name vid);
    mret (Send_Text_Extra "204 No Content" "" ("x-amz-version-id: " +:+ vid +:+ crlf))
  else if Bucket_Versioned s bucket then
    vid ← vault (Delete_Marker name);
    mret (Send_Text_Extra "204 No Content" ""
            ("x-amz-delete-marker: true" +:+ crlf +:+ "x-amz-version-id: " +:+ vid +:+ crlf))
  else if negb (Contains s name) then mret (Send_Text "204 No Content" "")
  else
    ok ← vault (Delete_Object name (bypass_requested head));
    if (ok : bool) then mret (Send_Text "204 No Content" "")
    else _ ← count_denied; mret (S3_Error "403 Forbidden" "AccessDenied" path0).

(** Operations on an object. *)
Definition s3_object (method path0 bucket key query head : string) (data : list Byte.byte) (locked : bool)
    (mode : Retention.Lock_Mode) (retain : Trusted_Time) : Srv response :=
  let name := bucket +:+ "/" +:+ key in
  let uid := Q_Val query "uploadId=" in
  let vid := Q_Val query "versionId=" in
  s ← gets (st ∘ V);
  if negb (Bucket_Exists s bucket) then mret (S3_Error "404 Not Found" "NoSuchBucket" path0)
  else if has query "tagging" then
    mret (if decide (method = "GET") then empty_tags else Send_Text "204 No Content" "")
  else if decide (query = "uploads" ∧ method = "POST") then
    up ← vault (Create_Upload name (if locked then mode else Retention.Compliance) retain);
    mret (Send_XML "200 OK" (xml_decl +:+ tag "InitiateMultipartUploadResult"
            (tag "Bucket" (Xml_Escape bucket) +:+ tag "Key" (Xml_Escape key) +:+ tag "UploadId" up)))
  else if decide (uid ≠ "") then s3_upload method path0 bucket key query data uid
  else if decide (method = "PUT") then s3_put path0 bucket name head data locked mode retain
  else if decide (method = "GET" ∧ vid ≠ "") then
    bytes ← vault (Get_Object_Version name vid);
    mret (Send "200 OK" "application/octet-stream" bytes ("x-amz-version-id: " +:+ vid +:+ crlf))
  else if decide (method = "GET" ∨ method = "HEAD") then s3_get method path0 name head locked
  else if decide (method = "DELETE") then s3_delete path0 bucket name query head
  else mret (S3_Error "405 Method Not Allowed" "MethodNotAllowed" path0).

(** Bucket and key of a path. *)
Definition split_path (path0 : string) : string * string :=
  let rest := str_drop 1 path0 in (until_byte "/" rest, default "" (after rest "/")).

Definition Handle_S3 (method path0 query head : string) (data : list Byte.byte) : Srv response :=
  let '(bucket, key) := split_path path0 in
  locked ← look (λ s, Bucket_Object_Lock s bucket);
  let mode := if negb locked then Retention.Governance
              else if decide (Header head "x-amz-object-lock-mode" = "GOVERNANCE") then Retention.Governance
              else Retention.Compliance in
  retain ← (if (locked : bool) then header_value head "X-Dezhan-Retain" Time_Last 3600 else mret 0);
  if decide (bucket = "") then
    if decide (method = "GET") then look List_All_Buckets
    else mret (S3_Error "405 Method Not Allowed" "MethodNotAllowed" path0)
  else if decide (key = "") then s3_bucket method path0 bucket query head data locked
  else s3_object method path0 bucket key query head data locked mode retain.

(** ** All routes *)

(** What [Tick_From_System] reads: two clocks and the boot id. *)
Record reading := { r_Mono : Trusted_Time; r_Realtime : Trusted_Time; r_Boot : string }.

Definition tick (t : reading) : Srv unit := vault (Tick_From_System (r_Mono t) (r_Realtime t) (r_Boot t)).

(** The first word of the head, and the second, if there is a third. *)
Definition Method_Of (head : string) : string :=
  match GoText.Index head " " with None => "" | Some sp1 => str_take sp1 head end.
Definition Path_Of (head : string) : string :=
  match after head " " with
  | None => "/"
  | Some rest => match GoText.Index rest " " with None => "/" | Some sp2 => str_take sp2 rest end
  end.

(** What the metrics page shows. *)
Definition metrics_of (s : server C) : vault_state :=
  let v := st (V s) in
  {| Interop.Object_Count := Z.of_nat (Object_Count v); Interop.Quarantined_Count := Z.of_nat (Quarantined_Count v);
     Interop.Audit_Length := Z.of_nat (Audit_Length v); Interop.Sealed := Sealed v; Interop.Now := Now v;
     Interop.Scrub_Runs := Scrub_Runs s; Interop.Scrub_Corrupt := r_Corrupt (Last_Scrub s);
     Interop.Shards_Repaired := r_Shards_Repaired (Last_Scrub s); Interop.Dir_Bytes := Root_Bytes (V s);
     Interop.Denied_Deletes := Denied_Deletes s; Interop.One_Way_Ingest := Ingest_Only v;
     Interop.Sync_Window_Open := Sync_Window_Open v |}.

(** [POST /approve]: an approver stages an approval. *)
Definition approve (head pquery : string) : Srv response :=
  let secret := Header head "X-Dezhan-Approval" in
  let resource := Uri_Decode (Q_Val pquery "resource=") in
  if Delete_Quorum cfg =? 0 then mret (Send_Text "409 Conflict" "delete quorum is not enabled")
  else if decide (resource = "") then mret (Send_Text "400 Bad Request" "missing ?resource=")
  else if negb (In_List secret (Approvers_Raw cfg)) then mret (Send_Text "403 Forbidden" "not a recognized approver")
  else
    now ← look Now;
    _ ← update (λ s, with_Pending (approvals_Add resource secret now (Pending s)) s);
    n ← gets (λ s, approvals_Count cfg resource now (Pending s));
    mret (Send_Text "200 OK" ("approval recorded for " +:+ resource +:+ " (" +:+ Image n
            +:+ " of" +:+ Image (Delete_Quorum cfg) +:+ ")")).

Definition scrub_text (r : Scrub_Report) : string :=
  "scrub total" +:+ Image (r_Total r) +:+ " intact" +:+ Image (r_Intact r) +:+ " repaired" +:+ Image (r_Repaired r)
  +:+ " corrupt" +:+ Image (r_Corrupt r) +:+ " shards_repaired" +:+ Image (r_Shards_Repaired r).

(** [POST /admin/legal-hold] *)
Definition admin_hold (pquery : string) : Srv response :=
  let name := Q_Val pquery "name=" in
  if decide (name = "") then mret (Send_Text "400 Bad Request" "missing name=")
  else
    _ ← vault (if decide (Q_Val pquery "on=" = "1") then Set_Legal_Hold name else Release_Legal_Hold name);
    h ← look (λ s, Has_Legal_Hold s name);
    mret (Send_Text "200 OK" ("legal_hold " +:+ name +:+ "=" +:+ (if (h : bool) then "on" else "off"))).

(** [POST /admin/export] *)
Definition admin_export (pquery : string) : Srv response :=
  let dest := Q_Val pquery "dest=" in
  if decide (dest = "") then mret (Send_Text "400 Bad Request" "missing dest=")
  else
    w ← gets V;
    _ ← lift (Export dest w);
    mret (Send_Text "200 OK" ("exported to " +:+ dest)).

Definition Mode_Image (m : Retention.Lock_Mode) : string :=
  match m with Retention.Unlocked => "UNLOCKED" | Retention.Governance => "GOVERNANCE" | Retention.Compliance => "COMPLIANCE" end.

(** The part of [path] after [/v/], if there is any. *)
Definition v_path (path : string) : option string :=
  if (3 <? String.length path)%nat && HasPrefix path "/v/" then Some (str_drop 3 path) else None.

(** [/v/<name>]: one object, by the server's own API. *)
Definition handle_v (method raw head : string) (data : list Byte.byte) : Srv response :=
  let name := until_byte "?" raw in
  let query := default "" (after raw "?") in
  let mode := if decide (Header head "X-Dezhan-Mode" = "governance") then Retention.Governance else Retention.Compliance in
  let uid := Q_Val query "uploadId=" in
  retain ← header_value head "X-Dezhan-Retain" Time_Last 3600;
  if decide (query = "uploads" ∧ method = "POST") then
    up ← vault (Create_Upload name mode retain);
    mret (Send_Text "200 OK" up)
  else if decide (uid ≠ "") then
    if decide (method = "PUT") then
      _ ← vault (Upload_Part uid data 0); mret (Send_Text "200 OK" "part accepted")
    else if decide (method = "POST") then
      _ ← vault (Complete_Upload uid); mret (Send_Text "200 OK" ("completed " +:+ name))
    else if decide (method = "DELETE") then
      _ ← vault (Abort_Upload uid); mret (Send_Text "200 OK" ("aborted " +:+ uid))
    else mret (Send_Text "405 Method Not Allowed" "")
  else if decide (method = "PUT") then
    _ ← vault (Put_Object name data mode retain "");
    id ← look (λ s, Object_Etag s name);
    mret (Send_Text_Extra "200 OK"
            ("stored " +:+ name +:+ " mode=" +:+ Mode_Image mode +:+ " retain=" +:+ Image retain) (etag_header id))
  else
    c ← look (λ s, Contains s name);
    if decide (method = "GET") then
      if (c : bool) then
        full ← vault (Get_Object name);
        id ← look (λ s, Object_Etag s name);
        mret (send_object head "application/octet-stream" (etag_header id +:+ "Accept-Ranges: bytes" +:+ crlf) full)
      else mret (Send_Text "404 Not Found" "no such object")
    else if decide (method = "HEAD") then
      id ← look (λ s, Object_Etag s name);
      mret (if (c : bool) then Send_Text_Extra "200 OK" "" (etag_header id) else Send_Text "404 Not Found" "")
    else if decide (method = "DELETE") then
      if (c : bool) then
        ok ← vault (Delete_Object name (bool_decide (Header head "X-Dezhan-Bypass" = "true")));
        if (ok : bool) then mret (Send_Text "200 OK" ("deleted " +:+ name))
        else _ ← count_denied; mret (Send_Text "403 Forbidden" "object is retained and cannot be deleted yet")
      else mret (Send_Text "404 Not Found" "no such object")
    else mret (Send_Text "405 Method Not Allowed" "").

(** The control routes under [/admin]; the others go on to [otherwise]. *)
Definition handle_admin (method path : string) (otherwise : Srv response) : Srv response :=
  let path0 := Path_Part path in
  let pquery := Query_Part path in
  if decide (method = "POST" ∧ path = "/admin/seal") then
    _ ← vault Seal; mret (Send_Text "200 OK" "vault sealed (read-only)")
  else if decide (method = "POST" ∧ path = "/admin/checkpoint") then
    w ← gets V;
    _ ← lift (Make_Checkpoint w);
    mret (Send_Text "200 OK" ("checkpoint signed; public_key=" +:+ Checkpoint_Public_Key (st w)))
  else if decide (method = "GET" ∧ path = "/admin/checkpoint-key") then
    look (λ s, Send_Text "200 OK" (Checkpoint_Public_Key (C := C) s))
  else if decide (method = "POST" ∧ path0 = "/admin/scrub") then
    r ← run_scrub; mret (Send_Text "200 OK" (scrub_text r))
  else if decide (method = "POST" ∧ path0 = "/admin/gc") then
    n ← vault Collect_Garbage; mret (Send_Text "200 OK" ("reclaimed" +:+ Image (Z.of_nat n)))
  else if decide (method = "POST" ∧ path0 = "/admin/ingest-only") then
    _ ← vault (Set_One_Way_Ingest (bool_decide (Q_Val pquery "on=" = "1")));
    look (λ s, Send_Text "200 OK" ("one_way_ingest=" +:+ (if Ingest_Only s then "on" else "off")))
  else if decide (method = "POST" ∧ path0 = "/admin/sync-window") then
    _ ← vault (if decide (Q_Val pquery "open=" = "1") then Open_Sync_Window else Close_Sync_Window);
    look (λ s, Send_Text "200 OK" ("sync_window=" +:+ (if Sync_Window_Open s then "open" else "closed")))
  else if decide (method = "POST" ∧ path0 = "/admin/legal-hold") then admin_hold pquery
  else if decide (method = "POST" ∧ path0 = "/admin/export") then admin_export pquery
  else otherwise.

(** The routes of [Handle]. *)
Definition route (method path head : string) (data : list Byte.byte) : Srv response :=
  let path0 := Path_Part path in
  let pquery := Query_Part path in
  if decide (method = "GET" ∧ path = "/") then
    if decide (Header head "Authorization" ≠ "" ∨ Header head "x-amz-date" ≠ "") then Handle_S3 method "/" "" head data
    else mret (Send "200 OK" "text/html" (to_bytes Index_Html) "")
  else if decide (method = "GET" ∧ path = "/healthz") then
    look (λ s, Send_Text "200 OK" (if Sealed s then "sealed" else "ok"))
  else if decide (method = "GET" ∧ path = "/version") then mret (Send_Text "200 OK" ("dezhan " +:+ Version_Number))
  else if decide (method = "GET" ∧ path = "/metrics") then
    gets (λ s, Send_Text "200 OK" (metrics_page (metrics_of s)))
  else if decide (method = "POST" ∧ path = "/admin/tick") then
    look (λ s, Send_Text "200 OK" ("trusted_time" +:+ Image (Now s)))
  else if decide (method = "POST" ∧ path0 = "/approve") then approve head pquery
  else handle_admin method path
    (if decide (method = "GET" ∧ (path = "/v" ∨ path = "/v/")) then look (λ s, Send_Text "200 OK" (Object_Names s))
     else match v_path path with
          | Some raw => handle_v method raw head data
          | None => Handle_S3 method path0 pquery head data
          end).

(** The exceptions that have an answer. *)
Definition error_response (e : exn) : option response :=
  match e with
  | Vault_Sealed => Some (Send_Text "503 Service Unavailable" "vault is sealed (read-only)")
  | Not_Found => Some (Send_Text "404 Not Found" "no such object")
  | No_Such_Upload => Some (Send_Text "404 Not Found" "no such upload")
  | Egress_Denied => Some (Send_Text "403 Forbidden" "reads are blocked (one-way ingest)")
  | Sync_Closed => Some (Send_Text "409 Conflict" "sync window is closed")
  | Object_Quarantined_Error => Some (Send_Text "410 Gone" "object quarantined: unrepairable data loss")
  | Auth_Failed => Some (Send_Text "403 Forbidden" "authentication failed (wrong key or tampering)")
  | Bucket_Not_Empty => Some (Send_Text "409 Conflict" "bucket not empty")
  | Bucket_Exists_Error => Some (Send_Text "409 Conflict" "bucket already exists")
  | _ => None
  end.

Definition answered (m : Srv response) : Srv response := λ s,
  match m s with
  | (inl e, s') => match error_response e with Some r => (inr r, s') | None => (inl e, s') end
  | r => r
  end.

(** The gate, on the state. *)
Definition check_gate (method path head : string) : Srv (option response) :=
  now ← look Now;
  a ← gets Pending;
  '(r, a) ← lift (gate cfg head method path now a);
  _ ← update (with_Pending a);
  mret r.

(** A request whose head is read, and the bytes that follow. *)
Definition Handle (t : reading) (head : string) (rest : list Byte.byte) : Srv response :=
  let method := Method_Of head in
  let path := Path_Of head in
  len ← header_value head "Content-Length" Natural_Last 0;
  answered
    (_ ← raise_when (Z.of_nat (length rest) <? len) End_Error;
     let data := take (Z.to_nat len) rest in
     _ ← tick t;
     r ← check_gate method path head;
     match r with
     | Some r => mret r
     | None => route method path head data
     end).

(** ** Connections and jobs *)

(** [Read_Head]: the characters up to the first empty line, and what follows;
    the text so far is reversed. *)
Fixpoint read_head (text : list Byte.byte) (l : list Byte.byte) : option (string * list Byte.byte) :=
  match l with
  | [] => None
  | c :: l =>
      if decide (take 4 (c :: text) = ["010"; "013"; "010"; "013"]%byte)
      then Some (bytes_string (rev (c :: text)), l) else read_head (c :: text) l
  end.

(** [Serve]: the answer to the bytes of a connection, if there is one. *)
Definition Serve (t : reading) (l : list Byte.byte) (s : server C) : option (list Byte.byte) * server C :=
  match read_head [] l with
  | None => (None, s)
  | Some (head, rest) =>
      match Handle t head rest s with
      | (inr r, s') => (Some (wire r), s')
      | (inl _, s') => (None, s')
      end
  end.

(** What takes the lock: a connection, and the jobs [Scrubber], [Collector] and
    [Checkpointer], which pass over every exception. *)
Inductive event :=
  | Connection (t : reading) (l : list Byte.byte)
  | Scrubber
  | Collector
  | Checkpointer.

Definition server_step (e : event) (s : server C) : server C :=
  match e with
  | Connection t l => (Serve t l s).2
  | Scrubber => (run_scrub s).2
  | Collector => (vault Collect_Garbage s).2
  | Checkpointer => s
  end.

End server.
