(* ===== verification/ServerOps.v ===== *)
(** What a request does to the vault.

    [does r s ops] is a table of the requests and the vault operations they
    carry out; [Handle_does] proves that the server, whatever the answer,
    reads the clock and then carries out one row of it. *)
From Stdlib Require Import Strings.Byte NArith.
From S2P Require Import Prelude AdaMonad GoStrings GoText ServerText Sha256 TrustedCore AuditChain AdaText Cas CasSpec.
From S2P Require Import VaultState Vault VaultLines VaultSteps VaultDurable VaultOps VaultExec Keys Sigv4 ServerAuth Server.
Open Scope Z_scope.

(** A request that is read completely. *)
Record request := { rq_Method : string; rq_Path : string; rq_Head : string; rq_Data : list Byte.byte }.

Definition v_name (raw : string) : string := until_byte "?" raw.
Definition v_query (raw : string) : string := default "" (after raw "?").
Definition rq_Query (r : request) : string := Query_Part (rq_Path r).
Definition object_name (bucket key : string) : string := bucket +:+ "/" +:+ key.

(** The operations on a multipart upload. *)
Inductive does_upload (method uid : string) (data : list Byte.byte) : op → Prop :=
  | up_part pn : method = "PUT" → does_upload method uid data (OpUploadPart uid data pn)
  | up_complete : method = "POST" → does_upload method uid data (OpComplete uid)
  | up_abort : method = "DELETE" → does_upload method uid data (OpAbort uid).

(** [/v/<name>] *)
Inductive does_v (method raw head : string) (data : list Byte.byte) (s : State) : op → Prop :=
  | v_create mode retain : method = "POST" → v_query raw = "uploads" →
      does_v method raw head data s (OpCreateUpload (v_name raw) mode retain)
  | v_upload o : Q_Val (v_query raw) "uploadId=" ≠ "" →
      does_upload method (Q_Val (v_query raw) "uploadId=") data o → does_v method raw head data s o
  | v_put mode retain : method = "PUT" → Q_Val (v_query raw) "uploadId=" = "" →
      does_v method raw head data s (OpPut (v_name raw) data mode retain "")
  | v_delete : method = "DELETE" → Contains s (v_name raw) = true →
      does_v method raw head data s (OpDelete (v_name raw) (bool_decide (Header head "X-Dezhan-Bypass" = "true"))).

(** A bucket *)
Inductive does_bucket (r : request) (bucket : string) (s : State) : list op → Prop :=
  | b_versioning on : rq_Method r = "PUT" → does_bucket r bucket s [OpSetVersioning bucket on]
  | b_create lock : rq_Method r = "PUT" → reserved_bucket bucket = false → Bucket_Exists s bucket = false →
      does_bucket r bucket s [OpCreateBucket bucket lock]
  | b_delete : rq_Method r = "DELETE" → does_bucket r bucket s [OpDeleteBucket bucket]
  | b_batch keys : rq_Method r = "POST" → has (rq_Query r) "delete" = true →
      keys `sublist_of` delete_keys (String.length (bytes_string (rq_Data r))) (bytes_string (rq_Data r)) →
      does_bucket r bucket s ((λ k, OpDelete (object_name bucket k) false) <$> keys).

(** An object in a bucket: a put over an object that may not be deleted, in a
    bucket with object lock, has no row. *)
Inductive does_object (r : request) (bucket key : string) (s : State) : list op → Prop :=
  | o_create mode retain : rq_Method r = "POST" → rq_Query r = "uploads" →
      does_object r bucket key s [OpCreateUpload (object_name bucket key) mode retain]
  | o_upload o : Q_Val (rq_Query r) "uploadId=" ≠ "" →
      does_upload (rq_Method r) (Q_Val (rq_Query r) "uploadId=") (rq_Data r) o → does_object r bucket key s [o]
  | o_put data mode retain meta versions : rq_Method r = "PUT" → Q_Val (rq_Query r) "uploadId=" = "" →
      (Bucket_Object_Lock s bucket = true → Contains s (object_name bucket key) = true →
       Object_Deletable s (object_name bucket key) = true) →
      data = rq_Data r ∨ Header (rq_Head r) "x-amz-copy-source" ≠ "" →
      Forall (λ o, o = OpRecordVersion (object_name bucket key)) versions →
      does_object r bucket key s (OpPut (object_name bucket key) data mode retain meta :: versions)
  | o_delete_version : rq_Method r = "DELETE" → Q_Val (rq_Query r) "versionId=" ≠ "" →
      does_object r bucket key s [OpDeleteVersion (object_name bucket key) (Q_Val (rq_Query r) "versionId=")]
  | o_marker : rq_Method r = "DELETE" → Q_Val (rq_Query r) "versionId=" = "" → Bucket_Versioned s bucket = true →
      does_object r bucket key s [OpDeleteMarker (object_name bucket key)]
  | o_delete : rq_Method r = "DELETE" → Bucket_Versioned s bucket = false →
      Contains s (object_name bucket key) = true →
      does_object r bucket key s [OpDelete (object_name bucket key) (bypass_requested (rq_Head r))].

(** All requests *)
Inductive does (r : request) (s : State) : list op → Prop :=
  | do_nothing : does r s []
  | do_seal : rq_Method r = "POST" → rq_Path r = "/admin/seal" → does r s [OpSeal]
  | do_scrub : rq_Method r = "POST" → Path_Part (rq_Path r) = "/admin/scrub" → does r s [OpScrub]
  | do_gc : rq_Method r = "POST" → Path_Part (rq_Path r) = "/admin/gc" → does r s [OpCollect]
  | do_ingest : rq_Method r = "POST" → Path_Part (rq_Path r) = "/admin/ingest-only" →
      does r s [OpIngestOnly (bool_decide (Q_Val (rq_Query r) "on=" = "1"))]
  | do_window : rq_Method r = "POST" → Path_Part (rq_Path r) = "/admin/sync-window" →
      does r s [if decide (Q_Val (rq_Query r) "open=" = "1") then OpOpenWindow else OpCloseWindow]
  | do_hold : rq_Method r = "POST" → Path_Part (rq_Path r) = "/admin/legal-hold" →
      does r s [if decide (Q_Val (rq_Query r) "on=" = "1") then OpHold (Q_Val (rq_Query r) "name=")
                else OpRelease (Q_Val (rq_Query r) "name=")]
  | do_v raw o : v_path (rq_Path r) = Some raw →
      does_v (rq_Method r) raw (rq_Head r) (rq_Data r) s o → does r s [o]
  | do_bucket bucket ops : v_path (rq_Path r) = None → split_path (Path_Part (rq_Path r)) = (bucket, "") →
      does_bucket r bucket s ops → does r s ops
  | do_object bucket key ops : v_path (rq_Path r) = None → split_path (Path_Part (rq_Path r)) = (bucket, key) →
      key ≠ "" → does_object r bucket key s ops → does r s ops.

Create HintDb srv.

Section server_ops.
Context {C : Type} {CO : CasOps C} {Mem : Memory} {Out : Outside C} (cfg : config).
Implicit Types (w : world C) (s : server C).
Notation Srv := (Ada (server C)).

(** Operations one after the other, however they end. *)
Definition run_ops (ops : list op) w : world C := foldl (λ w o, (exec o w).2) w ops.

(** [m] carries out operations that [P] admits. *)
Definition issues {A} (P : list op → Prop) (m : Srv A) s : Prop := ∃ ops, P ops ∧ V (m s).2 = run_ops ops (V s).

(** It does nothing to the vault. *)
Definition reads {A} (m : Srv A) : Prop := ∀ s, V (m s).2 = V s.

Lemma reads_ret {A} (a : A) : reads (mret a).
Proof. done. Qed.
Lemma reads_gets {A} (f : server C → A) : reads (gets f).
Proof. done. Qed.
Lemma reads_look {A} (f : State → A) : reads (look f).
Proof. done. Qed.
Lemma reads_lift {A} (r : exn + A) : reads (lift r).
Proof. done. Qed.
Lemma reads_raise {A} e : reads (raise (A := A) e).
Proof. done. Qed.
Lemma reads_add hi a b : reads (add_upto hi a b).
Proof. intros s. unfold add_upto. by destruct (_ <=? _). Qed.
Lemma reads_update f : (∀ s, V (f s) = V s) → reads (update f).
Proof. intros Hf s. apply Hf. Qed.

Lemma reads_bind {A B} (m : Srv A) (f : A → Srv B) : reads m → (∀ a, reads (f a)) → reads (m ≫= f).
Proof.
  intros Hm Hf s. specialize (Hm s). unfold mbind, ada_bind.
  destruct (m s) as [[e|a] s1]; [done|]. simpl in *. by rewrite Hf.
Qed.

Lemma reads_vault {A} (m : Ada (world C) A) : (∀ w, (m w).2 = w) → reads (vault m).
Proof. intros Hm s. unfold vault. specialize (Hm (V s)). by destruct (m (V s)). Qed.

Lemma vault_V {A} (m : Ada (world C) A) s : V (vault m s).2 = (m (V s)).2.
Proof. unfold vault. by destruct (m (V s)). Qed.

Lemma issues_reads {A} (P : list op → Prop) (m : Srv A) s : P [] → reads m → issues P m s.
Proof. intros HP Hm. exists []. split; [done|apply Hm]. Qed.

Lemma issues_bind_reads {A B} P (m : Srv A) (f : A → Srv B) s : issues P m s → (∀ a, reads (f a)) → issues P (m ≫= f) s.
Proof.
  intros (ops & HP & E) Hf. exists ops. split; [done|]. unfold mbind, ada_bind.
  destruct (m s) as [[e|a] s1]; [done|]. simpl in *. by rewrite Hf.
Qed.

Lemma issues_vault {A} P o (m : Ada (world C) A) s : (∀ w, (m w).2 = (exec o w).2) → P [o] → issues P (vault m) s.
Proof. intros Hm HP. exists [o]. split; [done|]. by rewrite vault_V, Hm. Qed.

Lemma issues_reads_bind {A B} P (m : Srv A) (f : A → Srv B) s : reads m → P [] →
  (∀ a s1, m s = (inr a, s1) → V s1 = V s → issues P (f a) s1) → issues P (m ≫= f) s.
Proof.
  intros Hm HP Hf. specialize (Hm s). unfold issues, mbind, ada_bind in *.
  destruct (m s) as [[e|a] s1] eqn:E; simpl in *; [by exists []|].
  destruct (Hf a s1 eq_refl Hm) as (ops & Hops & EV). exists ops. by rewrite EV, Hm.
Qed.

Lemma issues_gets_bind {A B} P (g : server C → A) (f : A → Srv B) s : issues P (f (g s)) s → issues P (gets g ≫= f) s.
Proof. done. Qed.

Lemma issues_look_bind {A B} P (g : State → A) (f : A → Srv B) s :
  issues P (f (g (st (V s)))) s → issues P (look g ≫= f) s.
Proof. done. Qed.

Lemma issues_impl {A} (P Q : list op → Prop) (m : Srv A) s : (∀ ops, P ops → Q ops) → issues P m s → issues Q m s.
Proof. intros HPQ (ops & HP & E). exists ops. auto. Qed.

(** ** Calls that only read *)

Lemma vault_reads {A} (m : Ada (world C) A) w : preserves (λ w', w' = w) m → (m w).2 = w.
Proof. intros Hm. by apply Hm. Qed.

Lemma copy_parts_reads w size ids : ∀ got, preserves (λ w', w' = w) (copy_parts size ids got).
Proof. induction ids as [|id ids IH]; intros got; cbn [copy_parts]; unfold raise_when; solve_preserves ltac:(fail). Qed.

Lemma Get_Object_reads n w : (Get_Object n w).2 = w.
Proof.
  apply vault_reads. pose proof (copy_parts_reads w). unfold Get_Object, raise_when. solve_preserves ltac:(fail).
Qed.

Lemma Get_Object_Version_reads n vid w : (Get_Object_Version n vid w).2 = w.
Proof. apply vault_reads. unfold Get_Object_Version, raise_when. solve_preserves ltac:(fail). Qed.

Lemma reads_header_value head name hi d : reads (header_value head name hi d).
Proof. intros s. unfold header_value. by case_decide. Qed.

Lemma reads_count_denied : reads count_denied.
Proof.
  unfold count_denied. apply reads_bind; [apply reads_gets|]. intros n. apply reads_bind; [apply reads_add|]. intros n'.
  by apply reads_update.
Qed.

#[local] Hint Resolve reads_ret reads_gets reads_look reads_lift reads_raise reads_add reads_header_value reads_count_denied
  reads_vault Get_Object_reads Get_Object_Version_reads : srv.

(** Follows the structure of a part that only reads. *)
Ltac solve_reads :=
  repeat first
    [ progress intros
    | by auto with srv
    | match goal with
      | |- reads (_ ≫= _) => apply reads_bind
      | |- reads (if ?b then _ else _) => destruct b
      | |- reads (match ?x with _ => _ end) => destruct x
      end ].

(** A call that is an operation, followed by reads. *)
Ltac issue o := (apply issues_bind_reads; [|solve_reads]); apply (issues_vault _ o); [by intros; cbn [exec]; rewrite ?discard_eq|].

(** ** The S3 API *)

Lemma s3_upload_does method path0 bucket key query data uid s P :
  P [] → (∀ o, does_upload method uid data o → P [o]) →
  issues P (s3_upload method path0 bucket key query data uid) s.
Proof.
  intros H0 HP. unfold s3_upload. case_decide.
  - apply issues_reads_bind; [case_decide; solve_reads|done|]. intros pn s1 _ _. issue (OpUploadPart uid data pn).
    by apply HP, up_part.
  - case_decide; [issue (OpComplete uid); by apply HP, up_complete|].
    case_decide; [issue (OpAbort uid); by apply HP, up_abort|]. apply issues_reads; solve_reads.
Qed.

Lemma issues_put_version P n d mode retain meta (f : bool → string → Srv response) b s :
  (∀ vs, Forall (λ o, o = OpRecordVersion n) vs → P (OpPut n d mode retain meta :: vs)) →
  (∀ v h, reads (f v h)) →
  issues P (_ ← vault (Put_Object n d mode retain meta);
            versioned ← look (λ v : State, Bucket_Versioned v b);
            vh ← (if (versioned : bool) then vid ← vault (Record_Version n); mret ("x-amz-version-id: " +:+ vid +:+ crlf)
                  else mret "");
            f versioned vh) s.
Proof.
  intros HP Hf. unfold issues, mbind at 1, ada_bind at 1.
  pose proof (vault_V (Put_Object n d mode retain meta) s) as E.
  destruct (vault _ s) as [[e|[]] s1]; cbn [fst snd] in *.
  - exists [OpPut n d mode retain meta]. split; [by apply HP|done].
  - rewrite (ada_bind_inr_l (look _) _ s1 _ s1 eq_refl). destruct (Bucket_Versioned _ _).
    + exists [OpPut n d mode retain meta; OpRecordVersion n]. split; [apply HP; by repeat constructor|].
      simpl. rewrite discard_eq, <- E, <- vault_V. unfold mbind, ada_bind.
      destruct (vault (Record_Version n) s1) as [[e|vid] s2]; [done|]. apply Hf.
    + exists [OpPut n d mode retain meta]. split; [by apply HP|]. etrans; [apply (Hf false "")|exact E].
Qed.

Lemma s3_put_does r bucket key path0 locked mode retain s :
  rq_Method r = "PUT" → Q_Val (rq_Query r) "uploadId=" = "" → locked = Bucket_Object_Lock (st (V s)) bucket → Bucket_Exists (st (V s)) bucket = true →
  issues (λ ops, ops = [] ∨ does_object r bucket key (st (V s)) ops)
    (s3_put path0 bucket (object_name bucket key) (rq_Head r) (rq_Data r) locked mode retain) s.
Proof.
  intros HM Huid HL HE. unfold s3_put. apply issues_gets_bind. cbn [compose].
  set (n := object_name bucket key). set (v := st (V s)) in *. change ((st ∘ V) s) with v.
  destruct (_ && Contains v n); [apply issues_reads; [by left|solve_reads]|].
  destruct (locked && _ && _ && _) eqn:Eg; [apply issues_reads; [by left|solve_reads]|].
  assert (Hg : Bucket_Object_Lock v bucket = true → Contains v n = true → Object_Deletable v n = true).
  { rewrite <- HL. intros -> Hc. rewrite HE, Hc in Eg. by destruct (Object_Deletable v n). }
  case_decide as Hsrc.
  - apply issues_reads_bind; [solve_reads|by left|]. intros bytes s1 _ EV.
    issue (OpPut n bytes mode retain (Collect_Meta (rq_Head r))). right. apply o_put; auto.
  - apply (issues_put_version _ _ _ _ _ _
      (λ _ vh, id ← look (λ v : State, Object_Etag v n); mret (Send_Text_Extra "200 OK" "" (etag_header id +:+ vh)))).
    + intros vs Hvs. right. apply o_put; auto.
    + solve_reads.
Qed.

Lemma s3_get_reads method path0 name head locked : reads (s3_get method path0 name head locked).
Proof. unfold s3_get. solve_reads. Qed.

Lemma s3_delete_does r bucket key path0 s : rq_Method r = "DELETE" →
  issues (λ ops, ops = [] ∨ does_object r bucket key (st (V s)) ops)
    (s3_delete path0 bucket (object_name bucket key) (rq_Query r) (rq_Head r)) s.
Proof.
  intros HM. unfold s3_delete. apply issues_gets_bind. cbn [compose]. change ((st ∘ V) s) with (st (V s)).
  set (n := object_name bucket key). case_decide as Hv.
  { issue (OpDeleteVersion n (Q_Val (rq_Query r) "versionId=")). right. by apply o_delete_version. }
  destruct (Bucket_Versioned _ _) eqn:Eb.
  { issue (OpDeleteMarker n). right. by apply o_marker. }
  destruct (Contains _ n) eqn:Ec; cbn [negb]; [|apply issues_reads; [by left|solve_reads]].
  issue (OpDelete n (bypass_requested (rq_Head r))). right. by apply o_delete.
Qed.

Lemma s3_object_does r bucket key path0 locked mode retain s : locked = Bucket_Object_Lock (st (V s)) bucket →
  issues (λ ops, ops = [] ∨ does_object r bucket key (st (V s)) ops)
    (s3_object (rq_Method r) path0 bucket key (rq_Query r) (rq_Head r) (rq_Data r) locked mode retain) s.
Proof.
  intros HL. unfold s3_object. apply issues_gets_bind. cbn [compose]. change ((st ∘ V) s) with (st (V s)).
  change (bucket +:+ "/" +:+ key) with (object_name bucket key).
  pose proof (s3_get_reads (rq_Method r) path0 (object_name bucket key) (rq_Head r) locked) as Hget.
  destruct (Bucket_Exists _ _) eqn:Eb; cbn [negb]; [|apply issues_reads; [by left|solve_reads]].
  destruct (has _ "tagging"); [apply issues_reads; [by left|solve_reads]|].
  case_decide as Hu.
  { destruct Hu. issue (OpCreateUpload (object_name bucket key) (if locked then mode else Retention.Compliance) retain).
    right. by apply o_create. }
  case_decide as Hid.
  { apply s3_upload_does; [by left|]. intros o Ho. right. by apply o_upload. }
  case_decide; [by apply s3_put_does|].
  case_decide; [apply issues_reads; [by left|solve_reads]|].
  case_decide; [apply issues_reads; [by left|done]|].
  case_decide; [by apply s3_delete_does|]. apply issues_reads; [by left|solve_reads].
Qed.

(** One key of a batch: one deletion, or none. *)
Lemma batch_delete_one_does bucket k s :
  issues (λ ops, ops = [] ∨ ops = [OpDelete (object_name bucket k) false]) (batch_delete_one bucket k) s.
Proof.
  unfold batch_delete_one. change (bucket +:+ "/" +:+ k) with (object_name bucket k).
  apply issues_bind_reads; [|solve_reads]. unfold handle_any, issues.
  set (m := _ ≫= _ : Srv bool).
  assert (Hm : issues (λ ops, ops = [] ∨ ops = [OpDelete (object_name bucket k) false]) m s).
  { unfold m. apply issues_look_bind. destruct (Contains _ _).
    - apply (issues_vault _ (OpDelete (object_name bucket k) false)); [by intros; cbn [exec]; rewrite ?discard_eq|by right].
    - apply issues_reads; [by left|solve_reads]. }
  destruct Hm as (ops & HP & E). exists ops. split; [done|]. by destruct (m s) as [[e|b] s1].
Qed.

Lemma run_ops_app l1 l2 (w : world C) : run_ops (l1 ++ l2) w = run_ops l2 (run_ops l1 w).
Proof. apply foldl_app. Qed.

Lemma batch_does bucket keys : ∀ s,
  issues (λ ops, ∃ l, l `sublist_of` keys ∧ ops = (λ k, OpDelete (object_name bucket k) false) <$> l)
    (ada_map (batch_delete_one bucket) keys) s.
Proof.
  induction keys as [|k keys IH]; intros s; cbn [ada_map]; [by apply issues_reads; [exists []|solve_reads]|].
  pose proof (batch_delete_one_does bucket k s) as (o1 & H1 & E1). unfold issues, mbind at 1, ada_bind at 1.
  assert (Hs1 : ∃ l1, l1 `sublist_of` [k] ∧ o1 = (λ k, OpDelete (object_name bucket k) false) <$> l1).
  { destruct H1 as [->| ->]; [exists []|exists [k]]; split; try done; repeat constructor. }
  destruct Hs1 as (l1 & Hl1 & ->). destruct (batch_delete_one bucket k s) as [[e|b] s1]; cbn [snd] in E1.
  - eexists. split; [|exact E1]. exists l1. split; [|done]. etrans; [exact Hl1|]. apply sublist_skip, sublist_nil_l.
  - destruct (IH s1) as (o2 & (l2 & Hl2 & ->) & E2).
    exists ((λ k, OpDelete (object_name bucket k) false) <$> l1 ++ l2). split.
    + exists (l1 ++ l2). split; [|done]. by apply (sublist_app l1 [k] l2 keys).
    + rewrite fmap_app, run_ops_app, <- E1, <- E2. unfold mbind, ada_bind.
      by destruct (ada_map _ keys s1) as [[e|bs] s2].
Qed.

Lemma s3_bucket_does r bucket path0 locked s :
  issues (λ ops, ops = [] ∨ does_bucket r bucket (st (V s)) ops)
    (s3_bucket (rq_Method r) path0 bucket (rq_Query r) (rq_Head r) (rq_Data r) locked) s.
Proof.
  unfold s3_bucket.
  destruct (_ && has _ "location"); [apply issues_reads; [by left|solve_reads]|].
  destruct (has _ "object-lock"); [apply issues_reads; [by left|solve_reads]|].
  destruct (has _ "versioning").
  { case_decide; [|apply issues_reads; [by left|solve_reads]].
    issue (OpSetVersioning bucket (has (bytes_string (rq_Data r)) (tag "Status" "Enabled"))). right. by apply b_versioning. }
  destruct (_ && has _ "versions"); [apply issues_reads; [by left|solve_reads]|].
  destruct (has _ "tagging"); [apply issues_reads; [by left|solve_reads]|].
  destruct (bool_decide (rq_Method r = "POST") && has (rq_Query r) "delete") eqn:Ed.
  { apply andb_true_iff in Ed as [EM Ed]. apply bool_decide_eq_true_1 in EM.
    apply issues_bind_reads; [|solve_reads]. eapply issues_impl; [|apply batch_does].
    intros ops (l & Hl & ->). right. by apply b_batch. }
  clear Ed. case_decide.
  { apply issues_look_bind. destruct (reserved_bucket bucket) eqn:Er; [apply issues_reads; [by left|solve_reads]|].
    destruct (Bucket_Exists _ _) eqn:Eb; [apply issues_reads; [by left|solve_reads]|].
    match goal with |- context [Create_Bucket _ ?b] => issue (OpCreateBucket bucket b) end. right. by apply b_create. }
  case_decide; [apply issues_reads; [by left|solve_reads]|].
  case_decide; [issue (OpDeleteBucket bucket); right; by apply b_delete|].
  apply issues_reads; [by left|solve_reads].
Qed.

Lemma Handle_S3_does r s : v_path (rq_Path r) = None →
  issues (does r (st (V s))) (Handle_S3 (rq_Method r) (Path_Part (rq_Path r)) (rq_Query r) (rq_Head r) (rq_Data r)) s.
Proof.
  intros Hv. unfold Handle_S3. destruct (split_path _) as [bucket key] eqn:Ep. apply issues_look_bind.
  apply issues_reads_bind; [solve_reads|apply do_nothing|]. intros retain s1 _ EV. rewrite <- EV.
  case_decide; [apply issues_reads; [apply do_nothing|solve_reads]|]. case_decide as Hk.
  - subst key. eapply issues_impl; [|apply s3_bucket_does]. intros ops [->|Ho]; [apply do_nothing|by eapply do_bucket].
  - eapply issues_impl; [|by apply s3_object_does]. intros ops [->|Ho]; [apply do_nothing|by eapply do_object].
Qed.

(** ** The other routes *)

Lemma handle_v_does method raw head data s :
  issues (λ ops, ops = [] ∨ ∃ o, ops = [o] ∧ does_v method raw head data (st (V s)) o) (handle_v method raw head data) s.
Proof.
  unfold handle_v. change (until_byte "?" raw) with (v_name raw). change (default "" (after raw "?")) with (v_query raw).
  set (uid := Q_Val (v_query raw) "uploadId=").
  apply issues_reads_bind; [solve_reads|by left|]. intros retain s1 _ EV. rewrite <- EV.
  case_decide as Hu.
  { destruct Hu. match goal with |- context [Create_Upload ?n ?m ?r] => issue (OpCreateUpload n m r) end.
    right. eexists. split; [done|]. by apply v_create. }
  case_decide as Hid.
  { case_decide; [issue (OpUploadPart uid data 0)|case_decide; [issue (OpComplete uid)|case_decide; [issue (OpAbort uid)|]]].
    4: apply issues_reads; [by left|solve_reads].
    all: right; eexists; (split; [done|]); apply v_upload; [done|by constructor]. }
  case_decide.
  { match goal with |- context [Put_Object ?n ?d ?m ?r ?u] => issue (OpPut n d m r u) end.
    right. eexists. split; [done|]. by apply v_put. }
  apply issues_look_bind. case_decide; [apply issues_reads; [by left|solve_reads]|].
  case_decide; [apply issues_reads; [by left|solve_reads]|].
  case_decide; [|apply issues_reads; [by left|solve_reads]].
  destruct (Contains _ _) eqn:Ec; [|apply issues_reads; [by left|solve_reads]].
  match goal with |- context [Delete_Object ?n ?b] => issue (OpDelete n b) end.
  right. eexists. split; [done|]. by apply v_delete.
Qed.

Lemma run_scrub_V s : V (run_scrub s).2 = (Scrub (V s)).2.
Proof.
  unfold run_scrub. rewrite <- vault_V. unfold mbind, ada_bind. destruct (vault Scrub s) as [[e|r] s1]; [done|].
  cbn. unfold add_upto. by destruct (_ <=? _).
Qed.

Lemma approve_reads head pquery : reads (approve cfg head pquery).
Proof. unfold approve. solve_reads. Qed.

Lemma handle_admin_does r otherwise s : issues (does r (st (V s))) otherwise s →
  issues (does r (st (V s))) (handle_admin (rq_Method r) (rq_Path r) otherwise) s.
Proof.
  intros Ho. unfold handle_admin. change (Query_Part (rq_Path r)) with (rq_Query r).
  case_decide as E1; [destruct E1; issue OpSeal; by apply do_seal|].
  case_decide; [apply issues_reads; [apply do_nothing|solve_reads]|].
  case_decide; [apply issues_reads; [apply do_nothing|solve_reads]|].
  case_decide as E2.
  { destruct E2. apply issues_bind_reads; [|solve_reads]. exists [OpScrub]. split; [by apply do_scrub|].
    simpl. by rewrite run_scrub_V, discard_eq. }
  case_decide as E3; [destruct E3; issue OpCollect; by apply do_gc|].
  case_decide as E4.
  { destruct E4. issue (OpIngestOnly (bool_decide (Q_Val (rq_Query r) "on=" = "1"))). by apply do_ingest. }
  case_decide as E5.
  { destruct E5 as [EM EP]. pose proof (do_window r (st (V s)) EM EP) as Hd. revert Hd.
    case_decide; intros Hd; [by issue OpOpenWindow|by issue OpCloseWindow]. }
  case_decide as E6.
  { destruct E6 as [EM EP]. unfold admin_hold. case_decide; [apply issues_reads; [apply do_nothing|solve_reads]|].
    pose proof (do_hold r (st (V s)) EM EP) as Hd. revert Hd. set (n := Q_Val (rq_Query r) "name=").
    case_decide; intros Hd; [by issue (OpHold n)|by issue (OpRelease n)]. }
  case_decide; [|done]. unfold admin_export. apply issues_reads; [apply do_nothing|solve_reads].
Qed.

Lemma route_does r s : issues (does r (st (V s))) (route cfg (rq_Method r) (rq_Path r) (rq_Head r) (rq_Data r)) s.
Proof.
  unfold route. change (Query_Part (rq_Path r)) with (rq_Query r). case_decide as Hroot.
  { destruct Hroot as [EM EP]. case_decide; [|apply issues_reads; [apply do_nothing|solve_reads]].
    pose proof (Handle_S3_does r s) as HS. unfold rq_Query in HS. rewrite EP in HS. by apply HS. }
  do 4 (case_decide; [apply issues_reads; [apply do_nothing|solve_reads]|]).
  case_decide; [apply issues_reads; [apply do_nothing|apply approve_reads]|].
  apply handle_admin_does. case_decide; [apply issues_reads; [apply do_nothing|solve_reads]|].
  destruct (v_path (rq_Path r)) as [raw|] eqn:Ev; [|by apply Handle_S3_does].
  eapply issues_impl; [|apply handle_v_does]. intros ops [->|(o & -> & Ho)]; [apply do_nothing|by eapply do_v].
Qed.
End server_ops.
