(* ===== verification/ServerSpec.v ===== *)
(** What the server promises about every request.

    [received] is the request that the server reads from the bytes of a
    connection and [permitted] is the access policy.  The theorems: a connection
    runs one row of the table of [ServerOps]; a request that is not permitted
    changes nothing but the clock; a locked object survives every request
    except those that replace it. *)
From Stdlib Require Import Strings.Byte NArith.
From S2P Require Import Prelude AdaMonad GoStrings GoText ServerText Sha256 TrustedCore AuditChain AdaText Cas CasSpec.
From S2P Require Import VaultState Vault VaultLines VaultSteps VaultDurable VaultOps VaultExec VaultWorm VaultTheorems.
From S2P Require Import Keys Sigv4 ServerAuth Server ServerOps.
Open Scope Z_scope.

(** ** Reading a request *)

Definition content_length (head : string) : option Z :=
  if decide (Header head "Content-Length" = "") then Some 0 else Int_Value Natural_Last (Header head "Content-Length").

(** The request in the bytes of a connection: none if the head or the body is
    not complete or the length is no number. *)
Definition received (l : list Byte.byte) : option request :=
  '(head, rest) ← read_head [] l;
  len ← content_length head;
  if Z.of_nat (length rest) <? len then None
  else Some {| rq_Method := Method_Of head; rq_Path := Path_Of head; rq_Head := head; rq_Data := take (Z.to_nat len) rest |}.

(** ** Access *)

Section access.
Context (cfg : config).

(** The signature of [akid] over the request, with its parts from where they
    are: a header or the query. *)
Definition signed_by (akid : string) (r : request) (cred sh sig canon_q phash date : string) : Prop :=
  akid = Part cred "/" 1 ∧ ∃ secret, Credentials cfg !! akid = Some secret ∧
    Signature_For secret
      {| sr_Method := rq_Method r; sr_URI := Path_Part (rq_Path r); sr_Query := canon_q;
         sr_Headers := signed_lines (rq_Head r) (split_byte ";" sh); sr_Signed_Headers := sh;
         sr_Payload_Hash := phash; sr_Amz_Date := date |}
      (Part cred "/" 2) (Part cred "/" 3) (Part cred "/" 4) = inr sig.

(** The request proves to come from [akid]. *)
Inductive authentic (r : request) (akid : string) : Prop :=
  | by_token : HasPrefix (Header (rq_Head r) "Authorization") "Bearer " = true →
      Tokens cfg !! Trim (str_drop 7 (Header (rq_Head r) "Authorization")) = Some akid →
      is_Some (Credentials cfg !! akid) → authentic r akid
  | by_header phash (a := Header (rq_Head r) "Authorization") : payload_hash (rq_Head r) = inr phash →
      signed_by akid r (Field_After a "Credential=") (Field_After a "SignedHeaders=") (Field_After a "Signature=")
        (Canonical_Query (rq_Query r)) phash (Header (rq_Head r) "x-amz-date") → authentic r akid
  | by_query (q := rq_Query r) : Header (rq_Head r) "Authorization" = "" →
      signed_by akid r (Uri_Decode (Q_Val q "X-Amz-Credential=")) (Uri_Decode (Q_Val q "X-Amz-SignedHeaders="))
        (Q_Val q "X-Amz-Signature=") (Canonical_Query (Drop_Param q "X-Amz-Signature")) "UNSIGNED-PAYLOAD"
        (Q_Val q "X-Amz-Date=") → authentic r akid.

(** What a principal may do to the bucket of a path. *)
Definition role_allows (r : request) (akid : string) : Prop :=
  let eff := Effective_Role cfg akid (Bucket_Of (Path_Part (rq_Path r))) in
  if Is_Write (rq_Method r) then eff = Read_Write else eff ≠ No_Access.

(** The policy for the routes that are not control routes. *)
Definition data_permitted (r : request) (now : Trusted_Time) (pending : gmap string Z) : Prop :=
  ((Require_Auth cfg = false ∧ Header (rq_Head r) "Authorization" = "") ∨ ∃ akid, authentic r akid ∧ role_allows r akid) ∧
  (0 < Delete_Quorum cfg → Is_Destructive (rq_Method r) (rq_Query r) = true →
   Delete_Quorum cfg ≤ approvals_for cfg (rq_Head r) (rq_Method r) (Path_Part (rq_Path r)) now pending).

Definition permitted (r : request) (now : Trusted_Time) (pending : gmap string Z) : Prop :=
  rq_Method r ≠ "OPTIONS" ∧
  (admin_path (Path_Part (rq_Path r)) = true → Admin_Token cfg ≠ "" →
   Header (rq_Head r) "X-Dezhan-Admin-Token" = Admin_Token cfg) ∧
  (Is_Control (Path_Part (rq_Path r)) = false → data_permitted r now pending).

Lemma exn_bind_inr {A B} (m : exn + A) (f : A → exn + B) b : m ≫= f = inr b → ∃ a, m = inr a ∧ f a = inr b.
Proof. destruct m as [e|a]; [done|]. eauto. Qed.

Lemma Verify_Sig_signed r cred sh sig canon_q phash date akid :
  Verify_Sig cfg (rq_Head r) (rq_Method r) (Path_Part (rq_Path r)) cred sh sig canon_q phash date = inr (Some akid) →
  signed_by akid r cred sh sig canon_q phash date.
Proof.
  unfold Verify_Sig, signed_by. destruct (Credentials cfg !! _) as [secret|] eqn:E; [|done].
  intros (s & Hs & H1)%exn_bind_inr. case_decide; [|done]. injection H1 as <-. subst s. split; [done|]. by exists secret.
Qed.

Lemma verdict_valid o princ : verdict o = (Valid, princ) → o = Some princ.
Proof. destruct o; [|done]. by intros [= ->]. Qed.

Lemma verdict_not o st princ : verdict o = (st, princ) → st = Valid ∨ st = Invalid.
Proof. destruct o; intros [= <- _]; auto. Qed.

(** What [Check_Auth] finds. *)
Lemma Check_Auth_spec r phash st princ : payload_hash (rq_Head r) = inr phash →
  Check_Auth cfg (rq_Head r) (rq_Method r) (rq_Path r) phash = inr (st, princ) →
  (st = Valid → authentic r princ) ∧
  (st = Anon → Require_Auth cfg = false ∧ Header (rq_Head r) "Authorization" = "").
Proof.
  intros Hp. unfold Check_Auth. change (Query_Part (rq_Path r)) with (rq_Query r). case_decide as Ha.
  - destruct (_ && _) eqn:Eb.
    + intros [= Hv]. split; [|by intros ->; apply verdict_not in Hv as [?|?]].
      intros ->. apply verdict_valid in Hv. apply bind_Some in Hv as (akid & Ht & Hv).
      apply bind_Some in Hv as (sec & Hc & Hv). injection Hv as ->. apply andb_true_iff in Eb as [_ Eb]. by apply by_token.
    + destruct (GoText.Index _ _); [|by intros [= <- <-]].
      intros (o & Hs & [= Hv])%exn_bind_inr. split; [|by intros ->; apply verdict_not in Hv as [?|?]].
      intros ->. apply verdict_valid in Hv as ->. eapply by_header; [done|]. by apply Verify_Sig_signed.
  - destruct (GoText.Index _ _).
    + intros (o & Hs & [= Hv])%exn_bind_inr. split; [|by intros ->; apply verdict_not in Hv as [?|?]].
      intros ->. apply verdict_valid in Hv as ->. eapply by_query; [done|]. by apply Verify_Sig_signed.
    + intros [= <- <-]. by destruct (Require_Auth cfg).
Qed.

(** The only exception is a text too long to hash. *)
Definition too_long {A} (m : exn + A) : Prop := ∀ e, m = inl e → e = Constraint_Error.

Lemma too_long_bind {A B} (m : exn + A) (f : A → exn + B) : too_long m → (∀ a, too_long (f a)) → too_long (m ≫= f).
Proof. intros Hm Hf e. destruct m as [e'|a]; [intros [= <-]; by apply Hm|apply Hf]. Qed.

Lemma too_long_hash m : too_long (checked_SHA256 m).
Proof. intros e. unfold checked_SHA256. destruct (_ <=? _)%N; [done|]. by intros [= <-]. Qed.
Lemma too_long_hmac k m : too_long (checked_HMAC k m).
Proof. intros e. unfold checked_HMAC. destruct (_ && _); [done|]. by intros [= <-]. Qed.

Ltac solve_too_long :=
  repeat first
    [ progress intros | apply too_long_hash | apply too_long_hmac | by intros ?
    | match goal with
      | |- too_long (_ ≫= _) => apply too_long_bind
      | |- too_long (if ?b then _ else _) => destruct b
      | |- too_long (match ?x with _ => _ end) => destruct x
      end ].

Lemma gate_raises head method path now a : too_long (gate cfg head method path now a).
Proof.
  unfold gate, payload_hash, Check_Auth, Verify_Sig, Signature_For, String_To_Sign, Signature, Signing_Key, Hex_SHA256.
  solve_too_long.
Qed.

(** What the gate lets through is permitted; what it stops leaves the
    approvals as they are. *)
Lemma gate_spec r now a res : gate cfg (rq_Head r) (rq_Method r) (rq_Path r) now a = inr res →
  match res with
  | (Some x, a') => a' = a ∧ (rq_Method r = "OPTIONS" ∨ Status x ∈ ["401 Unauthorized"; "403 Forbidden"])
  | (None, a') => permitted r now a ∧
      (a' = a ∨ rq_Method r = "DELETE" ∧ a' = approvals_Clear (Path_Part (rq_Path r)) a)
  end.
Proof.
  assert (H403 : ∀ x, Status x = "403 Forbidden" → Status x ∈ ["401 Unauthorized"; "403 Forbidden"]).
  { intros x ->. right. left. }
  unfold gate. change (Query_Part (rq_Path r)) with (rq_Query r). case_decide as Ho; [intros [= <-]; auto|].
  destruct (_ && _ && _) eqn:Ea; [intros [= <-]; auto|].
  assert (Hadm : admin_path (Path_Part (rq_Path r)) = true → Admin_Token cfg ≠ "" →
    Header (rq_Head r) "X-Dezhan-Admin-Token" = Admin_Token cfg).
  { intros H1 H2. rewrite H1, (bool_decide_true _ H2) in Ea. by apply bool_decide_eq_false_1, dec_stable in Ea. }
  destruct (Is_Control _) eqn:Ec.
  { intros [= <-]. split; [|by left]. unfold permitted. rewrite Ec. by split_and!. }
  intros Hg. apply exn_bind_inr in Hg as (phash & Hp & Hg). apply exn_bind_inr in Hg as ([st princ] & Hc & H1).
  destruct (Check_Auth_spec _ _ _ _ Hp Hc) as [Hval Hanon].
  case_decide; [injection H1 as <-; split; [done|right; left]|].
  case_decide; [injection H1 as <-; auto|]. case_decide as Hw; [injection H1 as <-; auto|].
  case_decide as Hn; [injection H1 as <-; auto|].
  assert (Hwho : (Require_Auth cfg = false ∧ Header (rq_Head r) "Authorization" = "") ∨
    ∃ akid, authentic r akid ∧ role_allows r akid).
  { destruct st; [by left; apply Hanon| |done..]. right. exists princ. split; [auto|].
    rewrite decide_True in Hw, Hn by done. unfold role_allows. destruct (Is_Write _).
    - destruct (decide (Effective_Role cfg princ (Bucket_Of (Path_Part (rq_Path r))) = Read_Write)) as [E|E]; [done|].
      by destruct Hw.
    - intros E. by destruct Hn. }
  destruct ((0 <? Delete_Quorum cfg) && Is_Destructive (rq_Method r) (rq_Query r)) eqn:Eq.
  - destruct (approvals_for _ _ _ _ _ _ <? _) eqn:El; [injection H1 as <-; auto|]. injection H1 as <-. apply Z.ltb_ge in El.
    split; [unfold permitted; split_and!; [done..|]; intros _; by split|]. destruct (decide (rq_Method r = "DELETE")); auto.
  - injection H1 as <-. split; [|by left]. unfold permitted. split_and!; [done..|]. intros _. split; [done|]. intros Hq Hd.
    rewrite (proj2 (Z.ltb_lt _ _) Hq), Hd in Eq. done.
Qed.
End access.

Section spec.
Context {C : Type} {CO : CasOps C} {Mem : Memory} {Out : Outside C} (cfg : config).
Implicit Types (w : world C) (s : server C).
Notation Srv := (Ada (server C)).

(** ** One connection *)

(** The answer to a request that is read. *)
Definition respond (t : reading) (r : request) : Srv response :=
  answered
    (_ ← tick t;
     x ← check_gate cfg (rq_Method r) (rq_Path r) (rq_Head r);
     match x with
     | Some x => mret x
     | None => route cfg (rq_Method r) (rq_Path r) (rq_Head r) (rq_Data r)
     end).

Lemma Serve_received t l s : Serve cfg t l s =
  match received l with
  | None => (None, s)
  | Some r => match respond t r s with
              | (inr x, s') => (Some (wire x), s')
              | (inl _, s') => (None, s')
              end
  end.
Proof.
  unfold Serve, received. destruct (read_head [] l) as [[head rest]|]; [|done]. cbn [mbind option_bind].
  unfold Handle, content_length, header_value. case_decide as Hl.
  - rewrite (ada_bind_inr_l (mret 0) _ s 0 s eq_refl). cbn [option_bind mbind].
    rewrite (proj2 (Z.ltb_ge _ _)) by lia. done.
  - destruct (Int_Value _ _) as [len|]; [|done].
    rewrite (ada_bind_inr_l _ _ s len s eq_refl). cbn [option_bind mbind]. by destruct (_ <? len).
Qed.

(** What is done under an operation's name to the world. *)
Definition after_tick (t : reading) w : world C := (exec (OpTick (r_Mono t) (r_Realtime t) (r_Boot t)) w).2.

Lemma tick_V t s : V (tick t s).2 = after_tick t (V s).
Proof. apply vault_V. Qed.

Lemma answered_V (m : Srv response) s : (answered m s).2 = (m s).2.
Proof. unfold answered. destruct (m s) as [[e|x] s1]; [|done]. by destruct (error_response e). Qed.

Lemma check_gate_eq r s : check_gate cfg (rq_Method r) (rq_Path r) (rq_Head r) s =
  match gate cfg (rq_Head r) (rq_Method r) (rq_Path r) (Now (st (V s))) (Pending s) with
  | inl e => (inl e, s)
  | inr (x, a) => (inr x, with_Pending a s)
  end.
Proof. unfold check_gate, mbind, ada_bind, look, gets, lift. by destruct (gate _ _ _ _ _ _) as [e|[x a]]. Qed.

Lemma respond_does t r s :
  ∃ ops, does r (st (after_tick t (V s))) ops ∧ V (respond t r s).2 = run_ops ops (after_tick t (V s)).
Proof.
  unfold respond. rewrite answered_V. pose proof (tick_V t s) as E. unfold mbind at 1, ada_bind at 1.
  destruct (tick t s) as [[e|[]] s1]; cbn [snd] in E; rewrite <- E.
  { exists []. split; [apply do_nothing|done]. }
  unfold mbind, ada_bind. rewrite check_gate_eq. destruct (gate _ _ _ _ _ _) as [e|[[x|] a]].
  - exists []. split; [apply do_nothing|done].
  - exists []. split; [apply do_nothing|done].
  - apply (route_does cfg r (with_Pending a s1)).
Qed.

(** C10: A connection, whatever its bytes are.  If they are no complete request,
    there is no answer and nothing changes.  Otherwise the clock is read and
    then, whatever is answered, the vault carries out the operations of one
    row of the table [does] for this request, in order, and no others: reads
    carry out none, a put at most the put and the record of its version, a
    batch deletion at most one deletion without bypass per key it names. *)
Theorem connection_runs_operations (t : reading) (l : list Byte.byte) s :
  match received l with
  | None => Serve cfg t l s = (None, s)
  | Some r => ∃ ops, does r (st (after_tick t (V s))) ops ∧ V (Serve cfg t l s).2 = run_ops ops (after_tick t (V s))
  end.
Proof.
  rewrite Serve_received. destruct (received l) as [r|]; [|done].
  destruct (respond_does t r s) as (ops & Hd & E). exists ops. split; [done|]. rewrite <- E.
  by destruct (respond t r s) as [[e|x] s'].
Qed.

(** ** Access control *)

Lemma with_Pending_id s : with_Pending (Pending s) s = s.
Proof. by destruct s. Qed.

Lemma answered_returns (m : Srv response) s x s' : m s = (inr x, s') → answered m s = (inr x, s').
Proof. unfold answered. by intros ->. Qed.

(** C9: A request that the policy does not permit, at the time the clock then
    shows and with the approvals that are staged: the server is left exactly
    as reading the clock left it (objects, locks, buckets, modes, approvals and
    counters), and the answer, if there is one, is 401 or 403, or the answer to
    a preflight.  The policy: the admin token for paths under /admin if there is one; for the
    data routes a token or a signature under the secret of a known principal
    whose role allows the access to the bucket, or no credentials at all where
    they are not required; and enough approvals for a deletion. *)
Theorem unpermitted_changes_nothing (t : reading) (l : list Byte.byte) (r : request) s s1
  (Hr : received l = Some r) (Htick : tick t s = (inr (), s1))
  (Hnot : ¬ permitted cfg r (Now (st (V s1))) (Pending s1)) :
  (Serve cfg t l s).2 = s1 ∧
  ((Serve cfg t l s).1 = None ∨
   ∃ x, (Serve cfg t l s).1 = Some (wire x) ∧
     (rq_Method r = "OPTIONS" ∨ Status x ∈ ["401 Unauthorized"; "403 Forbidden"])).
Proof.
  rewrite Serve_received, Hr. unfold respond. pose proof (check_gate_eq r s1) as Eg.
  pose proof (gate_spec cfg r (Now (st (V s1))) (Pending s1)) as Hg.
  pose proof (gate_raises cfg (rq_Head r) (rq_Method r) (rq_Path r) (Now (st (V s1))) (Pending s1)) as Hl.
  destruct (gate cfg _ _ _ _ _) as [e|[[x|] a]].
  - unfold answered. rewrite (ada_bind_inr_l _ _ _ _ _ Htick), (ada_bind_inl_l _ _ _ _ _ Eg). 
    rewrite (Hl _ eq_refl). simpl. auto.
  - specialize (Hg _ eq_refl) as [-> Hx]. rewrite with_Pending_id in Eg.
    rewrite (answered_returns _ s x s1). 2:{ by rewrite (ada_bind_inr_l _ _ _ _ _ Htick), (ada_bind_inr_l _ _ _ _ _ Eg). }
    split; [done|]. right. exists x. by split.
  - specialize (Hg _ eq_refl) as [Hp _]. by destruct Hnot.
Qed.
End spec.
