(* ===== verification/ServerLocks.v ===== *)
(** Locked objects and HTTP: what a client can do to an object that is locked.

    [harmless] excludes the requests that replace the entry of an object: a put
    with the server's own API, a put into a bucket without object lock, the
    completion of an upload, a delete marker and the deletion of a version, and
    the release of a hold or a bypass, where the lock relies on it.  A run of
    any other requests and of the background jobs keeps the object, and it is
    served. *)
From Stdlib Require Import Strings.Byte NArith.
From S2P Require Import Prelude AdaMonad GoStrings GoText ServerText Sha256 TrustedCore AuditChain AdaText Cas CasSpec.
From S2P Require Import VaultState Vault VaultLines VaultSteps VaultDurable VaultOps VaultExec VaultWorm VaultTheorems.
From S2P Require Import Keys Sigv4 ServerAuth Server ServerOps ServerSpec.
Open Scope Z_scope.

(** No upload under [uid] is for the object [n]. *)
Definition no_upload (n uid : string) (v : State) : Prop := ∀ u, Uploads v !! uid = Some u → u_Name u ≠ n.

Definition harmless_v (n : string) (bypass : bool) (r : request) (raw : string) (v : State) : Prop :=
  let uid := Q_Val (v_query raw) "uploadId=" in
  (rq_Method r = "PUT" → uid = "" → v_name raw ≠ n) ∧
  (rq_Method r = "POST" → no_upload n uid v) ∧
  (rq_Method r = "DELETE" → v_name raw = n → Header (rq_Head r) "X-Dezhan-Bypass" = "true" → bypass = true).

Definition harmless_s3 (n : string) (bypass : bool) (r : request) (bucket key : string) (v : State) : Prop :=
  let uid := Q_Val (rq_Query r) "uploadId=" in
  (rq_Method r = "PUT" → uid = "" → object_name bucket key = n → Bucket_Object_Lock v bucket = true) ∧
  (rq_Method r = "POST" → no_upload n uid v) ∧
  (rq_Method r = "DELETE" → object_name bucket key = n →
   Bucket_Versioned v bucket = false ∧ Q_Val (rq_Query r) "versionId=" = "" ∧
   (bypass_requested (rq_Head r) = true → bypass = true)).

Definition harmless (n : string) (release bypass : bool) (r : request) (v : State) : Prop :=
  match v_path (rq_Path r) with
  | Some raw => harmless_v n bypass r raw v
  | None => let '(bucket, key) := split_path (Path_Part (rq_Path r)) in harmless_s3 n bypass r bucket key v
  end ∧
  (rq_Method r = "POST" → Path_Part (rq_Path r) = "/admin/legal-hold" → Q_Val (rq_Query r) "name=" = n →
   Q_Val (rq_Query r) "on=" ≠ "1" → release = true).

Section locks.
Context {C : Type} {CO : CasOps C} {CV : CasView C} {CL : CasLaws C} {Mem : Memory} {Out : Outside C} (cfg : config).
Implicit Types (w : world C) (s : server C).

(** ** Deletions leave the clock alone *)

Lemma Delete_Object_Clock n b w : Clock (st (Delete_Object n b w).2) = Clock (st w).
Proof.
  assert (Hp : preserves (λ w', Clock (st w') = Clock (st w)) (Delete_Object n b)); [|by apply Hp].
  assert (Hu : ∀ f, (∀ v : State, Clock (f v) = Clock v) → preserves (λ w', Clock (st w') = Clock (st w)) (modify_st f)).
  { intros f Hf w' E. simpl. by rewrite Hf. }
  assert (Hj : ∀ l, preserves (λ w', Clock (st w') = Clock (st w)) (Append_Jrnl l)) by (intros l w' E; exact E).
  assert (Hc : preserves (λ w', Clock (st w') = Clock (st w)) Commit_Jrnl).
  { intros w' E. unfold Commit_Jrnl, Save. by repeat (case_match; try done). }
  unfold Delete_Object, Add_Audit, J_Del, raise_when, discard. by solve_preserves ltac:(apply Hc).
Qed.

Lemma Delete_Object_Now n b w : Now (st (Delete_Object n b w).2) = Now (st w).
Proof. unfold Now. by rewrite Delete_Object_Clock. Qed.

(** ** One request *)

Section object.
Context (n : string) (release bypass : bool) (m : Meta) (d : list Byte.byte).
Notation holding := (holding n release m d).

(** In a state that holds the object, it may not be deleted. *)
Lemma holding_undeletable w : holding w → bars release bypass (m_Lock m) (Now (st w)) →
  Contains (st w) n = true ∧ Object_Deletable (st w) n = false.
Proof.
  intros (m' & EI & Hk & _) Hb. unfold Contains, Object_Deletable. rewrite EI. split; [done|].
  by apply (bars_keeps release bypass m).
Qed.

Lemma batch_holding bucket keys : ∀ w, holding w → bars release bypass (m_Lock m) (Now (st w)) →
  holding (run_ops ((λ k, OpDelete (object_name bucket k) false) <$> keys) w).
Proof.
  induction keys as [|k keys IH]; intros w Hw Hb; [done|]. rewrite fmap_cons. cbn [run_ops foldl exec].
  rewrite discard_eq. apply IH; [|by rewrite Delete_Object_Now]. by apply (holding_Delete n release bypass).
Qed.

Lemma versions_holding n' vs : Forall (λ o, o = OpRecordVersion n') vs → ∀ w, holding w → holding (run_ops vs w).
Proof.
  induction 1 as [|o vs -> _ IH]; intros w Hw; [done|]. cbn [run_ops foldl exec]. rewrite discard_eq.
  by apply IH, safe_Record_Version.
Qed.

Lemma one_holding o w : holding w → bars release bypass (m_Lock m) (Now (st w)) → spares n release bypass (st w) o →
  holding (run_ops [o] w).
Proof. intros Hw Hb Hs. by apply (exec_holding n release bypass). Qed.

Lemma upload_spares method uid data v o : does_upload method uid data o → (method = "POST" → no_upload n uid v) →
  spares n release bypass v o.
Proof. intros [pn EM|EM|EM] Hu; [done| |done]. exact (Hu EM). Qed.

Lemma bypass_flag (P : Prop) `{Decision P} : (P → bypass = true) → bool_decide P = true → bypass = true.
Proof. intros HP Hb. by apply HP, (bool_decide_eq_true_1 P). Qed.

Lemma does_holding r w ops : does r (st w) ops → harmless n release bypass r (st w) →
  holding w → bars release bypass (m_Lock m) (Now (st w)) → holding (run_ops ops w).
Proof.
  intros Hd [Hh Hrel] Hw Hb. destruct (holding_undeletable w Hw Hb) as [Hin Hno].
  destruct Hd as [|EM EP|EM EP|EM EP|EM EP|EM EP|EM EP|raw o Ev Ho|bucket ops Ev Ep Ho|bucket key ops Ev Ep Hk Ho].
  - done.
  - by apply one_holding.
  - by apply one_holding.
  - by apply one_holding.
  - by apply one_holding.
  - apply one_holding; [done..|]. by case_decide.
  - apply one_holding; [done..|]. case_decide; [done|]. simpl. auto.
  - rewrite Ev in Hh. destruct Hh as (Hput & Hpost & Hdel). apply one_holding; [done..|].
    destruct Ho as [|o Hid Ho|mode retain EM Hid|EM Hc]; simpl; [done|by eapply upload_spares|auto|].
    intros En. apply bypass_flag. auto.
  - destruct Ho as [on EM|lock EM|EM|keys EM Hq Hs]; [by apply one_holding..|]. by apply batch_holding.
  - rewrite Ev, Ep in Hh. destruct Hh as (Hput & Hpost & Hdel).
    destruct Ho as [mode retain EM Eq|o Hid Ho|data mode retain meta vs EM Hid Hg Hsrc Hvs|EM Hv|EM Hv Hver|EM Hver Hc].
    + by apply one_holding.
    + apply one_holding; [done..|]. by eapply upload_spares.
    + cbn [run_ops foldl]. apply (versions_holding _ _ Hvs), safe_Put; [|done]. intros En.
      rewrite En in Hg. rewrite Hg in Hno; [done|auto|done].
    + apply one_holding; [done..|]. simpl. intros En. destruct (Hdel EM En) as (_ & E & _). done.
    + apply one_holding; [done..|]. simpl. intros En. destruct (Hdel EM En) as (E & _). congruence.
    + apply one_holding; [done..|]. simpl. intros En. apply (Hdel EM En).
Qed.

(** ** Runs *)

(** Connections, each harmless where it is carried out and at a time at which
    the lock still bars deletion, and background jobs. *)
Inductive run : server C → server C → Prop :=
  | run_nil s : run s s
  | run_connection s t l s' :
      (∀ r, received l = Some r → harmless n release bypass r (st (after_tick t (V s)))) →
      bars release bypass (m_Lock m) (Now (st (after_tick t (V s)))) →
      run (Serve cfg t l s).2 s' → run s s'
  | run_job s e s' : e ∈ [Scrubber; Collector; Checkpointer] → run (server_step cfg e s) s' → run s s'.

Lemma connection_holding t l s :
  (∀ r, received l = Some r → harmless n release bypass r (st (after_tick t (V s)))) →
  bars release bypass (m_Lock m) (Now (st (after_tick t (V s)))) → holding (V s) → holding (V (Serve cfg t l s).2).
Proof.
  intros Hh Hb Hw. rewrite Serve_received. destruct (received l) as [r|]; [|done].
  destruct (respond_does cfg t r s) as (ops & Hd & E).
  assert (HV : holding (V (respond cfg t r s).2)).
  { rewrite E. apply (does_holding r); [done|by apply Hh| |done]. by apply safe_Tick. }
  by destruct (respond cfg t r s) as [[e|x] s'].
Qed.

Lemma job_holding e s : e ∈ [Scrubber; Collector; Checkpointer] → holding (V s) → holding (V (server_step cfg e s)).
Proof.
  intros He Hw. rewrite !elem_of_cons, elem_of_nil in He. destruct He as [->|[->|[->|[]]]]; cbn [server_step].
  - rewrite run_scrub_V. by apply holding_Scrub.
  - rewrite vault_V. by apply holding_Collect.
  - done.
Qed.

Lemma run_holding s s' : run s s' → holding (V s) → holding (V s').
Proof.
  induction 1 as [|s t l s' Hh Hb _ IH|s e s' He _ IH]; [done|..]; intros Hw; apply IH.
  - by apply connection_holding.
  - by apply job_holding.
Qed.

(** ** Reading *)

(** A plain read of the object, with the server's own API. *)
Definition plain_get (r : request) : Prop :=
  rq_Method r = "GET" ∧ ∃ raw, v_path (rq_Path r) = Some raw ∧ v_name raw = n ∧
    Q_Val (v_query raw) "uploadId=" = "" ∧ Header (rq_Head r) "X-Dezhan-Retain" = "".

(** The clock is read and the gate lets the request through. *)
Definition admitted (t : reading) (r : request) s : Prop :=
  ∃ s1 a, tick t s = (inr (), s1) ∧
    gate cfg (rq_Head r) (rq_Method r) (rq_Path r) (Now (st (V s1))) (Pending s1) = inr (None, a).

Lemma v_path_route raw path : v_path path = Some raw → path ≠ "/" ∧ path ≠ "/healthz" ∧ path ≠ "/version" ∧
  path ≠ "/metrics" ∧ path ≠ "/admin/checkpoint-key" ∧ path ≠ "/v" ∧ path ≠ "/v/".
Proof. intros E. split_and!; intros ->; vm_compute in E; done. Qed.

Lemma handle_v_get raw head data s : holding (V s) → Ingest_Only (st (V s)) = false → v_name raw = n →
  Q_Val (v_query raw) "uploadId=" = "" → Header head "X-Dezhan-Retain" = "" →
  (handle_v "GET" raw head data s).1 =
  inr (send_object head "application/octet-stream" (etag_header (m_Id m) +:+ "Accept-Ranges: bytes" +:+ crlf) d).
Proof.
  intros (m' & EI & Hk & Hq & Hc) Hi En Hu Hr. unfold handle_v, header_value.
  change (until_byte "?" raw) with (v_name raw). change (default "" (after raw "?")) with (v_query raw).
  rewrite Hu, Hr, En, (decide_True (P := "" = "")) by done. rewrite (ada_bind_inr_l (mret 3600) _ s 3600 s eq_refl).
  rewrite (decide_False (P := v_query raw = "uploads" ∧ "GET" = "POST")) by (by intros [_ ?]).
  rewrite (decide_False (P := "" ≠ "")), (decide_False (P := "GET" = "PUT")) by (by intros ?).
  rewrite (ada_bind_inr_l (look _) _ s _ s eq_refl), (decide_True (P := "GET" = "GET")) by done.
  unfold Contains. rewrite EI, bool_decide_true by by eexists.
  pose proof (Get_content (V s) n m' d EI Hq Hi Hc) as Eg.
  rewrite (ada_bind_inr_l (vault (Get_Object n)) _ s d s).
  2:{ unfold vault. rewrite Eg. by destruct s. }
  rewrite (ada_bind_inr_l (look _) _ s _ s eq_refl). unfold Object_Etag. rewrite EI. simpl. by rewrite (kp_id _ _ _ Hk).
Qed.

Lemma get_served t r s : holding (V s) → plain_get r → admitted t r s →
  Ingest_Only (st (after_tick t (V s))) = false →
  (respond cfg t r s).1 =
  inr (send_object (rq_Head r) "application/octet-stream" (etag_header (m_Id m) +:+ "Accept-Ranges: bytes" +:+ crlf) d).
Proof.
  intros Hw (EM & raw & Ev & En & Hu & Hr) (s1 & a & Et & Eg) Hi.
  assert (E1 : V s1 = after_tick t (V s)) by (by rewrite <- tick_V, Et). rewrite <- E1 in Hi.
  assert (Hw1 : holding (V s1)) by (rewrite E1; by apply safe_Tick).
  destruct (v_path_route _ _ Ev) as (N1 & N2 & N3 & N4 & N5 & N6 & N7).
  pose proof (handle_v_get raw (rq_Head r) (rq_Data r) (with_Pending a s1) Hw1 Hi En Hu Hr) as EH.
  unfold respond, answered.
  rewrite (ada_bind_inr_l _ _ _ _ _ Et). pose proof (check_gate_eq cfg r s1) as Ec. rewrite Eg in Ec.
  rewrite (ada_bind_inr_l _ _ _ _ _ Ec). unfold route, handle_admin. rewrite EM, Ev.
  repeat (rewrite decide_False by (by intros [? ?])). rewrite decide_False by (by intros [_ [?|?]]).
  destruct (handle_v _ _ _ _ _) as [[e|x] s2]; simpl in *; [done|]. by rewrite EH.
Qed.
End object.

End locks.
