(* ===== verification/ServerViews.v ===== *)
(** What clients see of the objects: byte ranges and the pages of a listing. *)
From Stdlib Require Import Strings.Byte NArith.
From S2P Require Import Prelude AdaMonad GoStrings GoText GoFloat ServerText Sha256 TrustedCore AuditChain AdaText Cas CasSpec.
From S2P Require Import VaultState Vault Keys Sigv4 ServerAuth Server.
Open Scope Z_scope.

(** ** Numbers in headers *)

Lemma trim_plain c s : string_forallb (λ a, bool_decide (a ≠ c)) s = true → trim_byte c s = s.
Proof.
  intros Hs. unfold trim_byte.
  assert (trim_left_byte c s = s) as ->.
  { destruct s as [|a s]; [done|]. cbn in Hs |- *. apply andb_true_iff in Hs as [Ha _].
    apply bool_decide_eq_true_1 in Ha. by rewrite decide_False. }
  induction s as [|a s IH]; [done|]. cbn in Hs |- *. apply andb_true_iff in Hs as [Ha Hs].
  apply bool_decide_eq_true_1 in Ha. rewrite IH by done. rewrite decide_False; [done|]. by intros [_ ?].
Qed.

Lemma digits_avoid c s : string_forallb digit s = true → digit c = false → string_forallb (λ a, bool_decide (a ≠ c)) s = true.
Proof.
  intros Hs Hc. eapply string_forallb_impl; [|exact Hs]. intros a Ha. apply bool_decide_eq_true. by apply (digit_not a).
Qed.

Lemma digit_digit_value a : digit a = true → digit_value a = byte_val a - 48 ∧ digit_value a < 10.
Proof.
  intros Ha. apply in_range_spec in Ha as Hb. unfold digit_value.
  change (in_range 48 57 a) with (digit a). rewrite Ha. lia.
Qed.

Lemma scan_pretty x : ∀ s, ∃ d, 0 ≤ d ∧ ∀ acc,
  scan_number 10 (pretty_N_go x s) acc = scan_number 10 s (acc * 10 ^ d + Z.of_N x).
Proof.
  induction x as [x IH] using (well_founded_induction N.lt_wf_0). intros s.
  destruct (decide (x = 0)%N) as [->|Hx].
  { exists 0. split; [done|]. intros acc. rewrite pretty_N_go_0. f_equal. lia. }
  rewrite pretty_N_go_step by lia.
  destruct (pretty_char_digit (x `mod` 10)%N) as [Hd Hv]; [by apply N.mod_lt|].
  destruct (digit_digit_value _ Hd) as [Ed Hl].
  destruct (IH (x `div` 10)%N (N.div_lt x 10 (proj1 (N.neq_0_lt_0 _) Hx) eq_refl)
    (String (pretty_N_char (x `mod` 10)) s)) as (d & H0 & Hs).
  exists (d + 1). split; [lia|]. intros acc. rewrite Hs. cbn [scan_number]. rewrite (proj2 (Z.ltb_lt _ _) Hl), Ed, Hv.
  f_equal. rewrite Z.pow_add_r by lia. pose proof (N.div_mod x 10). nia.
Qed.

Lemma Int_Value_Itoa hi n : 0 ≤ n ≤ hi → Int_Value hi (Itoa n) = Some n.
Proof.
  intros [H0 H1]. destruct (Itoa_digits n H0) as [Hd Hne]. unfold Int_Value, Trim.
  rewrite trim_plain by (by apply digits_avoid).
  assert (Hs : scan_number 10 (Itoa n) 0 = Some (n, "")).
  { destruct n as [|p|p]; [done| |lia]. change (Itoa (Zpos p)) with (pretty_N_go (N.pos p) "").
    destruct (scan_pretty (N.pos p) "") as (d & _ & ->). simpl. f_equal. }
  assert (Hlit : literal (Itoa n) = Some n).
  { unfold literal, numeral. destruct (Itoa n) as [|c s]; [done|]. cbn in Hd. apply andb_true_iff in Hd as [Hc _].
    destruct (digit_digit_value _ Hc) as [_ Hl]. rewrite (proj2 (Z.ltb_lt _ _) Hl), Hs. done. }
  destruct (Itoa n) as [|c s]; [done|]. cbn in Hd. apply andb_true_iff in Hd as [Hc _].
  rewrite !decide_False by (by apply (digit_not c)). rewrite Hlit. simpl.
  by rewrite (proj2 (Z.leb_le _ _) H0), (proj2 (Z.leb_le _ _) H1).
Qed.

(** ** Ranges *)

Lemma after_equals s : after ("bytes=" +:+ s) "=" = Some s.
Proof.
  unfold after. change ("bytes=" +:+ s) with ("bytes" +:+ String "=" s). change "=" with (String "=" "") at 2.
  rewrite Index_byte_app by done. cbn [fmap option_fmap option_map]. f_equal.
Qed.

(** What is asked for: a first and a last byte, a first byte, or a number of
    bytes at the end. *)
Inductive range := From_To (first last : Z) | From_On (first : Z) | Last_Bytes (count : Z).

Definition range_text (g : range) : string :=
  "bytes=" +:+ match g with
               | From_To a b => Itoa a +:+ String "-" (Itoa b)
               | From_On a => Itoa a +:+ String "-" ""
               | Last_Bytes n => String "-" (Itoa n)
               end.

Definition range_ok (g : range) : Prop :=
  match g with
  | From_To a b => 0 ≤ a ≤ Natural_Last ∧ 0 ≤ b ≤ Natural_Last
  | From_On a => 0 ≤ a ≤ Natural_Last
  | Last_Bytes n => 0 ≤ n ≤ Natural_Last
  end.

(** RFC 9110: the bytes of [full] that it stands for; none if there are none. *)
Definition range_bytes (g : range) (full : list Byte.byte) : list Byte.byte :=
  match g with
  | From_To a b => drop (Z.to_nat a) (take (Z.to_nat (b + 1)) full)
  | From_On a => drop (Z.to_nat a) full
  | Last_Bytes n => drop (length full - Z.to_nat n) full
  end.

Lemma Parse_Range_bounds v total first last : 0 ≤ total → Parse_Range v total = Some (first, last) →
  0 ≤ first ≤ last ∧ last < total.
Proof.
  assert (Hiv : ∀ s z, Int_Value Natural_Last s = Some z → 0 ≤ z).
  { intros s z. unfold Int_Value. intros (y & _ & Hy)%bind_Some. destruct (_ && _) eqn:E; [|done].
    injection Hy as ->. lia. }
  intros Ht. unfold Parse_Range. case_decide as Hd; [done|]. assert (total ≠ 0) by naive_solver.
  intros (dash & _ & H1)%bind_Some. apply bind_Some in H1 as ([f l] & H1 & H2).
  destruct (_ && _) eqn:E; [|done]. injection H2 as -> ->.
  apply andb_true_iff in E as [E1 E2]. apply Z.leb_le in E1. apply Z.ltb_lt in E2.
  destruct (dash =? 0)%nat.
  - apply bind_Some in H1 as (n & Hn & H1). apply Hiv in Hn. destruct (n =? 0); [done|]. injection H1 as <- <-.
    destruct (total <=? n) eqn:El; lia.
  - apply bind_Some in H1 as (f & Hf & H1). apply bind_Some in H1 as (l & Hl & H1). injection H1 as -> <-.
    apply Hiv in Hf. destruct (total - 1 <? l) eqn:El; lia.
Qed.

Lemma dash_at a t : 0 ≤ a → GoText.Index (Itoa a +:+ String "-" t) "-" = Some (String.length (Itoa a)).
Proof. intros Ha. apply Index_byte_app, digits_avoid; [apply Itoa_digits|]; done. Qed.

Lemma drop_dash a t : str_drop (String.length a + 1) (a +:+ String "-" t) = t.
Proof.
  replace (String.length a + 1)%nat with (String.length (a +:+ "-")) by (rewrite str_app_length; simpl; lia).
  change (String "-" t) with ("-" +:+ t). rewrite str_app_assoc. apply str_drop_app.
Qed.

Lemma take_first a t : str_take (String.length a) (a +:+ t) = a.
Proof. rewrite <- (Nat.add_0_r (String.length a)), str_take_app. change (str_take 0 t) with "". apply str_app_nil_r. Qed.

(** The numbers the header stands for. *)
Definition range_span (g : range) (total : Z) : option (Z * Z) :=
  let '(first, last) := match g with
    | From_To a b => (a, Z.min b (total - 1))
    | From_On a => (a, total - 1)
    | Last_Bytes n => (Z.max 0 (total - n), total - 1)
    end in
  if (first <=? last) && (first <? total) then Some (first, last) else None.

Lemma Parse_Range_text g total : range_ok g → 0 < total → Parse_Range (range_text g) total = range_span g total.
Proof.
  intros Hg Ht. unfold Parse_Range, range_text. rewrite after_equals. cbn [default from_option id].
  assert (Hfirst : ∀ a t, 0 ≤ a → (String.length (Itoa a) =? 0)%nat = false ∧ Itoa a +:+ String "-" t ≠ "").
  { intros a t Ha. destruct (Itoa_digits a Ha) as [_ Hne]. by destruct (Itoa a). }
  destruct g as [a b|a|n]; cbn [range_ok] in Hg.
  - destruct Hg as [Ha Hb]. destruct (Hfirst a (Itoa b)) as [Hz Hne]; [lia|]. destruct (Itoa_digits b) as [_ Hbne]; [lia|].
    rewrite decide_False by (intros [?|?]; [done|lia]). rewrite dash_at by lia. cbn [mbind option_bind].
    rewrite Hz, take_first, drop_dash. rewrite !Int_Value_Itoa by lia. cbn [mbind option_bind].
    rewrite decide_False by done. cbn [mbind option_bind]. unfold range_span.
    replace (if total - 1 <? b then total - 1 else b) with (Z.min b (total - 1)); [done|]. destruct (total - 1 <? b) eqn:E; lia.
  - destruct (Hfirst a "") as [Hz Hne]; [lia|].
    rewrite decide_False by (intros [?|?]; [done|lia]). rewrite dash_at by lia. cbn [mbind option_bind].
    rewrite Hz, take_first, drop_dash, Int_Value_Itoa by lia. cbn [mbind option_bind].
    rewrite decide_True by done. cbn [mbind option_bind]. by rewrite Z.ltb_irrefl.
  - rewrite decide_False by (intros [?|?]; [done|lia]). rewrite (Index_byte_app "" "-" (Itoa n) eq_refl : GoText.Index (String "-" (Itoa n)) "-" = Some 0%nat).
    cbn [mbind option_bind Nat.eqb]. change (str_drop 1 (String "-" (Itoa n))) with (str_drop (String.length "-") ("-" +:+ Itoa n)).
    rewrite str_drop_app, Int_Value_Itoa by lia. cbn [mbind option_bind]. unfold range_span. destruct (n =? 0) eqn:En.
    + cbn [mbind option_bind]. rewrite (proj2 (Z.leb_gt _ _)) by lia. done.
    + cbn [mbind option_bind]. replace (if total <=? n then 0 else total - n) with (Z.max 0 (total - n)); [done|].
      destruct (total <=? n) eqn:E; lia.
Qed.

Lemma range_span_bytes g full : range_ok g → 
  match range_span g (Z.of_nat (length full)) with
  | Some (first, last) => byte_range full first last = range_bytes g full ∧ range_bytes g full ≠ [] ∧
      0 ≤ first ≤ last ∧ last < Z.of_nat (length full)
  | None => range_bytes g full = []
  end.
Proof.
  intros Hg. unfold range_span, byte_range.
  assert (Hne : ∀ l : list Byte.byte, (0 < length l)%nat → l ≠ []) by (by intros [|? ?] ?; [simpl in *; lia|]).
  destruct g as [a b|a|n]; cbn [range_ok range_bytes] in *.
  - destruct (_ && _) eqn:E.
    + assert (Hl : a ≤ Z.min b (Z.of_nat (length full) - 1) ∧ a < Z.of_nat (length full)) by lia. split_and!; try lia.
      * rewrite skipn_firstn_comm.
        destruct (Z_le_gt_dec b (Z.of_nat (length full) - 1)).
        -- rewrite Z.min_l by lia. f_equal. lia.
        -- rewrite Z.min_r by lia. rewrite !take_ge by (rewrite ?length_drop; lia). done.
      * apply Hne. rewrite length_drop, length_take. lia.
    + apply nil_length_inv. rewrite length_drop, length_take. lia.
  - destruct (_ && _) eqn:E.
    + assert (Hl : a < Z.of_nat (length full)) by lia. split_and!; try lia.
      * by rewrite take_ge by (rewrite length_drop; lia).
      * apply Hne. rewrite length_drop. lia.
    + apply nil_length_inv. rewrite length_drop. lia.
  - destruct (_ && _) eqn:E.
    + assert (Hl : Z.max 0 (Z.of_nat (length full) - n) ≤ Z.of_nat (length full) - 1) by lia. split_and!; try lia.
      * rewrite take_ge by (rewrite length_drop; lia). f_equal. lia.
      * apply Hne. rewrite length_drop. lia.
    + apply nil_length_inv. rewrite length_drop. lia.
Qed.

(** C32: A read with a byte range in any of its three forms (first and last byte,
    first byte on, last bytes), with numbers in the range of the type: the
    answer is 206 with exactly the bytes that the range stands for, and their
    position and the full length in its header, or, if the range stands for
    none, 416 without a body. *)
Theorem range_served (head ctype extra : string) (full : list Byte.byte) (g : range)
  (Hg : range_ok g) (Hh : Header head "Range" = range_text g) :
  let r := send_object head ctype extra full in
  (range_bytes g full = [] ∧ Status r = "416 Range Not Satisfiable" ∧ Payload r = []) ∨
  (range_bytes g full ≠ [] ∧ Status r = "206 Partial Content" ∧ Payload r = range_bytes g full ∧
   ∃ first last, 0 ≤ first ≤ last ∧ last < Z.of_nat (length full) ∧ byte_range full first last = range_bytes g full ∧
     Extra r = extra +:+ "Content-Range: bytes " +:+ Itoa first +:+ "-" +:+ Itoa last
                     +:+ "/" +:+ Itoa (Z.of_nat (length full)) +:+ crlf).
Proof.
  cbv zeta. unfold send_object. rewrite Hh, decide_False by (by destruct g).
  destruct (decide (Z.of_nat (length full) = 0)) as [E0|E0].
  { left. assert (full = []) as -> by (apply nil_length_inv; lia). split_and!; [by destruct g; simpl; rewrite ?take_nil, ?drop_nil|..].
    all: unfold Parse_Range; rewrite decide_True by (by right); done. }
  rewrite Parse_Range_text by (done || lia). pose proof (range_span_bytes g full Hg) as Hs.
  destruct (range_span _ _) as [[first last]|]; [|by left]. right. destruct Hs as (Hb & Hne & Hr & Hl).
  split_and!; [done..|]. eauto 10.
Qed.

(** ** Pages of a listing *)

(** The keys of a bucket, in the order in which the index gives them. *)
Definition bucket_keys (s : State) (bucket : string) : list string :=
  omap (λ nm, if (String.length (bucket +:+ "/") <? String.length nm)%nat && HasPrefix nm (bucket +:+ "/")
              then Some (str_drop (String.length (bucket +:+ "/")) nm) else None) (lines_of (Object_Names s)).

(** A key that the listing asks for. *)
Definition asked (q : list_query) (k : string) : bool :=
  bool_decide (q_Prefix q = "" ∨ HasPrefix k (q_Prefix q) = true)
  && bool_decide (q_Token q = "" ∨ str_ltb (q_Token q) k = true).

(** The page that shows the first [q_Max] of the keys [ks]. *)
Definition shows (q : list_query) (ks : list string) (p : page) : Prop :=
  Listed p = take (Z.to_nat (q_Max q)) ks ∧ Count p = Z.of_nat (length (Listed p)) ∧
  Truncated p = (q_Max q <? Z.of_nat (length ks)) ∧ Last_Key p = default "" (last (Listed p)) ∧ Commons p = "".

Lemma list_key_shows s q nm k ks p : q_Delim q = "" → 0 ≤ q_Max q → shows q ks p →
  shows q (ks ++ (if asked q k then [k] else [])) (list_key s q nm k p).
Proof.
  intros Hd H0 (HL & HC & HT & HK & HM). unfold list_key. change (_ && _) with (asked q k).
  destruct (asked q k); [|by rewrite app_nil_r]. rewrite decide_True by done.
  rewrite HL, length_take in HC. destruct (q_Max q <=? Count p) eqn:E.
  - unfold shows, set_truncated. cbn. rewrite length_app. cbn [length].
    split_and!; [|by rewrite HL, length_take| |done|done].
    + rewrite HL, take_app_le by lia. done.
    + symmetry. apply Z.ltb_lt. lia.
  - unfold shows. cbn. rewrite HL, !length_app. cbn [length].
    assert (Hl : (length ks < Z.to_nat (q_Max q))%nat) by lia.
    rewrite (take_ge ks) by lia. split_and!; [|rewrite HC; lia| |by rewrite last_snoc|done].
    + by rewrite take_ge by (rewrite length_app; simpl; lia).
    + by rewrite HT, !(proj2 (Z.ltb_ge _ _)) by lia.
Qed.

Lemma list_names_shows s bucket q names : q_Delim q = "" → 0 ≤ q_Max q → ∀ ks p, shows q ks p →
  shows q (ks ++ filter (λ k, asked q k = true)
            (omap (λ nm, if (String.length (bucket +:+ "/") <? String.length nm)%nat && HasPrefix nm (bucket +:+ "/")
                         then Some (str_drop (String.length (bucket +:+ "/")) nm) else None) names))
    (list_names s bucket q names p).
Proof.
  intros Hd H0. unfold list_names. induction names as [|nm names IH]; intros ks p Hp; cbn [foldl omap list_omap].
  { by rewrite filter_nil, app_nil_r. }
  destruct (_ && _) eqn:E; cbn [omap]; [|by apply IH].
  specialize (IH _ _ (list_key_shows s q nm (str_drop (String.length (bucket +:+ "/")) nm) ks p Hd H0 Hp)).
  rewrite filter_cons. rewrite <- app_assoc in IH.
  destruct (asked q _) eqn:Ea; [rewrite decide_True by done|rewrite decide_False by done]; exact IH.
Qed.

Lemma list_page_spec s bucket q : q_Delim q = "" → 0 ≤ q_Max q →
  shows q (filter (λ k, asked q k = true) (bucket_keys s bucket)) (list_page s bucket q).
Proof.
  intros Hd Hmax. apply (list_names_shows s bucket q (lines_of (Object_Names s)) Hd Hmax [] empty_page).
  unfold shows. cbn. rewrite take_nil. split_and!; try done. symmetry. apply Z.ltb_ge. lia.
Qed.

(** A page of a listing without a delimiter shows, of the keys of the bucket
    that have the prefix and are greater than the continuation token, the
    first in the order of the index, at most as many as asked for; its count
    is their number, it says that it is truncated exactly if there are more,
    and its token is the last key it shows. *)
Theorem list_page_shows (s : State) (bucket : string) (q : list_query) (Hd : q_Delim q = "") (Hmax : 0 ≤ q_Max q) :
  shows q (filter (λ k, asked q k = true) (bucket_keys s bucket)) (list_page s bucket q).
Proof. by apply list_page_spec. Qed.

Definition next_query (q : list_query) (p : page) : list_query :=
  {| q_Prefix := q_Prefix q; q_Delim := q_Delim q; q_Token := Last_Key p; q_Max := q_Max q; q_Url := q_Url q |}.

Lemma elem_of_first {A} (x : A) n l : x ∈ take n l → x ∈ l.
Proof. intros Hx. rewrite <- (take_drop n l). apply elem_of_app. by left. Qed.

(** The queries a client sends for the pages that follow. *)
Inductive follows (s : State) (bucket : string) (q : list_query) : list_query → Prop :=
  | follows_one : Truncated (list_page s bucket q) = true → follows s bucket q (next_query q (list_page s bucket q))
  | follows_more q' : follows s bucket q q' → Truncated (list_page s bucket q') = true →
      follows s bucket q (next_query q' (list_page s bucket q')).

Lemma bucket_keys_nonempty s bucket k : k ∈ bucket_keys s bucket → k ≠ "".
Proof.
  unfold bucket_keys. intros (nm & _ & Hk)%list_elem_of_omap. destruct (_ && _) eqn:E; [|done]. injection Hk as <-.
  apply andb_true_iff in E as [E _]. apply Nat.ltb_lt in E. intros E'. apply (f_equal String.length) in E'.
  rewrite str_drop_length in E'. cbn [String.length] in E'. lia.
Qed.

(** The last key of a truncated page is one that was asked for. *)
Lemma last_key_asked s bucket q : q_Delim q = "" → 0 < q_Max q → Truncated (list_page s bucket q) = true →
  Last_Key (list_page s bucket q) ≠ "" ∧ asked q (Last_Key (list_page s bucket q)) = true.
Proof.
  intros Hd Hmax HT. destruct (list_page_spec s bucket q Hd (Z.lt_le_incl _ _ Hmax)) as (HL & _ & HT' & HK & _).
  set (ks := filter _ (bucket_keys s bucket)) in *. rewrite HT in HT'. symmetry in HT'. apply Z.ltb_lt in HT'.
  destruct (last (Listed (list_page s bucket q))) as [k|] eqn:El.
  2:{ apply last_None in El. rewrite HL in El. apply (f_equal length) in El. rewrite length_take in El. simpl in El. lia. }
  rewrite HK. simpl. apply last_Some in El as (l & El). rewrite HL in El.
  assert (Hin : k ∈ ks). { apply (elem_of_first k (Z.to_nat (q_Max q))). rewrite El. set_solver. }
  apply list_elem_of_filter in Hin as [Ha Hin]. split; [|done]. by eapply bucket_keys_nonempty.
Qed.

Lemma str_ltb_false x y : str_ltb y x = false ↔ String.le x y.
Proof.
  split; [apply str_ltb_le|]. unfold str_ltb, String.le. intros H. apply Is_true_true in H. by rewrite H.
Qed.

Lemma follows_token s bucket q q' k : q_Delim q = "" → 0 < q_Max q → follows s bucket q q' →
  str_ltb (Last_Key (list_page s bucket q)) k = false →
  q_Delim q' = "" ∧ 0 < q_Max q' ∧ q_Token q' ≠ "" ∧ str_ltb (q_Token q') k = false.
Proof.
  intros Hd Hmax Hf Hk. induction Hf as [HT|q' Hf (Hd' & Hm' & Ht & Hk') HT].
  - destruct (last_key_asked s bucket q Hd Hmax HT) as [Hne _]. done.
  - destruct (last_key_asked s bucket q' Hd' Hm' HT) as [Hne Ha]. split_and!; [done..|].
    unfold asked in Ha. apply andb_true_iff in Ha as [_ Ha]. apply bool_decide_eq_true_1 in Ha as [Ha|Ha]; [done|].
    apply str_ltb_false. etrans; [by apply str_ltb_false|by apply str_ltb_lt].
Qed.

(** C40: The index is in the order of a hash table, but the token is compared in
    the order of the names.  A key that is not greater than the last key of a
    truncated page is on no later page, so one that the page itself does not
    show is never listed at all. *)
Theorem listing_loses_keys (s : State) (bucket : string) (q q' : list_query) (k : string)
  (Hd : q_Delim q = "") (Hmax : 0 < q_Max q) (Hf : follows s bucket q q')
  (Hbefore : str_ltb (Last_Key (list_page s bucket q)) k = false) :
  k ∉ Listed (list_page s bucket q').
Proof.
  destruct (follows_token s bucket q q' k Hd Hmax Hf Hbefore) as (Hd' & Hm' & Ht & Hk).
  destruct (list_page_spec s bucket q' Hd' (Z.lt_le_incl _ _ Hm')) as (HL & _). rewrite HL.
  intros Hin%elem_of_first. apply list_elem_of_filter in Hin as [Ha _]. unfold asked in Ha.
  apply andb_true_iff in Ha as [_ Ha]. apply bool_decide_eq_true_1 in Ha as [?|?]; congruence.
Qed.
