(* ===== verification/ServerQuorum.v ===== *)
(** The co-signing quorum for deletions: what counts as an approval; and two ways
    around it. *)
From Stdlib Require Import Strings.Byte NArith.
From S2P Require Import Prelude AdaMonad GoStrings GoText GoFloat ServerText Sha256 TrustedCore AdaText Cas Keys Sigv4 ServerAuth.
Open Scope Z_scope.

(** ** Trimming *)

Notation avoids c := (string_forallb (λ a, bool_decide (a ≠ c%char))).

Lemma trim_left_avoids d c s : avoids d s = true → avoids d (trim_left_byte c s) = true.
Proof.
  induction s as [|a s IH]; [done|]. cbn [trim_left_byte string_forallb]. intros Hs. destruct (decide (a = c)); [|done]. apply andb_true_iff in Hs as [_ Hs]. auto.
Qed.

Lemma trim_right_avoids d c s : avoids d s = true → avoids d (trim_right_byte c s) = true.
Proof.
  induction s as [|a s IH]; [done|]. cbn [trim_right_byte string_forallb]. intros [Ha Hs]%andb_true_iff.
  destruct (decide (_ ∧ _)); [done|]. cbn [string_forallb]. by rewrite Ha, IH.
Qed.

Lemma Trim_avoids d s : avoids d s = true → avoids d (Trim s) = true.
Proof. intros Hs. by apply trim_right_avoids, trim_left_avoids. Qed.

(** No byte [c] at the start. *)
Definition starts_clean (c : ascii) (s : string) : Prop := ∀ t, s ≠ String c t.

Lemma trim_left_clean c s : starts_clean c (trim_left_byte c s).
Proof. induction s as [|a s IH]; [done|]. cbn. case_decide as Ha; [done|]. intros t [= -> _]. done. Qed.

Lemma trim_right_clean c s : starts_clean c s → starts_clean c (trim_right_byte c s).
Proof. destruct s as [|a s]; [done|]. cbn. intros Hs t. case_decide; [done|]. intros [= -> _]. by apply (Hs s). Qed.

Lemma trim_left_id c s : starts_clean c s → trim_left_byte c s = s.
Proof. destruct s as [|a s]; [done|]. cbn. intros Hs. rewrite decide_False; [done|]. intros ->. by apply (Hs s). Qed.

Lemma trim_right_idemp c s : trim_right_byte c (trim_right_byte c s) = trim_right_byte c s.
Proof.
  induction s as [|a s IH]; [done|]. cbn. case_decide as Hd; [done|]. cbn. rewrite IH. by rewrite decide_False.
Qed.

Lemma Trim_idemp s : Trim (Trim s) = Trim s.
Proof.
  unfold Trim, trim_byte. rewrite (trim_left_id _ (trim_right_byte _ _)) by (apply trim_right_clean, trim_left_clean).
  apply trim_right_idemp.
Qed.

(** ** The list of those counted *)

Lemma split_byte_snoc c x e : avoids c e = true → split_byte c (x +:+ String c e) = split_byte c x ++ [e].
Proof.
  intros He. induction x as [|a x IH].
  - rewrite str_app_nil_l. cbn. rewrite decide_True by done. by rewrite split_byte_plain.
  - rewrite str_app_cons. cbn [split_byte]. rewrite IH. case_decide; [done|].
    pose proof (split_byte_nonempty c x). by destruct (split_byte c x).
Qed.

(** [seen] is the text of [l]. *)
Definition seen_text (seen : string) (l : list string) : Prop :=
  match l with [] => seen = "" | _ => split_byte "," seen = l end.

Lemma seen_text_In seen l e : seen_text seen l → Forall (λ x, Trim x = x) l → e ≠ "" → In_List e seen = true ↔ e ∈ l.
Proof.
  intros Hs Hl He. unfold In_List. rewrite bool_decide_true by done. cbn [andb]. destruct l as [|x l].
  - cbn in Hs. subst. cbn. split; [|by intros ?%elem_of_nil]. rewrite bool_decide_false; [done|].
    intros E. by rewrite <- E in He.
  - cbn [seen_text] in Hs. rewrite Hs, existsb_exists. setoid_rewrite <- list_elem_of_In. setoid_rewrite bool_decide_eq_true.
    rewrite Forall_forall in Hl. split; [intros (y & Hy & E); by rewrite (Hl y Hy) in E; subst|]. eauto.
Qed.

Lemma seen_text_snoc seen l e : seen_text seen l → avoids "," e = true → Forall (λ x, x ≠ "") l → e ≠ "" →
  seen_text (if decide (seen = "") then e else seen +:+ "," +:+ e) (l ++ [e]).
Proof.
  intros Hs Hc Hl He. destruct l as [|x l]; cbn [seen_text] in Hs.
  - rewrite decide_True by done. cbn. by apply split_byte_plain.
  - rewrite decide_False. 2:{ intros ->. cbn in Hs. injection Hs as <- <-. by inversion Hl. }
    cbn [app seen_text]. change ("," +:+ e) with (String "," e). by rewrite split_byte_snoc, Hs.
Qed.

Section quorum.
Context (cfg : config).

(** The approvers that the elements name. *)
Definition recognized (elems : list string) : gset string :=
  list_to_set (filter (λ e, In_List e (Approvers_Raw cfg) = true) (map Trim elems)).

Lemma In_List_nonempty e l : In_List e l = true → e ≠ "".
Proof. unfold In_List. intros [H _]%andb_true_iff. by apply bool_decide_eq_true_1 in H. Qed.

Lemma count_approvals_spec elems : Forall (λ e, avoids "," e = true) elems → ∀ seen l count, seen_text seen l →
  NoDup l → Forall (λ x, Trim x = x) l → Forall (λ x, x ≠ "") l → count = Z.of_nat (length l) →
  count_approvals cfg elems seen count = Z.of_nat (size (list_to_set l ∪ recognized elems)).
Proof.
  induction 1 as [|e elems He _ IH]; intros seen l count Hs Hnd Ht Hne ->; cbn [count_approvals].
  { unfold recognized. cbn. rewrite (right_id_L ∅ (∪)). by rewrite size_list_to_set. }
  assert (Hrec : recognized (e :: elems) =
    (if In_List (Trim e) (Approvers_Raw cfg) then {[Trim e]} else ∅) ∪ recognized elems).
  { unfold recognized. cbn [map]. rewrite filter_cons. destruct (In_List _ _).
    - rewrite decide_True by done. apply list_to_set_cons.
    - rewrite decide_False by done. by rewrite (left_id_L ∅ (∪)). }
  rewrite Hrec. destruct (In_List (Trim e) (Approvers_Raw cfg)) eqn:Ea.
  - pose proof (In_List_nonempty _ _ Ea) as Hn. rewrite bool_decide_true by done.
    pose proof (seen_text_In seen l (Trim e) Hs Ht Hn) as Hin. destruct (In_List (Trim e) seen); cbn [andb negb].
    + rewrite (IH seen l) by done. assert (Hl : Trim e ∈ l) by (by apply Hin).
      assert (list_to_set l ∪ ({[Trim e]} ∪ recognized elems) =@{gset string} list_to_set l ∪ recognized elems) as ->;
        [set_solver|done].
    + rewrite (IH _ (l ++ [Trim e])); [rewrite list_to_set_app_L; cbn; do 2 f_equal; set_solver|..].
      * apply seen_text_snoc; try done. by apply Trim_avoids.
      * apply NoDup_app. split_and!; [done| |apply NoDup_singleton].
        intros x Hx ->%list_elem_of_singleton. by apply Hin in Hx.
      * apply Forall_app. split; [done|]. apply Forall_singleton, Trim_idemp.
      * apply Forall_app. split; [done|]. by apply Forall_singleton.
      * rewrite length_app. simpl. lia.
  - rewrite andb_false_r. cbn. rewrite (IH seen l) by done. by rewrite (left_id_L ∅ (∪)).
Qed.

(** C33: The approvals in the header of a deletion are counted as the number of
    different approvers that it names, of those the configuration lists:
    however often one is repeated, with spaces or without, it counts once, and
    unknown and empty names count nothing. *)
Theorem approvals_counted_once (hdr : string) :
  Approval_Count cfg hdr = Z.of_nat (size (recognized (split_byte "," hdr))).
Proof.
  unfold Approval_Count. rewrite (count_approvals_spec _) with (l := []); try done.
  - rewrite list_to_set_nil. by rewrite (left_id_L ∅ (∪)).
  - apply Forall_forall. intros e. apply split_byte_forallb.
  - constructor.
Qed.

(** One approver reaches a quorum of two: an approval that is staged in
    advance and the same approval in the header are both counted. *)
Theorem one_approver_twice (head path approver : string) (t now : Trusted_Time)
  (Hknown : In_List approver (Approvers_Raw cfg) = true) (Hname : avoids "," approver = true) (Htrim : Trim approver = approver)
  (Hhead : Header head "X-Dezhan-Approvals" = approver) (Httl : now - t ≤ Approval_TTL cfg) :
  approvals_for cfg head "DELETE" path now (approvals_Add path approver t ∅) = 2.
Proof.
  pose proof (In_List_nonempty _ _ Hknown) as Hne. unfold approvals_for. rewrite decide_True, Hhead by done.
  assert (Approval_Count cfg approver = 1) as ->.
  { unfold Approval_Count. rewrite split_byte_plain by done. cbn [count_approvals]. rewrite Htrim, Hknown, bool_decide_true by done.
    assert (In_List approver "" = false) as ->; [|done]. unfold In_List. rewrite bool_decide_true by done. cbn.
    rewrite bool_decide_false; [done|]. intros E. by rewrite <- E in Hne. }
  unfold approvals_Count, approvals_Add. rewrite insert_empty, map_filter_singleton_True; [by rewrite map_size_singleton|].
  split; [|done]. cbn. apply HasPrefix_spec. exists approver. by rewrite str_app_assoc.
Qed.

(** Every path that starts with /admin counts as a control route: without an
    admin token, requests for the objects of a bucket whose name starts so need
    neither credentials nor approvals. *)
Theorem admin_prefix_ungated (head method path : string) (now : Trusted_Time) (a : gmap string Z)
  (Hmethod : method ≠ "OPTIONS") (Hpath : admin_path (Path_Part path) = true) (Htoken : Admin_Token cfg = "") :
  gate cfg head method path now a = inr (None, a).
Proof.
  unfold gate. rewrite decide_False by done. rewrite Hpath, Htoken, bool_decide_false by (by intros ?). cbn [andb].
  unfold Is_Control. by rewrite Hpath, orb_true_r.
Qed.
End quorum.

Example admin_bucket_ungated : admin_path (Path_Part "/admin-backups/ledger") = true.
Proof. reflexivity. Qed.
