(* ===== verification/ServerDemo.v ===== *)
(** The theorems about the server applied to a server over the vault of
    [VaultDemo], to requests as bytes; and those about DEFLATE, the key
    derivation and the signatures applied to small inputs. *)
From Stdlib Require Import Strings.Byte NArith.
From S2P Require Import Prelude AdaMonad GoStrings GoText ServerText Sha256 TrustedCore AuditChain AdaText Deflate DeflateSpec DeflateHuffman Cas CasSpec.
From S2P Require Import VaultState Vault VaultLines VaultSteps VaultDurable VaultOps VaultExec VaultWorm VaultTheorems VaultDemo.
From S2P Require Import Keys Sigv4 ServerAuth Server ServerOps ServerSpec ServerLocks ServerViews ServerQuorum.
Open Scope Z_scope.

(** ** A server *)

#[export] Instance demo_outside : Outside mem_cas := {|
  Export _ _ := inr (); Make_Checkpoint _ := inr (); Checkpoint_Public_Key _ := "00"; Root_Bytes _ := 0;
|}.

Definition demo_cfg : config := {|
  Admin_Token := "root"; Require_Auth := true; Credentials := {["backup" := "secret"]}; Roles := ∅; Bucket_Roles := ∅;
  Tokens := {["t0k" := "backup"]}; Delete_Quorum := 0; Approvers_Raw := "alice, bob"; Approval_TTL := 3600;
|}.

Definition demo_server : server mem_cas := MkServer w_put ∅ empty_report 0 0.
Definition demo_reading : reading := {| r_Mono := 1050; r_Realtime := 5050; r_Boot := "boot-1" |}.

Definition http (l : list string) : list Byte.byte := to_bytes (String.concat crlf l +:+ crlf +:+ crlf).
Definition get_bytes : list Byte.byte := http ["GET /v/records/ledger HTTP/1.1"; "Authorization: Bearer t0k"].
Definition anon_bytes : list Byte.byte := http ["DELETE /v/records/ledger HTTP/1.1"; "Host: vault"].
Definition del_bytes : list Byte.byte :=
  http ["DELETE /v/records/ledger HTTP/1.1"; "Authorization: Bearer t0k"; "X-Dezhan-Bypass: true"].

Definition request_in (l : list Byte.byte) : request :=
  default {| rq_Method := ""; rq_Path := ""; rq_Head := ""; rq_Data := [] |} (received l).

(** The first words of the answer. *)
Definition answer (o : option (list Byte.byte)) : option string := (λ l, bytes_string (take 12 l)) <$> o.

Example demo_answers :
  answer (Serve demo_cfg demo_reading get_bytes demo_server).1 = Some "HTTP/1.1 200" ∧
  answer (Serve demo_cfg demo_reading anon_bytes demo_server).1 = Some "HTTP/1.1 401" ∧
  answer (Serve demo_cfg demo_reading del_bytes demo_server).1 = Some "HTTP/1.1 403" ∧
  answer (Serve demo_cfg demo_reading (http ["GET /healthz HTTP/1.1"]) demo_server).1 = Some "HTTP/1.1 200" ∧
  answer (Serve demo_cfg demo_reading (http ["POST /admin/seal HTTP/1.1"]) demo_server).1 = Some "HTTP/1.1 403" ∧
  answer (Serve demo_cfg demo_reading (http ["GET /v/x HTTP/1.1"; "Content-Length: ten"]) demo_server).1 = None.
Proof. vm_compute. split_and!; reflexivity. Qed.

(** ** Access *)

Definition ticked : server mem_cas := (tick demo_reading demo_server).2.

Lemma returns {W A} (m : Ada W A) w a : (m w).1 = inr a → m w = (inr a, (m w).2).
Proof. destruct (m w) as [r w']. simpl. by intros ->. Qed.

Lemma ticked_eq : tick demo_reading demo_server = (inr (), ticked).
Proof. unfold ticked. exact (returns (tick demo_reading) demo_server () ltac:(vm_compute; reflexivity)). Qed.

Lemma unsigned_not (r : request) akid cred sh sig q p d : Part cred "/" 1 = "" → ¬ signed_by demo_cfg akid r cred sh sig q p d.
Proof. intros E (-> & secret & Hs & _). rewrite E in Hs. vm_compute in Hs. done. Qed.

Lemma unpermitted_changes_nothing_witness : (Serve demo_cfg demo_reading anon_bytes demo_server).2 = ticked.
Proof.
  apply (unpermitted_changes_nothing demo_cfg demo_reading anon_bytes (request_in anon_bytes) demo_server ticked).
  - vm_compute. reflexivity.
  - exact ticked_eq.
  - intros (_ & _ & Hd). destruct (Hd eq_refl) as [[[H _]|(akid & Ha & _)] _].
    + discriminate H.
    + destruct Ha as [H _ _|p a _ H|q _ H].
      * vm_compute in H. discriminate H.
      * apply unsigned_not in H; [done|]. vm_compute. reflexivity.
      * apply unsigned_not in H; [done|]. vm_compute. reflexivity.
Defined.

(** ** The locked object: a deletion over HTTP with a bypass, then a read *)

Definition after_delete : server mem_cas := (Serve demo_cfg demo_reading del_bytes demo_server).2.

Lemma del_harmless r : received del_bytes = Some r →
  harmless demo_name false true r (st (after_tick demo_reading (V demo_server))).
Proof.
  assert (E : received del_bytes = Some (request_in del_bytes)) by (vm_compute; reflexivity).
  rewrite E. intros [= <-]. split; [|discriminate]. split_and!; [discriminate|discriminate|]. done.
Qed.

Lemma demo_run : run demo_cfg demo_name false true demo_meta demo_server after_delete.
Proof.
  unfold after_delete. apply (run_connection demo_cfg demo_name false true demo_meta demo_server demo_reading del_bytes).
  { exact del_harmless. }
  2:{ apply run_nil. }
  right. split; [vm_compute; reflexivity|left; reflexivity].
Qed.


(** ** Ranges *)

Definition range_head : string := "GET /v/x HTTP/1.1" +:+ crlf +:+ "Range: bytes=2-4" +:+ crlf +:+ crlf.

Lemma range_served_witness : Payload (send_object range_head "text/plain" "" (to_bytes "0123456789")) = to_bytes "234".
Proof.
  destruct (range_served range_head "text/plain" "" (to_bytes "0123456789") (From_To 2 4)) as [(H & _)|(_ & _ & -> & _)].
  - split; split; vm_compute; discriminate.
  - vm_compute. reflexivity.
  - vm_compute in H. discriminate H.
  - vm_compute. reflexivity.
Defined.

(** ** A bucket whose index is not in the order of the names *)

Definition listed_state : State :=
  with_Index (list_to_map (map (λ n, (n, demo_meta)) ["b/1"; "b/2"; "b/3"; "b/4"])) (new_state []).
Definition first_query : list_query := {| q_Prefix := ""; q_Delim := ""; q_Token := ""; q_Max := 1; q_Url := false |}.

Lemma list_page_shows_witness : shows first_query (filter (λ k, asked first_query k = true) (bucket_keys listed_state "b"))
    (list_page listed_state "b" first_query) ∧ Listed (list_page listed_state "b" first_query) = ["3"].
Proof.
  split; [|vm_compute; reflexivity]. apply (list_page_shows listed_state "b" first_query); [reflexivity|vm_compute; discriminate].
Defined.

(** The keys "1" and "2" are on the first page of one key no more than on the
    second, which is the last. *)
Lemma listing_loses_keys_witness :
  Listed (list_page listed_state "b" first_query) = ["3"] ∧
  ("1" ∉ Listed (list_page listed_state "b" (next_query first_query (list_page listed_state "b" first_query)))) ∧
  Truncated (list_page listed_state "b" (next_query first_query (list_page listed_state "b" first_query))) = false.
Proof.
  split_and!; [vm_compute; reflexivity| |vm_compute; reflexivity].
  apply (listing_loses_keys listed_state "b" first_query).
  - reflexivity.
  - reflexivity.
  - apply follows_one. vm_compute. reflexivity.
  - vm_compute. reflexivity.
Defined.

(** ** Approvals *)

Definition approval_head : string :=
  "DELETE /v/x HTTP/1.1" +:+ crlf +:+ "X-Dezhan-Approvals: alice" +:+ crlf +:+ crlf.

Lemma one_approver_twice_witness :
  approvals_for demo_cfg approval_head "DELETE" "/v/x" 10 (approvals_Add "/v/x" "alice" 5 ∅) = 2.
Proof.
  apply (one_approver_twice demo_cfg approval_head "/v/x" "alice" 5 10).
  - vm_compute. reflexivity.
  - vm_compute. reflexivity.
  - vm_compute. reflexivity.
  - vm_compute. reflexivity.
  - vm_compute. discriminate.
Defined.

(** ** DEFLATE, keys, signatures *)

Lemma inflate_total_witness : inflate_run 1000 (to_bytes "hello") = Some (Deflate.Inflate (to_bytes "hello")).
Proof. apply (inflate_total (to_bytes "hello") 1000). vm_compute. lia. Defined.

Lemma stored_block_read_witness : Deflate.Inflate (to_bytes (bytes_string ["001"; "002"; "000"; "255"; "255"]%byte) ++ to_bytes "hi") = inr (to_bytes "hi").
Proof. exact (stored_block_read (to_bytes "hi") "255"%byte "255"%byte [] (proj1 (Nat.ltb_lt 2 (256 * 256)) eq_refl)). Defined.

Lemma pbkdf2_is_rfc8018_witness :
  PBKDF2_HMAC_SHA256 (to_bytes "password") (to_bytes "salt") 2
  = foldl xor_bytes (pbkdf2_U (to_bytes "password") (to_bytes "salt") 0) (map (pbkdf2_U (to_bytes "password") (to_bytes "salt")) [1%nat]).
Proof. exact (pbkdf2_is_rfc8018 (to_bytes "password") (to_bytes "salt") 2 (le_S 1 1 (le_n 1))). Defined.

(** The example of RFC 1951 (3.2.2): lengths 2, 1, 3 and 3; the first symbol has the
    code 10. *)
Lemma huffman_decodes_witness :
  ∃ s', Decode (Construct [2; 1; 3; 3]%nat) (inflate_start ["001"%byte]) = Some (inr 0%nat, s') ∧
    DeflateSpec.reads s' (replicate 6 false) [].
Proof.
  apply (huffman_decodes [2; 1; 3; 3]%nat 0 2 (inflate_start ["001"%byte]) (replicate 6 false) []).
  - apply Nat.leb_le. reflexivity.
  - repeat (constructor; [apply Nat.ltb_lt; reflexivity|]). constructor.
  - reflexivity.
  - discriminate.
  - apply Nat.ltb_lt. vm_compute. reflexivity.
  - split_and!; [apply Nat.ltb_lt; reflexivity|vm_compute; reflexivity|vm_compute; reflexivity|reflexivity].
Defined.

Definition signed_demo : signed_request := {|
  sr_Method := "GET"; sr_URI := "/records/ledger"; sr_Query := ""; sr_Headers := "host:vault" +:+ Sigv4.LF;
  sr_Signed_Headers := "host"; sr_Payload_Hash := "UNSIGNED-PAYLOAD"; sr_Amz_Date := "20240101T000000Z" |}.

Lemma signature_binds_witness : let sig := Signature_For "secret" signed_demo "20240101" "us-east-1" "s3" in
  match sig with
  | inl _ => False
  | inr sig => signed_demo = signed_demo ∨
      (Canonical_Request signed_demo ≠ Canonical_Request signed_demo ∧
       SHA256 (to_bytes (Canonical_Request signed_demo)) = SHA256 (to_bytes (Canonical_Request signed_demo))) ∨
      (∃ key sts sts', Signing_Key "secret" "20240101" "us-east-1" "s3" = inr key ∧
         String_To_Sign signed_demo (Scope "20240101" "us-east-1" "s3") = inr sts ∧
         String_To_Sign signed_demo (Scope "20240101" "us-east-1" "s3") = inr sts' ∧
         sts ≠ sts' ∧ HMAC_SHA256 key (to_bytes sts) = HMAC_SHA256 key (to_bytes sts'))
  end.
Proof.
  assert (Hok : signed_ok signed_demo) by (split_and!; vm_compute; reflexivity).
  cbv zeta. destruct (Signature_For _ _ _ _ _) as [e|sig] eqn:E.
  - vm_compute in E. discriminate E.
  - exact (signature_binds "secret" "20240101" "us-east-1" "s3" sig signed_demo signed_demo Hok Hok E E).
Defined.
